(* ===== verification/_CoqProject ===== *)
-Q . S2P
Prelude.v
Js.v
Utils.v
Frame.v
Transition.v
Fade.v
Schedule.v
Presentation.v
Container.v
Config.v
Layer.v
Legend.v
Release.v
