(* ===== verification/Prelude.v ===== *)
(** * A verification library for openlayers-animation

    The program (src/src/addins/lib/OpenLayers/Layer/Animation/) shows a
    time ordered sequence of WMS/WMTS map layers ("frames") as an
    animation.  [Animation.js] is an OpenLayers layer that owns one
    [internal/LayerContainer.js]; the container owns the frames
    ([internal/LayerObject.js]), loads them through a scheduler, shows them
    by fading with [internal/TransitionUtils.js], and builds each frame's
    configuration with [internal/ConfigUtils.js]; [Wms.js] and [Wmts.js]
    are thin wrappers.  The files of this library, in dependency order:

    - [Prelude.v] (this file): the scope [anim_scope], the hint database
      [anim], the shared tactics, the interface [FrameView] (what the
      scheduler asks of a frame: [isDefaultState], [isLoading],
      [isLoaded], [loadLayer]) and the list and arithmetic lemmas.
    - [Js.v]: JavaScript numbers ([Fin] of a rational, the infinities,
      [NaN]), values, truthiness, [isNaN], string to number, [new Date],
      [toISOString] and [Date.parse], from the ECMAScript 5.1 text.
    - [Utils.v], Module [Utils]: [Utils.js]: the [toISOString] polyfill
      (its [toJSON]) against [Js.toISOString] and [Date.parse], and
      [floorDateToHour] with the ES5.1 Date setters in local time.
    - [Frame.v], Module [Frame]: a [LayerObject] as its load state
      machine: the record [frame], one Definition per method and layer
      event, the step relation [frame_step], the [FrameView] instance.
    - [Transition.v], Module [Transition]: [TransitionUtils]: the easing
      formulas over [R], the store of transition objects shared by the
      array and the pending [requestAnimationFrame] closures,
      [opacityTransition], [checkRestart] and the per-frame [transition].
    - [Fade.v], Module [Fade]: the fade-time guard of
      [startTransitionFadeIn]/[startTransitionFadeOut] and the end time and
      end test of [transition] on any value, with the ES5.1 [+] and
      comparisons, against the number models of [Container] and
      [Transition].
    - [Schedule.v], Section [Scheduler]: [resetLoadStep], [nextLayerLoad]
      (coarse to fine binary subdivision under [_maxAsyncLoadCount]),
      [groupLoadStepCheck] and the group loop of [layerLoadEndCallback].
    - [Presentation.v]: the fade stack [_fadeOutLayers], [showLayer],
      [showNextFrame], [showPreviousFrame], [showFrame], [fadeOutAll], as
      functions returning the new stack and the effects performed.
    - [Container.v], Module [Container]: the container's private variables
      as the record [state] and every function as an operation of a state
      monad [M] collecting the observer notifications; the system step
      relation [step] over API calls, layer events and animation frames.
    - [Config.v], Module [Config]: [ConfigUtils], [Wms.setConfig],
      [Wmts.setConfig] and the per-frame configuration of [loadAnimation]
      over a heap of JavaScript objects in a state and exception monad.
    - [Layer.v], Module [Layer]: [Animation.js], written against the class
      [ContainerIface] that [Container] instantiates: controller and map
      events go through a FIFO queue of [setTimeout] callbacks, observer
      callbacks become layer events.
    - [Legend.v], Module [Legend]: [getLegendInfo] of a frame (legend URLs
      with [encodeURIComponent]) and of the container (duplicates removed).
    - [Release.v]: Module [Dom], the [LayerObject] against the OpenLayers
      layer object itself (map, div, z-index, tile styles; the map can be
      destroyed); Modules [Release] and [RelLayer], the [LayerObject] and
      the animation layer of the built release
      [lib/openlayers-animation-1.0.4.js].

    What is proved, by group (PROJECT.json lists the claims):
    - scheduler: the closed form of the load step, the load order, the
      concurrency budget, group completion and its monotonicity;
    - transitions: the engine invariant, cancellation on restart,
      termination of the frame loop with the exact target, dropped invalid
      calls, easing values outside [0,1]; on number-valued times the
      number models are the code's own tests, while a numeric string time
      passes the guard and is concatenated, so its transition never ends;
    - presentation: the fade stack bound and duplicate freedom, the
      navigation cycle, fade targets, and the backward wrap that gets stuck;
    - container: its invariant and the types of its numeric settings in
      every reachable state, [loadAnimation]'s frames, [reset], the
      refinement of the presentation model, the frame-time round trip;
    - configuration: the clone round trip, the WMS wrapper's aliasing, the
      TypeError of a WMS configuration without animation options;
    - layer: container calls in order, notifications delivered in order,
      the TypeError of the missing [setZIndex], the container invariant;
    - legends: URLs decode back to the layer IDs, non-string IDs throw, the
      container's loop equals first occurrences of the concatenation;
    - utilities: the polyfill is [toISOString] without milliseconds on
      four-digit years, so [Date.parse] reads back the time floored to the
      second; [floorDateToHour] floors to the local hour, idempotently;
    - frames and the release: the source frame refines [Frame] on a live
      map; after [map.destroy()] the source throws where the release's
      guards make every call safe; on a live map the two agree; the
      release's animation layer lets no exception escape a callback.

    Bounds and fuel: loops are Fixpoints on fuel equal to their variant
    (the frame count for the doubling of [resetLoadStep], [loadStep + 1]
    for the halving loops, [end - begin + 1] for the frame times at a
    resolution [>= 1], [length] for scans), and the theorems show the fuel
    never runs out.  Frame times are integers of milliseconds ([Z]),
    opacities in the container rationals ([Q]) and in the engine reals;
    configured fade times are numbers there, and [Fade] shows how the code
    treats the other values.

    Not modelled: [Utils.js]'s [requestAnimationFrame] polyfill (it only
    picks a vendor function or [setTimeout(callback, 1000 / 60)]; the
    engine takes the animation frames as inputs), daylight saving time in
    the local time of [floorDateToHour],
    DOM rendering and tile fetching (OpenLayers), the plain getters of the
    container and the layer, [Gruntfile.js] (build tooling).  The release
    bundle's [Utils], [Wms], [Wmts], [ConfigUtils], [LayerContainer] and
    [TransitionUtils] are the source tree's code apart from comments and
    the default fade times (0 ms in the release, 200 and 50 ms in the
    source), so the source model covers them and they are not mapped a
    second time. *)

From stdpp Require Export base list decidable sets relations.
From Stdlib Require Export ZArith Lia.

Declare Scope anim_scope.
Delimit Scope anim_scope with anim.
Create HintDb anim discriminated.
Create Rewrite HintDb anim_rw.

(** ** The frame interface used by the scheduler and the presentation *)

(** What [LayerContainer.js] calls on a [LayerObject]: the three state
    queries and [loadLayer]. *)
Class FrameView (F : Type) := {
  fv_default : F -> bool;   (* isDefaultState *)
  fv_loading : F -> bool;   (* isLoading *)
  fv_loaded : F -> bool;    (* isLoaded *)
  fv_load : F -> F          (* loadLayer *)
}.

(** The laws a frame implementation gives the scheduler: the three queries
    are exclusive, and loading a frame in its default state leaves it either
    loading or (when no layer can be built from its configuration)
    untouched. *)
Class FrameViewLaws (F : Type) `{FrameView F} := {
  fv_loading_not_default f : fv_loading f = true -> fv_default f = false;
  fv_loaded_not_default f : fv_loaded f = true -> fv_default f = false;
  fv_loaded_not_loading f : fv_loaded f = true -> fv_loading f = false;
  fv_load_default f : fv_default f = true ->
    fv_load f = f \/ (fv_loading (fv_load f) = true)
}.

(** ** JavaScript [for (i = start; i < n; i += s)] index sequences *)

Fixpoint stride_go (fuel i s n : nat) : list nat :=
  match fuel with
  | O => []
  | S fuel' => if i <? n then i :: stride_go fuel' (i + s) s n else []
  end.

(** [for (var i = 0; i < n; i += s)]; the fuel [n] is enough for [s >= 1]. *)
Definition stride_indices (n s : nat) : list nat := stride_go n 0 s n.

Notation "'for_step' n 'by' s" := (stride_indices n s)
  (at level 10, n at level 9, s at level 9) : anim_scope.

(** ** Powers of two: the load steps *)

Definition pow2_or_0 (n : nat) : Prop := n = 0 \/ exists k, n = 2 ^ k.

(** [Array.prototype.indexOf]: the first position, or [-1]. *)
Fixpoint index_of {A} `{EqDecision A} (x : A) (l : list A) : option nat :=
  match l with
  | [] => None
  | y :: l' => if decide (x = y) then Some 0 else S <$> index_of x l'
  end.

Definition js_index_of {A} `{EqDecision A} (x : A) (l : list A) : Z :=
  match index_of x l with Some i => Z.of_nat i | None => (-1)%Z end.

(** The last element of a list ([arr[arr.length - 1]] or [undefined]). *)
Fixpoint last_opt {A} (l : list A) : option A :=
  match l with
  | [] => None
  | [x] => Some x
  | _ :: l' => last_opt l'
  end.

(** ** Tactics *)

(** Turn the boolean comparisons of the code into propositions. *)
Ltac bnorm :=
  repeat match goal with
  | H : (_ <? _)%nat = true |- _ => apply Nat.ltb_lt in H
  | H : (_ <? _)%nat = false |- _ => apply Nat.ltb_ge in H
  | H : (_ <=? _)%nat = true |- _ => apply Nat.leb_le in H
  | H : (_ <=? _)%nat = false |- _ => apply Nat.leb_gt in H
  | H : (_ =? _)%nat = true |- _ => apply Nat.eqb_eq in H
  | H : (_ =? _)%nat = false |- _ => apply Nat.eqb_neq in H
  | H : (_ <? _)%Z = true |- _ => apply Z.ltb_lt in H
  | H : (_ <? _)%Z = false |- _ => apply Z.ltb_ge in H
  | H : (_ <=? _)%Z = true |- _ => apply Z.leb_le in H
  | H : (_ <=? _)%Z = false |- _ => apply Z.leb_gt in H
  | H : (_ =? _)%Z = true |- _ => apply Z.eqb_eq in H
  | H : (_ =? _)%Z = false |- _ => apply Z.eqb_neq in H
  end.

(** Case on the first [if] of the goal, keeping the equation. *)
Ltac case_if :=
  match goal with
  | |- context [if ?b then _ else _] => destruct b eqn:?
  end; bnorm.

(** ** Lemmas on index sequences *)

Lemma stride_go_lower fuel i s n j :
  j ∈ stride_go fuel i s n -> i <= j.
Proof.
  revert i. induction fuel as [|fuel IH]; intros i; simpl; [set_solver|].
  case_if; [|set_solver]. rewrite elem_of_cons.
  intros [->|Hj]; [lia|]. specialize (IH _ Hj). lia.
Qed.

Lemma stride_go_spec fuel i s n j :
  0 < s -> n - i <= fuel ->
  j ∈ stride_go fuel i s n <-> j < n /\ exists q, j = i + q * s.
Proof.
  intros Hs. revert i. induction fuel as [|fuel IH]; intros i Hf; simpl.
  - split; [set_solver|]. intros [Hj [q ->]]. lia.
  - case_if.
    + rewrite elem_of_cons, IH by lia. split.
      * intros [->|[Hj [q ->]]]; split; try lia.
        -- exists 0; lia.
        -- exists (S q); lia.
      * intros [Hj [[|q] ->]]; [left; lia|right].
        split; [lia|]. exists q; lia.
    + split; [set_solver|]. intros [Hj [q ->]]. lia.
Qed.

Lemma elem_of_stride n s j :
  0 < s -> j ∈ stride_indices n s <-> j < n /\ j mod s = 0.
Proof.
  intros Hs. unfold stride_indices. rewrite stride_go_spec by lia.
  rewrite Nat.Div0.mod_divides. split.
  - intros [Hj [q ->]]. split; [lia|]. exists q. lia.
  - intros [Hj [q ->]]. split; [lia|]. exists q. lia.
Qed.

Lemma stride_go_NoDup fuel i s n :
  0 < s -> NoDup (stride_go fuel i s n).
Proof.
  intros Hs. revert i. induction fuel as [|fuel IH]; intros i; simpl.
  - constructor.
  - case_if; constructor; auto.
    intros Hin. apply stride_go_lower in Hin. lia.
Qed.

Lemma stride_NoDup n s : 0 < s -> NoDup (stride_indices n s).
Proof. apply stride_go_NoDup. Qed.

Lemma stride_head n s : 0 < n -> stride_indices n s = 0 :: stride_go (n - 1) s s n.
Proof.
  intros Hn. unfold stride_indices. destruct n as [|n']; [lia|].
  simpl. rewrite Nat.sub_0_r. reflexivity.
Qed.

(** ** Lemmas on powers of two *)

Lemma pow2_or_0_half n : pow2_or_0 n -> pow2_or_0 (n / 2).
Proof.
  intros [->|[[|k] ->]]; [left; reflexivity|left; reflexivity|].
  right. exists k. rewrite Nat.pow_succ_r', Nat.mul_comm, Nat.div_mul; lia.
Qed.

Lemma pow2_or_0_double n : pow2_or_0 n -> n <> 0 -> pow2_or_0 (2 * n).
Proof.
  intros [->|[k ->]] Hn; [lia|]. right. exists (S k). reflexivity.
Qed.

Lemma pow2_pos k : 0 < 2 ^ k.
Proof. apply Nat.neq_0_lt_0, Nat.pow_nonzero. lia. Qed.

Lemma pow2_half_double n : pow2_or_0 n -> 2 <= n -> 2 * (n / 2) = n.
Proof.
  intros [->|[[|k] ->]] Hn; simpl in Hn; [lia|lia|].
  rewrite Nat.pow_succ_r', (Nat.mul_comm 2 (2 ^ k)), Nat.div_mul; lia.
Qed.

#[export] Hint Resolve pow2_or_0_half pow2_or_0_double stride_NoDup pow2_pos : anim.

(** ** Lemmas on [index_of] and [last_opt] *)

Lemma index_of_lookup {A} `{EqDecision A} (x : A) l i :
  index_of x l = Some i -> l !! i = Some x.
Proof.
  revert i. induction l as [|y l IH]; intros i; simpl; [done|].
  case_decide; [intros [= <-]; subst; done|].
  destruct (index_of x l) eqn:E; simpl; [|done]. intros [= <-]. simpl. auto.
Qed.

Lemma index_of_None {A} `{EqDecision A} (x : A) l :
  index_of x l = None <-> x ∉ l.
Proof.
  induction l as [|y l IH]; simpl; [set_solver|].
  case_decide; [subst; set_solver|].
  destruct (index_of x l); simpl; [split; [done|]|]; set_solver.
Qed.

Lemma index_of_NoDup {A} `{EqDecision A} (x : A) l i :
  NoDup l -> l !! i = Some x -> index_of x l = Some i.
Proof.
  intros Hnd. revert i. induction Hnd as [|y l Hy Hnd IH]; intros i; [done|].
  destruct i as [|i]; simpl.
  - intros [= ->]. by rewrite decide_True.
  - intros Hi. rewrite decide_False by (intros ->; apply Hy; by eapply list_elem_of_lookup_2).
    by rewrite (IH i Hi).
Qed.

Lemma last_opt_cons {A} (y z : A) l : last_opt (y :: z :: l) = last_opt (z :: l).
Proof. reflexivity. Qed.

Lemma last_opt_app {A} (l : list A) x : last_opt (l ++ [x]) = Some x.
Proof.
  induction l as [|y l IH]; [done|]. destruct l; [done|]. simpl app in *.
  by rewrite last_opt_cons.
Qed.

Lemma last_opt_None {A} (l : list A) : last_opt l = None <-> l = [].
Proof.
  split; [|intros ->; done].
  induction l as [|y l IH]; intros H; [done|]. destruct l; [done|].
  rewrite last_opt_cons in H. by specialize (IH H).
Qed.

Lemma last_opt_elem {A} (l : list A) x : last_opt l = Some x -> x ∈ l.
Proof.
  induction l as [|y l IH]; intros H; [done|]. destruct l as [|z l].
  - injection H as ->. set_solver.
  - rewrite last_opt_cons in H. apply elem_of_cons. right. auto.
Qed.

#[export] Hint Rewrite @last_opt_app : anim_rw.

(** ** Lemmas on [splice(i, 1)], that is [delete i] *)

Lemma elem_of_delete_NoDup {A} (l : list A) i y x :
  NoDup l -> l !! i = Some y -> x ∈ delete i l <-> x ∈ l /\ x <> y.
Proof.
  intros Hnd Hi. pose proof (delete_Permutation l i y Hi) as Hp.
  set (d := delete i l) in *. rewrite Hp in Hnd. apply NoDup_cons in Hnd as [Hn _]. rewrite Hp.
  split; [intros Hx; split; [by right | intros ->; done]|].
  intros [Hx Hne]. apply elem_of_cons in Hx as [->|]; done.
Qed.

Lemma NoDup_delete_list {A} (l : list A) i : NoDup l -> NoDup (delete i l).
Proof. intros Hnd. eapply sublist_NoDup; [exact Hnd | apply sublist_delete]. Qed.

(** Removing the element found by [indexOf] from a list without
    duplicates removes exactly that element. *)
Lemma index_of_delete {A} `{EqDecision A} (x : A) l i y :
  NoDup l -> index_of x l = Some i -> y ∈ delete i l <-> y ∈ l /\ y <> x.
Proof. intros Hnd Hi. apply elem_of_delete_NoDup; [done|]. by apply index_of_lookup. Qed.

#[export] Hint Resolve NoDup_delete_list list_elem_of_delete_inv : anim.

Lemma last_opt_app_r {A} (l l' : list A) x : last_opt l' = Some x -> last_opt (l ++ l') = Some x.
Proof.
  intros Hl. destruct l' as [|y l'] using rev_ind; [done|].
  rewrite last_opt_app in Hl. injection Hl as ->. by rewrite app_assoc, last_opt_app.
Qed.

(** ** Lemmas on [filter] *)

Lemma filter_nil_forall {A} (P : A -> Prop) `{forall x, Decision (P x)} (l : list A) :
  (forall x, x ∈ l -> ~ P x) -> filter P l = [].
Proof.
  induction l as [|x l IH]; intros Hl; [done|].
  rewrite filter_cons. rewrite decide_False by (apply Hl; set_solver).
  apply IH. set_solver.
Qed.

Lemma filter_all_forall {A} (P : A -> Prop) `{forall x, Decision (P x)} (l : list A) :
  (forall x, x ∈ l -> P x) -> filter P l = l.
Proof.
  induction l as [|x l IH]; intros Hl; [done|].
  rewrite filter_cons, decide_True by (apply Hl; set_solver).
  f_equal. apply IH. set_solver.
Qed.
