(* ===== verification/Js.v ===== *)
(** * JavaScript values and the builtins the program relies on

    The sources call a handful of ECMAScript builtins whose behaviour their
    results depend on: [isNaN], the coercion of a string to a number,
    [new Date(value)], [Date.prototype.getTime], [Date.prototype.toISOString]
    and [Date.parse] of the strings [toISOString] produces.  None of them is
    code of the repository; they are written here from the ECMAScript 5.1
    specification (sections 9.3.1, 15.9.1 and 15.9.3), restricted as said
    at each definition.

    - A number is a rational ([Fin]) or one of the infinities or [NaN];
      negative zero and the rounding of doubles are not modelled.
    - A time value is an integer number of milliseconds since the epoch
      ([Z]); an Invalid Date has no time value ([None]). *)

From S2P Require Import Prelude.
From Stdlib Require Import String Ascii QArith Qround Qabs.
From stdpp Require Import strings.

Module Js.

(** ** Values *)

Inductive number := Fin (q : Q) | PosInf | NegInf | NaN.

(** The values the sources receive from their callers. *)
Inductive jsval :=
| JUndef
| JNull
| JBool (b : bool)
| JNum (n : number)
| JStr (s : string)
| JDate (t : option Z)     (* a Date object and its time value *)
| JObj.                    (* any other object *)

#[export] Instance Q_eq_dec : EqDecision Q.
Proof. intros [n1 d1] [n2 d2]. destruct (decide (n1 = n2)), (decide (d1 = d2)); subst; [left|right..]; congruence. Defined.

#[export] Instance number_eq_dec : EqDecision number.
Proof. solve_decision. Defined.

#[export] Instance jsval_eq_dec : EqDecision jsval.
Proof. solve_decision. Defined.

(** ** Strings to numbers (ES5.1 9.3.1) *)

Definition is_ws (c : ascii) : bool :=
  let n := nat_of_ascii c in
  (n =? 9)%nat || (n =? 10)%nat || (n =? 11)%nat || (n =? 12)%nat || (n =? 13)%nat || (n =? 32)%nat.

Fixpoint drop_ws (l : list ascii) : list ascii :=
  match l with
  | c :: r => if is_ws c then drop_ws r else l
  | [] => []
  end.

(** The string with the white space at both ends removed. *)
Definition trim_ws (l : list ascii) : list ascii := rev (drop_ws (rev (drop_ws l))).

Definition dec_digit (c : ascii) : option Z :=
  let n := nat_of_ascii c in
  if (48 <=? n)%nat && (n <=? 57)%nat then Some (Z.of_nat (n - 48)) else None.

Definition hex_digit (c : ascii) : option Z :=
  let n := nat_of_ascii c in
  match dec_digit c with
  | Some v => Some v
  | None =>
      if (97 <=? n)%nat && (n <=? 102)%nat then Some (Z.of_nat (n - 87))
      else if (65 <=? n)%nat && (n <=? 70)%nat then Some (Z.of_nat (n - 55))
      else None
  end.

(** The longest run of digits in base [b] at the head of [l]: its value
    (accumulated onto [acc]), its length and the rest. *)
Fixpoint digits (b : Z) (d : ascii -> option Z) (l : list ascii) (acc : Z) (k : nat)
    : Z * nat * list ascii :=
  match l with
  | c :: r => match d c with Some v => digits b d r (acc * b + v)%Z (S k) | None => (acc, k, l) end
  | [] => (acc, k, [])
  end.

(** [m * 10 ^ e] as a rational. *)
Definition scale10 (m e : Z) : Q :=
  if (0 <=? e)%Z then inject_Z (m * 10 ^ e) else (m # Z.to_pos (10 ^ (- e))).

(** The exponent part [(e|E) [+|-] digits], if it is all of [l]. *)
Definition parse_exponent (l : list ascii) : option Z :=
  match l with
  | [] => Some 0%Z
  | e :: r =>
      if (Ascii.eqb e "e" || Ascii.eqb e "E")%char then
        let '(sg, r1) := match r with
                         | c :: r' => if Ascii.eqb c "+" then (1%Z, r') else if Ascii.eqb c "-" then ((-1)%Z, r') else (1%Z, r)
                         | [] => (1%Z, r)
                         end in
        let '(v, k, rest) := digits 10 dec_digit r1 0 0 in
        if (0 <? k)%nat && bool_decide (rest = []) then Some (sg * v)%Z else None
      else None
  end.

(** StrUnsignedDecimalLiteral. *)
Definition parse_unsigned (l : list ascii) : option number :=
  if bool_decide (l = list_ascii_of_string "Infinity") then Some PosInf else
  let '(ip, ni, r1) := digits 10 dec_digit l 0 0 in
  let '(fp, nf, r2) := match r1 with
                       | c :: r => if Ascii.eqb c "." then digits 10 dec_digit r 0 0 else (0%Z, 0%nat, r1)
                       | [] => (0%Z, 0%nat, r1)
                       end in
  if (ni + nf =? 0)%nat then None else
  match parse_exponent r2 with
  | Some e => Some (Fin (scale10 (ip * 10 ^ Z.of_nat nf + fp) (e - Z.of_nat nf)))
  | None => None
  end.

Definition neg_number (n : number) : number :=
  match n with Fin q => Fin (- q) | PosInf => NegInf | NegInf => PosInf | NaN => NaN end.

(** StrNumericLiteral: a hexadecimal integer or a signed decimal literal. *)
Definition parse_numeric (l : list ascii) : option number :=
  match l with
  | z :: x :: r =>
      if Ascii.eqb z "0" && (Ascii.eqb x "x" || Ascii.eqb x "X") then
        let '(v, k, rest) := digits 16 hex_digit r 0 0 in
        if (0 <? k)%nat && bool_decide (rest = []) then Some (Fin (inject_Z v)) else None
      else if Ascii.eqb z "+" then parse_unsigned (x :: r)
      else if Ascii.eqb z "-" then neg_number <$> parse_unsigned (x :: r)
      else parse_unsigned l
  | [c] => if Ascii.eqb c "+" || Ascii.eqb c "-" then None else parse_unsigned l
  | [] => None
  end.

(** ToNumber applied to a string: the empty (or blank) string is 0, a
    string that is no numeric literal is NaN. *)
Definition string_to_number (s : string) : number :=
  match trim_ws (list_ascii_of_string s) with
  | [] => Fin 0
  | l => match parse_numeric l with Some n => n | None => NaN end
  end.

(** ToNumber.  A plain object converts through ["[object Object]"]. *)
Definition to_number (v : jsval) : number :=
  match v with
  | JUndef => NaN
  | JNull => Fin 0
  | JBool b => Fin (if b then 1 else 0)
  | JNum n => n
  | JStr s => string_to_number s
  | JDate (Some t) => Fin (inject_Z t)
  | JDate None => NaN
  | JObj => NaN
  end.

(** The global [isNaN(v)]. *)
Definition isNaN (v : jsval) : bool := match to_number v with NaN => true | _ => false end.

(** [v !== undefined && v !== null]. *)
Definition is_defined (v : jsval) : bool := match v with JUndef | JNull => false | _ => true end.

(** ** Time values (ES5.1 15.9.1) *)

Definition msPerDay : Z := 86400000.

(** TimeClip: the integer part of a finite time within 8.64e15 ms. *)
Definition time_clip (n : number) : option Z :=
  match n with
  | Fin q =>
      if Qle_bool (Qabs q) (inject_Z 8640000000000000) then
        Some (if Qle_bool 0 q then Qfloor q else (- Qfloor (- q))%Z)
      else None
  | _ => None
  end.

(** The day number of a proleptic Gregorian date (month 1 to 12). *)
Definition days_from_civil (y m d : Z) : Z :=
  let y' := if (m <=? 2)%Z then (y - 1)%Z else y in
  let era := (y' / 400)%Z in
  let yoe := (y' - era * 400)%Z in
  let mp := if (2 <? m)%Z then (m - 3)%Z else (m + 9)%Z in
  let doy := ((153 * mp + 2) / 5 + d - 1)%Z in
  let doe := (yoe * 365 + yoe / 4 - yoe / 100 + doy)%Z in
  (era * 146097 + doe - 719468)%Z.

(** The date of a day number: year, month (1 to 12) and day (1 to 31). *)
Definition civil_from_days (z : Z) : Z * Z * Z :=
  let z' := (z + 719468)%Z in
  let era := (z' / 146097)%Z in
  let doe := (z' - era * 146097)%Z in
  let yoe := ((doe - doe / 1460 + doe / 36524 - doe / 146096) / 365)%Z in
  let doy := (doe - (365 * yoe + yoe / 4 - yoe / 100))%Z in
  let mp := ((5 * doy + 2) / 153)%Z in
  let d := (doy - (153 * mp + 2) / 5 + 1)%Z in
  let m := if (mp <? 10)%Z then (mp + 3)%Z else (mp - 9)%Z in
  let y := (yoe + era * 400)%Z in
  ((if (m <=? 2)%Z then (y + 1)%Z else y), m, d).

Definition is_leap (y : Z) : bool :=
  ((y mod 4 =? 0) && negb (y mod 100 =? 0) || (y mod 400 =? 0))%Z.

Definition days_in_month (y m : Z) : Z :=
  if (m =? 2)%Z then (if is_leap y then 29 else 28)%Z
  else if (m =? 4)%Z || (m =? 6)%Z || (m =? 9)%Z || (m =? 11)%Z then 30%Z else 31%Z.

(** ** [Date.prototype.toISOString] (ES5.1 15.9.1.15, 15.9.5.43) *)

Definition digit_char (d : Z) : ascii := ascii_of_nat (48 + Z.to_nat d).

(** The [k] low decimal digits of [n >= 0], most significant first. *)
Fixpoint pad_digits (k : nat) (n : Z) : list ascii :=
  match k with
  | O => []
  | S k' => pad_digits k' (n / 10)%Z ++ [digit_char (n mod 10)%Z]
  end.

(** [YYYY] for the years 0 to 9999, [+YYYYYY] or [-YYYYYY] otherwise. *)
Definition iso_year (y : Z) : list ascii :=
  if (0 <=? y)%Z && (y <=? 9999)%Z then pad_digits 4 y
  else (if (0 <=? y)%Z then "+"%char else "-"%char) :: pad_digits 6 (Z.abs y).

Definition toISOString (t : Z) : string :=
  let day := (t / msPerDay)%Z in
  let ms := (t mod msPerDay)%Z in
  let '(y, mo, d) := civil_from_days day in
  string_of_list_ascii
    (iso_year y ++ ["-"%char] ++ pad_digits 2 mo ++ ["-"%char] ++ pad_digits 2 d ++ ["T"%char] ++
     pad_digits 2 (ms / 3600000)%Z ++ [":"%char] ++ pad_digits 2 (ms / 60000 mod 60)%Z ++ [":"%char] ++
     pad_digits 2 (ms / 1000 mod 60)%Z ++ ["."%char] ++ pad_digits 3 (ms mod 1000)%Z ++ ["Z"%char]).

(** ** [Date.parse] of the Date Time String Format (ES5.1 15.9.1.15) *)

(** Exactly [k] decimal digits at the head of [l]. *)
Fixpoint take_digits (k : nat) (l : list ascii) (acc : Z) : option (Z * list ascii) :=
  match k with
  | O => Some (acc, l)
  | S k' =>
      match l with
      | c :: r => match dec_digit c with Some v => take_digits k' r (acc * 10 + v)%Z | None => None end
      | [] => None
      end
  end.

(** [-c] followed by [k] digits, or nothing (the field takes [dflt]). *)
Definition opt_field (sep : ascii) (k : nat) (dflt : Z) (l : list ascii) : option (Z * list ascii) :=
  match l with
  | c :: r => if Ascii.eqb c sep then take_digits k r 0 else Some (dflt, l)
  | [] => Some (dflt, l)
  end.

(** The year: four digits, or a sign and six digits. *)
Definition parse_year (l : list ascii) : option (Z * list ascii) :=
  match l with
  | c :: r =>
      if Ascii.eqb c "+" then take_digits 6 r 0
      else if Ascii.eqb c "-" then (fun '(y, r') => ((- y)%Z, r')) <$> take_digits 6 r 0
      else take_digits 4 l 0
  | [] => None
  end.

(** The time zone offset: [Z], [+HH:mm], [-HH:mm] or nothing (UTC, as in
    ES5.1), in minutes to add to UTC. *)
Definition parse_offset (l : list ascii) : option Z :=
  match l with
  | [] => Some 0%Z
  | c :: r =>
      if Ascii.eqb c "Z" then (if bool_decide (r = []) then Some 0%Z else None)
      else if Ascii.eqb c "+" || Ascii.eqb c "-" then
        match take_digits 2 r 0 with
        | Some (hh, c2 :: r2) =>
            if Ascii.eqb c2 ":" then
              match take_digits 2 r2 0 with
              | Some (mm, []) =>
                  if (hh <=? 23)%Z && (mm <=? 59)%Z then
                    Some ((if Ascii.eqb c "+" then 1 else -1) * (hh * 60 + mm))%Z
                  else None
              | _ => None
              end
            else None
        | _ => None
        end
      else None
  end.

(** [YYYY[-MM[-DD]][THH:mm[:ss[.sss]]][Z|(+|-)HH:mm]], every field in range
    (a day within its month, 24:00 only as 24:00:00.000).  The fallback to
    implementation-specific formats is not modelled: any other string is an
    Invalid Date. *)
Definition date_parse (s : string) : option Z :=
  let l := list_ascii_of_string s in
  match parse_year l with
  | None => None
  | Some (y, l1) =>
  match opt_field "-" 2 1 l1 with
  | None => None
  | Some (mo, l2) =>
  match opt_field "-" 2 1 l2 with
  | None => None
  | Some (d, l3) =>
  let time := match l3 with
              | c :: r =>
                  if Ascii.eqb c "T" then
                    match take_digits 2 r 0 with
                    | Some (hh, c2 :: r2) =>
                        if Ascii.eqb c2 ":" then
                          match take_digits 2 r2 0 with
                          | Some (mi, r3) =>
                              match opt_field ":" 2 0 r3 with
                              | Some (ss, r4) =>
                                  match opt_field "." 3 0 r4 with
                                  | Some (ms, r5) => Some (hh, mi, ss, ms, r5)
                                  | None => None
                                  end
                              | None => None
                              end
                          | None => None
                          end
                        else None
                    | _ => None
                    end
                  else Some (0, 0, 0, 0, l3)%Z
              | [] => Some (0, 0, 0, 0, l3)%Z
              end in
  match time with
  | None => None
  | Some (hh, mi, ss, ms, l4) =>
  match parse_offset l4 with
  | None => None
  | Some off =>
      if (1 <=? mo)%Z && (mo <=? 12)%Z && (1 <=? d)%Z && (d <=? days_in_month y mo)%Z &&
         ((hh <=? 23)%Z && (mi <=? 59)%Z && (ss <=? 59)%Z ||
          (hh =? 24)%Z && (mi =? 0)%Z && (ss =? 0)%Z && (ms =? 0)%Z) then
        let t := (days_from_civil y mo d * msPerDay + hh * 3600000 + mi * 60000 + ss * 1000 + ms
                  - off * 60000)%Z in
        time_clip (Fin (inject_Z t))
      else None
  end
  end
  end
  end
  end.

(** [new Date(v)] with one argument (ES5.1 15.9.3.2, with the ES2015 rule
    that a Date argument gives its own time value): a string is parsed,
    anything else converted to a number and clipped. *)
Definition date_of (v : jsval) : option Z :=
  match v with
  | JStr s => date_parse s
  | JDate t => t
  | JObj => None
  | _ => time_clip (to_number v)
  end.

(** ** Number arithmetic and comparison (ES5.1 11.6.3, 11.8.5, 11.9.6) *)

Definition num_add (a b : number) : number :=
  match a, b with
  | NaN, _ | _, NaN => NaN
  | PosInf, NegInf | NegInf, PosInf => NaN
  | PosInf, _ | _, PosInf => PosInf
  | NegInf, _ | _, NegInf => NegInf
  | Fin p, Fin q => Fin (p + q)
  end.

Definition num_sub (a b : number) : number := num_add a (neg_number b).

(** [a < b]: false as soon as one side is NaN. *)
Definition num_lt (a b : number) : bool :=
  match a, b with
  | NaN, _ | _, NaN => false
  | Fin p, Fin q => negb (Qle_bool q p)
  | NegInf, NegInf | PosInf, _ => false
  | NegInf, _ | _, PosInf => true
  | Fin _, NegInf => false
  end.

(** [a <= b] on numbers is [b < a] negated, except that NaN makes it false. *)
Definition num_le (a b : number) : bool :=
  match a, b with
  | NaN, _ | _, NaN => false
  | _, _ => negb (num_lt b a)
  end.

(** Strict equality of two numbers: NaN equals nothing. *)
Definition num_eqb (a b : number) : bool :=
  match a, b with
  | Fin p, Fin q => Qeq_bool p q
  | PosInf, PosInf | NegInf, NegInf => true
  | _, _ => false
  end.

(** [Date.prototype.getTime]: the time value, NaN for an invalid date. *)
Definition date_number (t : option Z) : number :=
  match t with Some z => Fin (inject_Z z) | None => NaN end.

(** ToBoolean (ES5.1 9.2). *)
Definition truthy (v : jsval) : bool :=
  match v with
  | JUndef | JNull => false
  | JBool b => b
  | JNum (Fin q) => negb (Qeq_bool q 0)
  | JNum NaN => false
  | JNum _ => true
  | JStr s => negb (String.eqb s "")
  | JDate _ | JObj => true
  end.

(** ** The round trip of [toISOString] through [Date.parse] *)

(** *** The calendar *)

(** The facts checked for each day of the first 400-year cycle of the
    proleptic Gregorian calendar that begins on 1 March of year 0. *)
Definition civil_check (doe : Z) : bool :=
  let '(y, m, d) := civil_from_days (doe - 719468) in
  (0 <=? y)%Z && (y <=? 400)%Z && (1 <=? m)%Z && (m <=? 12)%Z && (1 <=? d)%Z &&
  (d <=? days_in_month y m)%Z && (days_from_civil y m d =? doe - 719468)%Z.

Fixpoint civil_check_from (fuel : nat) (z : Z) : bool :=
  match fuel with O => true | S k => civil_check z && civil_check_from k (z + 1)%Z end.

Lemma civil_check_from_spec fuel z0 z :
  civil_check_from fuel z0 = true -> (z0 <= z < z0 + Z.of_nat fuel)%Z -> civil_check z = true.
Proof.
  revert z0. induction fuel as [|k IH]; intros z0 Hc Hz; simpl in *; [lia|].
  apply andb_true_iff in Hc as [H1 H2]. destruct (decide (z = z0)) as [->|Hne]; [done|].
  apply (IH (z0 + 1)%Z); [done | lia].
Qed.

(** One cycle, checked by evaluation. *)
Lemma civil_cycle : civil_check_from (Pos.to_nat 146097) 0 = true.
Proof. vm_compute. reflexivity. Qed.

Lemma civil_from_days_era z k :
  civil_from_days (z + 146097 * k) =
  let '(y, m, d) := civil_from_days z in ((y + 400 * k)%Z, m, d).
Proof.
  unfold civil_from_days. cbv zeta.
  replace (z + 146097 * k + 719468)%Z with (z + 719468 + k * 146097)%Z by lia.
  rewrite Z.div_add by lia.
  replace (z + 719468 + k * 146097 - (z + 719468) / 146097 * 146097 - k * 146097)%Z
    with (z + 719468 - (z + 719468) / 146097 * 146097)%Z by lia.
  replace ((z + 719468 + k * 146097 - ((z + 719468) / 146097 + k) * 146097))%Z
    with (z + 719468 - (z + 719468) / 146097 * 146097)%Z by lia.
  destruct (_ <? 10)%Z; destruct (_ <=? 2)%Z; f_equal; f_equal; lia.
Qed.

Lemma days_from_civil_era y m d k :
  days_from_civil (y + 400 * k) m d = (days_from_civil y m d + 146097 * k)%Z.
Proof.
  unfold days_from_civil. cbv zeta.
  destruct (m <=? 2)%Z.
  - replace (y + 400 * k - 1)%Z with (y - 1 + k * 400)%Z by lia. rewrite Z.div_add by lia.
    replace (y - 1 + k * 400 - ((y - 1) / 400 + k) * 400)%Z with (y - 1 - (y - 1) / 400 * 400)%Z by lia.
    lia.
  - replace (y + 400 * k)%Z with (y + k * 400)%Z by lia. rewrite Z.div_add by lia.
    replace (y + k * 400 - (y / 400 + k) * 400)%Z with (y - y / 400 * 400)%Z by lia.
    lia.
Qed.

Lemma is_leap_era y k : is_leap (y + 400 * k) = is_leap y.
Proof.
  unfold is_leap.
  replace (y + 400 * k)%Z with (y + (100 * k) * 4)%Z at 1 by lia. rewrite Z.mod_add by lia.
  replace (y + 400 * k)%Z with (y + (4 * k) * 100)%Z at 1 by lia. rewrite Z.mod_add by lia.
  replace (y + 400 * k)%Z with (y + k * 400)%Z by lia. by rewrite Z.mod_add by lia.
Qed.

Lemma days_in_month_era y m k : days_in_month (y + 400 * k) m = days_in_month y m.
Proof. unfold days_in_month. by rewrite is_leap_era. Qed.

(** [civil_from_days] gives a valid date whose day number is the input. *)
Lemma civil_from_days_spec z :
  let '(y, m, d) := civil_from_days z in
  (1 <= m <= 12)%Z /\ (1 <= d <= days_in_month y m)%Z /\ days_from_civil y m d = z /\
  (400 * ((z + 719468) / 146097) <= y <= 400 * ((z + 719468) / 146097) + 400)%Z.
Proof.
  set (q := ((z + 719468) / 146097)%Z). set (r := ((z + 719468) mod 146097)%Z).
  assert (Hr : (0 <= r < 146097)%Z) by (apply Z.mod_pos_bound; lia).
  assert (Hz : z = ((r - 719468) + 146097 * q)%Z) by (pose proof (Z.div_mod (z + 719468) 146097); lia).
  pose proof (civil_check_from_spec _ 0 r civil_cycle ltac:(rewrite positive_nat_Z; lia)) as Hc.
  unfold civil_check in Hc.
  replace (civil_from_days z) with (civil_from_days ((r - 719468) + 146097 * q)) by (f_equal; lia).
  rewrite civil_from_days_era.
  destruct (civil_from_days (r - 719468)) as [[y m] d].
  repeat (apply andb_true_iff in Hc as [Hc ?]). bnorm.
  rewrite days_in_month_era, days_from_civil_era. lia.
Qed.

(** *** Digits *)

Lemma dec_digit_char v : (0 <= v <= 9)%Z -> dec_digit (digit_char v) = Some v.
Proof.
  intros Hv. unfold dec_digit, digit_char.
  rewrite nat_ascii_embedding by lia.
  replace ((48 <=? 48 + Z.to_nat v)%nat && (48 + Z.to_nat v <=? 57)%nat) with true
    by (symmetry; apply andb_true_iff; split; apply Nat.leb_le; lia).
  f_equal. lia.
Qed.

Lemma take_digits_plus k1 k2 l acc :
  take_digits (k1 + k2) l acc =
  match take_digits k1 l acc with Some (a, l') => take_digits k2 l' a | None => None end.
Proof.
  revert l acc. induction k1 as [|k1 IH]; intros l acc; [done|].
  simpl. destruct l as [|c r]; [done|]. destruct (dec_digit c); [apply IH | done].
Qed.

(** Reading back [k] padded digits. *)
Lemma take_pad_digits k n l acc :
  (0 <= n < 10 ^ Z.of_nat k)%Z ->
  take_digits k (pad_digits k n ++ l) acc = Some ((acc * 10 ^ Z.of_nat k + n)%Z, l).
Proof.
  revert n l acc. induction k as [|k IH]; intros n l acc Hn.
  { simpl in *. f_equal. f_equal. lia. }
  cbn [pad_digits]. rewrite <- app_assoc. cbn [app].
  rewrite Nat2Z.inj_succ, Z.pow_succ_r in Hn by lia.
  rewrite Nat2Z.inj_succ, Z.pow_succ_r by lia.
  replace (S k) with (k + 1)%nat by lia. rewrite take_digits_plus.
  assert (Hk : (0 <= n / 10 < 10 ^ Z.of_nat k)%Z).
  { split; [apply Z.div_pos; lia|]. apply Z.div_lt_upper_bound; lia. }
  rewrite (IH (n / 10)%Z _ acc Hk). cbn [take_digits].
  rewrite dec_digit_char by (pose proof (Z.mod_pos_bound n 10); lia). cbn [take_digits].
  pose proof (Z.div_mod n 10 ltac:(lia)) as Hdm.
  set (P := (10 ^ Z.of_nat k)%Z) in *. set (a := (n / 10)%Z) in *. set (b := (n mod 10)%Z) in *.
  rewrite Hdm. f_equal. f_equal. ring.
Qed.

Lemma pad_digits_head k n : exists v l, pad_digits (S k) n = digit_char v :: l /\ (0 <= v <= 9)%Z.
Proof.
  revert n. induction k as [|k IH]; intros n.
  - exists (n mod 10)%Z, []. split; [done|]. pose proof (Z.mod_pos_bound n 10). lia.
  - destruct (IH (n / 10)%Z) as (v & l & Hl & Hv). exists v, (l ++ [digit_char (n mod 10)%Z]).
    split; [|done]. change (pad_digits (S (S k)) n) with (pad_digits (S k) (n / 10)%Z ++ [digit_char (n mod 10)%Z]).
    by rewrite Hl.
Qed.

Lemma digit_char_not v c : (0 <= v <= 9)%Z -> (nat_of_ascii c < 48)%nat -> Ascii.eqb (digit_char v) c = false.
Proof.
  intros Hv Hc. apply Ascii.eqb_neq. intros Heq. unfold digit_char in Heq.
  apply (f_equal nat_of_ascii) in Heq. rewrite nat_ascii_embedding in Heq by lia. lia.
Qed.

Lemma pow10_small : (10 ^ Z.of_nat 2 = 100 /\ 10 ^ Z.of_nat 3 = 1000 /\
                     10 ^ Z.of_nat 4 = 10000 /\ 10 ^ Z.of_nat 6 = 1000000)%Z.
Proof. repeat split. Qed.

Lemma parse_year_iso y l : (Z.abs y <= 999999)%Z -> parse_year (iso_year y ++ l) = Some (y, l).
Proof.
  intros Hy. destruct pow10_small as (P2 & P3 & P4 & P6). unfold iso_year.
  destruct ((0 <=? y)%Z && (y <=? 9999)%Z) eqn:E.
  - apply andb_true_iff in E as [E1 E2]. bnorm.
    destruct (pad_digits_head 3 y) as (v & r & Hl & Hv).
    assert (Ht : take_digits 4 (pad_digits 4 y ++ l) 0 = Some (y, l))
      by (rewrite take_pad_digits by lia; f_equal; f_equal; lia).
    rewrite Hl in Ht |- *. unfold parse_year. cbn [app] in Ht |- *.
    rewrite !digit_char_not by (lia || (vm_compute; lia)). exact Ht.
  - set (P := pad_digits 6 (Z.abs y)).
    assert (Ht : take_digits 6 (P ++ l) 0 = Some (Z.abs y, l))
      by (unfold P; rewrite take_pad_digits by lia; f_equal; f_equal; lia).
    destruct (0 <=? y)%Z eqn:E0; unfold parse_year; cbn [app]; cbv [Ascii.eqb Bool.eqb]; rewrite Ht.
    + f_equal. f_equal. bnorm. lia.
    + cbn. f_equal. f_equal. bnorm. lia.
Qed.

(** *** The time of day *)

Lemma time_of_day_decomp ms :
  (0 <= ms < msPerDay)%Z ->
  ms = (ms / 3600000 * 3600000 + ms / 60000 mod 60 * 60000 + ms / 1000 mod 60 * 1000 + ms mod 1000)%Z /\
  (ms / 3600000 <= 23)%Z /\ (0 <= ms / 3600000)%Z /\
  (0 <= ms / 60000 mod 60 <= 59)%Z /\ (0 <= ms / 1000 mod 60 <= 59)%Z /\ (0 <= ms mod 1000 < 1000)%Z.
Proof.
  unfold msPerDay. intros Hms.
  pose proof (Z.div_mod ms 3600000 ltac:(lia)). pose proof (Z.mod_pos_bound ms 3600000 ltac:(lia)).
  pose proof (Z.div_mod ms 60000 ltac:(lia)). pose proof (Z.mod_pos_bound ms 60000 ltac:(lia)).
  pose proof (Z.div_mod ms 1000 ltac:(lia)). pose proof (Z.mod_pos_bound ms 1000 ltac:(lia)).
  pose proof (Z.div_mod (ms / 60000) 60 ltac:(lia)). pose proof (Z.mod_pos_bound (ms / 60000) 60 ltac:(lia)).
  pose proof (Z.div_mod (ms / 1000) 60 ltac:(lia)). pose proof (Z.mod_pos_bound (ms / 1000) 60 ltac:(lia)).
  lia.
Qed.

Lemma time_clip_int t : (Z.abs t <= 8640000000000000)%Z -> time_clip (Fin (inject_Z t)) = Some t.
Proof.
  intros Ht. unfold time_clip.
  replace (Qle_bool (Qabs (inject_Z t)) (inject_Z 8640000000000000)) with true.
  2:{ symmetry. apply Qle_bool_iff. unfold inject_Z. rewrite <- Zabs_Qabs.
      unfold Qle; simpl. lia. }
  f_equal. destruct (Qle_bool 0 (inject_Z t)); [apply Qfloor_Z|].
  replace (- inject_Z t)%Q with (inject_Z (- t)) by (unfold inject_Z, Qopp; reflexivity).
  rewrite Qfloor_Z. lia.
Qed.

Lemma take_pad_digits0 k n l :
  (0 <= n < 10 ^ Z.of_nat k)%Z -> take_digits k (pad_digits k n ++ l) 0 = Some (n, l).
Proof. intros Hn. by rewrite take_pad_digits. Qed.

Lemma opt_field_pad sep k dflt n l :
  (0 <= n < 10 ^ Z.of_nat k)%Z -> opt_field sep k dflt (sep :: pad_digits k n ++ l) = Some (n, l).
Proof. intros Hn. unfold opt_field. rewrite Ascii.eqb_refl. by apply take_pad_digits0. Qed.

Lemma date_parse_toISOString t : (Z.abs t <= 8640000000000000)%Z -> date_parse (toISOString t) = Some t.
Proof.
  intros Ht. destruct pow10_small as (P2 & P3 & P4 & P6). unfold toISOString.
  set (day := (t / msPerDay)%Z). set (ms := (t mod msPerDay)%Z).
  assert (Hms : (0 <= ms < msPerDay)%Z) by (apply Z.mod_pos_bound; unfold msPerDay; lia).
  assert (Hday : (- 100000001 <= day <= 100000000)%Z).
  { unfold day, msPerDay. split; [apply Z.div_le_lower_bound | apply Z.div_le_upper_bound]; lia. }
  pose proof (civil_from_days_spec day) as Hc.
  destruct (civil_from_days day) as [[y mo] d].
  destruct Hc as (Hmo & Hd & Hdays & Hy).
  assert (Hq : (-700 <= (day + 719468) / 146097 <= 700)%Z).
  { split; [apply Z.div_le_lower_bound | apply Z.div_le_upper_bound]; lia. }
  assert (Hdim : (days_in_month y mo <= 31)%Z) by (unfold days_in_month; repeat case_match; lia).
  destruct (time_of_day_decomp ms Hms) as (Hdec & Hh1 & Hh2 & Hmi & Hss & Hmsr).
  unfold date_parse. rewrite list_ascii_of_string_of_list_ascii. cbn [app].
  rewrite parse_year_iso by lia. cbn iota beta.
  rewrite opt_field_pad by lia. cbn iota beta.
  rewrite opt_field_pad by lia. cbn iota beta.
  rewrite Ascii.eqb_refl, take_pad_digits0 by lia. cbn iota beta.
  rewrite Ascii.eqb_refl, take_pad_digits0 by lia. cbn iota beta.
  rewrite opt_field_pad by lia. cbn iota beta.
  rewrite opt_field_pad by lia. cbn iota beta.
  unfold parse_offset. rewrite Ascii.eqb_refl, bool_decide_eq_true_2 by done. cbn iota beta.
  match goal with |- context [if ?b then _ else None] => replace b with true end.
  2:{ symmetry. repeat (apply andb_true_iff; split); try (apply orb_true_iff; left;
        repeat (apply andb_true_iff; split)); bnorm; lia. }
  rewrite <- (time_clip_int t) by done. f_equal. f_equal.
  f_equal. rewrite Hdays. pose proof (Z.div_mod t msPerDay ltac:(unfold msPerDay; lia)) as Hdm.
  change (t / msPerDay)%Z with day in Hdm. change (t mod msPerDay)%Z with ms in Hdm.
  clearbody day ms. unfold msPerDay in *. lia.
Qed.

End Js.
