(* ===== verification/Utils.v ===== *)
(** * [Utils.js]: the [toISOString] polyfill and [floorDateToHour]

    [OpenLayers.Layer.Animation.Utils] installs, when the browser lacks
    them, a [Date.prototype.toISOString] (through a [toJSON] that formats
    the UTC fields with two-digit padding), an [Array.prototype.indexOf]
    (the prelude's [js_index_of]) and a [requestAnimationFrame]; it
    exports [floorDateToHour], which sets the minutes, seconds and
    milliseconds of a Date to zero in local time.

    - [toJSON] is compared with the ECMAScript [toISOString] of [Js]: on
      the four-digit years they agree but for the milliseconds, which the
      polyfill drops, so [Date.parse] reads back the time floored to the
      second.
    - The Date setters are written from ES5.1 15.9.5.29-33 with
      [LocalTime t = t + tza] for a fixed local time zone adjustment [tza]
      (a Section variable); daylight saving time is taken as zero. *)

From S2P Require Import Prelude Js.
From Stdlib Require Import String Ascii QArith.
Import Js.

Module Utils.

(** ** The [toJSON] polyfill *)

(** [String(n)] of a non-negative integer: its decimal digits.  The fuel
    bounds the number of digits; 20 is more than any year has. *)
Fixpoint dec_digits (fuel : nat) (n : Z) : list ascii :=
  match fuel with
  | O => []
  | S f => if (n <? 10)%Z then [digit_char n] else dec_digits f (n / 10) ++ [digit_char (n mod 10)]
  end.

(** [String(n)] of an integer. *)
Definition int_string (n : Z) : list ascii :=
  if (n <? 0)%Z then "-"%char :: dec_digits 20 (- n) else dec_digits 20 n.

(** [pad(n)]: [n < 10 ? '0' + n : n], concatenated to a string. *)
Definition pad (n : Z) : list ascii :=
  if (n <? 10)%Z then "0"%char :: int_string n else int_string n.

(** [Date.prototype.toJSON] as the polyfill defines it, on the time value
    of the Date ([getUTCFullYear() + '-' + pad(getUTCMonth() + 1) + ...]);
    an Invalid Date gives [NaN] for every field. *)
Definition toJSON (tv : option Z) : string :=
  match tv with
  | None => "NaN-NaN-NaNTNaN:NaN:NaNZ"%string
  | Some t =>
      let day := (t / msPerDay)%Z in
      let ms := (t mod msPerDay)%Z in
      let '(y, mo, d) := civil_from_days day in
      string_of_list_ascii
        (int_string y ++ ["-"%char] ++ pad mo ++ ["-"%char] ++ pad d ++ ["T"%char] ++
         pad (ms / 3600000)%Z ++ [":"%char] ++ pad (ms / 60000 mod 60)%Z ++ [":"%char] ++
         pad (ms / 1000 mod 60)%Z ++ ["Z"%char])
  end.

(** The UTC year of a time value. *)
Definition year_of (t : Z) : Z := (civil_from_days (t / msPerDay)%Z).1.1.

(** ** The polyfill's digits *)

Lemma length_pad_digits k n : List.length (pad_digits k n) = k.
Proof. revert n. induction k as [|k IH]; intros n; [done|]. cbn [pad_digits]. rewrite length_app, IH. simpl. lia. Qed.

(** [String(n)] is [n]'s [k + 1] digits when it has that many. *)
Lemma dec_digits_pad k n fuel :
  (k < fuel)%nat -> (0 <= n < 10 ^ Z.of_nat (S k))%Z -> (k = O \/ 10 ^ Z.of_nat k <= n)%Z ->
  dec_digits fuel n = pad_digits (S k) n.
Proof.
  revert n fuel. induction k as [|k IH]; intros n fuel Hf Hn Hk; (destruct fuel as [|f]; [lia|]).
  - change (10 ^ Z.of_nat 1)%Z with 10%Z in Hn. cbn [dec_digits pad_digits app].
    replace (n <? 10)%Z with true by (symmetry; apply Z.ltb_lt; lia). by rewrite Z.mod_small by lia.
  - destruct Hk as [Hk|Hk]; [done|]. rewrite Nat2Z.inj_succ, Z.pow_succ_r in Hn, Hk by lia.
    assert (H10 : (0 < 10 ^ Z.of_nat k)%Z) by (apply Z.pow_pos_nonneg; lia).
    cbn [dec_digits]. replace (n <? 10)%Z with false by (symmetry; apply Z.ltb_ge; nia).
    change (pad_digits (S (S k)) n) with (pad_digits (S k) (n / 10)%Z ++ [digit_char (n mod 10)%Z]).
    f_equal. apply IH; [lia| |].
    + split; [apply Z.div_pos; lia|]. apply Z.div_lt_upper_bound; lia.
    + right. apply Z.div_le_lower_bound; lia.
Qed.

Lemma int_string_4 y : (1000 <= y <= 9999)%Z -> int_string y = pad_digits 4 y.
Proof.
  intros Hy. unfold int_string. replace (y <? 0)%Z with false by (symmetry; apply Z.ltb_ge; lia).
  apply (dec_digits_pad 3); simpl; lia.
Qed.

Lemma pad_2 n : (0 <= n < 100)%Z -> pad n = pad_digits 2 n.
Proof.
  intros Hn. unfold pad, int_string. replace (n <? 0)%Z with false by (symmetry; apply Z.ltb_ge; lia).
  destruct (n <? 10)%Z eqn:E; bnorm.
  - rewrite (dec_digits_pad 0) by (simpl; lia). cbn [pad_digits app].
    by rewrite (Z.div_small n 10), (Z.mod_small n 10) by lia.
  - apply (dec_digits_pad 1); simpl; lia.
Qed.

Lemma iso_year_4 y : (1000 <= y <= 9999)%Z -> iso_year y = pad_digits 4 y.
Proof. intros Hy. unfold iso_year. by replace ((0 <=? y)%Z && (y <=? 9999)%Z) with true by (symmetry; apply andb_true_iff; split; apply Z.leb_le; lia). Qed.

(** The fields of a time value and their ranges. *)
Lemma utc_fields t :
  let '(y, mo, d) := civil_from_days (t / msPerDay)%Z in
  (1 <= mo <= 12)%Z /\ (1 <= d <= 31)%Z /\ (0 <= (t mod msPerDay) / 3600000 <= 23)%Z /\
  (0 <= (t mod msPerDay) / 60000 mod 60 <= 59)%Z /\ (0 <= (t mod msPerDay) / 1000 mod 60 <= 59)%Z.
Proof.
  assert (Hms : (0 <= t mod msPerDay < msPerDay)%Z) by (apply Z.mod_pos_bound; unfold msPerDay; lia).
  destruct (time_of_day_decomp _ Hms) as (_ & Hh1 & Hh2 & Hmi & Hss & _).
  pose proof (civil_from_days_spec (t / msPerDay)%Z) as Hc.
  destruct (civil_from_days (t / msPerDay)%Z) as [[y mo] d]. destruct Hc as (Hmo & Hd & _ & _).
  assert (Hdim : (days_in_month y mo <= 31)%Z) by (unfold days_in_month; repeat case_match; lia).
  repeat split; lia.
Qed.

(** The polyfill's string, on a four-digit year, in the fields of [Js]. *)
Lemma toJSON_fields t :
  (1000 <= year_of t <= 9999)%Z ->
  let '(y, mo, d) := civil_from_days (t / msPerDay)%Z in
  let ms := (t mod msPerDay)%Z in
  list_ascii_of_string (toJSON (Some t)) =
    iso_year y ++ ["-"%char] ++ pad_digits 2 mo ++ ["-"%char] ++ pad_digits 2 d ++ ["T"%char] ++
    pad_digits 2 (ms / 3600000)%Z ++ [":"%char] ++ pad_digits 2 (ms / 60000 mod 60)%Z ++ [":"%char] ++
    pad_digits 2 (ms / 1000 mod 60)%Z ++ ["Z"%char].
Proof.
  unfold year_of, toJSON. pose proof (utc_fields t) as Hf.
  destruct (civil_from_days (t / msPerDay)%Z) as [[y mo] d]. simpl. intros Hy.
  destruct Hf as (Hmo & Hd & Hh & Hmi & Hs).
  rewrite list_ascii_of_string_of_list_ascii, int_string_4, iso_year_4, !pad_2 by lia. done.
Qed.

(** Equivalence: on the years 1000 to 9999 the polyfill's
    [toISOString] is the ECMAScript one without its milliseconds: the
    first 19 characters [YYYY-MM-DDTHH:mm:ss], then [Z]. *)
Theorem toJSON_toISOString t :
  (1000 <= year_of t <= 9999)%Z ->
  toJSON (Some t) = string_of_list_ascii (take 19 (list_ascii_of_string (toISOString t)) ++ ["Z"%char]).
Proof.
  intros Hy. pose proof (toJSON_fields t Hy) as Hj. unfold toISOString. unfold year_of in Hy.
  destruct (civil_from_days (t / msPerDay)%Z) as [[y mo] d]. simpl in Hy.
  rewrite <- (string_of_list_ascii_of_string (toJSON (Some t))), Hj, list_ascii_of_string_of_list_ascii.
  f_equal. rewrite iso_year_4 by done. rewrite !take_app, !length_pad_digits. cbn [List.length Nat.sub].
  rewrite !take_ge by (rewrite ?length_pad_digits; simpl; lia). by simpl.
Qed.

(** C37 (roundtrip): on the years 1000 to 9999 [Date.parse] reads the
    polyfill's string back as the time floored to the second: the
    milliseconds of a Date are lost, so a time with milliseconds does not
    survive [new Date(d.toISOString())]. *)
Theorem toJSON_parse t :
  (Z.abs t <= 8640000000000000)%Z -> (1000 <= year_of t <= 9999)%Z ->
  date_parse (toJSON (Some t)) = Some (t - t mod 1000)%Z.
Proof.
  intros Ht Hy. destruct pow10_small as (P2 & P3 & P4 & P6).
  pose proof (toJSON_fields t Hy) as Hj. unfold year_of in Hy.
  set (day := (t / msPerDay)%Z) in *. set (ms := (t mod msPerDay)%Z) in *.
  assert (Hms : (0 <= ms < msPerDay)%Z) by (apply Z.mod_pos_bound; unfold msPerDay; lia).
  pose proof (civil_from_days_spec day) as Hc.
  destruct (civil_from_days day) as [[y mo] d]. simpl in Hy. destruct Hc as (Hmo & Hd & Hdays & _).
  assert (Hdim : (days_in_month y mo <= 31)%Z) by (unfold days_in_month; repeat case_match; lia).
  destruct (time_of_day_decomp ms Hms) as (Hdec & Hh1 & Hh2 & Hmi & Hss & Hmsr).
  unfold date_parse. rewrite Hj. cbn [app].
  rewrite parse_year_iso by lia. cbn iota beta.
  rewrite opt_field_pad by lia. cbn iota beta.
  rewrite opt_field_pad by lia. cbn iota beta.
  rewrite Ascii.eqb_refl, take_pad_digits0 by lia. cbn iota beta.
  rewrite Ascii.eqb_refl, take_pad_digits0 by lia. cbn iota beta.
  rewrite opt_field_pad by lia. cbn -[Z.add Z.mul Z.sub time_clip days_in_month Z.leb Z.eqb].
  match goal with |- context [if ?b then _ else None] => replace b with true end.
  2:{ symmetry. repeat (apply andb_true_iff; split); try (apply orb_true_iff; left;
        repeat (apply andb_true_iff; split)); bnorm; lia. }
  rewrite <- (time_clip_int (t - t mod 1000)).
  2:{ pose proof (Z.mod_pos_bound t 1000). pose proof (Z.div_mod t 1000). lia. }
  f_equal. f_equal. f_equal. rewrite Hdays.
  pose proof (Z.div_mod t msPerDay ltac:(unfold msPerDay; lia)) as Hdm.
  change (t / msPerDay)%Z with day in Hdm. change (t mod msPerDay)%Z with ms in Hdm.
  assert (Hm : (t mod 1000 = ms mod 1000)%Z).
  { rewrite Hdm. unfold msPerDay. rewrite Z.add_comm, Z.mul_comm.
    replace 86400000%Z with (86400 * 1000)%Z by reflexivity. rewrite Z.mul_assoc, Z.mod_add by lia. done. }
  rewrite Hm. clearbody day ms. unfold msPerDay in *. lia.
Qed.

(** ** The Date setters (ES5.1 15.9.1.10-13, 15.9.5.29-33) *)

Section LocalTime.

(** LocalTZA, in milliseconds. *)
Variable tza : Z.

Definition Day (t : Z) : Z := (t / msPerDay)%Z.
Definition HourFromTime (t : Z) : Z := (t / 3600000 mod 24)%Z.
Definition MinFromTime (t : Z) : Z := (t / 60000 mod 60)%Z.
Definition SecFromTime (t : Z) : Z := (t / 1000 mod 60)%Z.
Definition msFromTime (t : Z) : Z := (t mod 1000)%Z.
Definition MakeTime (h m s ms : Z) : Z := (h * 3600000 + m * 60000 + s * 1000 + ms)%Z.
Definition MakeDate (day time : Z) : Z := (day * msPerDay + time)%Z.
Definition LocalTime (t : Z) : Z := (t + tza)%Z.
Definition UTC (t : Z) : Z := (t - tza)%Z.

(** [TimeClip(UTC(date))] of a local date. *)
Definition clip_utc (date : Z) : option Z := time_clip (Fin (inject_Z (UTC date))).

Definition setMinutes (m : Z) (tv : option Z) : option Z :=
  tv ≫= fun t0 => let t := LocalTime t0 in
  clip_utc (MakeDate (Day t) (MakeTime (HourFromTime t) m (SecFromTime t) (msFromTime t))).

Definition setSeconds (s : Z) (tv : option Z) : option Z :=
  tv ≫= fun t0 => let t := LocalTime t0 in
  clip_utc (MakeDate (Day t) (MakeTime (HourFromTime t) (MinFromTime t) s (msFromTime t))).

Definition setMilliseconds (ms : Z) (tv : option Z) : option Z :=
  tv ≫= fun t0 => let t := LocalTime t0 in
  clip_utc (MakeDate (Day t) (MakeTime (HourFromTime t) (MinFromTime t) (SecFromTime t) ms)).

(** [floorDateToHour(date)]: the new value of the argument, which is
    changed in place when it is a Date and left alone otherwise. *)
Definition floorDateToHour (v : jsval) : jsval :=
  match v with
  | JDate tv => JDate (setMilliseconds 0 (setSeconds 0 (setMinutes 0 tv)))
  | _ => v
  end.

(** ** The setters on a local time *)

(** Adding a multiple of [d], given as [m * d] or [d] times something. *)
Lemma mod_mul_add' d x k : (0 < d)%Z -> ((x + d * k) mod d = x mod d)%Z.
Proof. intros Hd. rewrite Z.mul_comm. apply Z.mod_add. lia. Qed.

(** The nested divisions of a local time by the field sizes. *)
Lemma time_split L :
  (L = 1000 * (L / 1000) + L mod 1000 /\ 0 <= L mod 1000 < 1000 /\
   L / 1000 = 60 * (L / 60000) + L / 1000 mod 60 /\ 0 <= L / 1000 mod 60 < 60 /\
   L / 60000 = 60 * (L / 3600000) + L / 60000 mod 60 /\ 0 <= L / 60000 mod 60 < 60 /\
   L / 3600000 = 24 * (L / msPerDay) + L / 3600000 mod 24 /\ 0 <= L / 3600000 mod 24 < 24 /\
   L mod 60000 = L - 60000 * (L / 60000) /\ L mod 3600000 = L - 3600000 * (L / 3600000))%Z.
Proof.
  assert (E1 : (L / 60000 = L / 1000 / 60)%Z) by (rewrite Z.div_div by lia; reflexivity).
  assert (E2 : (L / 3600000 = L / 60000 / 60)%Z) by (rewrite Z.div_div by lia; reflexivity).
  assert (E3 : (L / msPerDay = L / 3600000 / 24)%Z) by (unfold msPerDay; rewrite Z.div_div by lia; reflexivity).
  pose proof (Z.div_mod L 1000 ltac:(lia)). pose proof (Z.mod_pos_bound L 1000 ltac:(lia)).
  pose proof (Z.div_mod (L / 1000) 60 ltac:(lia)). pose proof (Z.mod_pos_bound (L / 1000) 60 ltac:(lia)).
  pose proof (Z.div_mod (L / 60000) 60 ltac:(lia)). pose proof (Z.mod_pos_bound (L / 60000) 60 ltac:(lia)).
  pose proof (Z.div_mod (L / 3600000) 24 ltac:(lia)). pose proof (Z.mod_pos_bound (L / 3600000) 24 ltac:(lia)).
  pose proof (Z.mod_eq L 60000 ltac:(lia)). pose proof (Z.mod_eq L 3600000 ltac:(lia)). lia.
Qed.

Ltac time_arith L :=
  destruct (time_split L) as (?&?&?&?&?&?&?&?&?&?);
  unfold MakeDate, MakeTime, Day, HourFromTime, MinFromTime, SecFromTime, msFromTime, msPerDay in *; lia.

Lemma setMinutes0_local L :
  MakeDate (Day L) (MakeTime (HourFromTime L) 0 (SecFromTime L) (msFromTime L)) =
  (L - L mod 3600000 + L mod 60000)%Z.
Proof. time_arith L. Qed.

Lemma setSeconds0_local L :
  MakeDate (Day L) (MakeTime (HourFromTime L) (MinFromTime L) 0 (msFromTime L)) = (L - L mod 60000 + L mod 1000)%Z.
Proof. time_arith L. Qed.

Lemma setMilliseconds0_local L :
  MakeDate (Day L) (MakeTime (HourFromTime L) (MinFromTime L) (SecFromTime L) 0) = (L - L mod 1000)%Z.
Proof. time_arith L. Qed.

Lemma clip_step v :
  (- 8640000000000000 <= v - tza <= 8640000000000000)%Z -> clip_utc v = Some (v - tza)%Z.
Proof. intros Hv. unfold clip_utc, UTC. apply time_clip_int. lia. Qed.

(** [floorDateToHour] on a valid Date whose floored value is a time value:
    the three setters compose to the local hour below. *)
Lemma floor_formula t :
  (- 8640000000000000 <= t - (t + tza) mod 3600000)%Z -> (t <= 8640000000000000)%Z ->
  floorDateToHour (JDate (Some t)) = JDate (Some (t - (t + tza) mod 3600000))%Z.
Proof.
  intros H1 H2. unfold floorDateToHour, setMinutes, setSeconds, setMilliseconds, LocalTime. simpl.
  set (L := (t + tza)%Z) in *.
  destruct (time_split L) as (Ha & Ham & Hb & Hbm & Hc & Hcm & _ & _ & E60 & E36).
  set (a := (L / 1000)%Z) in *. set (b := (L / 60000)%Z) in *. set (c := (L / 3600000)%Z) in *.
  rewrite setMinutes0_local, clip_step by lia. simpl.
  replace (L - L mod 3600000 + L mod 60000 - tza + tza)%Z with (L + 60000 * (60 * c - b))%Z by lia.
  assert (M2 : ((L + 60000 * (60 * c - b)) mod 1000 = L mod 1000)%Z).
  { replace (L + 60000 * (60 * c - b))%Z with (L + 1000 * (60 * (60 * c - b)))%Z by lia. apply mod_mul_add'; lia. }
  rewrite setSeconds0_local, mod_mul_add', M2 by lia.
  rewrite clip_step by lia. simpl.
  replace (L + 60000 * (60 * c - b) - L mod 60000 + L mod 1000 - tza + tza)%Z
    with (L + 1000 * (3600 * c - a))%Z by lia.
  rewrite setMilliseconds0_local, mod_mul_add' by lia. rewrite clip_step by lia. f_equal. f_equal. lia.
Qed.

(** C38 (functional): [floorDateToHour] sets a Date whose floored value is
    a time value to the start of its local hour: the result [r] is at most
    an hour before it, at a whole local hour, and flooring [r] again
    leaves it unchanged. *)
Theorem floorDateToHour_spec t :
  (- 8640000000000000 <= t - (t + tza) mod 3600000)%Z -> (t <= 8640000000000000)%Z ->
  let r := (t - (t + tza) mod 3600000)%Z in
  floorDateToHour (JDate (Some t)) = JDate (Some r) /\ (r <= t < r + 3600000)%Z /\
  ((r + tza) mod 3600000 = 0)%Z /\ floorDateToHour (JDate (Some r)) = JDate (Some r).
Proof.
  intros H1 H2 r. pose proof (Z.mod_pos_bound (t + tza) 3600000 ltac:(lia)) as Hm.
  assert (Hr : ((r + tza) mod 3600000 = 0)%Z).
  { unfold r. rewrite (Z.mod_eq (t + tza) 3600000) by lia.
    replace (t - (t + tza - 3600000 * ((t + tza) / 3600000)) + tza)%Z
      with (0 + 3600000 * ((t + tza) / 3600000))%Z by lia.
    rewrite mod_mul_add' by lia. done. }
  split; [by apply floor_formula|]. split; [unfold r; lia|]. split; [done|].
  rewrite floor_formula by (rewrite ?Hr; unfold r in *; lia). by rewrite Hr, Z.sub_0_r.
Qed.

End LocalTime.

(** ** Witnesses *)

(** 2015-01-01T00:00:00.123Z. *)
Definition demo_time : Z := 1420070400123.

Lemma toJSON_toISOString_witness :
  (1000 <= year_of demo_time <= 9999)%Z /\
  toJSON (Some demo_time) = string_of_list_ascii (take 19 (list_ascii_of_string (toISOString demo_time)) ++ ["Z"%char]).
Proof.
  assert (Hy : (1000 <= year_of demo_time <= 9999)%Z) by (split; apply Z.leb_le; vm_compute; reflexivity).
  split; [exact Hy|]. apply toJSON_toISOString, Hy.
Defined.

Lemma toJSON_parse_witness :
  (1000 <= year_of demo_time <= 9999)%Z /\ date_parse (toJSON (Some demo_time)) = Some (demo_time - 123)%Z.
Proof.
  assert (Hy : (1000 <= year_of demo_time <= 9999)%Z) by (split; apply Z.leb_le; vm_compute; reflexivity).
  split; [exact Hy|]. rewrite (toJSON_parse demo_time); [reflexivity | unfold demo_time; lia | exact Hy].
Defined.

(** At UTC+02:00, 01:04:05.123 UTC floors to 01:00:00.000 UTC. *)
Lemma floorDateToHour_spec_witness :
  floorDateToHour 7200000 (JDate (Some (demo_time + 3845000)%Z)) = JDate (Some (demo_time - 123 + 3600000)%Z).
Proof.
  destruct (floorDateToHour_spec 7200000 (demo_time + 3845000)) as [H _];
    [apply Z.leb_le; vm_compute; reflexivity | apply Z.leb_le; vm_compute; reflexivity |].
  rewrite H. vm_compute. reflexivity.
Defined.

End Utils.
