(* ===== verification/Frame.v ===== *)
(** * One animation frame: [internal/LayerObject.js]

    A [LayerObject] wraps one time-stamped configuration and the OpenLayers
    layer created from it on first load.  Module [Frame] models its private
    state ([_layer], [_state.id], [_state.error]) as the record [frame], its
    public methods and its three layer event handlers as functions, and the
    whole object (methods and events in any order) as the step relation
    [frame_step].  The OpenLayers layer is modelled by what the object reads
    back from it: whether it is in a map, its visibility and its opacity. *)

From S2P Require Import Prelude.
From Stdlib Require Import String Reals.
Local Open Scope nat_scope.

Module Frame.

(** [_STATE_PRE_LOADING = 1], [_STATE_LOADING = 2], [_STATE_READY = 3];
    [undefined] is [None] of [option load_state]. *)
Inductive load_state := PreLoading | Loading | Ready.

#[export] Instance load_state_eq_dec : EqDecision load_state.
Proof. solve_decision. Defined.

(** [createLayer] builds a WMTS layer if [config.wmts] is set, otherwise a
    WMS layer if [config.wms] is set, otherwise nothing. *)
Inductive service := Wmts | Wms | NoService.

(** What the frame reads back from its OpenLayers layer: [layer.map] set,
    [layer.visibility], [layer.opacity]. *)
Record ol_layer := mk_layer {
  ol_in_map : bool;
  ol_visible : bool;
  ol_opacity : R
}.

(** The per-frame configuration clone: its time (epoch milliseconds, the
    [TIME] parameter) and which service it configures. *)
Record frame_config := mk_config {
  fc_time : Z;
  fc_service : service
}.

Record frame := mk_frame {
  fr_config : frame_config;
  fr_layer : option ol_layer;        (* _layer *)
  fr_state : option load_state;      (* _state.id *)
  fr_error : option string           (* _state.error *)
}.

(** [new LayerObject(config, map, observer)]. *)
Definition new_frame (cfg : frame_config) : frame := mk_frame cfg None None None.

(** [resetState]. *)
Definition resetState (f : frame) : frame :=
  mk_frame (fr_config f) (fr_layer f) None None.

Definition with_layer (f : frame) (l : ol_layer) : frame :=
  mk_frame (fr_config f) (Some l) (fr_state f) (fr_error f).

(** [createLayer]: a fresh OpenLayers layer is outside any map and, by the
    OpenLayers default, visible and opaque. *)
Definition createLayer (cfg : frame_config) : option ol_layer :=
  match fc_service cfg with
  | Wmts | Wms => Some (mk_layer false true 1%R)
  | NoService => None
  end.

(** [loadLayer]: create the layer if needed; add it to the map (state
    PRE_LOADING) if it is not there; make it visible (state PRE_LOADING) if
    it is hidden. *)
Definition loadLayer (f : frame) : frame :=
  let layer := match fr_layer f with
               | Some l => Some l
               | None => createLayer (fr_config f)
               end in
  match layer with
  | None => f
  | Some l =>
      let st1 := if ol_in_map l then fr_state f else Some PreLoading in
      let l1 := mk_layer true (ol_visible l) (ol_opacity l) in
      let st2 := if ol_visible l1 then st1 else Some PreLoading in
      let l2 := mk_layer true true (ol_opacity l1) in
      mk_frame (fr_config f) (Some l2) st2 (fr_error f)
  end.

(** [releaseContent]: remove the layer from its map, forget it, reset. *)
Definition releaseContent (f : frame) : frame :=
  mk_frame (fr_config f) None None None.

(** [setVisibility(visibility)]: hiding resets the state because the layer
    will have to be loaded again. *)
Definition setVisibility (v : bool) (f : frame) : frame :=
  match fr_layer f with
  | None => f
  | Some l =>
      let f' := if v then f else resetState f in
      with_layer f' (mk_layer (ol_in_map l) v (ol_opacity l))
  end.

Definition setOpacity (o : R) (f : frame) : frame :=
  match fr_layer f with
  | None => f
  | Some l => with_layer f (mk_layer (ol_in_map l) (ol_visible l) o)
  end.

(** [getOpacity]: [undefined] when there is no layer. *)
Definition getOpacity (f : frame) : option R := ol_opacity <$> fr_layer f.

(** The event handlers.  The boolean tells whether the observer callback
    ([layerLoadStartCallback], [layerLoadEndCallback]) is invoked. *)
Definition on_loadstart (f : frame) : frame * bool :=
  (mk_frame (fr_config f) (fr_layer f) (Some Loading) None, true).

(** [loadend] is ignored when the content was released while loading. *)
Definition on_loadend (f : frame) : frame * bool :=
  match fr_state f with
  | Some _ => (mk_frame (fr_config f) (fr_layer f) (Some Ready) (fr_error f), true)
  | None => (f, false)
  end.

Definition on_tileerror (f : frame) : frame :=
  mk_frame (fr_config f) (fr_layer f) (fr_state f) (Some "tileerror"%string).

(** The queries. *)
Definition isDefaultState (f : frame) : bool :=
  match fr_state f, fr_error f with None, None => true | _, _ => false end.

Definition isLoading (f : frame) : bool :=
  match fr_state f with Some PreLoading | Some Loading => true | _ => false end.

Definition isLoaded (f : frame) : bool :=
  match fr_state f with Some Ready => true | _ => false end.

Definition getError (f : frame) : option string := fr_error f.

(** A frame with its methods called and its layer's events delivered in any
    order.  OpenLayers starts loading only a layer that is in a map and
    visible; [loadend] and [tileerror] come from any existing layer. *)
Inductive frame_step : frame -> frame -> Prop :=
| fs_load f : frame_step f (loadLayer f)
| fs_release f : frame_step f (releaseContent f)
| fs_visibility v f : frame_step f (setVisibility v f)
| fs_opacity o f : frame_step f (setOpacity o f)
| fs_loadstart f l :
    fr_layer f = Some l -> ol_in_map l = true -> ol_visible l = true ->
    frame_step f (on_loadstart f).1
| fs_loadend f l : fr_layer f = Some l -> frame_step f (on_loadend f).1
| fs_tileerror f l : fr_layer f = Some l -> frame_step f (on_tileerror f).

(** The well-formedness of a frame: no state without a layer, and a layer
    whose load is under way or done is in the map and visible. *)
Definition frame_wf (f : frame) : Prop :=
  (fr_layer f = None -> fr_state f = None /\ fr_error f = None) /\
  (fr_state f <> None ->
     exists l, fr_layer f = Some l /\ ol_in_map l = true /\ ol_visible l = true).

(** The edges of the load state machine the code has. *)
Inductive state_edge : option load_state -> option load_state -> Prop :=
| edge_stay s : state_edge s s
| edge_reset s : state_edge s None
| edge_preload : state_edge None (Some PreLoading)
| edge_start s : state_edge s (Some Loading)
| edge_ready s : state_edge (Some s) (Some Ready).

(** ** Properties of one frame *)

Ltac destruct_frame f :=
  destruct f as [?cfg [[[|] [|] ?op]|] ?st ?err].

#[export] Instance frame_view : FrameView frame := {
  fv_default := isDefaultState;
  fv_loading := isLoading;
  fv_loaded := isLoaded;
  fv_load := loadLayer
}.

(** The frame discharges the interface the scheduler is proved against. *)
#[export] Instance frame_view_laws : FrameViewLaws frame.
Proof.
  split; intros f; unfold fv_default, fv_loading, fv_loaded, fv_load; simpl.
  - unfold isLoading, isDefaultState. destruct (fr_state f) as [[]|]; done.
  - unfold isLoaded, isDefaultState. destruct (fr_state f) as [[]|]; done.
  - unfold isLoaded, isLoading. destruct (fr_state f) as [[]|]; done.
  - unfold isDefaultState, loadLayer, createLayer.
    destruct_frame f; destruct st, err; try done; intros _; simpl;
      try (destruct (fc_service cfg)); simpl; auto.
Qed.

Lemma wf_layer_in_map cfg l st err :
  ol_in_map l = true -> ol_visible l = true ->
  frame_wf (mk_frame cfg (Some l) st err).
Proof. intros Hm Hv. split; [done|]. intros _. eauto. Qed.

Lemma loadLayer_wf f : frame_wf f -> frame_wf (loadLayer f).
Proof.
  intros Hwf. destruct f as [cfg [l|] st err]; unfold loadLayer; simpl.
  - by apply wf_layer_in_map.
  - unfold createLayer. destruct (fc_service cfg); simpl; [..|done];
      by apply wf_layer_in_map.
Qed.

Lemma releaseContent_wf f : frame_wf (releaseContent f).
Proof. split; [done|]. by intros []. Qed.

Lemma setVisibility_wf v f : frame_wf f -> frame_wf (setVisibility v f).
Proof.
  intros Hwf. destruct f as [cfg [l|] st err]; [|exact Hwf]. destruct Hwf as [_ Hs].
  destruct v; simpl in *; split; try done.
  intros Hst. destruct (Hs Hst) as (l' & [= <-] & Hm & Hv). eauto.
Qed.

Lemma setOpacity_wf o f : frame_wf f -> frame_wf (setOpacity o f).
Proof.
  intros Hwf. destruct f as [cfg [l|] st err]; [|exact Hwf]. destruct Hwf as [_ Hs].
  simpl in *. split; [done|].
  intros Hst. destruct (Hs Hst) as (l' & [= <-] & Hm & Hv). eauto.
Qed.

Lemma on_loadstart_wf f l :
  fr_layer f = Some l -> ol_in_map l = true -> ol_visible l = true -> frame_wf (on_loadstart f).1.
Proof. intros Hl Hm Hv. destruct f as [cfg lay st err]; simpl in *; subst. by apply wf_layer_in_map. Qed.

Lemma on_loadend_wf f : frame_wf f -> frame_wf (on_loadend f).1.
Proof.
  intros [Hn Hs]. destruct f as [cfg lay st err]; simpl in *.
  destruct st; [|by split]. simpl. split; [|intros _; by apply Hs].
  intros Hl. by destruct (Hn Hl).
Qed.

Lemma on_tileerror_wf f l : fr_layer f = Some l -> frame_wf f -> frame_wf (on_tileerror f).
Proof. intros Hl [_ Hs]. destruct f as [cfg lay st err]; simpl in *; subst. by split. Qed.

(** every operation and every layer event keeps a frame well formed. *)
Theorem frame_step_wf f f' : frame_wf f -> frame_step f f' -> frame_wf f'.
Proof.
  intros Hwf Hstep. destruct Hstep as [f|f|v f|o f|f l Hl Hm Hv|f l Hl|f l Hl].
  - by apply loadLayer_wf.
  - apply releaseContent_wf.
  - by apply setVisibility_wf.
  - by apply setOpacity_wf.
  - by eapply on_loadstart_wf.
  - by apply on_loadend_wf.
  - by eapply on_tileerror_wf.
Qed.

(** the load state only moves along the edges of [state_edge]: it is
    never set to PRE_LOADING once a load is under way or done, and it
    becomes READY only from a state that is set. *)
Theorem frame_step_edge f f' :
  frame_wf f -> frame_step f f' -> state_edge (fr_state f) (fr_state f').
Proof.
  intros [Hn Hs] Hstep.
  destruct Hstep as [f|f|[] f|o f|f l Hl Hm Hv|f l Hl|f l Hl];
    destruct f as [cfg lay st err]; simpl in *; try constructor.
  - unfold loadLayer; simpl. destruct lay as [[[] [] op]|]; simpl.
    + constructor.
    + destruct st; [|constructor]. by destruct (Hs ltac:(done)) as (? & [= <-] & _ & ?).
    + destruct st; [|constructor]. by destruct (Hs ltac:(done)) as (? & [= <-] & ? & _).
    + destruct st; [|constructor]. by destruct (Hs ltac:(done)) as (? & [= <-] & ? & _).
    + destruct (Hn eq_refl) as [-> _]. unfold createLayer.
      destruct (fc_service cfg); simpl; constructor.
  - unfold setVisibility. destruct lay; simpl; constructor.
  - unfold setVisibility. destruct lay; simpl; constructor.
  - unfold setOpacity. destruct lay; simpl; constructor.
  - unfold on_loadend. destruct st; simpl; constructor.
Qed.

(** [loadLayer] is idempotent: a second call neither recreates the layer
    nor changes the state. *)
Theorem loadLayer_idempotent f : loadLayer (loadLayer f) = loadLayer f.
Proof.
  destruct f as [[t []] [[[] [] op]|] st err]; reflexivity.
Qed.

(** A frame reachable from its construction. *)
Definition frame_reachable (cfg : frame_config) (f : frame) : Prop :=
  rtc frame_step (new_frame cfg) f.

Lemma frame_reachable_wf cfg f : frame_reachable cfg f -> frame_wf f.
Proof.
  unfold frame_reachable. intros Hr.
  assert (Hw0 : frame_wf (new_frame cfg)) by (split; [done|]; by intros []).
  revert Hw0. induction Hr as [|x y z Hxy Hyz IH]; [done|].
  intros Hx. apply IH. by eapply frame_step_wf.
Qed.

(** C18: a frame with a buildable layer can reach a state that is neither
    default, loading nor loaded: hidden while loading (which resets the
    state), then hit by a late [tileerror] of its hidden layer.  The
    scheduler only starts frames in the default state and counts only
    loaded ones, so such a frame is never loaded again. *)
Theorem frame_stuck_reachable cfg :
  fc_service cfg <> NoService ->
  exists f, frame_reachable cfg f /\
    isDefaultState f = false /\ isLoading f = false /\ isLoaded f = false.
Proof.
  intros Hsvc.
  assert (Hc : exists op, createLayer cfg = Some (mk_layer false true op))
    by (unfold createLayer; destruct (fc_service cfg); eauto; done).
  destruct Hc as [op Hc].
  set (f1 := loadLayer (new_frame cfg)).
  assert (Hf1 : fr_layer f1 = Some (mk_layer true true op))
    by (unfold f1, loadLayer; simpl; by rewrite Hc).
  set (f2 := (on_loadstart f1).1).
  set (f3 := setVisibility false f2).
  set (f4 := on_tileerror f3).
  exists f4. split; [|unfold f4, f3, f2, setVisibility; simpl; by rewrite Hf1].
  unfold frame_reachable.
  apply rtc_l with f1; [constructor|].
  apply rtc_l with f2; [by eapply fs_loadstart|].
  apply rtc_l with f3; [constructor|].
  apply rtc_once. eapply fs_tileerror. unfold f3, f2, setVisibility. simpl.
  by rewrite Hf1.
Qed.

(** the code's machine has edges the chain Unloaded, PreLoading,
    Loading, Ready does not: a READY frame whose layer is redrawn goes back
    to LOADING, and a PRE_LOADING frame whose [loadend] arrives before any
    [loadstart] goes straight to READY. *)
Theorem frame_edges_outside_chain :
  exists cfg f g h k,
    frame_reachable cfg f /\ fr_state f = Some Ready /\
    frame_step f g /\ fr_state g = Some Loading /\
    frame_reachable cfg h /\ fr_state h = Some PreLoading /\
    frame_step h k /\ fr_state k = Some Ready.
Proof.
  set (cfg := mk_config 0 Wms).
  set (h := loadLayer (new_frame cfg)).
  set (f := (on_loadend (on_loadstart h).1).1).
  exists cfg, f, (on_loadstart f).1, h, (on_loadend h).1.
  assert (Hh : frame_reachable cfg h) by (apply rtc_once; constructor).
  assert (Hf : frame_reachable cfg f).
  { eapply rtc_r; [eapply rtc_r; [exact Hh|]|].
    - by eapply fs_loadstart.
    - by eapply fs_loadend. }
  repeat split; try done.
  - by eapply fs_loadstart.
  - by eapply fs_loadend.
Qed.

(** The frames the scheduler can start: no layer yet, and a configuration
    that builds one (every frame right after [loadAnimation]). *)
Definition frame_startable (f : frame) : Prop :=
  fr_layer f = None /\ fc_service (fr_config f) <> NoService.

Lemma frame_load_progress f :
  frame_startable f -> isDefaultState f = true -> isDefaultState (loadLayer f) = false.
Proof.
  intros [Hl Hs] _. destruct f as [[t svc] lay st err]; simpl in *. subst lay.
  unfold loadLayer, createLayer; simpl. by destruct svc.
Qed.

(** ** Witnesses *)

Definition wms_frame : frame := new_frame (mk_config 0 Wms).

Lemma new_frame_wf cfg : frame_wf (new_frame cfg).
Proof. split; [done|]. by intros []. Qed.

Lemma frame_step_wf_witness :
  frame_wf wms_frame /\ frame_step wms_frame (loadLayer wms_frame) /\
  frame_wf (loadLayer wms_frame).
Proof.
  split; [apply new_frame_wf|]. split; [constructor|].
  apply (frame_step_wf wms_frame); [apply new_frame_wf|constructor].
Defined.

Lemma frame_step_edge_witness :
  frame_wf wms_frame /\ frame_step wms_frame (loadLayer wms_frame) /\
  state_edge (fr_state wms_frame) (fr_state (loadLayer wms_frame)).
Proof.
  split; [apply new_frame_wf|]. split; [constructor|].
  apply (frame_step_edge wms_frame); [apply new_frame_wf|constructor].
Defined.

Lemma frame_stuck_reachable_witness :
  fc_service (fr_config wms_frame) <> NoService /\
  exists f, frame_reachable (fr_config wms_frame) f /\
    isDefaultState f = false /\ isLoading f = false /\ isLoaded f = false.
Proof.
  split; [discriminate|]. apply frame_stuck_reachable. discriminate.
Defined.

End Frame.
