(* ===== verification/Transition.v ===== *)
(** * The opacity transition engine ([internal/TransitionUtils.js])

    [TransitionUtils] is a singleton module: a table of easing formulas
    ([_easingFormulas]), the array of transitions under way
    ([_transitionArray]) and [opacityTransition], which starts a transition
    and drives it with [requestAnimationFrame].

    - The easing formulas are functions on [R], [Math.pow], [Math.sqrt],
      [Math.sin] and [Math.PI] being [Rpower], [sqrt], [sin] and [PI].
    - A transition object literal is a [tobj]; JavaScript object identity is
      a [nat] key of the store [e_store], so that the array and the pending
      [requestAnimationFrame] closures share the object, as in the code,
      and the [removed] flag set by [checkRestart] is seen by the closure.
    - [new Date()] is the clock [now : Z] (milliseconds) passed to each step.
    - The [callback] calls ([object.setOpacity]) are returned as [write]s,
      and the closures handed to [requestAnimationFrame] as the identities
      they will run on. *)

From S2P Require Import Prelude.
From Stdlib Require Import Reals Lra String.
From stdpp Require Import gmap.

Module Transition.

Local Open Scope R_scope.

#[export] Instance R_eq_dec : EqDecision R := Req_dec_T.
#[export] Instance R_le_dec (x y : R) : Decision (x <= y) := Rle_dec x y.
#[export] Instance R_lt_dec (x y : R) : Decision (x < y) := Rlt_dec x y.

(** ** The easing formulas *)

(** The keys of [_easingFormulas]. *)
Inductive easing := Linear | EaseIn | EaseOut | EaseInOut | BackIn | BackOut | Elastic | Bounce.

#[export] Instance easing_eq_dec : EqDecision easing.
Proof. solve_decision. Defined.

(** [checkTransitionStyle]: [_easingFormulas.hasOwnProperty(transitionStyle)],
    with the formula the key selects. *)
Definition easing_of_name (s : string) : option easing :=
  if String.eqb s "linear" then Some Linear
  else if String.eqb s "ease-in" then Some EaseIn
  else if String.eqb s "ease-out" then Some EaseOut
  else if String.eqb s "ease-in-out" then Some EaseInOut
  else if String.eqb s "back-in" then Some BackIn
  else if String.eqb s "back-out" then Some BackOut
  else if String.eqb s "elastic" then Some Elastic
  else if String.eqb s "bounce" then Some Bounce
  else None.

Definition checkTransitionStyle (s : string) : bool := bool_decide (is_Some (easing_of_name s)).

(** [Math.pow(x, y)] for [x >= 0] and [y > 0], the only case the formulas
    use: [Rpower 0 y] is [1] in the Standard Library while [Math.pow(0, y)]
    is [0]. *)
Definition js_pow (x y : R) : R := if Req_dec_T x 0 then 0 else Rpower x y.

(** [Math.pow(Math.abs(x), 1 / 3) * (x < 0 ? -1 : 1)]. *)
Definition signed_cbrt (x : R) : R := js_pow (Rabs x) (1 / 3) * (if Rlt_dec x 0 then -1 else 1).

Definition ease_in_out (n : R) : R :=
  let q := 0.48 - n / 1.04 in
  let Q := sqrt (0.1734 + q * q) in
  let X := signed_cbrt (Q - q) in
  let Y := signed_cbrt (- Q - q) in
  let t := X + Y + 0.5 in
  (1 - t) * 3 * t * t + t * t * t.

Definition bounce (n : R) : R :=
  let s := 7.5625 in
  let p := 2.75 in
  if Rlt_dec n (1 / p) then s * n * n
  else if Rlt_dec n (2 / p) then let n := n - 1.5 / p in s * n * n + 0.75
  else if Rlt_dec n (2.5 / p) then let n := n - 2.25 / p in s * n * n + 0.9375
  else let n := n - 2.625 / p in s * n * n + 0.984375.

(** [_easingFormulas[style](n)]. *)
Definition ease (e : easing) (n : R) : R :=
  match e with
  | Linear => n
  | EaseIn => js_pow n 1.7
  | EaseOut => js_pow n 0.48
  | EaseInOut => ease_in_out n
  | BackIn => let s := 1.70158 in n * n * ((s + 1) * n - s)
  | BackOut => let n := n - 1 in let s := 1.70158 in n * n * ((s + 1) * n + s) + 1
  | Elastic =>
      if Req_dec_T n 0 then n else if Req_dec_T n 1 then n
      else Rpower 2 (-10 * n) * sin ((n - 0.075) * (2 * PI) / 0.3) + 1
  | Bounce => bounce n
  end.

(** ** Transition objects and the engine state *)

(** A number as [checkNum] sees it: [None] is [undefined], [null] or [NaN]. *)
Definition jsnum := option R.

(** [checkNum(num)]. *)
Definition checkNum (x : jsnum) : bool := bool_decide (is_Some x).

(** The object literal of [opacityTransition]: [{object, callback,
    beginValue, targetValue, transitionStyle, transitionTime}], with the
    [beginTime] and [removed] fields the flow adds.  [callback] is the
    object's [setOpacity], always a function for the frames the container
    passes; the writes it makes are the engine's [write]s. *)
Record tobj := mk_tobj {
  t_object : nat;
  t_beginValue : jsnum;
  t_targetValue : jsnum;
  t_style : string;
  t_time : jsnum;
  t_beginTime : option Z;
  t_removed : bool
}.

(** The module state: the transition objects by identity, [_transitionArray]
    (identities, in array order) and the next fresh identity. *)
Record engine := mk_engine {
  e_store : gmap nat tobj;
  e_array : list nat;
  e_next : nat
}.

Definition engine_empty : engine := mk_engine ∅ [] 0.

(** A call [object.setOpacity(value)] made by the transition [w_id]. *)
Record write := mk_write { w_id : nat; w_object : nat; w_value : R }.

Definition set_tobj (e : engine) (id : nat) (o : tobj) : engine :=
  mk_engine (<[id := o]> (e_store e)) (e_array e) (e_next e).

Definition set_array (e : engine) (arr : list nat) : engine :=
  mk_engine (e_store e) arr (e_next e).

Definition with_removed (o : tobj) : tobj :=
  mk_tobj (t_object o) (t_beginValue o) (t_targetValue o) (t_style o) (t_time o) (t_beginTime o) true.

Definition with_beginTime (o : tobj) (t : Z) : tobj :=
  mk_tobj (t_object o) (t_beginValue o) (t_targetValue o) (t_style o) (t_time o) (Some t) (t_removed o).

(** The transition of array entry [id] moves [obj]. *)
Definition moves (e : engine) (obj id : nat) : Prop :=
  match e_store e !! id with Some o => t_object o = obj | None => False end.

#[export] Instance moves_dec e obj id : Decision (moves e obj id).
Proof. unfold moves. destruct (e_store e !! id); apply _. Defined.

(** ** The operations *)

(** [checkRestart(object)]: the first array entry moving [object] is marked
    [removed] and spliced out of the array. *)
Definition checkRestart (e : engine) (obj : nat) : engine * bool :=
  match list_find (moves e obj) (e_array e) with
  | Some (i, id) =>
      match e_store e !! id with
      | Some o => (set_array (set_tobj e id (with_removed o)) (delete i (e_array e)), true)
      | None => (set_array e (delete i (e_array e)), true)
      end
  | None => (e, false)
  end.

(** [removeTransitionObject(object)]: splice it out of the array if there. *)
Definition removeTransitionObject (e : engine) (id : nat) : engine :=
  match index_of id (e_array e) with
  | Some i => set_array e (delete i (e_array e))
  | None => e
  end.

(** The guard of [transition]: the object is not removed and every number
    is valid, the style known and the time not negative.  It gives the
    formula, the values and the duration. *)
Definition transition_guard (o : tobj) : option (easing * R * R * R) :=
  if t_removed o then None else
  match t_beginValue o, t_targetValue o, easing_of_name (t_style o), t_time o with
  | Some b, Some tg, Some es, Some T => if Rle_dec 0 T then Some (es, b, tg, T) else None
  | _, _, _, _ => None
  end.

(** [if (object.beginTime === undefined) object.beginTime = new Date();] *)
Definition beginTime_or (o : tobj) (now : Z) : Z :=
  match t_beginTime o with Some t => t | None => now end.

(** [transition(object)] at time [now]: the engine after the step, the
    writes, and the closures [requestAnimationFrame] was given ([[id]]
    when the transition continues). *)
Definition transition (now : Z) (e : engine) (id : nat) : engine * list write * list nat :=
  match e_store e !! id with
  | Some o =>
      match transition_guard o with
      | Some (es, b, tg, T) =>
          let bt := beginTime_or o now in
          let e1 := set_tobj e id (with_beginTime o bt) in
          if bool_decide (IZR bt + T <= IZR now) || bool_decide (T = 0) then
            (removeTransitionObject e1 id, [mk_write id (t_object o) tg], [])
          else
            let v := b + (tg - b) * ease es ((IZR now - IZR bt) / T) in
            (e1, [mk_write id (t_object o) v], [id])
      | None => (removeTransitionObject e id, [], [])
      end
  | None => (removeTransitionObject e id, [], [])
  end.

(** [opacityTransition(object, targetValue, transitionStyle, time)] at time
    [now], [begin] being [object.getOpacity()]. *)
(** [checkRestart(object)], then the new transition object literal pushed
    into [_transitionArray]; its identity is the fresh [e_next e]. *)
Definition push_transition (e : engine) (x : nat) (begin target : jsnum) (style : string)
    (time : jsnum) : engine :=
  let e1 := (checkRestart e x).1 in
  let o := mk_tobj x begin target style time None false in
  mk_engine (<[e_next e := o]> (e_store e1)) (e_array e1 ++ [e_next e]) (S (e_next e)).

Definition opacityTransition (now : Z) (e : engine) (obj : option nat) (begin target : jsnum)
    (style : string) (time : jsnum) : engine * list write * list nat :=
  match obj with
  | None => (e, [], [])
  | Some x => transition now (push_transition e x begin target style time) (e_next e)
  end.

(** One animation frame at time [now]: run the pending closures in order,
    collecting the writes and the closures requested for the next frame. *)
Fixpoint run_frame (now : Z) (e : engine) (pending : list nat) : engine * list write * list nat :=
  match pending with
  | [] => (e, [], [])
  | id :: rest =>
      let '(e1, ws, again) := transition now e id in
      let '(e2, ws', next) := run_frame now e1 rest in
      (e2, ws ++ ws', again ++ next)
  end.

(** ** The browser loop around the engine *)

(** The engine with the closures waiting for the next animation frame. *)
Record world := mk_world { w_engine : engine; w_pending : list nat }.

(** A call of [opacityTransition] from the container, or an animation frame
    running every pending closure; each with the writes it makes. *)
Inductive wstep : world -> list write -> world -> Prop :=
| ws_start now e pend obj b tg st T e' ws fr :
    opacityTransition now e obj b tg st T = (e', ws, fr) ->
    wstep (mk_world e pend) ws (mk_world e' (pend ++ fr))
| ws_frame now e pend e' ws next :
    run_frame now e pend = (e', ws, next) ->
    wstep (mk_world e pend) ws (mk_world e' next).

Inductive wsteps : world -> list write -> world -> Prop :=
| wsteps_refl w : wsteps w [] w
| wsteps_cons w1 ws1 w2 ws2 w3 :
    wstep w1 ws1 w2 -> wsteps w2 ws2 w3 -> wsteps w1 (ws1 ++ ws2) w3.

(** ** Well-formed engines *)

Definition live (e : engine) (id : nat) : Prop :=
  exists o, e_store e !! id = Some o /\ t_removed o = false.

(** The array has no duplicates and holds live transitions only, every
    identity used is below [e_next], and no two array entries move the same
    object. *)
Record engine_wf (e : engine) : Prop := {
  wf_nodup : NoDup (e_array e);
  wf_live : forall id, id ∈ e_array e -> live e id;
  wf_fresh : forall id, is_Some (e_store e !! id) -> (id < e_next e)%nat;
  wf_unique : forall x i j, i ∈ e_array e -> j ∈ e_array e -> moves e x i -> moves e x j -> i = j
}.

(** The store only grows, keeps each object's target and never clears a
    [removed] flag. *)
Definition store_mono (e e' : engine) : Prop :=
  (e_next e <= e_next e')%nat /\
  forall j o, e_store e !! j = Some o ->
    exists o', e_store e' !! j = Some o' /\ t_object o' = t_object o /\
               (t_removed o = true -> t_removed o' = true).

Lemma store_mono_refl e : store_mono e e.
Proof. split; [lia|]. intros j o Hj. exists o. auto. Qed.

Lemma store_mono_trans e1 e2 e3 : store_mono e1 e2 -> store_mono e2 e3 -> store_mono e1 e3.
Proof.
  intros [Hn1 H1] [Hn2 H2]. split; [lia|]. intros j o Hj.
  destruct (H1 j o Hj) as (o1 & Ho1 & Ht1 & Hr1). destruct (H2 j o1 Ho1) as (o2 & Ho2 & Ht2 & Hr2).
  exists o2. repeat split; [done | congruence | auto].
Qed.

Lemma transition_guard_live o es b tg T :
  transition_guard o = Some (es, b, tg, T) ->
  t_removed o = false /\ t_beginValue o = Some b /\ t_targetValue o = Some tg /\
  easing_of_name (t_style o) = Some es /\ t_time o = Some T /\ 0 <= T.
Proof.
  unfold transition_guard. destruct (t_removed o); [done|].
  destruct (t_beginValue o) as [b0|], (t_targetValue o) as [t0|], (easing_of_name _) as [e0|],
    (t_time o) as [T0|]; try done.
  destruct (Rle_dec 0 T0); [intros [= <- <- <- <-]; by repeat split | done].
Qed.

(** *** [removeTransitionObject] *)

Lemma removeTransitionObject_store e id :
  e_store (removeTransitionObject e id) = e_store e /\ e_next (removeTransitionObject e id) = e_next e.
Proof. unfold removeTransitionObject. by destruct (index_of _ _). Qed.

Lemma removeTransitionObject_array e id j :
  NoDup (e_array e) -> j ∈ e_array (removeTransitionObject e id) <-> j ∈ e_array e /\ j <> id.
Proof.
  intros Hnd. unfold removeTransitionObject. destruct (index_of id (e_array e)) eqn:E; simpl.
  - by apply index_of_delete.
  - apply index_of_None in E. split; [intros Hj; split; [done | intros ->; done] | tauto].
Qed.

Lemma removeTransitionObject_wf e id : engine_wf e -> engine_wf (removeTransitionObject e id).
Proof.
  intros [Hnd Hl Hf Hu]. pose proof (removeTransitionObject_array e id) as Ha.
  unfold removeTransitionObject in *. destruct (index_of _ _); [|by constructor].
  constructor; simpl in *; auto with anim.
  - intros j Hj. apply Hl. by apply (proj1 (Ha j Hnd) Hj).
  - intros x i j Hi Hj. apply Hu; [exact (proj1 (proj1 (Ha i Hnd) Hi)) | exact (proj1 (proj1 (Ha j Hnd) Hj))].
Qed.

Lemma removeTransitionObject_mono e id : store_mono e (removeTransitionObject e id).
Proof.
  destruct (removeTransitionObject_store e id) as [Hs Hn]. split; [lia|].
  intros j o Hj. rewrite Hs. exists o. auto.
Qed.

(** *** Updating one transition object in place *)

Lemma set_tobj_wf e id o o' :
  engine_wf e -> e_store e !! id = Some o -> t_object o' = t_object o ->
  (id ∈ e_array e -> t_removed o' = t_removed o) -> engine_wf (set_tobj e id o').
Proof.
  intros [Hnd Hl Hf Hu] Ho Hobj Hrem.
  assert (Hmv : forall x j, moves (set_tobj e id o') x j <-> moves e x j).
  { intros x j. unfold moves; simpl. destruct (decide (j = id)) as [->|Hne].
    - by rewrite lookup_insert_eq, Ho, Hobj.
    - by rewrite lookup_insert_ne by congruence. }
  constructor; simpl; [done| | |].
  - intros j Hj. destruct (Hl j Hj) as (o1 & Ho1 & Hr1). unfold live; simpl.
    destruct (decide (j = id)) as [->|Hne].
    + rewrite lookup_insert_eq. exists o'. split; [done|]. rewrite Hrem by done. congruence.
    + rewrite lookup_insert_ne by congruence. eauto.
  - intros j Hj. destruct (decide (j = id)) as [->|Hne]; [apply Hf; by rewrite Ho|].
    rewrite lookup_insert_ne in Hj by congruence. by apply Hf.
  - intros x i j Hi Hj Hmi Hmj. apply (Hu x); [done | done | by apply Hmv | by apply Hmv].
Qed.

Lemma set_tobj_mono e id o o' :
  e_store e !! id = Some o -> t_object o' = t_object o ->
  (t_removed o = true -> t_removed o' = true) -> store_mono e (set_tobj e id o').
Proof.
  intros Ho Hobj Hrem. split; [simpl; lia|]. intros j o1 Hj. simpl.
  destruct (decide (j = id)) as [->|Hne].
  - rewrite lookup_insert_eq. rewrite Ho in Hj. injection Hj as <-. eauto.
  - rewrite lookup_insert_ne by congruence. eauto.
Qed.

Lemma set_array_wf e arr :
  engine_wf e -> NoDup arr -> (forall j, j ∈ arr -> j ∈ e_array e) -> engine_wf (set_array e arr).
Proof.
  intros [Hnd Hl Hf Hu] Hnd' Hsub. constructor; simpl; [done | | done |].
  - intros j Hj. apply Hl; auto.
  - intros x i j Hi Hj. apply Hu; auto.
Qed.

(** *** [checkRestart] *)

(** With the invariant, [checkRestart e x] marks removed the one array
    entry moving [x], if any, and takes it out of the array. *)
Lemma checkRestart_spec e x :
  engine_wf e ->
  let e' := (checkRestart e x).1 in
  engine_wf e' /\ store_mono e e' /\ e_next e' = e_next e /\
  (forall j, j ∈ e_array e' -> j ∈ e_array e /\ ~ moves e x j) /\
  (forall i, i ∈ e_array e -> moves e x i -> exists o, e_store e' !! i = Some o /\ t_removed o = true) /\
  (forall j, ~ moves e x j -> e_store e' !! j = e_store e !! j).
Proof.
  intros Hwf. pose proof Hwf as [Hnd Hl Hf Hu]. unfold checkRestart.
  destruct (list_find (moves e x) (e_array e)) as [[k id]|] eqn:Hfind.
  - apply list_find_Some in Hfind as (Hk & Hmv & _).
    assert (Hid : id ∈ e_array e) by (by eapply list_elem_of_lookup_2).
    destruct (Hl id Hid) as (o & Ho & Hro). rewrite Ho. cbn [fst].
    assert (Hdel : forall j, j ∈ delete k (e_array e) <-> j ∈ e_array e /\ j <> id)
      by (intros j; by apply elem_of_delete_NoDup).
    assert (Hmv' : forall j, moves e x j -> j ∈ e_array e -> j = id)
      by (intros j Hj Hja; by apply (Hu x j id)).
    change (set_array (set_tobj e id (with_removed o)) (delete k (e_array e)))
      with (set_tobj (set_array e (delete k (e_array e))) id (with_removed o)).
    split; [|split; [|split; [done|split; [|split]]]].
    + apply (set_tobj_wf (set_array e (delete k (e_array e))) id o); [| done | done |].
      2:{ simpl. intros Hin. apply Hdel in Hin as []. done. }
      apply set_array_wf; [done | by apply NoDup_delete_list | intros j Hj; by apply Hdel].
    + apply (set_tobj_mono (set_array e (delete k (e_array e))) id o); done.
    + simpl. intros j Hj. apply Hdel in Hj as [Hj Hne]. split; [done|]. intros Hm. by apply Hne, Hmv'.
    + intros i Hi Hm. rewrite (Hmv' i Hm Hi). simpl. rewrite lookup_insert_eq. eauto.
    + intros j Hm. simpl. rewrite lookup_insert_ne; [done|]. intros ->. done.
  - cbn [fst]. apply list_find_None in Hfind. rewrite Forall_forall in Hfind.
    split; [done|]. split; [apply store_mono_refl|]. split; [done|]. split; [|split].
    + intros j Hj. split; [done|]. by apply Hfind.
    + intros i Hi Hm. by destruct (Hfind i Hi Hm).
    + done.
Qed.

(** *** [transition] *)

Lemma removeTransitionObject_spec e id :
  engine_wf e ->
  let e' := removeTransitionObject e id in
  engine_wf e' /\ store_mono e e' /\ e_next e' = e_next e /\
  (forall j, j ∈ e_array e' <-> j ∈ e_array e /\ j <> id) /\
  (forall j, j <> id -> e_store e' !! j = e_store e !! j).
Proof.
  intros Hwf. pose proof (removeTransitionObject_store e id) as [Hs Hn].
  split; [by apply removeTransitionObject_wf|]. split; [apply removeTransitionObject_mono|].
  split; [done|]. split; [intros j; apply removeTransitionObject_array, Hwf|].
  intros j _. by rewrite Hs.
Qed.

Lemma transition_spec now e id :
  engine_wf e ->
  let r := transition now e id in
  engine_wf r.1.1 /\ store_mono e r.1.1 /\ e_next r.1.1 = e_next e /\
  (forall j, j ∈ e_array r.1.1 <-> j ∈ e_array e /\ (j <> id \/ r.2 = [id])) /\
  (forall j, j <> id -> e_store r.1.1 !! j = e_store e !! j) /\
  (forall w, w ∈ r.1.2 -> w_id w = id /\
     exists o, e_store e !! id = Some o /\ t_removed o = false /\ w_object w = t_object o) /\
  (r.2 = [] \/ r.2 = [id]).
Proof.
  intros Hwf. unfold transition.
  assert (Hdrop : let r := (removeTransitionObject e id, @nil write, @nil nat) in
    engine_wf r.1.1 /\ store_mono e r.1.1 /\ e_next r.1.1 = e_next e /\
    (forall j, j ∈ e_array r.1.1 <-> j ∈ e_array e /\ (j <> id \/ r.2 = [id])) /\
    (forall j, j <> id -> e_store r.1.1 !! j = e_store e !! j) /\
    (forall w, w ∈ r.1.2 -> w_id w = id /\
       exists o, e_store e !! id = Some o /\ t_removed o = false /\ w_object w = t_object o) /\
    (r.2 = [] \/ r.2 = [id])).
  { cbn. destruct (removeTransitionObject_spec e id Hwf) as (H1 & H2 & H3 & H4 & H5).
    do 3 (split; [done|]). split; [intros j; rewrite H4; naive_solver|].
    split; [done|]. split; [set_solver | by left]. }
  destruct (e_store e !! id) as [o|] eqn:Ho; [|exact Hdrop].
  destruct (transition_guard o) as [[[[es b] tg] T]|] eqn:Hg; [|exact Hdrop].
  apply transition_guard_live in Hg as (Hr & _).
  set (bt := beginTime_or o now).
  set (e1 := set_tobj e id (with_beginTime o bt)).
  assert (Hwf1 : engine_wf e1) by (apply (set_tobj_wf _ _ o); done).
  assert (Hm1 : store_mono e e1) by (apply (set_tobj_mono _ _ o); done).
  assert (Hs1 : forall j, j <> id -> e_store e1 !! j = e_store e !! j)
    by (intros j Hj; simpl; by rewrite lookup_insert_ne by congruence).
  assert (Hw : forall v w, w ∈ [mk_write id (t_object o) v] -> w_id w = id /\
     exists o', e_store e !! id = Some o' /\ t_removed o' = false /\ w_object w = t_object o')
    by (intros v w Hw'; apply list_elem_of_singleton in Hw' as ->; simpl; eauto).
  rewrite Ho in Hw.
  destruct (_ || _); cbn.
  - destruct (removeTransitionObject_spec e1 id Hwf1) as (H1 & H2 & H3 & H4 & H5).
    split; [done|]. split; [by eapply store_mono_trans|]. split; [done|].
    split; [intros j; rewrite H4; simpl; naive_solver|].
    split; [intros j Hj; rewrite H5 by done; by apply Hs1|]. split; [apply Hw | by left].
  - split; [done|]. split; [done|]. split; [done|]. split; [intros j; simpl; naive_solver|].
    split; [done|]. split; [apply Hw | by right].
Qed.

(** *** [opacityTransition] *)

(** Pushing a fresh transition object that moves an object no array entry
    moves keeps the invariant. *)
Lemma push_fresh_wf e o :
  engine_wf e -> t_removed o = false ->
  (forall j, j ∈ e_array e -> ~ moves e (t_object o) j) ->
  engine_wf (mk_engine (<[e_next e := o]> (e_store e)) (e_array e ++ [e_next e]) (S (e_next e))).
Proof.
  intros [Hnd Hl Hf Hu] Hr Hno.
  assert (Hnin : e_next e ∉ e_array e).
  { intros Hin. destruct (Hl _ Hin) as (o1 & Ho1 & _). pose proof (Hf (e_next e) ltac:(by rewrite Ho1)). lia. }
  assert (Hst : forall j, j ∈ e_array e -> <[e_next e := o]> (e_store e) !! j = e_store e !! j)
    by (intros j Hj; rewrite lookup_insert_ne; [done | intros Heq; apply Hnin; by rewrite Heq]).
  constructor; simpl.
  - apply NoDup_app. split; [done|]. split; [|apply NoDup_singleton]. set_solver.
  - intros j Hj. apply elem_of_app in Hj as [Hj|Hj%list_elem_of_singleton].
    + unfold live; simpl. rewrite Hst by done. by apply Hl.
    + subst. unfold live; simpl. rewrite lookup_insert_eq. eauto.
  - intros j [oj Hj]. destruct (decide (j = e_next e)) as [->|Hne]; [lia|].
    rewrite lookup_insert_ne in Hj by congruence. pose proof (Hf j ltac:(by rewrite Hj)). lia.
  - intros x i j Hi Hj. unfold moves; simpl.
    apply elem_of_app in Hi as [Hi|Hi%list_elem_of_singleton];
    apply elem_of_app in Hj as [Hj|Hj%list_elem_of_singleton]; subst;
    rewrite ?lookup_insert_eq, ?Hst by done.
    + apply (Hu x i j Hi Hj).
    + intros Hm <-. by destruct (Hno i Hi).
    + intros <- Hm. by destruct (Hno j Hj).
    + done.
Qed.

Lemma push_fresh_mono e o :
  engine_wf e -> store_mono e (mk_engine (<[e_next e := o]> (e_store e)) (e_array e ++ [e_next e]) (S (e_next e))).
Proof.
  intros Hwf. split; simpl; [lia|]. intros j oj Hj.
  assert (j <> e_next e) by (intros ->; pose proof (wf_fresh e Hwf (e_next e) ltac:(by rewrite Hj)); lia).
  rewrite lookup_insert_ne by congruence. eauto.
Qed.

Lemma push_transition_spec e x b tg st T :
  engine_wf e ->
  let e2 := push_transition e x b tg st T in
  engine_wf e2 /\ store_mono e e2 /\ e_next e2 = S (e_next e) /\
  e_store e2 !! e_next e = Some (mk_tobj x b tg st T None false) /\
  (forall i, i ∈ e_array e -> moves e x i -> exists o, e_store e2 !! i = Some o /\ t_removed o = true) /\
  (forall j, j ∈ e_array e2 <-> j = e_next e \/ j ∈ e_array (checkRestart e x).1) /\
  (forall j, j ∈ e_array (checkRestart e x).1 -> j ∈ e_array e /\ ~ moves e x j /\
     j <> e_next e /\ e_store e2 !! j = e_store e !! j).
Proof.
  intros Hwf. unfold push_transition.
  destruct (checkRestart_spec e x Hwf) as (Hwf1 & Hm1 & Hn1 & Harr1 & Hrem1 & Hst1).
  set (e1 := (checkRestart e x).1) in *.
  set (o := mk_tobj x b tg st T None false).
  assert (Hno : forall j, j ∈ e_array e1 -> ~ moves e1 (t_object o) j).
  { intros j Hj. destruct (Harr1 j Hj) as [_ Hnm]. unfold moves in *. by rewrite Hst1. }
  assert (Hfresh : forall j, j ∈ e_array e1 -> j <> e_next e).
  { intros j Hj ->. destruct (wf_live e1 Hwf1 _ Hj) as (o1 & Ho1 & _).
    pose proof (wf_fresh e1 Hwf1 (e_next e) ltac:(by rewrite Ho1)). lia. }
  rewrite <- Hn1. split; [by apply push_fresh_wf|].
  split; [eapply store_mono_trans; [exact Hm1 | by apply push_fresh_mono]|].
  rewrite Hn1. split; [done|]. split; [simpl; by rewrite lookup_insert_eq|]. split; [|split].
  - intros i Hi Hm. destruct (Hrem1 i Hi Hm) as (oi & Hoi & Hri). simpl.
    assert (Hne : i <> e_next e).
    { intros ->. destruct (wf_live e Hwf _ Hi) as (o' & Ho' & _).
      pose proof (wf_fresh e Hwf (e_next e) ltac:(by rewrite Ho')). lia. }
    rewrite lookup_insert_ne by congruence. eauto.
  - intros j. simpl. rewrite elem_of_app, list_elem_of_singleton. tauto.
  - intros j Hj. destruct (Harr1 j Hj) as [Hj' Hnm]. pose proof (Hfresh j Hj).
    do 3 (split; [done|]). simpl. rewrite lookup_insert_ne by congruence. by apply Hst1.
Qed.

Lemma opacityTransition_spec now e x b tg st T :
  engine_wf e ->
  let r := opacityTransition now e (Some x) b tg st T in
  engine_wf r.1.1 /\ store_mono e r.1.1 /\ e_next r.1.1 = S (e_next e) /\
  (forall w, w ∈ r.1.2 -> w_id w = e_next e /\ w_object w = x) /\
  (r.2 = [] \/ r.2 = [e_next e]) /\
  (forall i, i ∈ e_array e -> moves e x i -> exists o, e_store r.1.1 !! i = Some o /\ t_removed o = true) /\
  (forall j, j ∈ e_array r.1.1 -> j = e_next e \/ (j ∈ e_array e /\ ~ moves e x j)).
Proof.
  intros Hwf. unfold opacityTransition.
  destruct (push_transition_spec e x b tg st T Hwf) as (Hwf2 & Hm2 & Hn2 & Hin2 & Hrem2 & Harr2 & Hold).
  set (e2 := push_transition e x b tg st T) in *.
  destruct (transition_spec now e2 (e_next e) Hwf2) as (H1 & H2 & H3 & H4 & H5 & H6 & H7).
  split; [done|]. split; [by eapply store_mono_trans|]. split; [congruence|]. split; [|split; [done|split]].
  - intros w Hw. destruct (H6 w Hw) as (Hid & o' & Ho' & _ & Hobj). rewrite Hin2 in Ho'.
    injection Ho' as <-. done.
  - intros i Hi Hm. destruct (Hrem2 i Hi Hm) as (oi & Hoi & Hri).
    assert (Hne : i <> e_next e).
    { intros ->. destruct (wf_live e Hwf _ Hi) as (o' & Ho' & _).
      pose proof (wf_fresh e Hwf (e_next e) ltac:(by rewrite Ho')). lia. }
    rewrite H5 by done. eauto.
  - intros j Hj. apply H4 in Hj as [Hj _]. apply Harr2 in Hj as [->|Hj]; [by left|right].
    by destruct (Hold j Hj) as (? & ? & _).
Qed.


(** *** An animation frame *)

Lemma run_frame_spec now e pend :
  engine_wf e ->
  let r := run_frame now e pend in
  engine_wf r.1.1 /\ store_mono e r.1.1 /\ e_next r.1.1 = e_next e /\
  (forall w o, w ∈ r.1.2 -> e_store e !! w_id w = Some o -> t_removed o = false) /\
  r.2 `sublist_of` pend.
Proof.
  revert e. induction pend as [|id pend IH]; intros e Hwf; simpl.
  { split; [done|]. split; [apply store_mono_refl|]. split; [done|]. split; [set_solver|done]. }
  destruct (transition_spec now e id Hwf) as (H1 & H2 & H3 & H4 & H5 & H6 & H7).
  destruct (transition now e id) as [[e1 ws] again] eqn:Ht. simpl in *.
  destruct (IH e1 H1) as (K1 & K2 & K3 & K4 & K5).
  destruct (run_frame now e1 pend) as [[e2 ws'] next]. simpl in *.
  split; [done|]. split; [by eapply store_mono_trans|]. split; [congruence|]. split.
  - intros w o Hw Ho. apply elem_of_app in Hw as [Hw|Hw].
    + destruct (H6 w Hw) as (Hid & o' & Ho' & Hr & _). rewrite Hid in Ho. congruence.
    + destruct (decide (t_removed o = true)) as [Hr|Hr]; [|by destruct (t_removed o)].
      destruct H2 as [_ H2]. destruct (H2 _ _ Ho) as (o1 & Ho1 & _ & Hr1).
      rewrite (K4 w o1 Hw Ho1) in Hr1. by specialize (Hr1 Hr).
  - destruct H7 as [->| ->]; simpl; [by apply sublist_cons|by apply sublist_skip].
Qed.

(** *** Steps of the world *)

Lemma wstep_spec w ws w' :
  wstep w ws w' -> engine_wf (w_engine w) ->
  engine_wf (w_engine w') /\ store_mono (w_engine w) (w_engine w') /\
  (forall wr o, wr ∈ ws -> e_store (w_engine w) !! w_id wr = Some o -> t_removed o = false).
Proof.
  intros Hs Hwf. destruct Hs as [now e pend obj b tg st T e' ws fr Ht | now e pend e' ws next Hr]; simpl in *.
  - destruct obj as [x|].
    2:{ simpl in Ht. injection Ht as <- <- <-. split; [done|]. split; [apply store_mono_refl | set_solver]. }
    destruct (opacityTransition_spec now e x b tg st T Hwf) as (H1 & H2 & H3 & H4 & _).
    rewrite Ht in H1, H2, H4. simpl in *. split; [done|]. split; [done|].
    intros wr o Hw Ho. destruct (H4 wr Hw) as [Hid _]. rewrite Hid in Ho.
    pose proof (wf_fresh e Hwf (e_next e) ltac:(by rewrite Ho)). lia.
  - destruct (run_frame_spec now e pend Hwf) as (H1 & H2 & _ & H4 & _).
    rewrite Hr in H1, H2, H4. simpl in *. auto.
Qed.

Lemma engine_empty_wf : engine_wf engine_empty.
Proof. constructor; simpl; [constructor | set_solver | intros id [? Hid]; done | set_solver]. Qed.

(** *** The two branches of a step *)

Lemma transition_final_step now e id o es b tg T :
  e_store e !! id = Some o -> transition_guard o = Some (es, b, tg, T) ->
  (IZR (beginTime_or o now) + T <= IZR now \/ T = 0) ->
  transition now e id =
    (removeTransitionObject (set_tobj e id (with_beginTime o (beginTime_or o now))) id,
     [mk_write id (t_object o) tg], []).
Proof.
  intros Ho Hg Hc. unfold transition. rewrite Ho, Hg.
  replace (bool_decide _ || bool_decide _) with true; [done|].
  symmetry. apply orb_true_iff. destruct Hc; [left | right]; by apply bool_decide_eq_true.
Qed.

Lemma transition_progress_step now e id o es b tg T :
  e_store e !! id = Some o -> transition_guard o = Some (es, b, tg, T) ->
  IZR now < IZR (beginTime_or o now) + T -> T <> 0 ->
  transition now e id =
    (set_tobj e id (with_beginTime o (beginTime_or o now)),
     [mk_write id (t_object o) (b + (tg - b) * ease es ((IZR now - IZR (beginTime_or o now)) / T))],
     [id]).
Proof.
  intros Ho Hg Hlt HT. unfold transition. rewrite Ho, Hg.
  replace (bool_decide _ || bool_decide _) with false; [done|].
  symmetry. apply orb_false_iff. split; apply bool_decide_eq_false; [lra | done].
Qed.

(** The guard of a transition object [opacityTransition] builds. *)
Lemma transition_guard_new x b tg st T :
  0 <= T -> easing_of_name st <> None ->
  exists es, transition_guard (mk_tobj x (Some b) (Some tg) st (Some T) None false) = Some (es, b, tg, T) /\
             easing_of_name st = Some es.
Proof.
  intros HT Hst. unfold transition_guard; simpl.
  destruct (easing_of_name st) as [es|]; [|done]. exists es.
  destruct (Rle_dec 0 T); [done | lra].
Qed.



Lemma with_beginTime_same o t : t_beginTime o = Some t -> with_beginTime o t = o.
Proof. destruct o; simpl. by intros ->. Qed.

(** A transition not removed at the end of a monotone run was not removed
    at its start. *)
Lemma mono_not_removed e e' j o :
  store_mono e e' -> e_store e !! j = Some o ->
  (forall o', e_store e' !! j = Some o' -> t_removed o' = false) -> t_removed o = false.
Proof.
  intros [_ Hm] Ho Hnr. destruct (Hm j o Ho) as (o' & Ho' & _ & Hr).
  destruct (t_removed o); [|done]. rewrite (Hnr o' Ho') in Hr. by specialize (Hr eq_refl).
Qed.

Lemma wsteps_spec w ws w' :
  wsteps w ws w' -> engine_wf (w_engine w) ->
  engine_wf (w_engine w') /\ store_mono (w_engine w) (w_engine w') /\
  (forall wr o, wr ∈ ws -> e_store (w_engine w) !! w_id wr = Some o -> t_removed o = false).
Proof.
  induction 1 as [w|w1 ws1 w2 ws2 w3 Hs Hss IH]; intros Hwf.
  - split; [done|]. split; [apply store_mono_refl | set_solver].
  - destruct (wstep_spec _ _ _ Hs Hwf) as (H1 & H2 & H3). destruct (IH H1) as (K1 & K2 & K3).
    split; [done|]. split; [by eapply store_mono_trans|].
    intros wr o Hw Ho. apply elem_of_app in Hw as [Hw|Hw]; [by eapply H3|].
    eapply mono_not_removed; [exact H2 | exact Ho | intros o' Ho'; by eapply K3].
Qed.

(** A one-entry engine, used to instantiate the theorems below. *)
Lemma single_engine_wf o : t_removed o = false -> engine_wf (mk_engine {[0%nat := o]} [0%nat] 1).
Proof.
  intros Hr. constructor; simpl.
  - apply NoDup_singleton.
  - intros id ->%list_elem_of_singleton. unfold live; simpl. rewrite lookup_singleton_eq. eauto.
  - intros id [o' Ho']. destruct (decide (id = 0%nat)) as [->|Hne]; [lia|].
    by rewrite lookup_singleton_ne in Ho' by congruence.
  - intros x i j ->%list_elem_of_singleton ->%list_elem_of_singleton. done.
Qed.

(** ** Properties of the engine *)

(** C5: from the empty module state, whatever interleaving of
    [opacityTransition] calls and animation frames, the engine stays well
    formed; in particular [_transitionArray] never holds two transitions
    of the same object: one live transition per target. *)
Theorem transition_engine_wf_reachable ws w :
  wsteps (mk_world engine_empty []) ws w -> engine_wf (w_engine w).
Proof. intros Hs. apply (wsteps_spec _ _ _ Hs engine_empty_wf). Qed.

(** C6: restarting a transition on an object cancels the one under way: from
    the restart on, whatever calls and frames follow, the cancelled
    transition never writes the object's opacity again. *)
Theorem restart_cancels now e pend x b tg st T ws2 w2 i :
  engine_wf e -> i ∈ e_array e -> moves e x i ->
  let r := opacityTransition now e (Some x) b tg st T in
  wsteps (mk_world r.1.1 (pend ++ r.2)) ws2 w2 ->
  forall wr, wr ∈ r.1.2 ++ ws2 -> w_id wr <> i.
Proof.
  intros Hwf Hi Hm r Hs wr Hw.
  destruct (opacityTransition_spec now e x b tg st T Hwf) as (H1 & _ & _ & H4 & _ & H6 & _).
  assert (Hlt : (i < e_next e)%nat).
  { destruct (wf_live e Hwf i Hi) as (o & Ho & _). apply (wf_fresh e Hwf). by rewrite Ho. }
  apply elem_of_app in Hw as [Hw|Hw].
  - destruct (H4 wr Hw) as [-> _]. lia.
  - destruct (H6 i Hi Hm) as (o & Ho & Hr). destruct (wsteps_spec _ _ _ Hs H1) as (_ & _ & K3).
    simpl in K3. intros Heq. rewrite <- Heq in Ho. specialize (K3 wr o Hw Ho). congruence.
Qed.

(** a step of a live transition at or after [beginTime + transitionTime]
    (or of a zero-time transition) writes exactly the target value, takes
    the transition out of [_transitionArray] and requests no new frame. *)
Theorem transition_exact_target now e id o es b tg T :
  engine_wf e -> e_store e !! id = Some o -> transition_guard o = Some (es, b, tg, T) ->
  (IZR (beginTime_or o now) + T <= IZR now \/ T = 0) ->
  let r := transition now e id in
  r.1.2 = [mk_write id (t_object o) tg] /\ r.2 = [] /\ id ∉ e_array r.1.1.
Proof.
  intros Hwf Ho Hg Hc. cbv zeta. rewrite (transition_final_step now e id o es b tg T Ho Hg Hc). cbn.
  split; [done|]. split; [done|].
  assert (Hwf1 : engine_wf (set_tobj e id (with_beginTime o (beginTime_or o now)))).
  { apply (set_tobj_wf _ _ o); [done | done | done | done]. }
  destruct (removeTransitionObject_spec _ id Hwf1) as (_ & _ & _ & H4 & _).
  rewrite H4. tauto.
Qed.

Lemma transition_guard_beginTime o t : transition_guard (with_beginTime o t) = transition_guard o.
Proof. by destruct o. Qed.

(** the example of the specification: a linear transition of an object
    from 0 to 1 over 100 ms writes 0 when it starts, 0.5 at a frame 50 ms
    later, and exactly 1 at a frame 100 ms after the start, after which it
    requests no more frames. *)
Theorem linear_transition_example e x t0 :
  engine_wf e ->
  let r1 := opacityTransition t0 e (Some x) (Some 0) (Some 1) "linear" (Some 100) in
  let r2 := run_frame (t0 + 50) r1.1.1 r1.2 in
  let r3 := run_frame (t0 + 100) r2.1.1 r2.2 in
  map w_value r1.1.2 = [0] /\ map w_value r2.1.2 = [0.5] /\ map w_value r3.1.2 = [1] /\ r3.2 = [].
Proof.
  intros _. cbv zeta. unfold opacityTransition.
  set (o := mk_tobj x (Some 0) (Some 1) "linear" (Some 100) None false).
  set (n := e_next e).
  set (e2 := push_transition _ _ _ _ _ _).
  assert (Hg : transition_guard o = Some (Linear, 0, 1, 100)).
  { unfold transition_guard; simpl. destruct (Rle_dec 0 100); [done | lra]. }
  assert (Ho : e_store e2 !! n = Some o) by (unfold e2, push_transition; simpl; by rewrite lookup_insert_eq).
  rewrite (transition_progress_step t0 e2 n o Linear 0 1 100 Ho Hg) by (unfold beginTime_or; simpl; lra).
  assert (Hb0 : beginTime_or o t0 = t0) by done. rewrite Hb0. cbn [fst snd].
  set (o1 := with_beginTime o t0). set (e3 := set_tobj e2 n o1).
  assert (Ho1 : e_store e3 !! n = Some o1) by (simpl; by rewrite lookup_insert_eq).
  assert (Hg1 : transition_guard o1 = Some (Linear, 0, 1, 100)) by (unfold o1; by rewrite transition_guard_beginTime).
  assert (Hb1 : forall t, beginTime_or o1 t = t0) by done.
  cbn [run_frame].
  rewrite (transition_progress_step (t0 + 50) e3 n o1 Linear 0 1 100 Ho1 Hg1) by (rewrite ?Hb1, ?plus_IZR; lra).
  rewrite Hb1. cbn [run_frame fst snd app].
  assert (Ho2 : e_store (set_tobj e3 n (with_beginTime o1 t0)) !! n = Some o1)
    by (simpl; rewrite lookup_insert_eq; by rewrite with_beginTime_same).
  rewrite (transition_final_step (t0 + 100) _ n o1 Linear 0 1 100 Ho2 Hg1) by (rewrite ?Hb1, ?plus_IZR; lra).
  cbn [fst snd map app w_value]. simpl ease. rewrite plus_IZR.
  split; [f_equal; lra|]. split; [f_equal; lra|]. done.
Qed.

Lemma transition_drop_step now e id o :
  e_store e !! id = Some o -> transition_guard o = None ->
  transition now e id = (removeTransitionObject e id, [], []).
Proof. intros Ho Hg. unfold transition. by rewrite Ho, Hg. Qed.

(** C16: a call with a value that is not a number, an unknown style or a
    negative time writes nothing and requests no frame; it still cancels
    the transition the object had, so that no transition of the object is
    left in [_transitionArray]. *)
Theorem invalid_transition_dropped now e x b tg st T :
  engine_wf e ->
  (b = None \/ tg = None \/ easing_of_name st = None \/ T = None \/ exists t, T = Some t /\ t < 0) ->
  let r := opacityTransition now e (Some x) b tg st T in
  r.1.2 = [] /\ r.2 = [] /\ (forall j, j ∈ e_array r.1.1 -> ~ moves r.1.1 x j).
Proof.
  intros Hwf Hbad. cbv zeta. unfold opacityTransition.
  destruct (push_transition_spec e x b tg st T Hwf) as (Hwf2 & _ & _ & Hin2 & _ & Harr2 & Hold).
  set (e2 := push_transition e x b tg st T) in *.
  assert (Hg : transition_guard (mk_tobj x b tg st T None false) = None).
  { unfold transition_guard; simpl.
    destruct Hbad as [->|[->|[->|[->|(t & -> & Ht)]]]];
      repeat match goal with |- context [match ?m with _ => _ end] => destruct m end; try done.
    destruct (Rle_dec 0 t); [lra | done]. }
  rewrite (transition_drop_step now e2 (e_next e) _ Hin2 Hg). cbn [fst snd].
  split; [done|]. split; [done|]. intros j Hj.
  destruct (removeTransitionObject_spec e2 (e_next e) Hwf2) as (_ & _ & _ & H4 & H5).
  apply H4 in Hj as [Hj Hne]. apply Harr2 in Hj as [->|Hj]; [done|].
  destruct (Hold j Hj) as (_ & Hnm & _ & Hst). unfold moves. rewrite H5, Hst by done. exact Hnm.
Qed.

(** Every formula but [ease-in-out] starts at 0. *)
Lemma ease_0 es : es <> EaseInOut -> ease es 0 = 0.
Proof.
  intros Hne. destruct es; simpl; try done; unfold js_pow;
    repeat (destruct (Req_dec_T _ _); try done); try ring.
  unfold bounce. destruct (Rlt_dec 0 (1 / 2.75)); [ring | lra].
Qed.

(** with a formula other than [ease-in-out] and a positive time, the
    first write of a transition is the object's current opacity: it starts
    without a jump. *)
Theorem transition_starts_at_current_value now e x b tg st T es :
  engine_wf e -> easing_of_name st = Some es -> es <> EaseInOut -> 0 < T ->
  (opacityTransition now e (Some x) (Some b) (Some tg) st (Some T)).1.2 = [mk_write (e_next e) x b].
Proof.
  intros Hwf Hst Hne HT. unfold opacityTransition.
  destruct (push_transition_spec e x (Some b) (Some tg) st (Some T) Hwf) as (_ & _ & _ & Hin2 & _).
  assert (Hg : transition_guard (mk_tobj x (Some b) (Some tg) st (Some T) None false) = Some (es, b, tg, T)).
  { unfold transition_guard; simpl. rewrite Hst. destruct (Rle_dec 0 T); [done | lra]. }
  rewrite (transition_progress_step now _ _ _ es b tg T Hin2 Hg) by (unfold beginTime_or; simpl; lra).
  cbn [fst snd]. unfold beginTime_or; simpl t_beginTime; cbn iota.
  replace ((IZR now - IZR now) / T) with 0 by (field; lra). rewrite ease_0 by done.
  f_equal. f_equal. ring.
Qed.

(** C20 (finding): the formulas are not maps of [0, 1] into [0, 1]: halfway
    through a "back-in" fade-in from 0 to 1, the engine sets the object's
    opacity to a negative value. *)
Theorem back_in_negative_opacity e x t0 :
  engine_wf e ->
  let r1 := opacityTransition t0 e (Some x) (Some 0) (Some 1) "back-in" (Some 100) in
  exists v, map w_value (run_frame (t0 + 50) r1.1.1 r1.2).1.2 = [v] /\ v < 0.
Proof.
  intros Hwf. cbv zeta. unfold opacityTransition.
  destruct (push_transition_spec e x (Some 0) (Some 1) "back-in" (Some 100) Hwf) as (_ & _ & _ & Hin2 & _).
  set (o := mk_tobj x (Some 0) (Some 1) "back-in" (Some 100) None false) in *.
  assert (Hg : transition_guard o = Some (BackIn, 0, 1, 100)).
  { unfold transition_guard; simpl. destruct (Rle_dec 0 100); [done | lra]. }
  rewrite (transition_progress_step t0 _ _ o BackIn 0 1 100 Hin2 Hg) by (unfold beginTime_or; simpl; lra).
  cbn [fst snd run_frame].
  set (o1 := with_beginTime o (beginTime_or o t0)).
  assert (Hb : forall t, beginTime_or o1 t = t0) by done.
  rewrite (transition_progress_step (t0 + 50) _ _ o1 BackIn 0 1 100) by
    (simpl; rewrite ?lookup_insert_eq, ?Hb, ?plus_IZR; try (unfold o1; rewrite transition_guard_beginTime); try done; lra).
  cbn [fst snd map app w_value]. rewrite Hb, plus_IZR. eexists. split; [reflexivity|].
  replace ((IZR t0 + 50 - IZR t0) / 100) with 0.5 by lra. simpl. lra.
Qed.

(** ** Termination of the [requestAnimationFrame] loop *)

(** Successive animation frames at the given times. *)
Fixpoint run_frames (times : list Z) (e : engine) (pend : list nat) : engine * list write * list nat :=
  match times with
  | [] => (e, [], pend)
  | t :: ts =>
      let '(e1, ws1, p1) := run_frame t e pend in
      let '(e2, ws2, p2) := run_frames ts e1 p1 in
      (e2, ws1 ++ ws2, p2)
  end.

Lemma run_frame_app now e l1 l2 :
  run_frame now e (l1 ++ l2) =
  let '(e1, ws1, n1) := run_frame now e l1 in
  let '(e2, ws2, n2) := run_frame now e1 l2 in (e2, ws1 ++ ws2, n1 ++ n2).
Proof.
  revert e. induction l1 as [|j l1 IH]; intros e; simpl.
  - by destruct (run_frame now e l2) as [[? ?] ?].
  - destruct (transition now e j) as [[e1 ws] again]. rewrite IH.
    destruct (run_frame now e1 l1) as [[e2 ws1] n1]. destruct (run_frame now e2 l2) as [[e3 ws2] n2].
    by rewrite !app_assoc.
Qed.

(** The closures of other transitions leave transition [id] alone. *)
Lemma run_frame_other now e pend id :
  engine_wf e -> id ∉ pend ->
  let r := run_frame now e pend in
  e_store r.1.1 !! id = e_store e !! id /\ (id ∈ e_array r.1.1 <-> id ∈ e_array e) /\
  (forall w, w ∈ r.1.2 -> w_id w <> id) /\ id ∉ r.2.
Proof.
  revert e. induction pend as [|j pend IH]; intros e Hwf Hid; simpl; [set_solver|].
  destruct (transition_spec now e j Hwf) as (H1 & _ & _ & H4 & H5 & H6 & H7).
  destruct (transition now e j) as [[e1 ws] again]. simpl in *.
  destruct (IH e1 H1 ltac:(set_solver)) as (K1 & K2 & K3 & K4).
  destruct (run_frame now e1 pend) as [[e2 ws'] next]. simpl in *.
  split; [rewrite K1; apply H5; set_solver|]. split; [rewrite K2, H4; set_solver|].
  split; [|destruct H7 as [-> | ->]; set_solver].
  intros w Hw. apply elem_of_app in Hw as [Hw|Hw]; [|by apply K3].
  destruct (H6 w Hw) as [-> _]. set_solver.
Qed.

(** A frame at time [now] on a pending live transition [id] with begin time
    [bt]: either its final step or one more eased step. *)
Lemma run_frame_at now e pend id o es b tg T bt :
  engine_wf e -> NoDup pend -> id ∈ pend -> id ∈ e_array e -> e_store e !! id = Some o ->
  transition_guard o = Some (es, b, tg, T) -> t_beginTime o = Some bt ->
  let r := run_frame now e pend in
  engine_wf r.1.1 /\ NoDup r.2 /\
  ((IZR bt + T <= IZR now \/ T = 0) ->
     id ∉ r.2 /\ id ∉ e_array r.1.1 /\ filter (fun w => w_id w = id) r.1.2 = [mk_write id (t_object o) tg]) /\
  (IZR now < IZR bt + T -> T <> 0 ->
     id ∈ r.2 /\ id ∈ e_array r.1.1 /\ e_store r.1.1 !! id = Some o).
Proof.
  intros Hwf Hnd Hin Harr Ho Hg Hbt.
  apply list_elem_of_split in Hin as (p1 & p2 & ->).
  apply NoDup_app in Hnd as (Hnd1 & Hdis & Hnd2). apply NoDup_cons in Hnd2 as [Hp2 Hnd2].
  assert (Hp1 : id ∉ p1) by (intros Hp; apply (Hdis id Hp); left).
  destruct (run_frame_spec now e (p1 ++ id :: p2) Hwf) as (Hwf' & _ & _ & _ & Hsub).
  split; [done|]. split; [eapply sublist_NoDup; [|exact Hsub]; apply NoDup_app; split; [done|]; split; [done|]; by constructor|].
  rewrite run_frame_app.
  destruct (run_frame_other now e p1 id Hwf Hp1) as (A1 & A2 & A3 & A4).
  destruct (run_frame_spec now e p1 Hwf) as (B1 & _).
  destruct (run_frame now e p1) as [[e1 ws1] n1]. simpl in *. cbn [run_frame].
  assert (Hbt' : beginTime_or o now = bt) by (unfold beginTime_or; by rewrite Hbt).
  rewrite Ho in A1.
  split.
  - intros Hc. rewrite <- Hbt' in Hc.
    rewrite (transition_final_step now e1 id o es b tg T A1 Hg Hc), Hbt', with_beginTime_same by done.
    assert (Hwf2 : engine_wf (set_tobj e1 id o)) by (by apply (set_tobj_wf _ _ o)).
    destruct (removeTransitionObject_spec _ id Hwf2) as (C1 & _ & _ & C4 & _).
    destruct (run_frame_other now _ p2 id C1 Hp2) as (D1 & D2 & D3 & D4).
    destruct (run_frame now _ p2) as [[e2 ws2] n2]. simpl in *.
    split; [set_solver|]. split; [rewrite D2, C4; tauto|].
    rewrite !filter_app, filter_cons_True by done.
    rewrite (filter_nil_forall _ ws1), (filter_nil_forall _ ws2); [done | |].
    + intros w Hw. by apply D3.
    + intros w Hw. by apply A3.
  - intros Hlt HT. rewrite <- Hbt' in Hlt.
    rewrite (transition_progress_step now e1 id o es b tg T A1 Hg Hlt HT), Hbt', with_beginTime_same by done.
    assert (Hwf2 : engine_wf (set_tobj e1 id o)) by (by apply (set_tobj_wf _ _ o)).
    destruct (run_frame_other now _ p2 id Hwf2 Hp2) as (D1 & D2 & D3 & D4).
    destruct (run_frame now _ p2) as [[e2 ws2] n2]. simpl in *.
    split; [set_solver|]. split; [apply D2; simpl; by apply A2|].
    rewrite D1. simpl. by rewrite lookup_insert_eq.
Qed.

Lemma run_frames_other times e pend id :
  engine_wf e -> id ∉ pend -> id ∉ e_array e ->
  let r := run_frames times e pend in
  id ∉ r.2 /\ id ∉ e_array r.1.1 /\ (forall w, w ∈ r.1.2 -> w_id w <> id).
Proof.
  revert e pend. induction times as [|t ts IH]; intros e pend Hwf Hp Ha; simpl; [set_solver|].
  destruct (run_frame_other t e pend id Hwf Hp) as (A1 & A2 & A3 & A4).
  destruct (run_frame_spec t e pend Hwf) as (B1 & _).
  destruct (run_frame t e pend) as [[e1 ws1] p1]. simpl in *.
  destruct (IH e1 p1 B1 A4 ltac:(by rewrite A2)) as (C1 & C2 & C3).
  destruct (run_frames ts e1 p1) as [[e2 ws2] p2]. simpl in *.
  split; [done|]. split; [done|]. intros w Hw. apply elem_of_app in Hw as [Hw|Hw]; auto.
Qed.

(** The frame at which the transition ends, and the frames after it. *)
Lemma run_frames_finish t ts e pend id o es b tg T bt :
  engine_wf e -> NoDup pend -> id ∈ pend -> id ∈ e_array e -> e_store e !! id = Some o ->
  transition_guard o = Some (es, b, tg, T) -> t_beginTime o = Some bt ->
  (IZR bt + T <= IZR t \/ T = 0) ->
  let r := run_frames (t :: ts) e pend in
  id ∉ r.2 /\ id ∉ e_array r.1.1 /\
  last_opt (filter (fun w => w_id w = id) r.1.2) = Some (mk_write id (t_object o) tg).
Proof.
  intros Hwf Hnd Hin Harr Ho Hg Hbt Ht. simpl.
  destruct (run_frame_at t e pend id o es b tg T bt Hwf Hnd Hin Harr Ho Hg Hbt) as (A1 & _ & A3 & _).
  destruct (A3 Ht) as (B1 & B2 & B3).
  destruct (run_frame t e pend) as [[e1 ws1] p1]. simpl in *.
  destruct (run_frames_other ts e1 p1 id A1 B1 B2) as (C1 & C2 & C3).
  destruct (run_frames ts e1 p1) as [[e2 ws2] p2]. simpl in *.
  split; [done|]. split; [done|].
  rewrite filter_app, B3, (filter_nil_forall _ ws2) by (intros w Hw; by apply C3). done.
Qed.

(** C7: the [requestAnimationFrame] loop of a transition terminates: a
    pending live transition whose begin time is [bt] is finished by the
    first animation frame at or after [bt + transitionTime]; it is then
    out of the pending closures and of [_transitionArray], and the last
    value it wrote is exactly its target. *)
Theorem transition_finishes times e pend id o es b tg T bt :
  engine_wf e -> NoDup pend -> id ∈ pend -> id ∈ e_array e -> e_store e !! id = Some o ->
  transition_guard o = Some (es, b, tg, T) -> t_beginTime o = Some bt ->
  Exists (fun t => IZR bt + T <= IZR t) times ->
  let r := run_frames times e pend in
  id ∉ r.2 /\ id ∉ e_array r.1.1 /\
  last_opt (filter (fun w => w_id w = id) r.1.2) = Some (mk_write id (t_object o) tg).
Proof.
  intros Hwf Hnd Hin Harr Ho Hg Hbt Hex. revert e pend Hwf Hnd Hin Harr Ho.
  induction Hex as [t ts Ht|t ts Hex IH]; intros e pend Hwf Hnd Hin Harr Ho.
  { apply (run_frames_finish t ts e pend id o es b tg T bt); auto. }
  destruct (decide (IZR bt + T <= IZR t \/ T = 0)) as [Hc|Hc].
  { apply (run_frames_finish t ts e pend id o es b tg T bt); auto. }
  assert (Hlt : IZR t < IZR bt + T) by (apply Rnot_le_lt; tauto).
  assert (HT : T <> 0) by tauto.
  destruct (run_frame_at t e pend id o es b tg T bt Hwf Hnd Hin Harr Ho Hg Hbt) as (A1 & A2 & _ & A4).
  destruct (A4 Hlt HT) as (B1 & B2 & B3). simpl.
  destruct (run_frame t e pend) as [[e1 ws1] p1]. simpl in *.
  destruct (IH e1 p1 A1 A2 B1 B2 B3) as (C1 & C2 & C3).
  destruct (run_frames ts e1 p1) as [[e2 ws2] p2]. simpl in *.
  split; [done|]. split; [done|]. rewrite filter_app. by apply last_opt_app_r.
Qed.

(** ** The theorems at concrete inputs *)

(** A linear fade of object 7 from 0 to 1 over 100 ms, begun at time 0. *)
Definition fade7 : tobj := mk_tobj 7 (Some 0) (Some 1) "linear" (Some 100) (Some 0%Z) false.

Definition engine7 : engine := mk_engine {[0%nat := fade7]} [0%nat] 1.

Lemma engine7_wf : engine_wf engine7.
Proof. by apply single_engine_wf. Qed.

Lemma fade7_guard : transition_guard fade7 = Some (Linear, 0, 1, 100).
Proof. unfold transition_guard; simpl. destruct (Rle_dec 0 100); [done | lra]. Qed.

Lemma transition_engine_wf_reachable_witness :
  engine_wf (w_engine (mk_world (opacityTransition 0 engine_empty (Some 7%nat) (Some 0) (Some 1) "linear" (Some 100)).1.1
                                ([] ++ (opacityTransition 0 engine_empty (Some 7%nat) (Some 0) (Some 1) "linear" (Some 100)).2))).
Proof.
  apply (transition_engine_wf_reachable
           ((opacityTransition 0 engine_empty (Some 7%nat) (Some 0) (Some 1) "linear" (Some 100)).1.2 ++ [])).
  eapply wsteps_cons; [|apply wsteps_refl].
  apply (ws_start 0 engine_empty [] (Some 7%nat) (Some 0) (Some 1) "linear" (Some 100)).
  by destruct (opacityTransition _ _ _ _ _ _ _) as [[? ?] ?].
Defined.

Lemma restart_cancels_witness :
  Forall (fun wr => w_id wr <> 0%nat)
    ((opacityTransition 10 engine7 (Some 7%nat) (Some 0.5) (Some 0) "ease-out" (Some 200)).1.2 ++ []).
Proof.
  apply Forall_forall.
  apply (restart_cancels 10 engine7 [] 7 (Some 0.5) (Some 0) "ease-out" (Some 200) []
           (mk_world (opacityTransition 10 engine7 (Some 7%nat) (Some 0.5) (Some 0) "ease-out" (Some 200)).1.1
                     ([] ++ (opacityTransition 10 engine7 (Some 7%nat) (Some 0.5) (Some 0) "ease-out" (Some 200)).2))
           0).
  - apply engine7_wf.
  - by left.
  - unfold moves; simpl. by rewrite lookup_singleton_eq.
  - apply wsteps_refl.
Defined.

Lemma transition_exact_target_witness :
  (transition 100 engine7 0).1.2 = [mk_write 0 7 1] /\ (transition 100 engine7 0).2 = [] /\
  (0%nat ∉ e_array (transition 100 engine7 0).1.1).
Proof.
  apply (transition_exact_target 100 engine7 0 fade7 Linear 0 1 100).
  - apply engine7_wf.
  - simpl. by rewrite lookup_singleton_eq.
  - apply fade7_guard.
  - left. unfold beginTime_or. simpl. lra.
Defined.

Lemma linear_transition_example_witness :
  let r1 := opacityTransition 0 engine_empty (Some 7%nat) (Some 0) (Some 1) "linear" (Some 100) in
  let r2 := run_frame (0 + 50) r1.1.1 r1.2 in
  let r3 := run_frame (0 + 100) r2.1.1 r2.2 in
  map w_value r1.1.2 = [0] /\ map w_value r2.1.2 = [0.5] /\ map w_value r3.1.2 = [1] /\ r3.2 = [].
Proof. apply (linear_transition_example engine_empty 7 0), engine_empty_wf. Defined.

Lemma invalid_transition_dropped_witness :
  let r := opacityTransition 10 engine7 (Some 7%nat) (Some 0.5) (Some 0) "fade" (Some 200) in
  r.1.2 = [] /\ r.2 = [] /\ (forall j, j ∈ e_array r.1.1 -> ~ moves r.1.1 7 j).
Proof.
  apply (invalid_transition_dropped 10 engine7 7 (Some 0.5) (Some 0) "fade" (Some 200)).
  - apply engine7_wf.
  - right. right. left. reflexivity.
Defined.

Lemma transition_starts_at_current_value_witness :
  (opacityTransition 10 engine7 (Some 7%nat) (Some 0.5) (Some 0) "bounce" (Some 200)).1.2 = [mk_write 1 7 0.5].
Proof.
  apply (transition_starts_at_current_value 10 engine7 7 0.5 0 "bounce" 200 Bounce).
  - apply engine7_wf.
  - reflexivity.
  - discriminate.
  - lra.
Defined.

Lemma back_in_negative_opacity_witness :
  let r1 := opacityTransition 0 engine_empty (Some 7%nat) (Some 0) (Some 1) "back-in" (Some 100) in
  exists v, map w_value (run_frame (0 + 50) r1.1.1 r1.2).1.2 = [v] /\ v < 0.
Proof. apply (back_in_negative_opacity engine_empty 7 0), engine_empty_wf. Defined.

Lemma transition_finishes_witness :
  let r := run_frames [50%Z; 100%Z; 150%Z] engine7 [0%nat] in
  0%nat ∉ r.2 /\ 0%nat ∉ e_array r.1.1 /\
  last_opt (filter (fun w => w_id w = 0%nat) r.1.2) = Some (mk_write 0 7 1).
Proof.
  apply (transition_finishes [50%Z; 100%Z; 150%Z] engine7 [0%nat] 0 fade7 Linear 0 1 100 0).
  - apply engine7_wf.
  - apply NoDup_singleton.
  - by left.
  - by left.
  - simpl. by rewrite lookup_singleton_eq.
  - apply fade7_guard.
  - reflexivity.
  - apply Exists_cons_tl, Exists_cons_hd. simpl. lra.
Defined.

End Transition.
