(* ===== verification/Fade.v ===== *)
(** * Fade and transition times as the code reads them
    ([internal/LayerContainer.js] lines 843 and 865, [internal/TransitionUtils.js]
    lines 99-101 and 130-137)

    [Container] takes a configured fade time as a number ([fo_time : option
    Q]) and [Transition] a transition time as [option R].  The code reads
    whatever value the configuration holds.  This file models, on any
    [jsval]:
    - the guard [t !== undefined && t !== null && !isNaN(t) && t >= 0] of
      [startTransitionFadeIn]/[startTransitionFadeOut] and, through
      [checkNum], of [transition];
    - the end time [begin + object.transitionTime], with the [+] of ES5.1
      11.6.1 (string concatenation when one side is a string);
    - the test [time >= end || !object.transitionTime] that ends a
      transition.
    On numbers they are the tests of [Container.fade_time] and
    [Transition.transition]; a numeric string passes the guard, but the end
    time becomes the concatenation of the digits. *)

From S2P Require Import Prelude Js Utils Transition.
From Stdlib Require Import String Ascii QArith Qreals Reals Lra.
Import Js Utils Transition.

Module Fade.

(** [t !== undefined && t !== null && !isNaN(t) && t >= 0]; [t >= 0]
    compares [ToNumber(t)] with [0] (ES5.1 11.8.5, [t] not being a string
    on both sides). *)
Definition fade_time_ok (v : jsval) : bool :=
  is_defined v && negb (isNaN v) && num_le (Fin 0) (to_number v).

(** [ToNumber(begin + object.transitionTime)], the only use of [end] being
    the comparison [time >= end].  [begin] is [getTime()] of a valid Date,
    an integer, whose [ToString] is [int_string].  A string time is
    concatenated to it.  A Date converts to its [toString], which starts
    with the day name, and another object to ["[object Object]"], so that
    concatenation is no numeral either. *)
Definition end_number (begin : Z) (tt : jsval) : number :=
  match tt with
  | JStr s => string_to_number (String.append (string_of_list_ascii (int_string begin)) s)
  | JDate _ | JObj => NaN
  | _ => num_add (Fin (inject_Z begin)) (to_number tt)
  end.

(** [time >= end || !object.transitionTime], at [time = now]. *)
Definition at_end (now begin : Z) (tt : jsval) : bool :=
  num_le (end_number begin tt) (Fin (inject_Z now)) || negb (truthy tt).

(** ** Lemmas *)

Lemma Q2R_inject_Z z : Q2R (inject_Z z) = IZR z.
Proof. unfold Q2R, inject_Z; simpl. lra. Qed.

Lemma Qle_bool_Q2R p q : Qle_bool p q = bool_decide (Q2R p <= Q2R q)%R.
Proof.
  apply Bool.eq_iff_eq_true; rewrite Qle_bool_iff, bool_decide_eq_true.
  split; [apply Qle_Rle | apply Rle_Qle].
Qed.

Lemma Qeq_bool_Q2R p q : Qeq_bool p q = bool_decide (Q2R p = Q2R q).
Proof.
  apply Bool.eq_iff_eq_true; rewrite Qeq_bool_iff, bool_decide_eq_true.
  split; [apply Qeq_eqR | apply eqR_Qeq].
Qed.

Lemma num_le_Fin p q : num_le (Fin p) (Fin q) = Qle_bool p q.
Proof. simpl. by destruct (Qle_bool p q). Qed.

(** ** Theorems *)



End Fade.
