(* ===== verification/Schedule.v ===== *)
(** * The progressive load scheduler of [internal/LayerContainer.js]

    [_loadStep] and [_groupLoadStep] are powers of two that split the frame
    indices into interleaved groups (the multiples of a step).  Loads are
    started coarse to fine by [nextLayerLoad] under the budget
    [_maxAsyncLoadCount]; completed groups are detected by
    [groupLoadStepCheck] and the group loop of [layerLoadEndCallback].
    Everything here is proved against the frame interface [FrameView] of
    the prelude, in Section [Scheduler]; the JavaScript loops are Fixpoints
    on a fuel argument and the theorems show the fuel suffices. *)

From S2P Require Import Prelude Frame.
Local Open Scope nat_scope.

(** ** [resetLoadStep] *)

(** [_loadStep = 1; while (_loadStep * 2 < _layers.length) _loadStep *= 2;] *)
Fixpoint resetLoadStep_loop (fuel step n : nat) : nat :=
  match fuel with
  | O => step
  | S fuel' => if step * 2 <? n then resetLoadStep_loop fuel' (step * 2) n else step
  end.

(** The value both [_loadStep] and [_groupLoadStep] are reset to for [n]
    frames; the doubling runs at most [n] times. *)
Definition resetLoadStep (n : nat) : nat := resetLoadStep_loop n 1 n.

Lemma resetLoadStep_loop_spec fuel k n :
  k <= Nat.log2 (n - 1) -> Nat.log2 (n - 1) - k <= fuel ->
  resetLoadStep_loop fuel (2 ^ k) n = 2 ^ Nat.log2 (n - 1).
Proof.
  revert k. induction fuel as [|fuel IH]; intros k Hk Hf; simpl; pose proof (pow2_pos k).
  - f_equal. lia.
  - case_if.
    + replace (2 ^ k * 2) with (2 ^ S k) by (rewrite Nat.pow_succ_r'; lia).
      apply IH; [|lia].
      apply Nat.log2_le_pow2; [lia|]. simpl in *. lia.
    + f_equal. destruct (decide (n - 1 = 0)) as [E|E].
      * rewrite E in Hk |- *. change (Nat.log2 0) with 0 in *. lia.
      * assert (Nat.log2 (n - 1) < S k); [|lia].
        apply Nat.log2_lt_pow2; [lia|]. simpl in *. lia.
Qed.

(** [resetLoadStep] computes [2 ^ log2 (n - 1)]: the power of two [p]
    with [p < n <= 2 * p] when there are at least two frames, and [1]
    otherwise.  (For five frames this is [4], not the "largest power of two
    at most n / 2" of the design notes.) *)
Theorem resetLoadStep_closed_form n : resetLoadStep n = 2 ^ Nat.log2 (n - 1).
Proof.
  unfold resetLoadStep. apply (resetLoadStep_loop_spec n 0 n); [lia|].
  pose proof (Nat.log2_le_lin (n - 1)). lia.
Qed.

Lemma resetLoadStep_pow2 n : pow2_or_0 (resetLoadStep n).
Proof. rewrite resetLoadStep_closed_form. right. eauto. Qed.

Lemma resetLoadStep_pos n : 0 < resetLoadStep n.
Proof. rewrite resetLoadStep_closed_form. apply pow2_pos. Qed.

(** the reset step is a power of two inside the index range: it is
    below [n] and at least half of [n] when there are two frames or more. *)
Theorem resetLoadStep_bounds n :
  2 <= n -> resetLoadStep n < n /\ n <= 2 * resetLoadStep n.
Proof.
  intros Hn. rewrite resetLoadStep_closed_form.
  destruct (Nat.log2_spec (n - 1)) as [Hlo Hhi]; [lia|].
  simpl in Hhi. lia.
Qed.

#[export] Hint Resolve resetLoadStep_pow2 resetLoadStep_pos : anim.

(** ** The coarse to fine order, as a reference definition *)

(** The indices of each level [s, s/2, ..., 1] not seen at a coarser
    level, level after level: the order the design intends loads to start
    in. *)
Fixpoint subdiv_go (fuel s n : nat) (seen : list nat) : list nat :=
  match fuel with
  | O => []
  | S fuel' =>
      if 0 <? s then
        let fresh := filter (fun i => i ∉ seen) (stride_indices n s) in
        fresh ++ subdiv_go fuel' (s / 2) n (seen ++ fresh)
      else []
  end.

Definition subdivision_order (n : nat) : list nat :=
  subdiv_go (S (resetLoadStep n)) (resetLoadStep n) n [].

(** The indices below [n] not yet seen. *)
Definition unseen (n : nat) (seen : list nat) : list nat :=
  filter (fun i => i ∉ seen) (seq 0 n).

Lemma filter_not_in_snoc (l seen : list nat) i :
  i ∉ l -> filter (fun j => j ∉ seen ++ [i]) l = filter (fun j => j ∉ seen) l.
Proof.
  induction l as [|j l IH]; intros Hi; [done|].
  rewrite !filter_cons, IH by set_solver. repeat case_decide; set_solver.
Qed.

Lemma unseen_snoc n seen i :
  i < n -> i ∉ seen -> length (unseen n (seen ++ [i])) + 1 = length (unseen n seen).
Proof.
  unfold unseen. intros Hi Hs.
  assert (Hin : i ∈ seq 0 n) by (apply elem_of_seq; lia).
  pose proof (NoDup_seq 0 n) as Hnd. revert Hin Hnd. generalize (seq 0 n) as l.
  induction l as [|j l IH]; intros Hin Hnd; [set_solver|].
  apply NoDup_cons in Hnd as [Hj Hnd].
  rewrite !filter_cons.
  apply elem_of_cons in Hin as [->|Hin].
  - rewrite filter_not_in_snoc by done.
    rewrite decide_False by set_solver. rewrite decide_True by done. simpl. lia.
  - assert (j <> i) by set_solver. specialize (IH Hin Hnd).
    destruct (decide (j ∈ seen)).
    + rewrite !decide_False by set_solver. done.
    + rewrite !decide_True by set_solver. simpl. lia.
Qed.

Lemma unseen_app n seen fresh :
  NoDup fresh -> (forall j, j ∈ fresh -> j < n /\ j ∉ seen) ->
  length (unseen n (seen ++ fresh)) + length fresh = length (unseen n seen).
Proof.
  revert seen. induction fresh as [|i fresh IH]; intros seen Hnd Hf.
  - by rewrite app_nil_r, Nat.add_0_r.
  - apply NoDup_cons in Hnd as [Hi Hnd].
    replace (seen ++ i :: fresh) with ((seen ++ [i]) ++ fresh) by by rewrite <-app_assoc.
    destruct (Hf i ltac:(set_solver)) as [Hin Hns].
    rewrite <-(unseen_snoc n seen i Hin Hns), <-(IH (seen ++ [i]) Hnd).
    + simpl. lia.
    + intros j Hj. destruct (Hf j ltac:(set_solver)). set_solver.
Qed.

Lemma unseen_nil_all n seen j : length (unseen n seen) = 0 -> j < n -> j ∈ seen.
Proof.
  unfold unseen. intros Hl Hj. apply length_zero_iff_nil in Hl.
  destruct (decide (j ∈ seen)) as [|Hn]; [done|].
  assert (j ∈ filter (fun i => i ∉ seen) (seq 0 n)); [|by rewrite Hl in *; set_solver].
  apply list_elem_of_filter. split; [done|]. apply elem_of_seq. lia.
Qed.

Lemma subdiv_go_all_seen fuel s n seen :
  (forall j, j < n -> j ∈ seen) -> subdiv_go fuel s n seen = [].
Proof.
  revert s seen. induction fuel as [|fuel IH]; intros s seen Hall; [done|]. simpl.
  case_if; [|done].
  assert (Hf : filter (fun i => i ∉ seen) (stride_indices n s) = []).
  { apply filter_nil_forall. intros j Hj.
    destruct (s) as [|s']; [lia|]. apply elem_of_stride in Hj as [Hj _]; [|lia].
    auto. }
  rewrite Hf. simpl. apply IH. intros j Hj. rewrite app_nil_r. auto.
Qed.

Lemma subdiv_go_covers fuel k n seen j :
  k < fuel -> j < n -> j ∈ seen ++ subdiv_go fuel (2 ^ k) n seen.
Proof.
  revert k seen. induction fuel as [|fuel IH]; intros k seen Hk Hj; [lia|].
  cbn [subdiv_go]. pose proof (pow2_pos k).
  replace (0 <? 2 ^ k) with true by (symmetry; apply Nat.ltb_lt; lia).
  destruct k as [|k].
  - destruct (decide (j ∈ seen)); [set_solver|].
    assert (j ∈ filter (fun i => i ∉ seen) (stride_indices n (2 ^ 0))); [|set_solver].
    apply list_elem_of_filter. split; [done|].
    apply elem_of_stride; simpl; [lia|]. split; [lia|]. apply (Nat.mod_1_r j).
  - replace (2 ^ S k / 2) with (2 ^ k)
      by (rewrite Nat.pow_succ_r', Nat.mul_comm, Nat.div_mul; lia).
    specialize (IH k (seen ++ filter (fun i => i ∉ seen) (stride_indices n (2 ^ S k)))
      ltac:(lia) Hj).
    rewrite <-app_assoc in IH. exact IH.
Qed.

(** Every index below [n] is in the reference order. *)
Lemma subdivision_order_covers n j : j < n -> j ∈ subdivision_order n.
Proof.
  intros Hj. unfold subdivision_order. rewrite resetLoadStep_closed_form.
  pose proof (Nat.pow_gt_lin_r 2 (Nat.log2 (n - 1)) ltac:(lia)).
  pose proof (subdiv_go_covers (S (2 ^ Nat.log2 (n - 1))) (Nat.log2 (n - 1)) n [] j
    ltac:(lia) Hj) as Hc. exact Hc.
Qed.

(** ** [nextLayerLoad] *)

Section Scheduler.
Context `{FrameView F}.

(** The frames whose [isLoading()] holds. *)
Definition count_loading (ls : list F) : nat :=
  length (filter (fun f => fv_loading f = true) ls).

(** [var loadCount = _maxAsyncLoadCount > 0 ? _maxAsyncLoadCount :
    _layers.length;] minus one for every loading frame. *)
Definition initial_load_count (maxc : Z) (ls : list F) : Z :=
  ((if (0 <? maxc)%Z then maxc else Z.of_nat (length ls)) - Z.of_nat (count_loading ls))%Z.

(** One pass of [for (i = 0; i < _layers.length; i += _loadStep)]: load
    every frame still in its default state, one budget unit each, and
    [break] when the budget reaches zero.  Returns the frames, the budget
    left and the indices whose [loadLayer] was called, in call order. *)
Fixpoint load_pass (idxs : list nat) (ls : list F) (count : Z) : list F * Z * list nat :=
  match idxs with
  | [] => (ls, count, [])
  | i :: rest =>
      match ls !! i with
      | Some f =>
          if fv_default f then
            let ls' := <[i := fv_load f]> ls in
            let count' := (count - 1)%Z in
            if (count' =? 0)%Z then (ls', count', [i])
            else let '(ls'', c, st) := load_pass rest ls' count' in (ls'', c, i :: st)
          else load_pass rest ls count
      | None => load_pass rest ls count
      end
  end.

(** [while (loadCount > 0 && _loadStep > 0) { pass; if (loadCount > 0)
    _loadStep = Math.floor(_loadStep / 2); }] *)
Fixpoint load_loop (fuel : nat) (ls : list F) (step : nat) (count : Z)
    : list F * nat * Z * list nat :=
  match fuel with
  | O => (ls, step, count, [])
  | S fuel' =>
      if (0 <? count)%Z && (0 <? step) then
        let '(ls', c, st) := load_pass (stride_indices (length ls) step) ls count in
        let step' := if (0 <? c)%Z then step / 2 else step in
        let '(ls'', s'', c'', st') := load_loop fuel' ls' step' c in
        (ls'', s'', c'', st ++ st')
      else (ls, step, count, [])
  end.

(** [nextLayerLoad]: returns the frames, the new [_loadStep] and the
    indices loaded.  The fuel [step + 1] covers every halving. *)
Definition nextLayerLoad (maxc : Z) (ls : list F) (step : nat) : list F * nat * list nat :=
  if 0 <? step then
    let '(ls', s', _, st) := load_loop (S step) ls step (initial_load_count maxc ls) in
    (ls', s', st)
  else (ls, step, []).

(** *** The budget *)

Lemma load_pass_count idxs ls count ls' c st :
  (0 < count)%Z -> load_pass idxs ls count = (ls', c, st) ->
  c = (count - Z.of_nat (length st))%Z /\ (0 <= c)%Z /\ length ls' = length ls.
Proof.
  revert ls count ls' c st. induction idxs as [|i idxs IH]; intros ls count ls' c st Hc; simpl.
  - intros [= <- <- <-]. simpl. lia.
  - destruct (ls !! i) as [f|]; [|by apply IH].
    destruct (fv_default f); [|by apply IH].
    case_if.
    + intros [= <- <- <-]. rewrite length_insert. simpl. lia.
    + destruct (load_pass idxs (<[i:=fv_load f]> ls) (count - 1)) as [[l1 c1] st1] eqn:E.
      intros [= <- <- <-]. destruct (IH _ (count - 1)%Z _ _ _ ltac:(lia) E) as (-> & ? & ->).
      rewrite length_insert. simpl. lia.
Qed.

Lemma load_loop_exit_nonpos fuel ls step count :
  (count <= 0)%Z -> load_loop (S fuel) ls step count = (ls, step, count, []).
Proof. intros Hc. simpl. by replace (0 <? count)%Z with false by lia. Qed.

(** the halving loop of [nextLayerLoad] terminates within its fuel:
    with [step + 1] rounds it always ends with the budget spent or the
    step at zero, which is the negation of the [while] condition. *)
Theorem load_loop_terminates fuel ls step count :
  step < fuel ->
  let '(_, s', c', _) := load_loop fuel ls step count in (c' <= 0)%Z \/ s' = 0.
Proof.
  revert ls step count. induction fuel as [|fuel IH]; intros ls step count Hf; [lia|].
  cbn [load_loop]. destruct ((0 <? count)%Z && (0 <? step)) eqn:Ec.
  - apply andb_true_iff in Ec as [Ec Es]. bnorm.
    destruct (load_pass _ ls count) as [[ls1 c1] st1] eqn:Ep.
    destruct (0 <? c1)%Z eqn:Ec1; bnorm.
    + specialize (IH ls1 (step / 2) c1 ltac:(apply Nat.Div0.div_lt_upper_bound; lia)).
      destruct (load_loop fuel ls1 (step / 2) c1) as [[[? ?] ?] ?]. exact IH.
    + destruct fuel as [|fuel]; [lia|].
      rewrite load_loop_exit_nonpos by lia. left; lia.
  - apply andb_false_iff in Ec as [Ec|Ec]; bnorm; lia.
Qed.

Lemma count_loading_insert ls i x :
  count_loading (<[i := x]> ls) <= S (count_loading ls).
Proof.
  unfold count_loading. revert i. induction ls as [|y ls IH]; intros [|i]; simpl; [lia..| |].
  - rewrite !filter_cons. do 2 case_decide; simpl; lia.
  - rewrite !filter_cons. specialize (IH i). case_decide; simpl; lia.
Qed.

Lemma load_pass_loading idxs ls count ls' c st :
  load_pass idxs ls count = (ls', c, st) ->
  count_loading ls' <= count_loading ls + length st.
Proof.
  revert ls count ls' c st. induction idxs as [|i idxs IH]; intros ls count ls' c st; simpl.
  - intros [= <- <- <-]. simpl. lia.
  - destruct (ls !! i) as [f|]; [|by apply IH].
    destruct (fv_default f); [|by apply IH].
    pose proof (count_loading_insert ls i (fv_load f)).
    case_if.
    + intros [= <- <- <-]. simpl. lia.
    + destruct (load_pass idxs (<[i:=fv_load f]> ls) (count - 1)) as [[l1 c1] st1] eqn:E.
      intros [= <- <- <-]. apply IH in E. simpl. lia.
Qed.

Lemma load_loop_budget fuel ls step count ls' s' c' st :
  load_loop fuel ls step count = (ls', s', c', st) ->
  count_loading ls' <= count_loading ls + length st /\
  (Z.of_nat (length st) <= Z.max 0 count)%Z.
Proof.
  revert ls step count ls' s' c' st.
  induction fuel as [|fuel IH]; intros ls step count ls' s' c' st; cbn [load_loop].
  - intros [= <- <- <- <-]. simpl. lia.
  - destruct ((0 <? count)%Z && (0 <? step)) eqn:Ec; [|intros [= <- <- <- <-]; simpl; lia].
    apply andb_true_iff in Ec as [Ec _]. bnorm.
    destruct (load_pass _ ls count) as [[ls1 c1] st1] eqn:Ep.
    destruct (load_loop fuel ls1 _ c1) as [[[ls2 s2] c2] st2] eqn:El.
    intros [= <- <- <- <-].
    destruct (load_pass_count _ _ _ _ _ _ Ec Ep) as (-> & Hc1 & _).
    apply load_pass_loading in Ep. apply IH in El as [Hl Hb].
    rewrite length_app. lia.
Qed.

(** The cap of [nextLayerLoad]: [_maxAsyncLoadCount] when positive,
    otherwise the number of frames. *)
Definition load_cap (maxc : Z) (ls : list F) : Z :=
  if (0 <? maxc)%Z then maxc else Z.of_nat (length ls).

(** C14: [nextLayerLoad] respects the concurrency cap: if at most [cap]
    frames are loading before, it calls [loadLayer] on at most
    [cap - loading] frames and at most [cap] frames are loading after. *)
Theorem nextLayerLoad_budget maxc ls step ls' s' st :
  (Z.of_nat (count_loading ls) <= load_cap maxc ls)%Z ->
  nextLayerLoad maxc ls step = (ls', s', st) ->
  (Z.of_nat (length st + count_loading ls) <= load_cap maxc ls)%Z /\
  (Z.of_nat (count_loading ls') <= load_cap maxc ls)%Z.
Proof.
  unfold nextLayerLoad, initial_load_count, load_cap. intros Hcap.
  case_if; [|intros [= <- <- <-]; simpl; lia].
  destruct (load_loop _ ls step _) as [[[ls1 s1] c1] st1] eqn:El.
  intros [= <- <- <-]. apply load_loop_budget in El as [Hl Hb]. lia.
Qed.

Lemma load_pass_length idxs ls count ls' c st :
  load_pass idxs ls count = (ls', c, st) -> length ls' = length ls.
Proof.
  revert ls count ls' c st. induction idxs as [|i idxs IH]; intros ls count ls' c st; simpl.
  - by intros [= <- _ _].
  - destruct (ls !! i) as [f|]; [|by apply IH].
    destruct (fv_default f); [|by apply IH].
    case_if; [intros [= <- _ _]; apply length_insert|].
    destruct (load_pass idxs _ _) as [[l1 c1] st1] eqn:E. intros [= <- _ _].
    apply IH in E. by rewrite E, length_insert.
Qed.

Lemma load_loop_length fuel ls step count ls' s' c' st :
  load_loop fuel ls step count = (ls', s', c', st) -> length ls' = length ls.
Proof.
  revert ls step count ls' s' c' st.
  induction fuel as [|fuel IH]; intros ls step count ls' s' c' st; cbn [load_loop].
  - by intros [= <- _ _ _].
  - destruct (_ && _); [|by intros [= <- _ _ _]].
    destruct (load_pass _ ls count) as [[ls1 c1] st1] eqn:Ep.
    destruct (load_loop fuel ls1 _ c1) as [[[ls2 s2] c2] st2] eqn:El.
    intros [= <- _ _ _]. apply IH in El. apply load_pass_length in Ep. congruence.
Qed.

(** What [loadLayer] does not change of a frame, the scheduler does not
    change of the list. *)
Lemma insert_load_fmap {A} (proj : F -> A) (ls : list F) i f :
  (forall f, proj (fv_load f) = proj f) -> ls !! i = Some f ->
  proj <$> <[i := fv_load f]> ls = proj <$> ls.
Proof. intros Hp Hi. rewrite list_fmap_insert, Hp. apply list_insert_id. by rewrite list_lookup_fmap, Hi. Qed.

Lemma load_pass_fmap {A} (proj : F -> A) idxs ls count ls' c st :
  (forall f, proj (fv_load f) = proj f) ->
  load_pass idxs ls count = (ls', c, st) -> proj <$> ls' = proj <$> ls.
Proof.
  intros Hp. revert ls count ls' c st. induction idxs as [|i idxs IH]; intros ls count ls' c st; simpl.
  - by intros [= <- _ _].
  - destruct (ls !! i) as [f|] eqn:Hi; [|by apply IH].
    destruct (fv_default f); [|by apply IH].
    case_if; [intros [= <- _ _]; by apply insert_load_fmap|].
    destruct (load_pass idxs _ _) as [[l1 c1] st1] eqn:E. intros [= <- _ _].
    apply IH in E. rewrite E. by apply insert_load_fmap.
Qed.

Lemma load_loop_fmap {A} (proj : F -> A) fuel ls step count ls' s' c' st :
  (forall f, proj (fv_load f) = proj f) ->
  load_loop fuel ls step count = (ls', s', c', st) -> proj <$> ls' = proj <$> ls.
Proof.
  intros Hp. revert ls step count ls' s' c' st.
  induction fuel as [|fuel IH]; intros ls step count ls' s' c' st; cbn [load_loop].
  - by intros [= <- _ _ _].
  - destruct (_ && _); [|by intros [= <- _ _ _]].
    destruct (load_pass _ ls count) as [[ls1 c1] st1] eqn:Ep.
    destruct (load_loop fuel ls1 _ c1) as [[[ls2 s2] c2] st2] eqn:El.
    intros [= <- _ _ _]. apply IH in El. apply (load_pass_fmap proj) in Ep; [congruence|done].
Qed.

Lemma nextLayerLoad_fmap {A} (proj : F -> A) maxc ls step :
  (forall f, proj (fv_load f) = proj f) -> proj <$> (nextLayerLoad maxc ls step).1.1 = proj <$> ls.
Proof.
  intros Hp. unfold nextLayerLoad. case_if; [|done].
  destruct (load_loop _ _ _ _) as [[[l s'] c] st] eqn:E. by apply (load_loop_fmap proj) in E.
Qed.

(** A property of frames that [loadLayer] keeps holds of every frame after
    the scheduler ran. *)
Lemma insert_load_Forall (P : F -> Prop) (ls : list F) i f :
  (forall f, P f -> P (fv_load f)) -> Forall P ls -> ls !! i = Some f -> Forall P (<[i := fv_load f]> ls).
Proof.
  intros Hp Hl Hi. apply Forall_insert; [done|]. apply Hp.
  rewrite Forall_lookup in Hl. by apply (Hl i).
Qed.

Lemma load_pass_Forall (P : F -> Prop) idxs ls count ls' c st :
  (forall f, P f -> P (fv_load f)) -> Forall P ls ->
  load_pass idxs ls count = (ls', c, st) -> Forall P ls'.
Proof.
  intros Hp. revert ls count ls' c st. induction idxs as [|i idxs IH]; intros ls count ls' c st Hl; simpl.
  - by intros [= <- _ _].
  - destruct (ls !! i) as [f|] eqn:Hi; [|by apply IH].
    destruct (fv_default f); [|by apply IH].
    case_if; [intros [= <- _ _]; by apply insert_load_Forall|].
    destruct (load_pass idxs _ _) as [[l1 c1] st1] eqn:E. intros [= <- _ _].
    eapply IH; [|exact E]. by apply insert_load_Forall.
Qed.

Lemma nextLayerLoad_Forall (P : F -> Prop) maxc ls step :
  (forall f, P f -> P (fv_load f)) -> Forall P ls -> Forall P (nextLayerLoad maxc ls step).1.1.
Proof.
  intros Hp Hl. unfold nextLayerLoad. case_if; [|done].
  assert (Hloop : forall fuel ls step count ls' s' c' st, Forall P ls ->
            load_loop fuel ls step count = (ls', s', c', st) -> Forall P ls').
  { induction fuel as [|fuel IH]; intros ls0 step0 count ls' s' c' st H0; cbn [load_loop].
    - by intros [= <- _ _ _].
    - destruct (_ && _); [|by intros [= <- _ _ _]].
      destruct (load_pass _ ls0 count) as [[ls1 c1] st1] eqn:Ep.
      destruct (load_loop fuel ls1 _ c1) as [[[ls2 s2] c2] st2] eqn:El.
      intros [= <- _ _ _]. eapply IH; [|exact El]. by eapply load_pass_Forall. }
  destruct (load_loop _ _ _ _) as [[[l s'] c] st] eqn:E. by eapply Hloop.
Qed.

(** ** Group completion: [groupLoadStepCheck] and [layerLoadEndCallback] *)

(** [_layers[i].isLoaded()]. *)
Definition frame_loaded (ls : list F) (i : nat) : bool :=
  match ls !! i with Some f => fv_loaded f | None => false end.

(** The group of step [s] is complete: every frame at a multiple of [s] is
    loaded (the [for] loop with its [break] at the first frame that is not). *)
Definition group_complete (ls : list F) (s : nat) : bool :=
  forallb (frame_loaded ls) (stride_indices (length ls) s).

(** The [group] array the callback builds: the loaded frames of the stride,
    up to the first one that is not loaded. *)
Fixpoint group_prefix (ls : list F) (idxs : list nat) : list nat :=
  match idxs with
  | [] => []
  | i :: rest => if frame_loaded ls i then i :: group_prefix ls rest else []
  end.

(** [while (tmpGroupLoadStep) { if complete, halve; else break; }] *)
Fixpoint first_incomplete (fuel : nat) (ls : list F) (tmp : nat) : nat :=
  match fuel with
  | O => tmp
  | S fuel' =>
      if tmp =? 0 then 0
      else if group_complete ls tmp then first_incomplete fuel' ls (tmp / 2) else tmp
  end.

(** [groupLoadStepCheck]: move the group step to the finest complete group
    when several nested groups completed at once. *)
Definition groupLoadStepCheck (ls : list F) (gls : nat) : nat :=
  if 1 <? gls then
    let tmp := first_incomplete (S gls) ls gls in
    if tmp * 2 <? gls then (if 2 * tmp =? 0 then 1 else 2 * tmp) else gls
  else gls.

(** The observer calls of the group part of [layerLoadEndCallback]. *)
Inductive group_event :=
| GroupProgress (group : list nat)    (* loadGroupProgressCallback *)
| LoadComplete (group : list nat).    (* loadCompleteCallback *)

(** The group part of [layerLoadEndCallback]: the check, then the loop
    over the group of step [_groupLoadStep || 1]; a complete group halves
    the step and reports progress, and completion when the step is 0. *)
Definition layerLoadEnd_groups (ls : list F) (gls : nat) : nat * list group_event :=
  let gls1 := groupLoadStepCheck ls gls in
  let idxs := stride_indices (length ls) (if gls1 =? 0 then 1 else gls1) in
  let group := group_prefix ls idxs in
  if forallb (frame_loaded ls) idxs then
    let gls2 := gls1 / 2 in
    (gls2, GroupProgress group :: (if gls2 =? 0 then [LoadComplete group] else []))
  else (gls1, []).

Definition all_loaded (ls : list F) : Prop := forall f, f ∈ ls -> fv_loaded f = true.

Lemma group_complete_spec ls s :
  0 < s ->
  group_complete ls s = true <->
  (forall i, i < length ls -> i mod s = 0 -> frame_loaded ls i = true).
Proof.
  intros Hs. unfold group_complete. rewrite forallb_forall. split.
  - intros Hall i Hi Hm. apply Hall, list_elem_of_In, elem_of_stride; auto.
  - intros Hall i Hi. apply list_elem_of_In, elem_of_stride in Hi as [Hi Hm]; auto.
Qed.

Lemma group_complete_1 ls : group_complete ls 1 = true <-> all_loaded ls.
Proof.
  rewrite group_complete_spec by lia. unfold all_loaded, frame_loaded. split.
  - intros Hall f Hf. apply list_elem_of_lookup_1 in Hf as [i Hi].
    pose proof (Hall i ltac:(eapply lookup_lt_Some; eauto) (Nat.mod_1_r i)) as Hl.
    by rewrite Hi in Hl.
  - intros Hall i Hi _. destruct (lookup_lt_is_Some_2 ls i Hi) as [f Hf].
    rewrite Hf. apply Hall. by eapply list_elem_of_lookup_2.
Qed.

Lemma all_loaded_group ls s : all_loaded ls -> 0 < s -> group_complete ls s = true.
Proof.
  intros Hall Hs. apply group_complete_spec; [done|]. intros i Hi _.
  apply group_complete_1 in Hall. rewrite group_complete_spec in Hall by lia.
  apply Hall; [done|]. apply Nat.mod_1_r.
Qed.

Lemma first_incomplete_all ls fuel tmp :
  all_loaded ls -> tmp < fuel -> first_incomplete fuel ls tmp = 0.
Proof.
  revert tmp. induction fuel as [|fuel IH]; intros tmp Hall Hf; [lia|]. cbn [first_incomplete].
  case_if; [done|]. rewrite all_loaded_group by (done || lia).
  apply IH; [done|]. apply Nat.Div0.div_lt_upper_bound; lia.
Qed.

Lemma groupLoadStepCheck_le ls gls : groupLoadStepCheck ls gls <= gls.
Proof. unfold groupLoadStepCheck. repeat case_if; lia. Qed.

Lemma groupLoadStepCheck_all_loaded ls gls :
  all_loaded ls -> groupLoadStepCheck ls gls <= 1.
Proof.
  intros Hall. unfold groupLoadStepCheck. case_if; [|lia].
  rewrite first_incomplete_all by (done || lia). repeat case_if; lia.
Qed.

(** C2: the load-complete signal is fired by a load-end callback exactly
    when every frame is loaded, whatever the group step was and in whatever
    order the loads finished; the group step is then 0. *)
Theorem layerLoadEnd_complete_iff ls gls :
  (exists g, LoadComplete g ∈ (layerLoadEnd_groups ls gls).2) <-> all_loaded ls.
Proof.
  unfold layerLoadEnd_groups. set (g1 := groupLoadStepCheck ls gls). split.
  - destruct (forallb _ _) eqn:Hc; cbn [snd]; [|set_solver].
    intros [g Hg]. destruct (g1 / 2 =? 0) eqn:Hz; bnorm; [|set_solver].
    apply Nat.div_small_iff in Hz; [|lia].
    apply group_complete_1. unfold group_complete.
    replace 1 with (if g1 =? 0 then 1 else g1) by (case_if; lia). exact Hc.
  - intros Hall. pose proof (groupLoadStepCheck_all_loaded ls gls Hall) as Hle. fold g1 in Hle.
    replace (if g1 =? 0 then 1 else g1) with 1 by (case_if; lia).
    change (forallb _ _) with (group_complete ls 1).
    rewrite all_loaded_group by (done || lia). cbn [snd].
    replace (g1 / 2) with 0 by (symmetry; apply Nat.div_small; lia).
    eexists. apply elem_of_cons. right. apply elem_of_cons. by left.
Qed.

(** What [first_incomplete] returns from a power of two: itself, or a
    step whose double is a complete group, or 0 when all frames are loaded. *)
Definition fi_ok (ls : list F) (tmp r : nat) : Prop :=
  r = tmp \/ (0 < r /\ group_complete ls (2 * r) = true) \/ (r = 0 /\ all_loaded ls).

Lemma first_incomplete_spec fuel ls tmp :
  pow2_or_0 tmp ->
  pow2_or_0 (first_incomplete fuel ls tmp) /\ first_incomplete fuel ls tmp <= tmp /\
  fi_ok ls tmp (first_incomplete fuel ls tmp).
Proof.
  revert tmp. induction fuel as [|fuel IH]; intros tmp Hp; cbn [first_incomplete].
  - repeat split; [done|lia|by left].
  - case_if; [subst; repeat split; [done|lia|by left]|].
    destruct (group_complete ls tmp) eqn:Hc; [|repeat split; [done|lia|by left]].
    destruct (IH (tmp / 2) (pow2_or_0_half _ Hp)) as (Hp' & Hle & Hok).
    repeat split; [done|pose proof (Nat.Div0.div_le_upper_bound tmp 2 tmp ltac:(lia)); lia|].
    right. destruct Hok as [Heq|[[Hpos Hg]|[Hz Hall]]]; [|by left|by right].
    rewrite Heq. destruct (decide (tmp = 1)) as [->|Hne].
    + right. split; [done|]. by apply group_complete_1.
    + left. assert (2 <= tmp) by (destruct Hp as [|[k ->]]; [lia|]; pose proof (pow2_pos k); lia).
      rewrite pow2_half_double by done. split; [|done].
      apply Nat.div_str_pos. lia.
Qed.

Lemma groupLoadStepCheck_spec ls gls :
  pow2_or_0 gls ->
  pow2_or_0 (groupLoadStepCheck ls gls) /\
  (groupLoadStepCheck ls gls = gls \/
   (0 < groupLoadStepCheck ls gls /\ group_complete ls (groupLoadStepCheck ls gls) = true)).
Proof.
  intros Hp. unfold groupLoadStepCheck. case_if; [|by split; [|left]].
  destruct (first_incomplete_spec (S gls) ls gls Hp) as (Hp' & Hle & Hok).
  set (r := first_incomplete (S gls) ls gls) in *.
  case_if; [|by split; [|left]].
  destruct Hok as [Hr|[[Hpos Hg]|[Hz Hall]]]; [lia| |].
  - rewrite (proj2 (Nat.eqb_neq (2 * r) 0)) by lia. split; [apply pow2_or_0_double; [done|lia]|].
    right. split; [lia|done].
  - rewrite Hz. simpl. split; [right; exists 0; done|].
    right. split; [lia|]. by apply group_complete_1.
Qed.

(** C3: a load-end callback keeps the group step a power of two (or 0),
    never increases it, and when it decreases it the new step [g] is
    justified: all frames are loaded ([g = 0]) or the group of step [2 * g]
    is complete, which is what [allowShowLayer] relies on. *)
Theorem layerLoadEnd_groups_sound ls gls :
  pow2_or_0 gls ->
  let g := (layerLoadEnd_groups ls gls).1 in
  pow2_or_0 g /\ g <= gls /\
  (g < gls -> (g = 0 /\ all_loaded ls) \/ (0 < g /\ group_complete ls (2 * g) = true)).
Proof.
  intros Hp. unfold layerLoadEnd_groups.
  destruct (groupLoadStepCheck_spec ls gls Hp) as [Hp1 Hok].
  pose proof (groupLoadStepCheck_le ls gls) as Hle.
  set (g1 := groupLoadStepCheck ls gls) in *.
  destruct (forallb _ _) eqn:Hc; cbn [fst].
  - split; [by apply pow2_or_0_half|].
    split; [pose proof (Nat.Div0.div_le_upper_bound g1 2 g1 ltac:(lia)); lia|].
    intros Hlt. destruct (decide (g1 <= 1)) as [Hs|Hs].
    + left. split; [apply Nat.div_small; lia|].
      apply group_complete_1. unfold group_complete.
      replace 1 with (if g1 =? 0 then 1 else g1) by (case_if; lia). exact Hc.
    + right. rewrite pow2_half_double by (done || lia).
      split; [apply Nat.div_str_pos; lia|].
      assert (Hst : (if g1 =? 0 then 1 else g1) = g1) by (case_if; lia).
      rewrite Hst in Hc. exact Hc.
  - split; [done|]. split; [done|]. intros Hlt.
    destruct Hok as [Heq|[Hpos Hg]]; [lia|].
    assert (Hst : (if g1 =? 0 then 1 else g1) = g1) by (case_if; lia).
    rewrite Hst in Hc. unfold group_complete in Hg. congruence.
Qed.

(** *** The load order *)

Section Progress.
Context `{!FrameViewLaws F}.

(** For the order, [loadLayer] takes the frames of the load out of their
    default state: [startable] says which frames it does this for (for a
    [LayerObject]: a frame without a layer whose configuration builds one). *)
Variable startable : F -> Prop.
Hypothesis load_progress :
  forall f, startable f -> fv_default f = true -> fv_default (fv_load f) = false.

(** The frames still in their default state are exactly those not started,
    and these are startable. *)
Definition seen_inv (ls : list F) (seen : list nat) : Prop :=
  forall i f, ls !! i = Some f ->
    (fv_default f = true <-> i ∉ seen) /\ (i ∉ seen -> startable f).

Lemma seen_inv_load ls seen i f :
  seen_inv ls seen -> ls !! i = Some f -> fv_default f = true ->
  seen_inv (<[i := fv_load f]> ls) (seen ++ [i]).
Proof.
  intros Hinv Hi Hd j g Hj. destruct (Hinv i f Hi) as [Hdi Hsi].
  destruct (decide (i = j)) as [<-|Hne].
  - rewrite list_lookup_insert_eq in Hj by (eapply lookup_lt_Some; eauto).
    injection Hj as <-. rewrite load_progress by (try apply Hsi, Hdi; done). set_solver.
  - rewrite list_lookup_insert_ne in Hj by done.
    destruct (Hinv j g Hj) as [Hdj Hsj]. rewrite Hdj. set_solver.
Qed.

Lemma load_pass_order idxs ls seen count ls' c st :
  seen_inv ls seen -> NoDup idxs -> (forall i, i ∈ idxs -> i < length ls) ->
  (Z.of_nat (length (filter (fun i => i ∉ seen) idxs)) <= count)%Z -> (0 < count)%Z ->
  load_pass idxs ls count = (ls', c, st) ->
  st = filter (fun i => i ∉ seen) idxs /\ seen_inv ls' (seen ++ st).
Proof.
  revert ls seen count ls' c st.
  induction idxs as [|i idxs IH]; intros ls seen count ls' c st Hinv Hnd Hb Hlen Hc; simpl.
  - intros [= <- <- <-]. by rewrite app_nil_r.
  - apply NoDup_cons in Hnd as [Hi Hnd].
    destruct (lookup_lt_is_Some_2 ls i (Hb i ltac:(set_solver))) as [f Hf].
    rewrite Hf, filter_cons. pose proof (proj1 (Hinv i f Hf)) as Hd.
    destruct (fv_default f) eqn:Edef.
    + assert (Hns : i ∉ seen) by (apply Hd; done). rewrite decide_True by done.
      rewrite filter_cons, decide_True in Hlen by done. simpl in Hlen.
      pose proof (seen_inv_load ls seen i f Hinv Hf Edef) as Hinv'.
      case_if.
      * intros [= <- <- <-].
        assert (Hnil : filter (fun j => j ∉ seen) idxs = []) by (apply length_zero_iff_nil; lia).
        rewrite Hnil. split; [done|exact Hinv'].
      * destruct (load_pass idxs _ _) as [[l1 c1] st1] eqn:E. intros [= <- <- <-].
        rewrite <-(filter_not_in_snoc idxs seen i Hi) in Hlen |- *.
        destruct (IH _ (seen ++ [i]) (count - 1)%Z _ _ _ Hinv' Hnd
          ltac:(intros j Hj; rewrite length_insert; set_solver)
          ltac:(lia) ltac:(lia) E) as [-> Hinv2].
        split; [done|]. by rewrite <-app_assoc in Hinv2.
    + assert (Hs : i ∈ seen) by (destruct (decide (i ∈ seen)); [done|]; by apply Hd in n).
      rewrite decide_False by set_solver. rewrite filter_cons, decide_False in Hlen by set_solver.
      apply IH; auto. set_solver.
Qed.
Lemma fresh_props n s (seen : list nat) :
  0 < s ->
  NoDup (filter (fun i => i ∉ seen) (stride_indices n s)) /\
  (forall j, j ∈ filter (fun i => i ∉ seen) (stride_indices n s) -> j < n /\ j ∉ seen).
Proof.
  intros Hs. split.
  - apply NoDup_filter, stride_NoDup, Hs.
  - intros j Hj. apply list_elem_of_filter in Hj as [Hns Hj].
    apply elem_of_stride in Hj as [Hj _]; [|done]. done.
Qed.

Lemma load_loop_order fuel ls step count seen ls' s' c' st :
  seen_inv ls seen -> NoDup seen -> (forall i, i ∈ seen -> i < length ls) ->
  (Z.of_nat (length (unseen (length ls) seen)) <= count)%Z ->
  load_loop fuel ls step count = (ls', s', c', st) ->
  st = subdiv_go fuel step (length ls) seen /\ seen_inv ls' (seen ++ st).
Proof.
  revert ls step count seen ls' s' c' st.
  induction fuel as [|fuel IH]; intros ls step count seen ls' s' c' st Hinv Hnd Hb Hc;
    cbn [load_loop].
  { intros [= <- _ _ <-]. by rewrite app_nil_r. }
  destruct ((0 <? count)%Z && (0 <? step)) eqn:Ec.
  2:{ intros [= <- _ _ <-]. rewrite app_nil_r. split; [|done].
      apply andb_false_iff in Ec as [Ec|Ec]; bnorm.
      - symmetry. apply subdiv_go_all_seen. intros j Hj. apply (unseen_nil_all (length ls)); [lia|done].
      - by destruct step; [|lia]. }
  apply andb_true_iff in Ec as [Ec Es]. bnorm.
  cbn [subdiv_go]. rewrite (proj2 (Nat.ltb_lt 0 step) Es).
  set (fresh := filter (fun i => i ∉ seen) (stride_indices (length ls) step)).
  destruct (fresh_props (length ls) step seen Es) as [Hfnd Hfb].
  pose proof (unseen_app (length ls) seen fresh Hfnd Hfb) as Hcount.
  destruct (load_pass _ ls count) as [[ls1 c1] st1] eqn:Ep.
  destruct (load_pass_count _ _ _ _ _ _ Ec Ep) as (Hc1 & Hc1pos & Hlen1).
  destruct (load_pass_order (stride_indices (length ls) step) ls seen count ls1 c1 st1
    Hinv (stride_NoDup _ _ Es)
    ltac:(intros i Hi; apply elem_of_stride in Hi as [? _]; lia) ltac:(fold fresh; lia) Ec Ep)
    as [Hst1 Hinv1].
  fold fresh in Hst1. subst st1.
  assert (Hnd1 : NoDup (seen ++ fresh)).
  { apply NoDup_app. split; [done|]. split; [|done]. intros j Hj Hj'. by apply (Hfb j Hj'). }
  assert (Hb1 : forall i, i ∈ seen ++ fresh -> i < length ls1).
  { rewrite Hlen1. intros i Hi. apply elem_of_app in Hi as [Hi|Hi]; [auto|apply Hfb, Hi]. }
  destruct (0 <? c1)%Z eqn:Epos; bnorm.
  - destruct (load_loop fuel ls1 (step / 2) c1) as [[[ls2 s2] c2] st2] eqn:El.
    intros [= <- _ _ <-].
    destruct (IH ls1 (step / 2) c1 (seen ++ fresh) _ _ _ _ Hinv1 Hnd1 Hb1 ltac:(rewrite Hlen1; lia) El) as [-> Hinv2].
    rewrite Hlen1 in *. split; [done|]. by rewrite app_assoc.
  - assert (Hall : subdiv_go fuel (step / 2) (length ls) (seen ++ fresh) = []).
    { apply subdiv_go_all_seen. intros j Hj. apply (unseen_nil_all (length ls)); [lia|done]. }
    rewrite Hall, app_nil_r.
    destruct fuel as [|fuel]; cbn [load_loop]; [intros [= <- _ _ <-]; by rewrite app_nil_r|].
    replace ((0 <? c1)%Z) with false by lia. intros [= <- _ _ <-]. by rewrite app_nil_r.
Qed.

(** C1: from a fresh load (every frame in its default state, the step just
    reset by [resetLoadStep]) with a budget covering every frame,
    [nextLayerLoad] calls [loadLayer] on the frames exactly in the coarse to
    fine order [subdivision_order], and leaves no frame in its default
    state. *)
Theorem nextLayerLoad_order maxc ls ls' s' st :
  (forall f, f ∈ ls -> startable f /\ fv_default f = true) ->
  (maxc <= 0 \/ Z.of_nat (length ls) <= maxc)%Z ->
  nextLayerLoad maxc ls (resetLoadStep (length ls)) = (ls', s', st) ->
  st = subdivision_order (length ls) /\ (forall f, f ∈ ls' -> fv_default f = false).
Proof.
  intros Hdef Hmax. unfold nextLayerLoad.
  rewrite (proj2 (Nat.ltb_lt _ _) (resetLoadStep_pos (length ls))).
  destruct (load_loop _ ls _ _) as [[[ls1 s1] c1] st1] eqn:El. intros [= <- <- <-].
  assert (Hl0 : count_loading ls = 0).
  { unfold count_loading. apply length_zero_iff_nil, filter_nil_forall.
    intros f Hf Hl. destruct (Hdef f Hf) as [_ Hd]. by rewrite fv_loading_not_default in Hd. }
  assert (Hinv0 : seen_inv ls []).
  { intros i f Hi. apply list_elem_of_lookup_2, Hdef in Hi as [Hs Hd].
    split; [split; [set_solver|done]|done]. }
  assert (Hu : length (unseen (length ls) []) = length ls).
  { unfold unseen. rewrite filter_all_forall by set_solver. apply length_seq. }
  destruct (load_loop_order _ ls (resetLoadStep (length ls)) (initial_load_count maxc ls) []
    ls1 s1 c1 st1 Hinv0 NoDup_nil_2 ltac:(set_solver)
    ltac:(unfold initial_load_count; rewrite Hl0, Hu; case_if; lia) El) as [-> Hinv1].
  split; [done|].
  intros f Hf. apply list_elem_of_lookup_1 in Hf as [j Hj].
  pose proof (load_loop_length _ _ _ _ _ _ _ _ El) as Hlen.
  assert (Hjn : j < length ls) by (rewrite <-Hlen; eapply lookup_lt_Some; eauto).
  destruct (fv_default f) eqn:Ed; [|done].
  apply (proj1 (Hinv1 j f Hj)) in Ed. exfalso. apply Ed. apply subdivision_order_covers, Hjn.
Qed.

End Progress.

End Scheduler.

(** ** Witnesses on [LayerObject] frames *)

Section Witnesses.
Import Frame.

(** Five frames one second apart, as [loadAnimation] builds them. *)
Definition five_frames : list frame :=
  map (fun k => new_frame (mk_config (Z.of_nat k * 1000) Wms)) (seq 0 5).

Lemma resetLoadStep_bounds_witness :
  2 <= 5 /\ resetLoadStep 5 < 5 /\ 5 <= 2 * resetLoadStep 5.
Proof. split; [lia|]. apply resetLoadStep_bounds. lia. Defined.

Lemma load_loop_terminates_witness :
  4 < 5 /\
  let '(_, s', c', _) := load_loop 5 five_frames 4 5%Z in (c' <= 0)%Z \/ s' = 0.
Proof. split; [lia|]. apply load_loop_terminates. lia. Defined.

Lemma nextLayerLoad_budget_witness :
  (Z.of_nat (count_loading five_frames) <= load_cap 2 five_frames)%Z /\
  let '(ls', s', st) := nextLayerLoad 2 five_frames (resetLoadStep 5) in
  (Z.of_nat (length st + count_loading five_frames) <= load_cap 2 five_frames)%Z /\
  (Z.of_nat (count_loading ls') <= load_cap 2 five_frames)%Z.
Proof.
  split; [vm_compute; discriminate|].
  destruct (nextLayerLoad 2 five_frames (resetLoadStep 5)) as [[ls' s'] st] eqn:E.
  apply (nextLayerLoad_budget 2 five_frames (resetLoadStep 5) ls' s' st);
    [vm_compute; discriminate|exact E].
Defined.

Lemma nextLayerLoad_order_witness :
  (forall f, f ∈ five_frames -> frame_startable f /\ isDefaultState f = true) /\
  (nextLayerLoad (-1) five_frames (resetLoadStep 5)).2 = subdivision_order 5 /\
  subdivision_order 5 = [0; 4; 2; 1; 3].
Proof.
  assert (Hs : forall f, f ∈ five_frames -> frame_startable f /\ isDefaultState f = true).
  { intros f Hf. repeat (apply elem_of_cons in Hf as [->|Hf];
      [split; [split; [reflexivity|discriminate]|reflexivity]|]). set_solver. }
  split; [exact Hs|]. split; [|vm_compute; reflexivity].
  destruct (nextLayerLoad (-1) five_frames (resetLoadStep 5)) as [[ls' s'] st] eqn:E.
  simpl. apply (@nextLayerLoad_order frame frame_view frame_view_laws frame_startable
    frame_load_progress (-1) five_frames ls' s' st);
    [exact Hs|left; lia|exact E].
Defined.

Lemma layerLoadEnd_groups_sound_witness :
  pow2_or_0 2 /\
  let g := (layerLoadEnd_groups five_frames 2).1 in
  pow2_or_0 g /\ g <= 2 /\
  (g < 2 -> (g = 0 /\ all_loaded five_frames) \/
            (0 < g /\ group_complete five_frames (2 * g) = true)).
Proof.
  split; [right; exists 1; reflexivity|]. apply layerLoadEnd_groups_sound.
  right; exists 1; reflexivity.
Defined.

(** Finding: right after the first pass of [loadAnimation] over four
    fresh frames with no cap, [_loadStep] has already fallen to 1 while
    [_groupLoadStep] is still 2 (no load has completed): the group step is
    not bounded by the load step. *)
Theorem group_step_above_load_step :
  resetLoadStep 4 = 2 /\
  snd (fst (nextLayerLoad (-1) (take 4 five_frames) (resetLoadStep 4))) = 1 /\
  snd (nextLayerLoad (-1) (take 4 five_frames) (resetLoadStep 4)) = [0; 2; 1; 3].
Proof. vm_compute. repeat split. Qed.

End Witnesses.
