(* ===== verification/Presentation.v ===== *)
(** * The presentation logic of [internal/LayerContainer.js]

    Which frame is shown, and how the others fade out.  [_fadeOutLayers]
    is the fade stack: oldest first, the current frame last.  Its entries
    are frame indices (see the prelude).  The operations return the new
    stack and the effects the code performs, in order: the opacity
    transitions it starts ([startTransitionFadeOut], [startTransitionFadeIn])
    and the [frameChangedCallback] notifications.  Section [Presentation]
    is generic in the frame type through [FrameView] and a time accessor
    ([getTimeFromConfig(layer.getConfig())]). *)

From S2P Require Import Prelude Js Frame Schedule.
Import Js.
From Stdlib Require Import QArith Reals.
Local Open Scope nat_scope.

Inductive effect :=
| FadeOut (i : nat) (target : Q)   (* startTransitionFadeOut(_layers[i], target) *)
| FadeIn (i : nat) (target : Q)    (* startTransitionFadeIn(_layers[i], target) *)
| FrameChanged (i : nat).          (* observer.frameChangedCallback([_layers[i]]) *)

(** [getCurrentFrameIndex()]: [_layers.indexOf(getCurrentFrame())]. *)
Definition current_index (fade : list nat) : Z :=
  match last_opt fade with Some i => Z.of_nat i | None => (-1)%Z end.

(** [_fadeOutLayers.splice(_fadeOutLayers.indexOf(layer), 1)] when present. *)
Definition remove_first (k : nat) (fade : list nat) : list nat :=
  match index_of k fade with Some j => delete j fade | None => fade end.

(** [maxFadeOutFrameCount]: the number of fade-out opacities, at least 1.
    [ops] is [_fadeOutOpacities], stored in reverse of the configured
    order by [setFadeOutOpacities]; [None] is [undefined]. *)
Definition max_fade_count (ops : option (list Q)) : nat :=
  match ops with Some ((_ :: _) as l) => length l | _ => 1 end.

(** The opacity a fading frame at position [i] of a stack of [len] frames
    is sent to. *)
Definition fade_opacity (ops : option (list Q)) (anim : Q) (looping : bool)
    (len i : nat) : Q :=
  match ops with
  | Some ((o0 :: _) as l) =>
      if looping then o0
      else
        let idx := i + (if len <? length l then length l - len else 0) in
        let idx := if length l <=? idx then length l - 1 else idx in
        (anim * nth idx l 0)%Q
  | _ => 0%Q
  end.

(** [looping]: the new index does not continue the direction of the two
    previous ones. *)
Definition is_looping (prev cur next : Z) : bool :=
  negb (prev =? -1)%Z &&
  negb (((prev <? cur) && (cur <? next)) || ((cur <? prev) && (next <? cur)))%Z.

Section Presentation.
Context `{FrameView F}.
Variable frame_time : F -> number.

(** [allowShowLayer(index)]. *)
Definition allowShowLayer (ls : list F) (gls : nat) (index : Z) : bool :=
  (0 <=? index)%Z && (index <? Z.of_nat (length ls))%Z &&
  ((gls =? 0) || (Z.to_nat index mod (gls * 2) =? 0)) &&
  frame_loaded ls (Z.to_nat index).

(** The stack update of [showLayer] for a new frame [k]: remove [k],
    fade every member out, drop the excess, push [k]. *)
Definition push_looping (fade : list nat) (k : nat) : bool :=
  let fade1 := remove_first k fade in
  let prev := if 1 <? length fade1 then Z.of_nat (nth (length fade1 - 2) fade1 0) else (-1)%Z in
  is_looping prev (current_index fade) (Z.of_nat k).

Definition push_frame (ops : option (list Q)) (anim : Q) (fade : list nat) (k : nat)
    : list nat * list effect :=
  let fade1 := remove_first k fade in
  let looping := push_looping fade k in
  let remove_count := if looping then length fade1
                      else length fade1 + 1 - max_fade_count ops in
  let outs := imap (fun i j => FadeOut j (fade_opacity ops anim looping (length fade1) i)) fade1 in
  (drop remove_count fade1 ++ [k], outs).

(** [showLayer(layer, force)] for [layer = _layers[k]]. *)
Definition showLayer (ls : list F) (gls : nat) (ops : option (list Q)) (anim : Q)
    (fade : list nat) (k : nat) (force : bool) : list nat * list effect :=
  let is_new := negb (bool_decide (last_opt fade = Some k)) in
  if (k <? length ls) && (force || allowShowLayer ls gls (Z.of_nat k)) then
    let '(fade', outs) := if is_new then push_frame ops anim fade k else (fade, []) in
    (fade', outs ++ [FadeIn k anim] ++ (if is_new then [FrameChanged k] else []))
  else (fade, []).

(** The navigation step: [!_groupLoadStep ? 1 : _groupLoadStep * 2]. *)
Definition nav_step (gls : nat) : nat := if gls =? 0 then 1 else gls * 2.

(** The index [showNextFrame] moves to. *)
Definition next_index (n step : nat) (cur : Z) : nat :=
  if (cur <? 0)%Z || (Z.of_nat n <=? cur + Z.of_nat step)%Z then 0
  else Z.to_nat (cur + Z.of_nat step - cur mod Z.of_nat step).

(** [showNextFrame]. *)
Definition showNextFrame (ls : list F) (gls : nat) (ops : option (list Q)) (anim : Q)
    (fade : list nat) : list nat * list effect :=
  let step := nav_step gls in
  if (0 <? length ls) && ((step <? length ls) || (step =? 1)) then
    showLayer ls gls ops anim fade (next_index (length ls) step (current_index fade)) false
  else (fade, []).

(** The index [showPreviousFrame] moves to. *)
Definition previous_index (n step : nat) (cur : Z) : nat :=
  let idx := (cur - Z.of_nat step)%Z in
  if (idx <? 0)%Z then n - (if n mod step =? 0 then 1 else n mod step) else Z.to_nat idx.

(** [showPreviousFrame]. *)
Definition showPreviousFrame (ls : list F) (gls : nat) (ops : option (list Q)) (anim : Q)
    (fade : list nat) : list nat * list effect :=
  let step := nav_step gls in
  if (0 <? length ls) && ((step <? length ls) || (step =? 1)) then
    showLayer ls gls ops anim fade (previous_index (length ls) step (current_index fade)) false
  else (fade, []).

(** [fadeOutAll]: empty the stack, fading every member to 0. *)
Definition fadeOutAll (fade : list nat) : list nat * list effect :=
  ([], map (fun j => FadeOut j 0%Q) fade).

(** The loop of [showFrame(time)] from index [i] on.  [t] is the time
    converted to a number; [num] says whether it was a number or a Date,
    the only inputs [===] can find equal to a frame time.  A frame whose
    time is NaN fails every comparison. *)
Fixpoint showFrame_scan (ls : list F) (gls : nat) (ops : option (list Q)) (anim : Q)
    (res : number) (fade : list nat) (t : number) (num : bool) (cur : Z) (i : nat)
    (rest : list F) : list nat * list effect :=
  match rest with
  | [] => (fade, [])
  | f :: rest' =>
      let ct := frame_time f in
      let last := (i =? length ls - 1) in
      if ((i =? 0) && num_le t (num_sub ct res)) || (last && num_le (num_add ct res) t) ||
         (last && (cur =? 0)%Z && num_lt ct t) ||
         ((i =? 0) && (cur =? Z.of_nat (length ls) - 1)%Z && num_lt t ct)
      then fadeOutAll fade
      else if num && num_eqb t ct then showLayer ls gls ops anim fade i false
      else showFrame_scan ls gls ops anim res fade t num cur (S i) rest'
  end.

(** [showFrame(time)]: an undefined or null time, or one that is neither
    a Date nor converts to a number, is ignored; a Date is replaced by its
    time value. *)
Definition showFrame (ls : list F) (gls : nat) (ops : option (list Q)) (anim : Q)
    (res : number) (fade : list nat) (time : jsval) : list nat * list effect :=
  let go t num := showFrame_scan ls gls ops anim res fade t num (current_index fade) 0 ls in
  match time with
  | JUndef | JNull => (fade, [])
  | JDate d => go (date_number d) true
  | JNum n => if Js.isNaN time then (fade, []) else go n true
  | v => if Js.isNaN v then (fade, []) else go (Js.to_number v) false
  end.

End Presentation.

(** [setFadeOutOpacities(opacities)]: every value must be a number in
    [0, 1]; the accepted values are stored in reverse order; a rejected
    array leaves the previous value; an empty or missing one clears it.
    An entry [None] is [undefined], [null] or [NaN]. *)
Fixpoint validate_opacities (l : list (option Q)) (acc : list Q) : option (list Q) :=
  match l with
  | [] => Some acc
  | Some q :: rest =>
      if Qle_bool 0 q && Qle_bool q 1 then validate_opacities rest (q :: acc) else None
  | None :: _ => None
  end.

Definition setFadeOutOpacities (old : option (list Q)) (input : option (list (option Q)))
    : option (list Q) :=
  match input with
  | None | Some [] => None
  | Some l => match validate_opacities l [] with Some c => Some c | None => old end
  end.

(** ** The stack operations *)

Lemma remove_first_cons k y l :
  remove_first k (y :: l) = if decide (k = y) then l else y :: remove_first k l.
Proof.
  unfold remove_first. simpl. case_decide; [done|].
  destruct (index_of k l); simpl; done.
Qed.

Lemma remove_first_elem k l j : j ∈ remove_first k l -> j ∈ l.
Proof.
  induction l as [|y l IH]; [done|]. rewrite remove_first_cons.
  case_decide; set_solver.
Qed.

Lemma remove_first_NoDup k l :
  NoDup l -> NoDup (remove_first k l) /\ k ∉ remove_first k l.
Proof.
  induction l as [|y l IH]; intros Hnd; [split; [constructor|set_solver]|].
  apply NoDup_cons in Hnd as [Hy Hnd]. rewrite remove_first_cons.
  case_decide as Hk; [subst; done|].
  destruct (IH Hnd) as [Hnd' Hk']. split; [|set_solver].
  constructor; [|done]. intros Hin. apply Hy. by apply remove_first_elem in Hin.
Qed.

Lemma max_fade_count_pos ops : 1 <= max_fade_count ops.
Proof. unfold max_fade_count. destruct ops as [[|x l]|]; simpl; lia. Qed.

Lemma length_imap_effects (f : nat -> nat -> effect) (l : list nat) :
  length (imap f l) = length l.
Proof. apply length_imap. Qed.

(** What [push_frame] makes of the stack. *)
Lemma push_frame_spec ops anim fade k :
  NoDup fade ->
  let fade' := (push_frame ops anim fade k).1 in
  last_opt fade' = Some k /\ NoDup fade' /\
  length fade' <= max_fade_count ops /\ (forall j, j ∈ fade' -> j ∈ fade \/ j = k).
Proof.
  intros Hnd. unfold push_frame. cbn [fst].
  destruct (remove_first_NoDup k fade Hnd) as [Hnd1 Hk1].
  set (fade1 := remove_first k fade) in *.
  set (rc := if push_looping fade k then _ else _).
  pose proof (max_fade_count_pos ops).
  split; [apply last_opt_app|]. split.
  - apply NoDup_app. split; [eapply sublist_NoDup; [done|apply sublist_drop]|].
    split; [|apply NoDup_singleton].
    intros j Hj Hj'. apply list_elem_of_singleton in Hj' as ->.
    apply Hk1. by apply (subseteq_drop rc fade1).
  - split.
    + rewrite length_app, length_drop. simpl.
      unfold rc. destruct (push_looping fade k); lia.
    + intros j Hj. apply elem_of_app in Hj as [Hj|Hj].
      * left. apply (subseteq_drop rc fade1) in Hj. by apply remove_first_elem in Hj.
      * right. set_solver.
Qed.

(** The fade stack invariant: no duplicates, indices of existing frames,
    at most [max(1, len(fadeOutOpacities))] entries. *)
Definition stack_ok (n : nat) (ops : option (list Q)) (fade : list nat) : Prop :=
  NoDup fade /\ (forall j, j ∈ fade -> j < n) /\ length fade <= max_fade_count ops.

(** The part of it every operation of the container keeps. *)
Definition fade_ok (n : nat) (fade : list nat) : Prop :=
  NoDup fade /\ forall j, j ∈ fade -> j < n.

Lemma stack_ok_nil n ops : stack_ok n ops [].
Proof. split; [constructor|]. split; [set_solver|]. pose proof (max_fade_count_pos ops). simpl; lia. Qed.

Section PresentationProofs.
Context `{FrameView F}.
Variable frame_time : F -> number.

Lemma showLayer_cases ls gls ops anim fade k force :
  (~ (k < length ls /\ (force = true \/ allowShowLayer ls gls (Z.of_nat k) = true)) /\
   showLayer ls gls ops anim fade k force = (fade, [])) \/
  ((k < length ls /\ (force = true \/ allowShowLayer ls gls (Z.of_nat k) = true)) /\
   ((last_opt fade = Some k /\ showLayer ls gls ops anim fade k force = (fade, [FadeIn k anim])) \/
    (last_opt fade <> Some k /\
     showLayer ls gls ops anim fade k force =
       ((push_frame ops anim fade k).1,
        (push_frame ops anim fade k).2 ++ [FadeIn k anim; FrameChanged k])))).
Proof.
  unfold showLayer. destruct ((k <? length ls) && _) eqn:Hc.
  2:{ left. split; [|done]. intros [Hk Hf]. apply andb_false_iff in Hc as [Hc|Hc]; bnorm; [lia|].
      apply orb_false_iff in Hc as [Hc1 Hc2]. destruct Hf; congruence. }
  right. apply andb_true_iff in Hc as [Hk Hf]. bnorm.
  split; [split; [done|]; apply orb_true_iff in Hf as [->|]; auto|].
  destruct (bool_decide (last_opt fade = Some k)) eqn:Hb.
  - apply bool_decide_eq_true in Hb. left. by split.
  - apply bool_decide_eq_false in Hb. right. split; [done|].
    by destruct (push_frame ops anim fade k).
Qed.

Lemma showLayer_stack_ok ls gls ops anim fade k force :
  stack_ok (length ls) ops fade ->
  stack_ok (length ls) ops (showLayer ls gls ops anim fade k force).1.
Proof.
  intros Hok. destruct (showLayer_cases ls gls ops anim fade k force)
    as [[_ ->]|[[Hk _] [[_ ->]|[_ ->]]]]; [done|done|]. cbn [fst].
  destruct Hok as (Hnd & Hb & _).
  destruct (push_frame_spec ops anim fade k Hnd) as (_ & Hnd' & Hlen & Hin).
  split; [done|]. split; [|done]. intros j Hj. destruct (Hin j Hj) as [?| ->]; auto.
Qed.

Lemma showFrame_scan_stack_ok ls gls ops anim res fade t num cur i rest :
  stack_ok (length ls) ops fade ->
  stack_ok (length ls) ops (showFrame_scan frame_time ls gls ops anim res fade t num cur i rest).1.
Proof.
  revert i. induction rest as [|f rest IH]; intros i Hok; simpl; [done|].
  destruct (_ || _); [apply stack_ok_nil|].
  destruct (_ && _); [by apply showLayer_stack_ok|]. by apply IH.
Qed.

Lemma showFrame_stack_ok ls gls ops anim res fade time :
  stack_ok (length ls) ops fade ->
  stack_ok (length ls) ops (showFrame frame_time ls gls ops anim res fade time).1.
Proof.
  intros Hok. unfold showFrame.
  destruct time; repeat case_match; try done; by apply showFrame_scan_stack_ok.
Qed.

(** Every presentation operation leaves the stack as it is, empties it,
    or pushes a frame of [ls] with [push_frame]. *)
Definition pres_shape (ls : list F) (ops : option (list Q)) (anim : Q) (fade fade' : list nat) : Prop :=
  fade' = fade \/ fade' = [] \/ exists k, k < length ls /\ fade' = (push_frame ops anim fade k).1.

Lemma showLayer_shape ls gls ops anim fade k force :
  pres_shape ls ops anim fade (showLayer ls gls ops anim fade k force).1.
Proof.
  unfold pres_shape. destruct (showLayer_cases ls gls ops anim fade k force)
    as [[_ ->]|[[Hk _] [[_ ->]|[_ ->]]]]; eauto.
Qed.

Lemma showNextFrame_shape ls gls ops anim fade :
  pres_shape ls ops anim fade (showNextFrame ls gls ops anim fade).1.
Proof. unfold showNextFrame. destruct (_ && _); [apply showLayer_shape|by left]. Qed.

Lemma showPreviousFrame_shape ls gls ops anim fade :
  pres_shape ls ops anim fade (showPreviousFrame ls gls ops anim fade).1.
Proof. unfold showPreviousFrame. destruct (_ && _); [apply showLayer_shape|by left]. Qed.

Lemma fadeOutAll_shape ls ops anim fade : pres_shape ls ops anim fade (fadeOutAll fade).1.
Proof. by right; left. Qed.

Lemma showFrame_shape ls gls ops anim res fade time :
  pres_shape ls ops anim fade (showFrame frame_time ls gls ops anim res fade time).1.
Proof.
  assert (Hscan : forall t num cur i rest,
    pres_shape ls ops anim fade (showFrame_scan frame_time ls gls ops anim res fade t num cur i rest).1).
  { intros t num cur i rest. revert i. induction rest as [|f rest IH]; intros i; simpl; [by left|].
    destruct (_ || _); [apply fadeOutAll_shape|]. destruct (_ && _); [apply showLayer_shape|apply IH]. }
  unfold showFrame. destruct time; repeat case_match; try (by left); apply Hscan.
Qed.

Lemma pres_shape_fade_ok ls ops anim fade fade' :
  fade_ok (length ls) fade -> pres_shape ls ops anim fade fade' -> fade_ok (length ls) fade'.
Proof.
  intros [Hnd Hb] [->|[->|(k & Hk & ->)]]; [done|split; [constructor|set_solver]|].
  destruct (push_frame_spec ops anim fade k Hnd) as (_ & Hnd' & _ & Hin).
  split; [done|]. intros j Hj. destruct (Hin j Hj) as [?| ->]; auto.
Qed.

(** The presentation operations the container exposes. *)
Inductive pres_op :=
| OpShowNext
| OpShowPrevious
| OpShowFrame (time : jsval)
| OpFadeOutAll
| OpShowLayer (k : nat) (force : bool).

Definition pres_apply (ls : list F) (gls : nat) (ops : option (list Q)) (anim : Q)
    (res : number) (fade : list nat) (op : pres_op) : list nat * list effect :=
  match op with
  | OpShowNext => showNextFrame ls gls ops anim fade
  | OpShowPrevious => showPreviousFrame ls gls ops anim fade
  | OpShowFrame t => showFrame frame_time ls gls ops anim res fade t
  | OpFadeOutAll => fadeOutAll fade
  | OpShowLayer k force => showLayer ls gls ops anim fade k force
  end.

(** Run a sequence of operations, each with the group step of its time. *)
Fixpoint pres_run (ls : list F) (ops : option (list Q)) (anim : Q) (res : number)
    (fade : list nat) (script : list (nat * pres_op)) : list nat :=
  match script with
  | [] => fade
  | (gls, op) :: rest => pres_run ls ops anim res (pres_apply ls gls ops anim res fade op).1 rest
  end.

Lemma pres_apply_stack_ok ls gls ops anim res fade op :
  stack_ok (length ls) ops fade ->
  stack_ok (length ls) ops (pres_apply ls gls ops anim res fade op).1.
Proof.
  intros Hok. destruct op as [| |t| |k force]; simpl.
  - unfold showNextFrame. destruct (_ && _); [by apply showLayer_stack_ok|done].
  - unfold showPreviousFrame. destruct (_ && _); [by apply showLayer_stack_ok|done].
  - by apply showFrame_stack_ok.
  - apply stack_ok_nil.
  - by apply showLayer_stack_ok.
Qed.

(** C4: after any sequence of [showFrame], [showNextFrame],
    [showPreviousFrame], [fadeOutAll] and [showLayer] calls started from a
    stack that satisfies it, the fade stack has no duplicates, holds only
    indices of frames, and has at most [max(1, len(fadeOutOpacities))]
    entries. *)
Theorem fade_stack_invariant ls ops anim res fade script :
  stack_ok (length ls) ops fade -> stack_ok (length ls) ops (pres_run ls ops anim res fade script).
Proof.
  revert fade. induction script as [|[gls op] script IH]; intros fade Hok; [done|].
  simpl. apply IH. by apply pres_apply_stack_ok.
Qed.

Lemma push_frame_outs ops anim fade k e :
  e ∈ (push_frame ops anim fade k).2 -> exists j q, e = FadeOut j q.
Proof.
  unfold push_frame. cbn [snd]. intros He.
  apply list_elem_of_lookup_1 in He as [i Hi]. rewrite list_lookup_imap in Hi.
  destruct (remove_first k fade !! i); simpl in Hi; [|done]. injection Hi as <-. eauto.
Qed.

(** a [showLayer] that passes its guard makes frame [k] current (the
    last entry of the stack), and it notifies the observer of a frame
    change exactly when the current frame was another one: a forced
    re-show of the current frame (after a map move) notifies nothing. *)
Theorem showLayer_current_changed ls gls ops anim fade k force :
  k < length ls -> (force = true \/ allowShowLayer ls gls (Z.of_nat k) = true) ->
  last_opt (showLayer ls gls ops anim fade k force).1 = Some k /\
  (FrameChanged k ∈ (showLayer ls gls ops anim fade k force).2 <-> last_opt fade <> Some k).
Proof.
  intros Hk Hg. destruct (showLayer_cases ls gls ops anim fade k force)
    as [[Hn _]|[_ [[Hl ->]|[Hl ->]]]].
  - by exfalso; apply Hn.
  - simpl. split; [done|]. split; [|done]. intros Hin.
    apply elem_of_cons in Hin as [Hin|Hin]; [done|set_solver].
  - simpl. split; [apply last_opt_app|]. split; [done|]. intros _.
    apply elem_of_app. right. set_solver.
Qed.

Lemma next_index_aligned n step cur :
  0 < n -> 0 < step -> next_index n step cur < n /\ next_index n step cur mod step = 0.
Proof.
  intros Hn Hs. unfold next_index.
  destruct ((cur <? 0)%Z || _) eqn:Hc; [split; [lia|apply Nat.Div0.mod_0_l]|].
  apply orb_false_iff in Hc as [Hc1 Hc2]. bnorm.
  pose proof (Z.div_mod cur (Z.of_nat step) ltac:(lia)) as Hdm.
  pose proof (Z.mod_pos_bound cur (Z.of_nat step) ltac:(lia)) as Hmb.
  pose proof (Z.div_pos cur (Z.of_nat step) ltac:(lia) ltac:(lia)) as Hq.
  set (q := (cur / Z.of_nat step)%Z) in *.
  replace (cur + Z.of_nat step - cur mod Z.of_nat step)%Z with (Z.of_nat step * (q + 1))%Z by lia.
  split; [lia|]. apply Nat.Div0.mod_divides. exists (Z.to_nat (q + 1)). lia.
Qed.

(** [showNextFrame] moves the current frame to the next index aligned
    to the navigation step [_groupLoadStep * 2] (or 1 once everything is
    loaded), wrapping to 0 at the end and starting at 0, provided the group
    of that step is loaded. *)
Theorem showNextFrame_target ls gls ops anim fade :
  0 < length ls -> (nav_step gls < length ls \/ nav_step gls = 1) ->
  group_complete ls (nav_step gls) = true ->
  let t := next_index (length ls) (nav_step gls) (current_index fade) in
  last_opt (showNextFrame ls gls ops anim fade).1 = Some t /\ t mod nav_step gls = 0.
Proof.
  intros Hn Hst Hg t.
  assert (Hs : 0 < nav_step gls) by (unfold nav_step; case_if; lia).
  destruct (next_index_aligned (length ls) (nav_step gls) (current_index fade) Hn Hs) as [Ht Hm].
  fold t in Ht, Hm. split; [|done].
  unfold showNextFrame.
  replace ((0 <? length ls) && _) with true
    by (symmetry; apply andb_true_iff; split; [by apply Nat.ltb_lt|];
        apply orb_true_iff; destruct Hst; [left; by apply Nat.ltb_lt|right; by apply Nat.eqb_eq]).
  fold t. apply showLayer_current_changed; [done|]. right.
  unfold allowShowLayer. rewrite Nat2Z.id.
  rewrite group_complete_spec in Hg by done.
  rewrite (Hg t Ht Hm).
  replace ((0 <=? Z.of_nat t)%Z) with true by (symmetry; apply Z.leb_le; lia).
  replace ((Z.of_nat t <? Z.of_nat (length ls))%Z) with true by (symmetry; apply Z.ltb_lt; lia).
  unfold nav_step in Hm. destruct (gls =? 0); [done|]. rewrite Hm. by rewrite orb_true_r.
Qed.

Lemma next_index_1 n c : c < n -> next_index n 1 (Z.of_nat c) = (c + 1) mod n.
Proof.
  intros Hc. unfold next_index. rewrite Z.mod_1_r.
  destruct ((Z.of_nat c <? 0)%Z || _) eqn:E.
  - apply orb_true_iff in E as [E|E]; bnorm; [lia|].
    replace (c + 1) with n by lia. symmetry. apply Nat.Div0.mod_same.
  - apply orb_false_iff in E as [_ E]. bnorm. rewrite Nat.mod_small by lia. lia.
Qed.

(** The stack after [m] calls of [showNextFrame] once everything is loaded. *)
Definition next_iter (ls : list F) (ops : option (list Q)) (anim : Q) (m : nat)
    (fade : list nat) : list nat :=
  Nat.iter m (fun fd => (showNextFrame ls 0 ops anim fd).1) fade.

(** C15: once every frame is loaded, [showNextFrame] called [m + 1] times
    from a stopped animation shows frame [m mod n]: the animation cycles
    through every frame in order and loops back to the first one. *)
Theorem showNextFrame_loop ls ops anim m :
  0 < length ls -> all_loaded ls ->
  last_opt (next_iter ls ops anim (S m) []) = Some (m mod length ls).
Proof.
  intros Hn Hall.
  assert (Hstep : forall fd, last_opt (showNextFrame ls 0 ops anim fd).1 =
            Some (next_index (length ls) 1 (current_index fd))).
  { intros fd. apply (showNextFrame_target ls 0 ops anim fd Hn); [by right|].
    by apply group_complete_1. }
  induction m as [|m IH].
  - simpl. rewrite Hstep. simpl. by rewrite Nat.Div0.mod_0_l.
  - change (next_iter ls ops anim (S (S m)) [])
      with ((showNextFrame ls 0 ops anim (next_iter ls ops anim (S m) [])).1).
    rewrite Hstep. unfold current_index. rewrite IH. f_equal.
    rewrite next_index_1 by (apply Nat.mod_upper_bound; lia).
    rewrite Nat.add_mod_idemp_l by lia. f_equal. lia.
Qed.

(** [n - 1] is not aligned to a step [s >= 2] that divides [n]. *)
Lemma pred_not_aligned n s : 2 <= s -> n mod s = 0 -> 0 < n -> (n - 1) mod s <> 0.
Proof.
  intros Hs Hmod Hn. apply Nat.Div0.mod_divides in Hmod as [q ->].
  assert (Hq : 0 < q) by (destruct q; lia).
  assert (E : (s * q - 1) mod s = s - 1).
  { first [apply (Nat.mod_unique _ _ (q - 1)) | symmetry; apply (Nat.mod_unique _ _ (q - 1))]; nia. }
  rewrite E. lia.
Qed.

(** C23 (finding): while loading is incomplete, when the number of frames is a
    multiple of the navigation step [_groupLoadStep * 2], [showPreviousFrame]
    from a frame of the first step wraps to index [n - 1], which is not
    aligned to the step: [allowShowLayer] refuses it and nothing is shown,
    instead of the last aligned frame. *)
Theorem showPreviousFrame_wrap_stuck ls gls ops anim fade :
  0 < gls -> length ls mod (gls * 2) = 0 -> gls * 2 < length ls ->
  (current_index fade < Z.of_nat (gls * 2))%Z ->
  showPreviousFrame ls gls ops anim fade = (fade, []).
Proof.
  intros Hg Hmod Hlt Hcur. unfold showPreviousFrame, nav_step.
  rewrite (proj2 (Nat.eqb_neq gls 0)) by lia.
  rewrite (proj2 (Nat.ltb_lt 0 _)), (proj2 (Nat.ltb_lt (gls * 2) _)) by lia. cbn [andb orb].
  unfold previous_index. rewrite (proj2 (Z.ltb_lt _ _)) by lia. rewrite Hmod. cbn [Nat.eqb].
  unfold showLayer. replace (allowShowLayer ls gls (Z.of_nat (length ls - 1))) with false.
  { destruct (_ <? _); [|done]. by destruct (negb _). }
  symmetry. unfold allowShowLayer. rewrite Nat2Z.id.
  rewrite (proj2 (Nat.eqb_neq gls 0)) by lia. cbn [orb].
  rewrite (proj2 (Nat.eqb_neq _ 0)) by (apply pred_not_aligned; lia).
  by rewrite !andb_false_r, andb_false_l.
Qed.

End PresentationProofs.

(** ** Fade-out targets *)

Lemma remove_first_last k l c :
  last_opt l = Some c -> c <> k -> last_opt (remove_first k l) = Some c.
Proof.
  induction l as [|y l IH]; intros Hl Hc; [done|]. rewrite remove_first_cons.
  destruct l as [|z l].
  - injection Hl as ->. by rewrite decide_False.
  - rewrite last_opt_cons in Hl. case_decide; [done|].
    specialize (IH Hl Hc). destruct (remove_first k (z :: l)) as [|w l'] eqn:E; [done|].
    by rewrite last_opt_cons.
Qed.

Lemma last_opt_lookup {A} (l : list A) x : last_opt l = Some x -> l !! (length l - 1) = Some x.
Proof.
  induction l as [|y l IH]; intros Hl; [done|]. destruct l as [|z l].
  - by injection Hl as ->.
  - rewrite last_opt_cons in Hl. specialize (IH Hl). simpl in *.
    by rewrite Nat.sub_0_r in *.
Qed.

Lemma hd_rev_last (l : list Q) d : hd d (rev l) = List.last l d.
Proof.
  induction l as [|x l IH]; [done|]. simpl. destruct l as [|y l]; [done|].
  rewrite <-IH. simpl. destruct (rev l ++ [y]) eqn:E; [by apply app_eq_nil in E as [_ ?]|done].
Qed.

Lemma nth_rev_last_index (l : list Q) d :
  l <> [] -> nth (length (rev l) - 1) (rev l) d = hd d l.
Proof.
  intros Hl. rewrite length_rev, rev_nth by (destruct l; [done|simpl; lia]).
  destruct l as [|x l]; [done|]. simpl. by replace (length l - (length l - 0)) with 0 by lia.
Qed.

(** C17: when [showLayer] replaces the current frame [c] by another one, [c]
    fades to the first configured fade-out opacity times the container
    opacity; but when the new index breaks the direction of the animation
    (a loop), it fades to the last configured value, not multiplied by the
    container opacity. *)
Theorem replaced_frame_fade_target anim fade k c cfg :
  cfg <> [] -> last_opt fade = Some c -> c <> k ->
  FadeOut c (if push_looping fade k then List.last cfg 0 else anim * hd 0 cfg)%Q
    ∈ (push_frame (Some (rev cfg)) anim fade k).2.
Proof.
  intros Hcfg Hl Hck. unfold push_frame. cbn [snd].
  pose proof (remove_first_last k fade c Hl Hck) as Hl1.
  set (fade1 := remove_first k fade) in *.
  apply list_elem_of_lookup_2 with (length fade1 - 1).
  rewrite list_lookup_imap, (last_opt_lookup fade1 c Hl1). simpl. f_equal. f_equal.
  assert (Hlen1 : 1 <= length fade1) by (destruct fade1; [done|simpl; lia]).
  assert (Hr : rev cfg <> [])
    by (intros E; apply (f_equal length) in E; rewrite length_rev in E; by destruct cfg).
  unfold fade_opacity. destruct (rev cfg) as [|o0 l'] eqn:Erev; [done|].
  destruct (push_looping fade k).
  - by rewrite <-hd_rev_last, Erev.
  - f_equal. rewrite <-(nth_rev_last_index cfg 0) by done. rewrite Erev. f_equal.
    repeat case_if; simpl in *; lia.
Qed.


(** ** [setFadeOutOpacities] *)

Definition opacity_ok (q : Q) : Prop := (0 <= q /\ q <= 1)%Q.

Lemma validate_opacities_ok l acc c :
  Forall opacity_ok acc -> validate_opacities l acc = Some c -> Forall opacity_ok c.
Proof.
  revert acc. induction l as [|[q|] l IH]; intros acc Hacc; simpl; [by intros [= <-]| |done].
  destruct (Qle_bool 0 q && Qle_bool q 1) eqn:E; [|done].
  apply andb_true_iff in E as [E1 E2]. apply Qle_bool_iff in E1, E2.
  apply IH. constructor; [split|]; done.
Qed.

Lemma validate_opacities_map cfg acc :
  Forall opacity_ok cfg -> validate_opacities (map Some cfg) acc = Some (rev cfg ++ acc).
Proof.
  revert acc. induction cfg as [|q cfg IH]; intros acc Hok; [done|].
  apply Forall_cons in Hok as [[H0 H1] Hok]. simpl.
  apply Qle_bool_iff in H0, H1. rewrite H0, H1. simpl.
  rewrite IH by done. by rewrite <-app_assoc.
Qed.

Lemma setFadeOutOpacities_cons old o os :
  setFadeOutOpacities old (Some (o :: os)) =
  match validate_opacities (o :: os) [] with Some c => Some c | None => old end.
Proof. reflexivity. Qed.

(** [setFadeOutOpacities] stores an accepted array in reverse order,
    and keeps every stored value in [0, 1]: an array with a value outside
    [0, 1] (or not a number) leaves the previous, valid, value in place. *)
Theorem setFadeOutOpacities_spec old input cfg :
  (forall l, old = Some l -> Forall opacity_ok l) ->
  (Forall opacity_ok cfg -> cfg <> [] ->
     setFadeOutOpacities old (Some (map Some cfg)) = Some (rev cfg)) /\
  (forall l, setFadeOutOpacities old input = Some l -> Forall opacity_ok l).
Proof.
  intros Hold. split.
  - intros Hok Hne. destruct cfg as [|q cfg']; [done|].
    change (map Some (q :: cfg')) with (Some q :: map Some cfg').
    rewrite setFadeOutOpacities_cons.
    change (Some q :: map Some cfg') with (map Some (q :: cfg')).
    rewrite validate_opacities_map by done. by rewrite app_nil_r.
  - intros l. unfold setFadeOutOpacities. destruct input as [[|o os]|]; [done| |done].
    destruct (validate_opacities (o :: os) []) as [c|] eqn:E.
    + intros [= <-]. by apply validate_opacities_ok in E.
    + apply Hold.
Qed.

(** ** Witnesses on [LayerObject] frames *)

Section Witnesses.
Import Frame.

(** Frames that finished loading, one second apart. *)
Definition ready_frame (k : nat) : frame :=
  mk_frame (mk_config (Z.of_nat k * 1000) Wms) (Some (mk_layer true true 1%R)) (Some Ready) None.

Definition ready_frames (n : nat) : list frame := map ready_frame (seq 0 n).

Definition frame_time_of (f : frame) : number := Fin (inject_Z (fc_time (fr_config f))).

Lemma ready_frames_length n : length (ready_frames n) = n.
Proof. unfold ready_frames. by rewrite length_map, length_seq. Qed.

Definition two_steps : option (list Q) := setFadeOutOpacities None (Some [Some (1#2); Some (3#10)]).

Lemma fade_stack_invariant_witness :
  stack_ok (length (ready_frames 4)) two_steps [] /\
  stack_ok (length (ready_frames 4)) two_steps
    (pres_run frame_time_of (ready_frames 4) two_steps 1%Q (Fin 1000) []
       [(0, OpShowNext); (0, OpShowNext); (0, OpShowFrame (JNum (Fin 3000)));
        (1, OpShowPrevious); (0, OpShowLayer 1 true)]).
Proof. split; [apply stack_ok_nil|]. apply fade_stack_invariant, stack_ok_nil. Defined.

Lemma showLayer_current_changed_witness :
  2 < length (ready_frames 4) /\
  allowShowLayer (ready_frames 4) 0 (Z.of_nat 2) = true /\
  last_opt (showLayer (ready_frames 4) 0 two_steps 1%Q [0; 1] 2 false).1 = Some 2 /\
  (FrameChanged 2 ∈ (showLayer (ready_frames 4) 0 two_steps 1%Q [0; 1] 2 false).2 <->
   last_opt [0; 1] <> Some 2).
Proof.
  assert (Ha : allowShowLayer (ready_frames 4) 0 (Z.of_nat 2) = true) by reflexivity.
  split; [rewrite ready_frames_length; lia|]. split; [exact Ha|].
  apply showLayer_current_changed; [rewrite ready_frames_length; lia|by right].
Defined.

Lemma showNextFrame_target_witness :
  0 < length (ready_frames 4) /\ nav_step 1 < length (ready_frames 4) /\
  group_complete (ready_frames 4) (nav_step 1) = true /\
  let t := next_index (length (ready_frames 4)) (nav_step 1) (current_index [0]) in
  last_opt (showNextFrame (ready_frames 4) 1 two_steps 1%Q [0]).1 = Some t /\
  t mod nav_step 1 = 0.
Proof.
  assert (Hg : group_complete (ready_frames 4) (nav_step 1) = true) by reflexivity.
  split; [rewrite ready_frames_length; lia|]. split; [rewrite ready_frames_length; unfold nav_step; simpl; lia|].
  split; [exact Hg|].
  apply showNextFrame_target; [rewrite ready_frames_length; lia|left; rewrite ready_frames_length; unfold nav_step; simpl; lia|exact Hg].
Defined.

Lemma showNextFrame_loop_witness :
  0 < length (ready_frames 4) /\ all_loaded (ready_frames 4) /\
  last_opt (next_iter (ready_frames 4) two_steps 1%Q 6 []) = Some (5 mod length (ready_frames 4)).
Proof.
  assert (Hall : all_loaded (ready_frames 4)) by (apply group_complete_1; reflexivity).
  split; [rewrite ready_frames_length; lia|]. split; [exact Hall|].
  apply showNextFrame_loop; [rewrite ready_frames_length; lia|exact Hall].
Defined.

Lemma replaced_frame_fade_target_witness :
  [1#2; 3#10] <> [] /\ last_opt [1; 2] = Some 2 /\ 2 <> 3 /\
  FadeOut 2 (if push_looping [1; 2]%nat 3%nat then List.last [1#2; 3#10] 0 else (1#2) * hd 0 [1#2; 3#10])%Q
    ∈ (push_frame (Some (rev [1#2; 3#10])) (1#2) [1; 2] 3).2.
Proof.
  split; [discriminate|]. split; [reflexivity|]. split; [lia|].
  apply replaced_frame_fade_target; [discriminate|reflexivity|lia].
Defined.

Lemma setFadeOutOpacities_spec_witness :
  (forall l, (None : option (list Q)) = Some l -> Forall opacity_ok l) /\
  (Forall opacity_ok [1#2; 3#10] -> [1#2; 3#10] <> [] ->
     setFadeOutOpacities None (Some (map Some [1#2; 3#10])) = Some (rev [1#2; 3#10])) /\
  (forall l, setFadeOutOpacities None (Some [Some 2%Q; None]) = Some l -> Forall opacity_ok l).
Proof.
  assert (H0 : forall l, (None : option (list Q)) = Some l -> Forall opacity_ok l) by done.
  split; [exact H0|]. apply setFadeOutOpacities_spec, H0.
Defined.

Lemma showPreviousFrame_wrap_stuck_witness :
  showPreviousFrame (ready_frames 4) 1 two_steps 1%Q [0] = ([0], []).
Proof.
  apply (showPreviousFrame_wrap_stuck (ready_frames 4) 1 two_steps 1%Q [0]);
    rewrite ?ready_frames_length; [lia | reflexivity | lia | reflexivity].
Defined.

End Witnesses.
