(* ===== verification/Container.v ===== *)
(** * [internal/LayerContainer.js]: the container of one animation

    The state of the constructor's private variables ([state]), and every
    function of the container as an operation of a small state monad [M]
    that also collects the observer notifications, in order.  The frames
    are [LayerObject]s ([Frame]) with an identity ([s_obj]), the one the
    observer and the transition engine see.  The container composes the
    scheduler ([Schedule]), the presentation ([Presentation]) and the
    transition engine ([Transition]): a fade effect of the presentation is
    a call of [opacityTransition] whose writes change the frame opacities,
    and [requestAnimationFrame] queues both the engine's closures and the
    container's own [showAnimation] loop. *)

From Stdlib Require Import String.
From S2P Require Import Prelude Js Frame Transition Schedule Presentation.
From Stdlib Require Import QArith Qround Reals.
Import Js Frame Transition.

Module Container.

(** ** The configuration the container reads *)

(** [animation.fadeIn] / [animation.fadeOut]: the opacities array (each
    entry a number, [None] for one that is not), the time (a finite number
    or absent) and the timing function value. *)
Record fade_options := mk_fade_options {
  fo_opacities : option (list (option Q));
  fo_time : option Q;
  fo_timingFunction : jsval
}.

(** [ConfigUtils.getAnimation(_config)]: the animation options. *)
Record anim_options := mk_anim_options {
  ao_beginTime : jsval;
  ao_endTime : jsval;
  ao_resolutionTime : jsval;
  ao_maxAsyncLoadCount : jsval;
  ao_frameRate : jsval;
  ao_fadeOut : option fade_options;
  ao_fadeIn : option fade_options;
  ao_autoLoad : jsval;
  ao_autoStart : jsval
}.

(** [_config]: the service the frames are created for and the animation
    options, if any. *)
Record container_config := mk_container_config {
  cc_service : service;
  cc_animation : option anim_options
}.

(** ** State *)

(** A frame of [_layers]: the [LayerObject]'s identity and state. *)
Record slot := mk_slot { s_obj : nat; s_frame : frame }.

Definition slot_map (g : frame -> frame) (sl : slot) : slot := mk_slot (s_obj sl) (g (s_frame sl)).

#[export] Instance slot_view : FrameView slot := {
  fv_default sl := isDefaultState (s_frame sl);
  fv_loading sl := isLoading (s_frame sl);
  fv_loaded sl := isLoaded (s_frame sl);
  fv_load := slot_map loadLayer
}.

(** The closures given to [requestAnimationFrame]: a transition's
    [function() { transition(object); }], or the container's
    [showAnimation]. *)
Inductive callback := CbTransition (id : nat) | CbShowAnimation.

(** The observer callbacks, with the identities of the frames passed. *)
Inductive notice :=
| NLoadAnimationStarted               (* loadAnimationStartedCallback() *)
| NLoadFrameStarted (o : nat)         (* loadFrameStartedCallback([layer]) *)
| NLoadFrameComplete (o : nat)        (* loadFrameCompleteCallback([layer]) *)
| NLoadGroupProgress (os : list nat)  (* loadGroupProgressCallback(group) *)
| NLoadComplete (os : list nat)       (* loadCompleteCallback(group) *)
| NFrameContentReleased (o : nat)     (* frameContentReleasedCallback([layer]) *)
| NFrameChanged (o : nat).            (* frameChangedCallback([layer]) *)

(** The private variables.  [st_beginTime] is [_beginTime]: [None] for
    [undefined], [Some t] for a Date of time value [t] ([None] when
    invalid).  [st_requestAnimationTime] is the time value of
    [_requestAnimationTime].  [st_map] is the map's identity.  The
    transition engine and the animation-frame queue are those of the page,
    [st_nextObj] the next fresh [LayerObject] identity. *)
Record state := mk_state {
  st_config : option container_config;
  st_beginTime : option (option Z);
  st_endTime : option (option Z);
  st_resolutionTime : option number;
  st_visibility : bool;
  st_frameRate : number;
  st_maxAsyncLoadCount : number;
  st_opacity : Q;
  st_fadeOutOpacities : option (list Q);
  st_fadeOut : list nat;
  st_requestAnimationTime : option Z;
  st_map : option nat;
  st_layers : list slot;
  st_loadStep : nat;
  st_groupLoadStep : nat;
  st_nextObj : nat;
  st_engine : engine;
  st_pending : list callback
}.

(** The initial values of the constructor. *)
Definition initial : state :=
  mk_state None None None None true (Fin 500) (Fin (-1)) 1 None [] None None [] 1 1 0
    engine_empty [].

Definition set_config v (s : state) : state := mk_state v (st_beginTime s) (st_endTime s) (st_resolutionTime s) (st_visibility s) (st_frameRate s) (st_maxAsyncLoadCount s) (st_opacity s) (st_fadeOutOpacities s) (st_fadeOut s) (st_requestAnimationTime s) (st_map s) (st_layers s) (st_loadStep s) (st_groupLoadStep s) (st_nextObj s) (st_engine s) (st_pending s).
Definition set_beginTime v (s : state) : state := mk_state (st_config s) v (st_endTime s) (st_resolutionTime s) (st_visibility s) (st_frameRate s) (st_maxAsyncLoadCount s) (st_opacity s) (st_fadeOutOpacities s) (st_fadeOut s) (st_requestAnimationTime s) (st_map s) (st_layers s) (st_loadStep s) (st_groupLoadStep s) (st_nextObj s) (st_engine s) (st_pending s).
Definition set_endTime v (s : state) : state := mk_state (st_config s) (st_beginTime s) v (st_resolutionTime s) (st_visibility s) (st_frameRate s) (st_maxAsyncLoadCount s) (st_opacity s) (st_fadeOutOpacities s) (st_fadeOut s) (st_requestAnimationTime s) (st_map s) (st_layers s) (st_loadStep s) (st_groupLoadStep s) (st_nextObj s) (st_engine s) (st_pending s).
Definition set_resolutionTime v (s : state) : state := mk_state (st_config s) (st_beginTime s) (st_endTime s) v (st_visibility s) (st_frameRate s) (st_maxAsyncLoadCount s) (st_opacity s) (st_fadeOutOpacities s) (st_fadeOut s) (st_requestAnimationTime s) (st_map s) (st_layers s) (st_loadStep s) (st_groupLoadStep s) (st_nextObj s) (st_engine s) (st_pending s).
Definition set_visibility v (s : state) : state := mk_state (st_config s) (st_beginTime s) (st_endTime s) (st_resolutionTime s) v (st_frameRate s) (st_maxAsyncLoadCount s) (st_opacity s) (st_fadeOutOpacities s) (st_fadeOut s) (st_requestAnimationTime s) (st_map s) (st_layers s) (st_loadStep s) (st_groupLoadStep s) (st_nextObj s) (st_engine s) (st_pending s).
Definition set_frameRate v (s : state) : state := mk_state (st_config s) (st_beginTime s) (st_endTime s) (st_resolutionTime s) (st_visibility s) v (st_maxAsyncLoadCount s) (st_opacity s) (st_fadeOutOpacities s) (st_fadeOut s) (st_requestAnimationTime s) (st_map s) (st_layers s) (st_loadStep s) (st_groupLoadStep s) (st_nextObj s) (st_engine s) (st_pending s).
Definition set_maxAsyncLoadCount v (s : state) : state := mk_state (st_config s) (st_beginTime s) (st_endTime s) (st_resolutionTime s) (st_visibility s) (st_frameRate s) v (st_opacity s) (st_fadeOutOpacities s) (st_fadeOut s) (st_requestAnimationTime s) (st_map s) (st_layers s) (st_loadStep s) (st_groupLoadStep s) (st_nextObj s) (st_engine s) (st_pending s).
Definition set_opacity v (s : state) : state := mk_state (st_config s) (st_beginTime s) (st_endTime s) (st_resolutionTime s) (st_visibility s) (st_frameRate s) (st_maxAsyncLoadCount s) v (st_fadeOutOpacities s) (st_fadeOut s) (st_requestAnimationTime s) (st_map s) (st_layers s) (st_loadStep s) (st_groupLoadStep s) (st_nextObj s) (st_engine s) (st_pending s).
Definition set_fadeOutOpacities v (s : state) : state := mk_state (st_config s) (st_beginTime s) (st_endTime s) (st_resolutionTime s) (st_visibility s) (st_frameRate s) (st_maxAsyncLoadCount s) (st_opacity s) v (st_fadeOut s) (st_requestAnimationTime s) (st_map s) (st_layers s) (st_loadStep s) (st_groupLoadStep s) (st_nextObj s) (st_engine s) (st_pending s).
Definition set_fadeOut v (s : state) : state := mk_state (st_config s) (st_beginTime s) (st_endTime s) (st_resolutionTime s) (st_visibility s) (st_frameRate s) (st_maxAsyncLoadCount s) (st_opacity s) (st_fadeOutOpacities s) v (st_requestAnimationTime s) (st_map s) (st_layers s) (st_loadStep s) (st_groupLoadStep s) (st_nextObj s) (st_engine s) (st_pending s).
Definition set_requestAnimationTime v (s : state) : state := mk_state (st_config s) (st_beginTime s) (st_endTime s) (st_resolutionTime s) (st_visibility s) (st_frameRate s) (st_maxAsyncLoadCount s) (st_opacity s) (st_fadeOutOpacities s) (st_fadeOut s) v (st_map s) (st_layers s) (st_loadStep s) (st_groupLoadStep s) (st_nextObj s) (st_engine s) (st_pending s).
Definition set_map v (s : state) : state := mk_state (st_config s) (st_beginTime s) (st_endTime s) (st_resolutionTime s) (st_visibility s) (st_frameRate s) (st_maxAsyncLoadCount s) (st_opacity s) (st_fadeOutOpacities s) (st_fadeOut s) (st_requestAnimationTime s) v (st_layers s) (st_loadStep s) (st_groupLoadStep s) (st_nextObj s) (st_engine s) (st_pending s).
Definition set_layers v (s : state) : state := mk_state (st_config s) (st_beginTime s) (st_endTime s) (st_resolutionTime s) (st_visibility s) (st_frameRate s) (st_maxAsyncLoadCount s) (st_opacity s) (st_fadeOutOpacities s) (st_fadeOut s) (st_requestAnimationTime s) (st_map s) v (st_loadStep s) (st_groupLoadStep s) (st_nextObj s) (st_engine s) (st_pending s).
Definition set_loadStep v (s : state) : state := mk_state (st_config s) (st_beginTime s) (st_endTime s) (st_resolutionTime s) (st_visibility s) (st_frameRate s) (st_maxAsyncLoadCount s) (st_opacity s) (st_fadeOutOpacities s) (st_fadeOut s) (st_requestAnimationTime s) (st_map s) (st_layers s) v (st_groupLoadStep s) (st_nextObj s) (st_engine s) (st_pending s).
Definition set_groupLoadStep v (s : state) : state := mk_state (st_config s) (st_beginTime s) (st_endTime s) (st_resolutionTime s) (st_visibility s) (st_frameRate s) (st_maxAsyncLoadCount s) (st_opacity s) (st_fadeOutOpacities s) (st_fadeOut s) (st_requestAnimationTime s) (st_map s) (st_layers s) (st_loadStep s) v (st_nextObj s) (st_engine s) (st_pending s).
Definition set_nextObj v (s : state) : state := mk_state (st_config s) (st_beginTime s) (st_endTime s) (st_resolutionTime s) (st_visibility s) (st_frameRate s) (st_maxAsyncLoadCount s) (st_opacity s) (st_fadeOutOpacities s) (st_fadeOut s) (st_requestAnimationTime s) (st_map s) (st_layers s) (st_loadStep s) (st_groupLoadStep s) v (st_engine s) (st_pending s).
Definition set_engine v (s : state) : state := mk_state (st_config s) (st_beginTime s) (st_endTime s) (st_resolutionTime s) (st_visibility s) (st_frameRate s) (st_maxAsyncLoadCount s) (st_opacity s) (st_fadeOutOpacities s) (st_fadeOut s) (st_requestAnimationTime s) (st_map s) (st_layers s) (st_loadStep s) (st_groupLoadStep s) (st_nextObj s) v (st_pending s).
Definition set_pending v (s : state) : state := mk_state (st_config s) (st_beginTime s) (st_endTime s) (st_resolutionTime s) (st_visibility s) (st_frameRate s) (st_maxAsyncLoadCount s) (st_opacity s) (st_fadeOutOpacities s) (st_fadeOut s) (st_requestAnimationTime s) (st_map s) (st_layers s) (st_loadStep s) (st_groupLoadStep s) (st_nextObj s) (st_engine s) v.

(** ** The monad: state passing with the notifications *)

Definition M (A : Type) : Type := state -> A * state * list notice.

#[export] Instance M_ret : MRet M := fun A x s => (x, s, []).
#[export] Instance M_bind : MBind M := fun A B f m s =>
  let '(a, s1, n1) := m s in let '(b, s2, n2) := f a s1 in (b, s2, n1 ++ n2).

Definition get : M state := fun s => (s, s, []).
Definition modify (f : state -> state) : M unit := fun s => (tt, f s, []).
Definition notify (n : notice) : M unit := fun s => (tt, s, [n]).
Definition skip : M unit := mret tt.

Fixpoint for_each {A} (f : A -> M unit) (l : list A) : M unit :=
  match l with [] => skip | x :: l' => f x ;; for_each f l' end.

(** Run an operation: the final state and the notifications. *)
Definition exec (m : M unit) (s : state) : state * list notice :=
  let '(_, s', ns) := m s in (s', ns).

(** ** Queries *)

Definition anim_of (s : state) : option anim_options := st_config s ≫= cc_animation.

(** [getCurrentFrame()] as an index of [_layers]. *)
Definition current (s : state) : option nat := last_opt (st_fadeOut s).

(** [getResolutionTime()]: [_resolutionTime ? _resolutionTime : 0]. *)
Definition getResolutionTime (s : state) : number :=
  match st_resolutionTime s with
  | Some n => if truthy (JNum n) then n else Fin 0
  | None => Fin 0
  end.

(** The frame time the presentation compares:
    [new Date(getTimeFromConfig(layer.getConfig())).getTime()], the
    configuration holding [time.toISOString()]. *)
Definition slot_time (sl : slot) : number :=
  date_number (date_parse (toISOString (fc_time (fr_config (s_frame sl))))).

(** The identities of frames given by index. *)
Definition objs_of (ls : list slot) (idxs : list nat) : list nat :=
  omap (fun i => s_obj <$> ls !! i) idxs.

(** ** Setters (lines 1033-1179) *)

(** The shared body of [setBeginTime] and [setEndTime]: undefined and
    null are ignored, a Date is copied, a value [isNaN] rejects clears
    the time, any other value goes through [new Date(time)]. *)
Definition time_input (v : jsval) (old : option (option Z)) : option (option Z) :=
  match v with
  | JUndef | JNull => old
  | JDate t => Some t
  | _ => if isNaN v then None else Some (date_of v)
  end.

Definition setBeginTime (v : jsval) : M unit :=
  modify (fun s => set_beginTime (time_input v (st_beginTime s)) s).

Definition setEndTime (v : jsval) : M unit :=
  modify (fun s => set_endTime (time_input v (st_endTime s)) s).

(** [Math.floor] on numbers. *)
Definition js_floor (n : number) : number :=
  match n with Fin q => Fin (inject_Z (Qfloor q)) | _ => n end.

Definition setResolutionTime (v : jsval) : M unit :=
  modify (fun s =>
    if is_defined v && negb (isNaN v) && num_le (Fin 1) (to_number v)
    then set_resolutionTime (Some (js_floor (to_number v))) s else s).

Definition setFrameRate (v : jsval) : M unit :=
  modify (fun s =>
    if is_defined v && negb (isNaN v)
    then set_frameRate (if num_lt (to_number v) (Fin 0) then Fin 0 else to_number v) s
    else s).

Definition setMaxAsyncLoadCount (v : jsval) : M unit :=
  modify (fun s =>
    if negb (truthy v) then set_maxAsyncLoadCount (Fin (-1)) s
    else if negb (isNaN v) then set_maxAsyncLoadCount (to_number v) s
    else s).

Definition setFadeOutOpacities (input : option (list (option Q))) : M unit :=
  modify (fun s => set_fadeOutOpacities (Presentation.setFadeOutOpacities (st_fadeOutOpacities s) input) s).

(** ** Loading (lines 628-692) *)

(** [_maxAsyncLoadCount > 0 ? _maxAsyncLoadCount : _layers.length] as the
    scheduler's integer budget: an infinite budget is one the loads never
    exhaust; a fractional one is rounded up. *)
Definition load_cap (n : number) (len : nat) : Z :=
  match n with
  | Fin q => if Qle_bool q 0 then (-1)%Z else Qceiling q
  | PosInf => (Z.of_nat len + 1)%Z
  | _ => (-1)%Z
  end.

Definition resetLoadStep : M unit :=
  modify (fun s =>
    let k := Schedule.resetLoadStep (length (st_layers s)) in
    set_groupLoadStep k (set_loadStep k s)).

Definition nextLayerLoad : M unit :=
  modify (fun s =>
    let '(ls, step, _) := Schedule.nextLayerLoad
        (load_cap (st_maxAsyncLoadCount s) (length (st_layers s))) (st_layers s) (st_loadStep s) in
    set_loadStep step (set_layers ls s)).

Definition loadAllLayers : M unit :=
  s ← get;
  if st_visibility s then notify NLoadAnimationStarted ;; resetLoadStep ;; nextLayerLoad
  else skip.

(** ** Transitions (lines 839-881) *)

(** The configured fade time when it is a number [>= 0], else the default. *)
Definition fade_time (fo : option fade_options) (dflt : Q) : Q :=
  match fo ≫= fo_time with
  | Some q => if Qle_bool 0 q then q else dflt
  | None => dflt
  end.

(** [if (animation.fade.timingFunction is falsy and a string)]: only the
    empty string replaces the default. *)
Definition fade_style (fo : option fade_options) (dflt : String.string) : String.string :=
  match fo with
  | Some f => match fo_timingFunction f with JStr String.EmptyString => String.EmptyString | _ => dflt end
  | None => dflt
  end.

(** The engine's writes are the frames' [setOpacity] callbacks. *)
Definition apply_write (ls : list slot) (w : write) : list slot :=
  (fun sl => if s_obj sl =? w_object w then slot_map (setOpacity (w_value w)) sl else sl) <$> ls.

Definition apply_writes (ws : list write) (ls : list slot) : list slot := fold_left apply_write ws ls.

(** The engine's result: new engine, writes applied, closures queued. *)
Definition engine_result (r : engine * list write * list nat) (s : state) : state :=
  let '(e, ws, fr) := r in
  set_pending (st_pending s ++ map CbTransition fr)
    (set_engine e (set_layers (apply_writes ws (st_layers s)) s)).

(** [opacityTransition(_layers[i], target, style, time)] at time [now]. *)
Definition startTransition (now : Z) (fo : option fade_options) (dflt_time : Q)
    (dflt_style : String.string) (i : nat) (target : Q) : M unit :=
  modify (fun s =>
    let sl := st_layers s !! i in
    let begin := sl ≫= (fun sl => getOpacity (s_frame sl)) in
    engine_result (opacityTransition now (st_engine s) (s_obj <$> sl) begin (Some (Q2R target))
                     (fade_style fo dflt_style) (Some (Q2R (fade_time fo dflt_time)))) s).

Definition startTransitionFadeIn (now : Z) (i : nat) (target : Q) : M unit :=
  s ← get; startTransition now (anim_of s ≫= ao_fadeIn) 50 "ease-out"%string i target.

Definition startTransitionFadeOut (now : Z) (i : nat) (target : Q) : M unit :=
  s ← get; startTransition now (anim_of s ≫= ao_fadeOut) 200 "ease-out"%string i target.

(** ** Presentation (lines 694-790, 1238-1334) *)

Definition run_effect (now : Z) (ef : effect) : M unit :=
  match ef with
  | FadeOut i q => startTransitionFadeOut now i q
  | FadeIn i q => startTransitionFadeIn now i q
  | FrameChanged i =>
      s ← get; match st_layers s !! i with Some sl => notify (NFrameChanged (s_obj sl)) | None => skip end
  end.

(** A presentation operation: the new fade stack, then its effects in order. *)
Definition present (now : Z)
    (op : state -> list nat * list effect) : M unit :=
  s ← get;
  let '(fade, efs) := op s in
  modify (set_fadeOut fade) ;; for_each (run_effect now) efs.

Definition pres_args {A} (f : list slot -> nat -> option (list Q) -> Q -> list nat -> A)
    (s : state) : A :=
  f (st_layers s) (st_groupLoadStep s) (st_fadeOutOpacities s) (st_opacity s) (st_fadeOut s).

Definition showLayer (now : Z) (i : nat) (force : bool) : M unit :=
  present now (pres_args (fun ls gls ops anim fade => Presentation.showLayer ls gls ops anim fade i force)).

Definition showNextFrame (now : Z) : M unit := present now (pres_args Presentation.showNextFrame).

Definition showPreviousFrame (now : Z) : M unit := present now (pres_args Presentation.showPreviousFrame).

Definition showFrame (now : Z) (time : jsval) : M unit :=
  present now (fun s => pres_args (fun ls gls ops anim fade =>
    Presentation.showFrame slot_time ls gls ops anim (getResolutionTime s) fade time) s).

Definition fadeOutAll (now : Z) : M unit := present now (fun s => Presentation.fadeOutAll (st_fadeOut s)).

(** ** The animation loop (lines 767-823) *)

Definition push_pending (cb : callback) (s : state) : state := set_pending (st_pending s ++ [cb]) s.

(** [showAnimation]: queue itself again, and show the next frame when
    [_animationFrameRate] milliseconds have passed. *)
Definition showAnimation (now : Z) : M unit :=
  s ← get;
  match st_requestAnimationTime s with
  | None => skip
  | Some bt =>
      modify (push_pending CbShowAnimation) ;;
      if num_lt (num_add (Fin (inject_Z bt)) (st_frameRate s)) (Fin (inject_Z now))
      then modify (set_requestAnimationTime (Some now)) ;; showNextFrame now
      else skip
  end.

Definition startShowAnimation (now : Z) : M unit :=
  s ← get;
  match st_requestAnimationTime s with
  | None => modify (set_requestAnimationTime (Some now)) ;; showAnimation now
  | Some _ => skip
  end.

Definition stopShowAnimation : M unit := modify (set_requestAnimationTime None).

Definition startAnimation (now : Z) : M unit := startShowAnimation now.

Definition pauseAnimation : M unit := stopShowAnimation.

Definition stopAnimation (now : Z) : M unit := pauseAnimation ;; fadeOutAll now.

(** ** Reset and creation of the frames (lines 1181-1236) *)

(** [reset]: stop, empty the fade stack, remove every frame (releasing its
    content and telling the observer), reset the load step. *)
Definition reset (now : Z) : M unit :=
  stopAnimation now ;;
  modify (set_fadeOut []) ;;
  s ← get;
  for_each (fun sl => notify (NFrameContentReleased (s_obj sl))) (st_layers s) ;;
  modify (set_layers []) ;;
  resetLoadStep.

(** The [layerTime] values of
    [for (layerTime = begin; layerTime <= end; layerTime += resolution)]. *)
Fixpoint layer_times (fuel : nat) (t : number) (e : Z) (r : number) : list number :=
  match fuel with
  | O => []
  | S fuel' => if num_le t (Fin (inject_Z e)) then t :: layer_times fuel' (num_add t r) e r else []
  end.

(** The fuel of the loop: the resolution is at least 1, so [end - begin + 1]
    iterations reach the end. *)
Definition time_fuel (b e : Z) : nat := S (Z.to_nat (e - b)).

(** [new LayerObject(configClone, _map, _layerObserver)] for each time,
    [time.setTime(layerTime)] clipping the time value. *)
Definition make_slots (svc : service) (next : nat) (ts : list number) : list slot :=
  imap (fun k t => mk_slot (next + k)
          (new_frame (mk_config (default 0%Z (time_clip t)) svc))) ts.

(** The guard of [loadAnimation]: a map, a configuration, valid Dates
    with [_beginTime <= _endTime] and a truthy resolution. *)
Definition load_guard (s : state) : option (Z * Z * number * container_config) :=
  match st_map s, st_config s, st_beginTime s, st_endTime s with
  | Some _, Some c, Some (Some b), Some (Some e) =>
      let r := getResolutionTime s in
      if truthy (JNum r) && (b <=? e)%Z then Some (b, e, r, c) else None
  | _, _, _, _ => None
  end.

Definition create_frames (b e : Z) (r : number) (c : container_config) : M unit :=
  modify (fun s =>
    let ts := layer_times (time_fuel b e) (Fin (inject_Z b)) e r in
    set_nextObj (st_nextObj s + length ts)
      (set_layers (st_layers s ++ make_slots (cc_service c) (st_nextObj s) ts) s)).

Definition loadAnimation (now : Z) : M unit :=
  s ← get;
  match load_guard s with
  | Some (b, e, r, c) => reset now ;; create_frames b e r c ;; loadAllLayers
  | None => skip
  end.

(** ** Visibility and opacity (lines 1138-1179) *)

Definition update_layer (i : nat) (g : frame -> frame) : M unit :=
  modify (fun s => set_layers (alter (slot_map g) i (st_layers s)) s).

(** [setVisibility(visibility)]: a boolean that changes the visibility;
    hiding stops the animation and hides (and so resets) every frame. *)
Definition setVisibility (now : Z) (v : jsval) : M unit :=
  s ← get;
  match v with
  | JBool b =>
      if Bool.eqb (st_visibility s) b then skip
      else
        modify (set_visibility b) ;;
        if b then loadAllLayers
        else
          stopAnimation now ;;
          s1 ← get;
          for_each (fun i => update_layer i (Frame.setVisibility false) ;;
                             s2 ← get;
                             match st_layers s2 !! i with
                             | Some sl => notify (NFrameContentReleased (s_obj sl))
                             | None => skip
                             end) (seq 0 (length (st_layers s1)))
  | _ => skip
  end.

(** [layer.getOpacity() > 0]: false for a frame without layer. *)
Definition visible_opacity (f : frame) : bool :=
  match getOpacity f with Some r => bool_decide (0 < r)%R | None => false end.

Definition setOpacity (o : Q) : M unit :=
  s ← get;
  if Qeq_bool (st_opacity s) o then skip
  else
    modify (fun s => set_layers
      ((fun sl => if visible_opacity (s_frame sl) then slot_map (Frame.setOpacity (Q2R o)) sl else sl)
         <$> st_layers s) (set_opacity o s)).

(** ** Map and configuration (lines 953-991) *)

Definition autoLoad (s : state) : bool :=
  match anim_of s with Some a => truthy (ao_autoLoad a) | None => false end.

Definition setMap (now : Z) (m : option nat) : M unit :=
  s ← get;
  if bool_decide (st_map s = m) then skip
  else
    modify (set_map m) ;;
    match m with
    | Some _ => if autoLoad s then loadAnimation now else skip
    | None => skip
    end.

Definition setConfig (now : Z) (c : option container_config) : M unit :=
  modify (set_config c) ;;
  match c ≫= cc_animation with
  | Some a =>
      setBeginTime (ao_beginTime a) ;;
      setEndTime (ao_endTime a) ;;
      setResolutionTime (ao_resolutionTime a) ;;
      setMaxAsyncLoadCount (ao_maxAsyncLoadCount a) ;;
      setFrameRate (ao_frameRate a) ;;
      match ao_fadeOut a with Some f => setFadeOutOpacities (fo_opacities f) | None => skip end ;;
      s ← get;
      if truthy (ao_autoLoad a) && bool_decide (is_Some (st_map s)) then loadAnimation now else skip
  | None => skip
  end.

(** ** Events (lines 459-582) *)

(** [_mapEvents.movestart]: hide every frame but the current one, tell
    the observer, load again in the scheduler's order. *)
Definition movestart : M unit :=
  s ← get;
  for_each (fun i =>
    (if bool_decide (current s = Some i) then skip
     else update_layer i (Frame.setVisibility false)) ;;
    s2 ← get;
    match st_layers s2 !! i with
    | Some sl => notify (NFrameContentReleased (s_obj sl))
    | None => skip
    end) (seq 0 (length (st_layers s))) ;;
  loadAllLayers.

Definition group_notice (ls : list slot) (ev : group_event) : notice :=
  match ev with
  | GroupProgress g => NLoadGroupProgress (objs_of ls g)
  | LoadComplete g => NLoadComplete (objs_of ls g)
  end.

(** [_layerObserver.layerLoadStartCallback(_layers[i])]. *)
Definition layerLoadStartCallback (i : nat) : M unit :=
  s ← get;
  match st_layers s !! i with
  | Some sl =>
      (if bool_decide (current s = Some i) then skip else update_layer i (Frame.setOpacity 0%R)) ;;
      notify (NLoadFrameStarted (s_obj sl))
  | None => skip
  end.

(** [_layerObserver.layerLoadEndCallback(_layers[i])]. *)
Definition layerLoadEndCallback (now : Z) (i : nat) : M unit :=
  s ← get;
  match st_layers s !! i with
  | Some sl =>
      let '(gls, evs) := layerLoadEnd_groups (st_layers s) (st_groupLoadStep s) in
      modify (set_groupLoadStep gls) ;;
      notify (NLoadFrameComplete (s_obj sl)) ;;
      for_each (fun ev => notify (group_notice (st_layers s) ev)) evs ;;
      (if bool_decide (current s = Some i) then showLayer now i true else skip) ;;
      nextLayerLoad ;;
      s1 ← get;
      match anim_of s1 with
      | Some a => if (st_groupLoadStep s1 =? 0) && truthy (ao_autoStart a) then startAnimation now else skip
      | None => skip
      end
  | None => skip
  end.

(** The [LayerObject] handlers of the frame at index [i] ([loadstart],
    [loadend], [tileerror]), forwarding to the container's callbacks when
    they do.  OpenLayers sends [loadstart] only for a layer that is in the
    map and visible, the other events for any layer ([Frame.frame_step]). *)
Definition layer_event (emits : frame -> bool) (g : frame -> frame * bool) (cb : M unit) (i : nat)
    : M unit :=
  s ← get;
  match st_layers s !! i with
  | Some sl =>
      if emits (s_frame sl) then
        let '(f, fire) := g (s_frame sl) in update_layer i (fun _ => f) ;; if fire then cb else skip
      else skip
  | None => skip
  end.

Definition emits_loadstart (f : frame) : bool :=
  match fr_layer f with Some l => ol_in_map l && ol_visible l | None => false end.

Definition has_layer (f : frame) : bool := bool_decide (is_Some (fr_layer f)).

Definition loadstart (i : nat) : M unit :=
  layer_event emits_loadstart on_loadstart (layerLoadStartCallback i) i.

Definition loadend (now : Z) (i : nat) : M unit :=
  layer_event has_layer on_loadend (layerLoadEndCallback now i) i.

Definition tileerror (i : nat) : M unit :=
  layer_event has_layer (fun f => (on_tileerror f, false)) skip i.

(** ** The browser's animation frame *)

Definition run_callback (now : Z) (cb : callback) : M unit :=
  match cb with
  | CbTransition id => modify (fun s => engine_result (transition now (st_engine s) id) s)
  | CbShowAnimation => showAnimation now
  end.

(** Every queued closure runs; the ones queued meanwhile wait for the next frame. *)
Definition animation_frame (now : Z) : M unit :=
  s ← get; modify (set_pending []) ;; for_each (run_callback now) (st_pending s).

(** ** The container as a system *)

(** The calls the container receives: the public API, the map and layer
    events, and the animation frames, each at a clock time. *)
Inductive input :=
| ISetMap (m : option nat)
| ISetConfig (c : option container_config)
| ISetBeginTime (v : jsval)
| ISetEndTime (v : jsval)
| ISetResolutionTime (v : jsval)
| ISetFrameRate (v : jsval)
| ISetFadeOutOpacities (l : option (list (option Q)))
| ISetMaxAsyncLoadCount (v : jsval)
| ISetVisibility (v : jsval)
| ISetOpacity (o : Q)
| IReset
| ILoadAnimation
| IStartAnimation
| IPauseAnimation
| IStopAnimation
| IShowFrame (t : jsval)
| IShowNextFrame
| IShowPreviousFrame
| IMoveStart
| ILoadStart (i : nat)
| ILoadEnd (i : nat)
| ITileError (i : nat)
| IAnimationFrame.

Definition handle (now : Z) (inp : input) : M unit :=
  match inp with
  | ISetMap m => setMap now m
  | ISetConfig c => setConfig now c
  | ISetBeginTime v => setBeginTime v
  | ISetEndTime v => setEndTime v
  | ISetResolutionTime v => setResolutionTime v
  | ISetFrameRate v => setFrameRate v
  | ISetFadeOutOpacities l => setFadeOutOpacities l
  | ISetMaxAsyncLoadCount v => setMaxAsyncLoadCount v
  | ISetVisibility v => setVisibility now v
  | ISetOpacity o => setOpacity o
  | IReset => reset now
  | ILoadAnimation => loadAnimation now
  | IStartAnimation => startAnimation now
  | IPauseAnimation => pauseAnimation
  | IStopAnimation => stopAnimation now
  | IShowFrame t => showFrame now t
  | IShowNextFrame => showNextFrame now
  | IShowPreviousFrame => showPreviousFrame now
  | IMoveStart => movestart
  | ILoadStart i => loadstart i
  | ILoadEnd i => loadend now i
  | ITileError i => tileerror i
  | IAnimationFrame => animation_frame now
  end.

(** The presentation operations of [Presentation.pres_op] as container calls. *)
Definition pres_handle (now : Z) (op : pres_op) : M unit :=
  match op with
  | OpShowNext => showNextFrame now
  | OpShowPrevious => showPreviousFrame now
  | OpShowFrame t => showFrame now t
  | OpFadeOutAll => fadeOutAll now
  | OpShowLayer k force => showLayer now k force
  end.

Inductive step : state -> list notice -> state -> Prop :=
| step_handle now inp s s' ns :
    exec (handle now inp) s = (s', ns) -> step s ns s'.

Definition reachable (s : state) : Prop := rtc (fun a b => exists ns, step a ns b) initial s.


(** ** Reasoning about [M] *)

(** From a state satisfying [P], [m] ends in one satisfying [Q]. *)
Definition hoare {A} (P Q : state -> Prop) (m : M A) : Prop := forall s, P s -> Q (m s).1.2.

(** [m] keeps [P]. *)
Definition inv {A} (P : state -> Prop) (m : M A) : Prop := hoare P P m.

Lemma hoare_bind {A B} P Q R (m : M A) (f : A -> M B) :
  hoare P Q m -> (forall a, hoare Q R (f a)) -> hoare P R (m ≫= f).
Proof.
  intros Hm Hf s Hs. unfold mbind, M_bind. specialize (Hm s Hs).
  destruct (m s) as [[a s1] n1]. specialize (Hf a s1 Hm). by destruct (f a s1) as [[b s2] n2].
Qed.

Lemma hoare_modify P Q f : (forall s, P s -> Q (f s)) -> hoare P Q (modify f).
Proof. intros Hf s Hs. by apply Hf. Qed.

Lemma inv_ret {A} P (x : A) : inv P (mret x).
Proof. by intros s. Qed.

Lemma inv_bind {A B} P (m : M A) (f : A -> M B) :
  inv P m -> (forall a, inv P (f a)) -> inv P (m ≫= f).
Proof. apply hoare_bind. Qed.

(** [P] holds after [m] run from [s]. *)
Definition inv_at {A} (P : state -> Prop) (m : M A) (s : state) : Prop := P (m s).1.2.

Lemma inv_get {A} P (k : state -> M A) : (forall s, P s -> inv_at P (k s) s) -> inv P (get ≫= k).
Proof.
  intros Hk s Hs. unfold mbind, M_bind, get. specialize (Hk s Hs). unfold inv_at in Hk.
  by destruct (k s s) as [[b s2] n2].
Qed.

Lemma inv_at_of {A} P (m : M A) s : inv P m -> P s -> inv_at P m s.
Proof. intros Hm Hs. by apply Hm. Qed.

Lemma inv_at_modify {A} P f (g : unit -> M A) s :
  P (f s) -> inv P (g tt) -> inv_at P (modify f ≫= g) s.
Proof. intros Hf Hg. unfold inv_at, mbind, M_bind, modify. specialize (Hg _ Hf). by destruct (g tt (f s)) as [[b s2] n2]. Qed.

Lemma inv_modify P f : (forall s, P s -> P (f s)) -> inv P (modify f).
Proof. intros Hf s Hs. by apply Hf. Qed.

Lemma inv_notify P n : inv P (notify n).
Proof. by intros s. Qed.

Lemma inv_for_each {A} P (f : A -> M unit) l : (forall x, inv P (f x)) -> inv P (for_each f l).
Proof. intros Hf. induction l as [|x l IH]; simpl; [apply inv_ret|]. by apply inv_bind. Qed.

Create HintDb cinv discriminated.

(** Decompose a monadic program into its steps; the named operations are
    left to the lemmas of [cinv]. *)
Ltac inv_step :=
  match goal with
  | |- inv _ (mbind _ get) =>
      apply inv_get; let s := fresh "s" in let H := fresh "Hs" in
      intros s H; apply inv_at_of; [|exact H]
  | |- inv _ (mbind _ _) => apply inv_bind; [|intros ?]
  | |- inv _ (mret _) => apply inv_ret
  | |- inv _ skip => apply inv_ret
  | |- inv _ (notify _) => apply inv_notify
  | |- inv _ (for_each _ _) => apply inv_for_each; intros ?
  | |- inv _ (match ?x with _ => _ end) => destruct x
  | |- inv _ (if ?b then _ else _) => destruct b
  end.

Ltac inv_auto := repeat (inv_step || eauto with cinv).

(** ** The invariant of the container *)

Definition slot_wf (sl : slot) : Prop := frame_wf (s_frame sl).

(** The fade stack holds distinct indices of [_layers]; the frames are
    distinct [LayerObject]s, all created before, each well formed; the
    engine is well formed. *)
Record container_wf (s : state) : Prop := {
  cw_fade : fade_ok (length (st_layers s)) (st_fadeOut s);
  cw_objs : NoDup (s_obj <$> st_layers s);
  cw_fresh : Forall (fun o => (o < st_nextObj s)%nat) (s_obj <$> st_layers s);
  cw_frames : Forall slot_wf (st_layers s);
  cw_engine : engine_wf (st_engine s)
}.

Lemma cw_transfer s s' :
  container_wf s -> s_obj <$> st_layers s' = s_obj <$> st_layers s ->
  st_fadeOut s' = st_fadeOut s -> (st_nextObj s <= st_nextObj s')%nat ->
  Forall slot_wf (st_layers s') -> engine_wf (st_engine s') -> container_wf s'.
Proof.
  intros [Hf Hn Hr Hfr He] Hl Hfd Hnx Hfr' He'. assert (Hlen : length (st_layers s') = length (st_layers s)).
  { by rewrite <- (length_fmap s_obj (st_layers s')), Hl, length_fmap. }
  split; [by rewrite Hlen, Hfd|by rewrite Hl|rewrite Hl; eapply Forall_impl; [done|simpl; lia]|done|done].
Qed.

(** The operations that only set scalar fields. *)
Lemma cw_scalar s s' :
  container_wf s -> st_layers s' = st_layers s -> st_fadeOut s' = st_fadeOut s ->
  st_nextObj s' = st_nextObj s -> st_engine s' = st_engine s -> container_wf s'.
Proof.
  intros Hw Hl Hf Hn He. apply (cw_transfer s); [done|by rewrite Hl|done|lia|rewrite Hl; apply Hw|rewrite He; apply Hw].
Qed.

Ltac cw_scalar := intros ?s ?Hs; eapply cw_scalar; [exact Hs|reflexivity..].

Lemma fmap_obj_map (g : slot -> slot) (l : list slot) :
  (forall sl, s_obj (g sl) = s_obj sl) -> s_obj <$> (g <$> l) = s_obj <$> l.
Proof. intros Hg. rewrite <- list_fmap_compose. apply list_fmap_ext. intros; apply Hg. Qed.

Lemma fmap_obj_alter (g : frame -> frame) i (l : list slot) :
  s_obj <$> alter (slot_map g) i l = s_obj <$> l.
Proof. rewrite (list_fmap_alter s_obj (slot_map g) (fun o : nat => o)); [by apply list_alter_id|by apply Forall_forall]. Qed.

Lemma apply_writes_objs ws ls : s_obj <$> apply_writes ws ls = s_obj <$> ls.
Proof.
  unfold apply_writes. revert ls. induction ws as [|w ws IH]; intros ls; [done|].
  simpl. rewrite IH. unfold apply_write. apply fmap_obj_map. intros sl. by case_if.
Qed.

Lemma apply_writes_wf ws ls : Forall slot_wf ls -> Forall slot_wf (apply_writes ws ls).
Proof.
  unfold apply_writes. revert ls. induction ws as [|w ws IH]; intros ls Hl; [done|].
  simpl. apply IH. unfold apply_write. apply Forall_fmap. eapply Forall_impl; [exact Hl|].
  intros sl Hsl. simpl. case_if; [by apply setOpacity_wf|done].
Qed.

Lemma engine_result_wf r s :
  container_wf s -> engine_wf r.1.1 -> container_wf (engine_result r s).
Proof.
  intros Hw He. destruct r as [[e' ws] fr]. simpl in He.
  apply (cw_transfer s); [done|apply apply_writes_objs|done|done|apply apply_writes_wf, Hw|done].
Qed.

Lemma startTransition_wf now fo dt ds i q : inv container_wf (startTransition now fo dt ds i q).
Proof.
  apply inv_modify. intros s Hs. apply engine_result_wf; [done|].
  destruct (s_obj <$> st_layers s !! i) as [x|]; [|apply Hs].
  apply opacityTransition_spec, Hs.
Qed.

Lemma startTransitionFadeIn_wf now i q : inv container_wf (startTransitionFadeIn now i q).
Proof. unfold startTransitionFadeIn. inv_step. apply startTransition_wf. Qed.

Lemma startTransitionFadeOut_wf now i q : inv container_wf (startTransitionFadeOut now i q).
Proof. unfold startTransitionFadeOut. inv_step. apply startTransition_wf. Qed.

#[export] Hint Resolve startTransitionFadeIn_wf startTransitionFadeOut_wf : cinv.

Lemma run_effect_wf now ef : inv container_wf (run_effect now ef).
Proof. destruct ef; simpl; inv_auto. Qed.

#[export] Hint Resolve run_effect_wf : cinv.

(** A presentation operation keeps the invariant when its new stack has
    the shape [pres_shape] of the presentation lemmas. *)
Lemma present_wf now op :
  (forall s, exists ops anim, pres_shape (st_layers s) ops anim (st_fadeOut s) (op s).1) ->
  inv container_wf (present now op).
Proof.
  intros Hop. unfold present. apply inv_get. intros s Hs.
  destruct (Hop s) as (ops & anim & Hsh). destruct (op s) as [fade efs]. apply inv_at_modify; [|inv_auto].
  split; [|apply Hs..]. eapply pres_shape_fade_ok; [|exact Hsh]. apply Hs.
Qed.


Ltac present_wf shape :=
  apply present_wf; intros ?s; do 2 eexists; unfold pres_args; apply shape.

Lemma showLayer_wf now i force : inv container_wf (showLayer now i force).
Proof. present_wf showLayer_shape. Qed.

Lemma showNextFrame_wf now : inv container_wf (showNextFrame now).
Proof. present_wf showNextFrame_shape. Qed.

Lemma showPreviousFrame_wf now : inv container_wf (showPreviousFrame now).
Proof. present_wf showPreviousFrame_shape. Qed.

Lemma showFrame_wf now t : inv container_wf (showFrame now t).
Proof. present_wf showFrame_shape. Qed.

Lemma fadeOutAll_wf now : inv container_wf (fadeOutAll now).
Proof. apply present_wf; intros s. exists None, 1%Q. apply (fadeOutAll_shape (F:=slot)). Qed.

Lemma scalar_wf (f : state -> state) :
  (forall s, st_layers (f s) = st_layers s /\ st_fadeOut (f s) = st_fadeOut s /\
             st_nextObj (f s) = st_nextObj s /\ st_engine (f s) = st_engine s) ->
  inv container_wf (modify f).
Proof. intros Hf. apply inv_modify. intros s Hs. destruct (Hf s) as (? & ? & ? & ?). by apply (cw_scalar s). Qed.

Ltac scalar_wf := unfold modify; apply scalar_wf; intros ?s; repeat split; repeat case_if; reflexivity.

Lemma setBeginTime_wf v : inv container_wf (setBeginTime v).
Proof. unfold setBeginTime. scalar_wf. Qed.
Lemma setEndTime_wf v : inv container_wf (setEndTime v).
Proof. unfold setEndTime. scalar_wf. Qed.
Lemma setResolutionTime_wf v : inv container_wf (setResolutionTime v).
Proof. unfold setResolutionTime. scalar_wf. Qed.
Lemma setFrameRate_wf v : inv container_wf (setFrameRate v).
Proof. unfold setFrameRate. scalar_wf. Qed.
Lemma setMaxAsyncLoadCount_wf v : inv container_wf (setMaxAsyncLoadCount v).
Proof. unfold setMaxAsyncLoadCount. scalar_wf. Qed.
Lemma setFadeOutOpacities_wf l : inv container_wf (setFadeOutOpacities l).
Proof. unfold setFadeOutOpacities. scalar_wf. Qed.
Lemma resetLoadStep_wf : inv container_wf resetLoadStep.
Proof. unfold resetLoadStep. scalar_wf. Qed.
Lemma stopShowAnimation_wf : inv container_wf stopShowAnimation.
Proof. unfold stopShowAnimation. scalar_wf. Qed.
Lemma push_pending_wf cb : inv container_wf (modify (push_pending cb)).
Proof. scalar_wf. Qed.
Lemma set_requestAnimationTime_wf t : inv container_wf (modify (set_requestAnimationTime t)).
Proof. scalar_wf. Qed.
Lemma set_visibility_wf b : inv container_wf (modify (set_visibility b)).
Proof. scalar_wf. Qed.
Lemma set_map_wf m : inv container_wf (modify (set_map m)).
Proof. scalar_wf. Qed.
Lemma set_config_wf c : inv container_wf (modify (set_config c)).
Proof. scalar_wf. Qed.
Lemma set_groupLoadStep_wf k : inv container_wf (modify (set_groupLoadStep k)).
Proof. scalar_wf. Qed.
Lemma set_pending_wf l : inv container_wf (modify (set_pending l)).
Proof. scalar_wf. Qed.

#[export] Hint Resolve setBeginTime_wf setEndTime_wf setResolutionTime_wf setFrameRate_wf
  setMaxAsyncLoadCount_wf setFadeOutOpacities_wf resetLoadStep_wf stopShowAnimation_wf
  push_pending_wf set_requestAnimationTime_wf set_visibility_wf set_map_wf set_config_wf
  set_groupLoadStep_wf set_pending_wf showLayer_wf showNextFrame_wf showPreviousFrame_wf
  showFrame_wf fadeOutAll_wf : cinv.

Lemma nextLayerLoad_wf : inv container_wf nextLayerLoad.
Proof.
  apply inv_modify. intros s Hs.
  pose proof (nextLayerLoad_fmap s_obj (load_cap (st_maxAsyncLoadCount s) (length (st_layers s)))
                (st_layers s) (st_loadStep s) (fun _ => eq_refl)) as Hm.
  pose proof (nextLayerLoad_Forall slot_wf (load_cap (st_maxAsyncLoadCount s) (length (st_layers s)))
                (st_layers s) (st_loadStep s) (fun sl => loadLayer_wf (s_frame sl)) (cw_frames _ Hs)) as Hf.
  destruct (Schedule.nextLayerLoad _ _ _) as [[ls step] st]. simpl in Hm, Hf.
  apply (cw_transfer s); [done|exact Hm|done|done|exact Hf|apply Hs].
Qed.

Lemma alter_slot_wf i g ls :
  Forall slot_wf ls -> (forall sl, ls !! i = Some sl -> frame_wf (g (s_frame sl))) ->
  Forall slot_wf (alter (slot_map g) i ls).
Proof.
  intros Hl Hg. apply Forall_lookup. intros j sl.
  destruct (decide (i = j)) as [<-|Hij].
  - intros Heq. rewrite list_lookup_alter in Heq.
    destruct (ls !! i) as [sl0|] eqn:E; simpl in Heq; case_decide; simplify_eq; by apply Hg.
  - rewrite list_lookup_alter_ne by done. rewrite Forall_lookup in Hl. apply Hl.
Qed.

Lemma update_layer_at_wf i g s :
  container_wf s -> (forall sl, st_layers s !! i = Some sl -> frame_wf (g (s_frame sl))) ->
  container_wf (set_layers (alter (slot_map g) i (st_layers s)) s).
Proof.
  intros Hs Hg. apply (cw_transfer s); [done|apply fmap_obj_alter|done|done| |apply Hs].
  by apply alter_slot_wf; [apply Hs|].
Qed.

Lemma update_layer_wf i g : (forall f, frame_wf f -> frame_wf (g f)) -> inv container_wf (update_layer i g).
Proof.
  intros Hg. apply inv_modify. intros s Hs. apply update_layer_at_wf; [done|].
  intros sl Hsl. apply Hg. pose proof (cw_frames _ Hs) as Hf. rewrite Forall_lookup in Hf. by apply (Hf i).
Qed.

Lemma hide_wf i : inv container_wf (update_layer i (Frame.setVisibility false)).
Proof. apply update_layer_wf, setVisibility_wf. Qed.

Lemma transparent_wf i : inv container_wf (update_layer i (Frame.setOpacity 0%R)).
Proof. apply update_layer_wf, setOpacity_wf. Qed.

#[export] Hint Resolve nextLayerLoad_wf hide_wf transparent_wf : cinv.

Lemma loadAllLayers_wf : inv container_wf loadAllLayers.
Proof. unfold loadAllLayers. inv_auto. Qed.

Lemma showAnimation_wf now : inv container_wf (showAnimation now).
Proof. unfold showAnimation. inv_auto. Qed.

Lemma startAnimation_wf now : inv container_wf (startAnimation now).
Proof. unfold startAnimation, startShowAnimation. inv_auto. apply showAnimation_wf. Qed.

Lemma stopAnimation_wf now : inv container_wf (stopAnimation now).
Proof. unfold stopAnimation, pauseAnimation. inv_auto. Qed.

#[export] Hint Resolve loadAllLayers_wf showAnimation_wf startAnimation_wf stopAnimation_wf : cinv.


Lemma hoare_inv {A} P Q (m : M A) : inv P m -> (forall s, P s -> Q s) -> hoare P Q m.
Proof. intros Hm HPQ s Hs. by apply HPQ, Hm. Qed.

(** [reset] empties the stack before it drops the frames. *)
Lemma reset_wf now : inv container_wf (reset now).
Proof.
  unfold reset. apply (hoare_bind _ container_wf); [apply stopAnimation_wf|intros _].
  apply (hoare_bind _ (fun s => container_wf s /\ st_fadeOut s = [])).
  { apply hoare_modify. intros s Hs. split; [|done]. split; [split; [constructor|set_solver]|apply Hs..]. }
  intros _. intros s Hs. unfold mbind, M_bind, get.
  assert (Hf : forall l s0, container_wf s0 /\ st_fadeOut s0 = [] ->
    container_wf (for_each (fun sl => notify (NFrameContentReleased (s_obj sl))) l s0).1.2 /\
    st_fadeOut (for_each (fun sl => notify (NFrameContentReleased (s_obj sl))) l s0).1.2 = []).
  { induction l as [|x l IH]; intros s0 H0; [done|]. simpl. unfold mbind, M_bind, notify.
    specialize (IH s0 H0). by destruct (for_each _ l s0) as [[[] s1] n1]. }
  specialize (Hf (st_layers s) s Hs).
  destruct (for_each _ _ s) as [[[] s1] n1]. simpl in Hf. destruct Hf as [Hw1 Hf1].
  unfold modify. simpl. apply resetLoadStep_wf.
  split; simpl; [rewrite Hf1; split; [constructor|set_solver]|constructor|constructor|constructor|apply Hw1].
Qed.

Lemma make_slots_objs svc n ts : s_obj <$> make_slots svc n ts = seq n (length ts).
Proof.
  unfold make_slots. rewrite fmap_imap, (imap_ext _ (fun j _ => (n + j)%nat)) by done.
  by rewrite (imap_seq ts (fun k => k) n), list_fmap_id.
Qed.

Lemma create_frames_wf b e r c : inv container_wf (create_frames b e r c).
Proof.
  apply inv_modify. intros s [Hf Hn Hr He]. set (ts := layer_times _ _ _ _).
  split; cbn [st_layers st_fadeOut st_nextObj st_engine set_nextObj set_layers];
    rewrite ?fmap_app, ?make_slots_objs.
  - destruct Hf as [Hf1 Hf2]. split; [done|]. intros j Hj. rewrite length_app. specialize (Hf2 j Hj). lia.
  - apply NoDup_app. split; [done|]. split; [|apply NoDup_seq].
    intros o Ho Ho'. apply elem_of_seq in Ho'. rewrite Forall_forall in Hr. specialize (Hr o Ho). lia.
  - apply Forall_app. split; [eapply Forall_impl; [done|simpl; lia]|].
    apply Forall_forall. intros o Ho. apply elem_of_seq in Ho. lia.
  - apply Forall_app. split; [done|]. unfold make_slots. apply Forall_lookup. intros j sl.
    rewrite list_lookup_imap. destruct (ts !! j); simpl; [|done]. intros [= <-].
    unfold slot_wf. simpl. split; [done|]. by intros [].
  - done.
Qed.

#[export] Hint Resolve reset_wf create_frames_wf : cinv.

Lemma loadAnimation_wf now : inv container_wf (loadAnimation now).
Proof. unfold loadAnimation. inv_auto. Qed.

Lemma setVisibility_inv now v : inv container_wf (setVisibility now v).
Proof. unfold setVisibility. inv_auto. Qed.

Lemma setOpacity_inv o : inv container_wf (setOpacity o).
Proof.
  unfold setOpacity. inv_auto. apply inv_modify. intros s' Hs'.
  apply (cw_transfer s'); [done| |done|done| |apply Hs'].
  - apply fmap_obj_map. intros sl. by case_if.
  - apply Forall_fmap. eapply Forall_impl; [apply Hs'|]. intros sl Hsl. simpl.
    case_if; [by apply setOpacity_wf|done].
Qed.

#[export] Hint Resolve loadAnimation_wf : cinv.

Lemma setMap_wf now m : inv container_wf (setMap now m).
Proof. unfold setMap. inv_auto. Qed.

Lemma setConfig_wf now c : inv container_wf (setConfig now c).
Proof. unfold setConfig. inv_auto. Qed.

Lemma movestart_wf : inv container_wf movestart.
Proof. unfold movestart. inv_auto. Qed.

Lemma layer_event_wf emits g cb i :
  (forall f, frame_wf f -> emits f = true -> frame_wf (g f).1) ->
  inv container_wf cb -> inv container_wf (layer_event emits g cb i).
Proof.
  intros Hg Hcb. unfold layer_event. apply inv_get. intros s Hs.
  destruct (st_layers s !! i) as [sl|] eqn:Hi; [|by apply inv_at_of; [apply inv_ret|]].
  destruct (emits (s_frame sl)) eqn:He; [|by apply inv_at_of; [apply inv_ret|]].
  specialize (Hg (s_frame sl)). destruct (g (s_frame sl)) as [f fire] eqn:Eg.
  apply inv_at_modify; [|destruct fire; [done|apply inv_ret]].
  apply update_layer_at_wf; [done|]. intros sl' Hsl'. rewrite Hi in Hsl'. injection Hsl' as <-.
  apply Hg; [|done]. pose proof (cw_frames _ Hs) as Hf. rewrite Forall_lookup in Hf. by apply (Hf i).
Qed.

Lemma loadstart_wf i : inv container_wf (loadstart i).
Proof.
  apply layer_event_wf; [|unfold layerLoadStartCallback; inv_auto].
  intros f _. unfold emits_loadstart. destruct (fr_layer f) as [l|] eqn:El; [|done].
  intros Hl. apply andb_true_iff in Hl as [Hm Hv]. by eapply on_loadstart_wf.
Qed.

Lemma loadend_wf now i : inv container_wf (loadend now i).
Proof.
  apply layer_event_wf; [|unfold layerLoadEndCallback; inv_auto].
  intros f Hf _. by apply on_loadend_wf.
Qed.

Lemma tileerror_wf i : inv container_wf (tileerror i).
Proof.
  apply layer_event_wf; [|apply inv_ret].
  intros f Hf Hl. unfold has_layer in Hl. apply bool_decide_eq_true in Hl as [l Hl]. by eapply on_tileerror_wf.
Qed.

Lemma run_callback_wf now cb : inv container_wf (run_callback now cb).
Proof.
  destruct cb; simpl; [|apply showAnimation_wf].
  apply inv_modify. intros s Hs. apply engine_result_wf; [done|]. apply transition_spec, Hs.
Qed.

#[export] Hint Resolve run_callback_wf : cinv.

Lemma animation_frame_wf now : inv container_wf (animation_frame now).
Proof. unfold animation_frame. inv_auto. Qed.

Lemma handle_wf now inp : inv container_wf (handle now inp).
Proof.
  destruct inp; simpl; unfold pauseAnimation; auto using tileerror_wf, setMap_wf, setConfig_wf, setBeginTime_wf, setEndTime_wf,
    setResolutionTime_wf, setFrameRate_wf, setFadeOutOpacities_wf, setMaxAsyncLoadCount_wf,
    setVisibility_inv, setOpacity_inv, reset_wf, loadAnimation_wf, startAnimation_wf,
    stopShowAnimation_wf, stopAnimation_wf, showFrame_wf, showNextFrame_wf, showPreviousFrame_wf,
    movestart_wf, loadstart_wf, loadend_wf, animation_frame_wf.
Qed.

Lemma step_wf s ns s' : step s ns s' -> container_wf s -> container_wf s'.
Proof.
  intros [now inp s0 s1 ns0 Hx] Hw. unfold exec in Hx.
  pose proof (handle_wf now inp s0 Hw) as H. destruct (handle now inp s0) as [[[] s2] n2].
  by injection Hx as <- <-.
Qed.

Lemma steps_wf s s' : rtc (fun a b => exists ns, step a ns b) s s' -> container_wf s -> container_wf s'.
Proof. induction 1 as [|x y z [ns Hs] _ IH]; eauto using step_wf. Qed.

Lemma initial_wf : container_wf initial.
Proof.
  split; simpl; [split; [constructor|set_solver]|constructor|constructor|constructor|apply engine_empty_wf].
Qed.

(** C8: every state the container reaches from its construction, through
    any interleaving of API calls, map and layer events and animation
    frames, satisfies [container_wf]: the fade stack holds distinct indices
    of existing frames, the frames are distinct objects created by the
    container, each frame is well formed (no load state without a layer,
    a loading layer is in the map and visible), and the transition engine
    is well formed. *)
Theorem container_wf_reachable s : reachable s -> container_wf s.
Proof.
  intros Hr. apply (steps_wf initial); [exact Hr|apply initial_wf].
Qed.


(** ** The types of the numeric settings *)

(** [_resolutionTime]: [undefined], or a number [>= 1] that [Math.floor]
    made an integer, or [+Infinity]. *)
Definition resolution_typed (r : option number) : Prop :=
  match r with
  | None | Some PosInf => True
  | Some (Fin q) => exists z, q = inject_Z z /\ (1 <= z)%Z
  | Some _ => False
  end.

(** [_animationFrameRate]: a number [>= 0] or [+Infinity]. *)
Definition rate_typed (n : number) : Prop :=
  match n with Fin q => (0 <= q)%Q | PosInf => True | _ => False end.

Record typed (s : state) : Prop := {
  ty_resolution : resolution_typed (st_resolutionTime s);
  ty_frameRate : rate_typed (st_frameRate s);
  ty_maxAsyncLoadCount : st_maxAsyncLoadCount s <> NaN
}.

Create HintDb tinv discriminated.

Lemma isNaN_false v : isNaN v = false -> to_number v <> NaN.
Proof. unfold isNaN. by destruct (to_number v). Qed.

Lemma setResolutionTime_typed v : inv typed (setResolutionTime v).
Proof.
  apply inv_modify. intros s [Hr Hf Hm]. destruct (_ && _) eqn:E; [|by split].
  apply andb_true_iff in E as [_ E]. split; simpl; [|done|done].
  destruct (to_number v) as [q| | |]; simpl in *; try done.
  rewrite negb_involutive in E. apply Qle_bool_iff in E. exists (Qfloor q). split; [done|].
  pose proof (Qfloor_resp_le 1 q E) as H. change (Qfloor 1) with 1%Z in H. lia.
Qed.

Lemma setFrameRate_typed v : inv typed (setFrameRate v).
Proof.
  apply inv_modify. intros s [Hr Hf Hm]. destruct (_ && _) eqn:E; [|by split].
  apply andb_true_iff in E as [_ E%negb_true_iff]. apply isNaN_false in E.
  split; simpl; [done| |done].
  destruct (to_number v) as [q| | |]; simpl; try done.
  destruct (Qle_bool 0 q) eqn:Eq; simpl; [by apply Qle_bool_iff|done].
Qed.

Lemma setMaxAsyncLoadCount_typed v : inv typed (setMaxAsyncLoadCount v).
Proof.
  apply inv_modify. intros s [Hr Hf Hm].
  destruct (truthy v); simpl; [|by split].
  destruct (isNaN v) eqn:E; simpl; [by split|]. split; [done|done|by apply isNaN_false].
Qed.

#[export] Hint Resolve setResolutionTime_typed setFrameRate_typed setMaxAsyncLoadCount_typed : tinv.

(** A [modify] that sets none of the three. *)
Ltac ty_modify :=
  apply inv_modify; let s := fresh "s" in let H := fresh "H" in
  intros s H; destruct H; split; unfold engine_result, push_pending; simpl; repeat (case_match; simpl); assumption.

Ltac ty_unfold :=
  unfold setMap, setConfig, setBeginTime, setEndTime, setFadeOutOpacities, setVisibility, setOpacity,
    reset, loadAnimation, startAnimation, pauseAnimation, stopAnimation, stopShowAnimation,
    startShowAnimation, showAnimation, showFrame, showNextFrame, showPreviousFrame, fadeOutAll, showLayer,
    present, run_effect, startTransitionFadeIn, startTransitionFadeOut, startTransition, movestart,
    loadstart, loadend, tileerror, layer_event, layerLoadStartCallback, layerLoadEndCallback,
    update_layer, loadAllLayers, resetLoadStep, nextLayerLoad, create_frames, animation_frame,
    run_callback.

Lemma handle_typed now inp : inv typed (handle now inp).
Proof.
  destruct inp; simpl; repeat (inv_step || (eauto with tinv) || ty_modify || (progress ty_unfold)).
Qed.

(** Any invariant of every call holds in every reachable state. *)
Lemma reachable_inv (P : state -> Prop) s :
  (forall now inp, inv P (handle now inp)) -> P initial -> reachable s -> P s.
Proof.
  intros Hh H0 Hr. induction Hr as [|x y z [ns Hs] _ IH]; [done|]. apply IH.
  destruct Hs as [now inp s0 s1 ns0 Hx]. pose proof (Hh now inp s0 H0) as H.
  unfold exec in Hx. destruct (handle now inp s0) as [[[] s2] n2]. by injection Hx as <- <-.
Qed.


(** ** What an operation changes *)

(** Everything of a frame but its opacity. *)
Definition skel (sl : slot) :=
  (s_obj sl, fr_config (s_frame sl), fr_state (s_frame sl), fr_error (s_frame sl),
   (fun l => (ol_in_map l, ol_visible l)) <$> fr_layer (s_frame sl)).

(** Everything of the container but the frame opacities, the engine and the
    animation-frame queue: what a transition cannot change. *)
Definition core (s : state) :=
  (st_config s, st_beginTime s, st_endTime s, st_resolutionTime s, st_visibility s,
   st_frameRate s, st_maxAsyncLoadCount s, st_opacity s, st_fadeOutOpacities s,
   st_fadeOut s, st_requestAnimationTime s, st_map s, skel <$> st_layers s,
   st_loadStep s, st_groupLoadStep s, st_nextObj s).

Lemma skel_obj (l l' : list slot) : skel <$> l' = skel <$> l -> s_obj <$> l' = s_obj <$> l.
Proof.
  intros H.
  apply (f_equal (fmap (fun x : nat * frame_config * option load_state * option string * option (bool * bool)
                        => x.1.1.1.1))) in H.
  rewrite <- !list_fmap_compose in H. exact H.
Qed.

Lemma apply_writes_skel ws ls : skel <$> apply_writes ws ls = skel <$> ls.
Proof.
  unfold apply_writes. revert ls. induction ws as [|w ws IH]; intros ls; [done|].
  simpl. rewrite IH. unfold apply_write. rewrite <- list_fmap_compose. apply list_fmap_ext.
  intros _ sl _. simpl. case_if; [|done]. unfold skel. simpl.
  by destruct (s_frame sl) as [? [l|] ? ?].
Qed.

(** The notifications of the presentation effects, given the frame identities. *)
Definition effect_notices (objs : list nat) (ef : effect) : list notice :=
  match ef with
  | FrameChanged i => match objs !! i with Some o => [NFrameChanged o] | None => [] end
  | _ => []
  end.

Lemma startTransition_spec now fo dt ds i q s :
  let '(_, s', ns) := startTransition now fo dt ds i q s in core s' = core s /\ ns = [].
Proof.
  unfold startTransition, modify, engine_result. destruct (opacityTransition _ _ _ _ _ _ _) as [[e ws] fr].
  split; [|done]. unfold core. simpl. by rewrite apply_writes_skel.
Qed.

Lemma run_effect_spec now ef s :
  let '(_, s', ns) := run_effect now ef s in
  core s' = core s /\ ns = effect_notices (s_obj <$> st_layers s) ef.
Proof.
  destruct ef as [i q|i q|i]; simpl; unfold mbind, M_bind, get.
  - apply startTransition_spec.
  - apply startTransition_spec.
  - rewrite list_lookup_fmap. destruct (st_layers s !! i); simpl; done.
Qed.

Lemma core_objs s s' : core s' = core s -> s_obj <$> st_layers s' = s_obj <$> st_layers s.
Proof. unfold core. intros H. injection H as ?????????????. by apply skel_obj. Qed.

Lemma for_each_effects_spec now efs s :
  let '(_, s', ns) := for_each (run_effect now) efs s in
  core s' = core s /\ ns = efs ≫= effect_notices (s_obj <$> st_layers s).
Proof.
  revert s. induction efs as [|ef efs IH]; intros s; [done|]. simpl. unfold mbind at 1, M_bind at 1.
  pose proof (run_effect_spec now ef s) as H1. destruct (run_effect now ef s) as [[[] s1] n1].
  destruct H1 as [Hc1 ->]. specialize (IH s1). destruct (for_each _ efs s1) as [[[] s2] n2].
  destruct IH as [Hc2 ->]. split; [congruence|]. by rewrite (core_objs s s1 Hc1).
Qed.

(** A presentation operation sets the fade stack to the presentation's
    result, changes nothing else but opacities, and reports its frame
    changes. *)
Lemma present_spec now op s :
  let '(_, s', ns) := present now op s in
  core s' = core (set_fadeOut (op s).1 s) /\
  ns = (op s).2 ≫= effect_notices (s_obj <$> st_layers s).
Proof.
  unfold present, mbind at 1, M_bind at 1, get. destruct (op s) as [fade efs].
  unfold mbind, M_bind, modify. pose proof (for_each_effects_spec now efs (set_fadeOut fade s)) as H.
  destruct (for_each _ efs _) as [[[] s2] n2]. exact H.
Qed.


Lemma bind_spec {A B} (m : M A) (f : A -> M B) s :
  (m ≫= f) s = let '(a, s1, n1) := m s in let '(b, s2, n2) := f a s1 in (b, s2, n1 ++ n2).
Proof. reflexivity. Qed.

Lemma bind_get {A} (k : state -> M A) s : (get ≫= k) s = k s s.
Proof. rewrite bind_spec. simpl. by destruct (k s s) as [[a s'] n]. Qed.

Lemma for_each_notify {A} (g : A -> notice) l s : for_each (fun x => notify (g x)) l s = (tt, s, g <$> l).
Proof.
  revert s. induction l as [|x l IH]; intros s; [done|]. simpl. unfold mbind at 1, M_bind at 1, notify.
  by rewrite IH.
Qed.

Lemma fadeOut_notices objs (l : list nat) : map (fun j => FadeOut j 0%Q) l ≫= effect_notices objs = [].
Proof. induction l; [done|]. by simpl. Qed.

(** [stopAnimation]: the timer is stopped and the stack emptied, nothing
    reported; only opacities change otherwise. *)
Lemma stopAnimation_spec now s :
  let '(_, s', ns) := stopAnimation now s in
  core s' = core (set_fadeOut [] (set_requestAnimationTime None s)) /\ ns = [].
Proof.
  unfold stopAnimation, pauseAnimation, stopShowAnimation, fadeOutAll, mbind at 1, M_bind at 1, modify.
  pose proof (present_spec now (fun s => Presentation.fadeOutAll (st_fadeOut s)) (set_requestAnimationTime None s)) as H.
  destruct (present _ _ _) as [[[] s2] n2]. destruct H as [Hc ->]. split; [done|].
  unfold Presentation.fadeOutAll. simpl. apply fadeOut_notices.
Qed.

(** [reset] from any state: no frame left, empty fade stack, timer stopped,
    load steps back to 1, and one release notification per frame, in order. *)
Lemma reset_spec now s :
  let '(s', ns) := exec (reset now) s in
  st_layers s' = [] /\ st_fadeOut s' = [] /\ st_requestAnimationTime s' = None /\
  st_loadStep s' = 1%nat /\ st_groupLoadStep s' = 1%nat /\ st_nextObj s' = st_nextObj s /\
  st_config s' = st_config s /\ st_map s' = st_map s /\ st_visibility s' = st_visibility s /\
  ns = NFrameContentReleased <$> (s_obj <$> st_layers s).
Proof.
  unfold exec, reset, mbind at 1, M_bind at 1.
  pose proof (stopAnimation_spec now s) as H. destruct (stopAnimation now s) as [[[] s1] n1].
  destruct H as [Hc ->]. pose proof (core_objs _ _ Hc) as Ho.
  unfold core in Hc. simpl in Hc, Ho. injection Hc as Hcfg _ _ _ Hvis _ _ _ _ _ Hrat Hmap _ _ _ Hnx.
  unfold mbind, M_bind, modify, get. rewrite for_each_notify. simpl.
  rewrite app_nil_r, <- Ho, <- list_fmap_compose. by repeat split.
Qed.

(** ** The frames [loadAnimation] creates *)

(** The integer loop [for (t = b; t <= e; t += r)]. *)
Fixpoint int_times (fuel : nat) (t e r : Z) : list Z :=
  match fuel with
  | O => []
  | S fuel' => if (t <=? e)%Z then t :: int_times fuel' (t + r) e r else []
  end.

Lemma num_le_int t e : num_le (Fin (inject_Z t)) (Fin (inject_Z e)) = (t <=? e)%Z.
Proof.
  unfold num_le, num_lt. rewrite negb_involutive. apply eq_true_iff_eq.
  rewrite Qle_bool_iff, <- Zle_Qle. bnorm. lia.
Qed.

Lemma layer_times_int fuel t e r :
  layer_times fuel (Fin (inject_Z t)) e (Fin (inject_Z r)) = (fun z => Fin (inject_Z z)) <$> int_times fuel t e r.
Proof.
  revert t. induction fuel as [|fuel IH]; intros t; [done|]. cbn [layer_times int_times]. rewrite num_le_int.
  destruct (t <=? e)%Z; [|done]. cbn [num_add]. rewrite <- inject_Z_plus, IH. done.
Qed.

Lemma int_times_closed fuel t e r :
  (1 <= r)%Z -> (t <= e)%Z -> (Z.to_nat ((e - t) / r) < fuel)%nat ->
  int_times fuel t e r = (fun k => t + Z.of_nat k * r)%Z <$> seq 0 (S (Z.to_nat ((e - t) / r))).
Proof.
  revert t. induction fuel as [|fuel IH]; intros t Hr Hte Hf; [lia|]. simpl.
  replace (t <=? e)%Z with true by (symmetry; bnorm; lia). f_equal; [lia|].
  destruct (Z.le_gt_cases (t + r) e) as [Hle|Hgt].
  - assert (Hd : ((e - (t + r)) / r = (e - t) / r - 1)%Z).
    { replace (e - (t + r))%Z with (e - t + (-1) * r)%Z by lia. rewrite Z_div_plus_full by lia. lia. }
    assert (Hpos : (1 <= (e - t) / r)%Z) by (apply Z.div_le_lower_bound; lia).
    rewrite IH by (lia || (rewrite Hd; lia)). rewrite Hd.
    replace (Z.to_nat ((e - t) / r)) with (S (Z.to_nat ((e - t) / r - 1))) by lia.
    rewrite <- fmap_S_seq, <- list_fmap_compose. apply list_fmap_ext. intros _ k _. simpl. lia.
  - assert (H0 : ((e - t) / r = 0)%Z) by (apply Z.div_small; lia). rewrite H0. simpl.
    destruct fuel; simpl; [done|]. replace (t + r <=? e)%Z with false by (symmetry; bnorm; lia). done.
Qed.


Lemma int_times_bounds b e r :
  (1 <= r)%Z -> (b <= e)%Z ->
  Forall (fun z => b <= z <= e)%Z ((fun k => b + Z.of_nat k * r)%Z <$> seq 0 (S (Z.to_nat ((e - b) / r)))).
Proof.
  intros Hr Hbe. apply Forall_fmap, Forall_forall. intros k Hk. apply elem_of_seq in Hk. simpl.
  pose proof (Z.mul_div_le (e - b) r ltac:(lia)). pose proof (Z.div_pos (e - b) r ltac:(lia) ltac:(lia)).
  assert (Z.of_nat k <= (e - b) / r)%Z by lia. nia.
Qed.

(** The frame of a time value: [showFrame] reads the time back from its
    ISO string. *)
Lemma make_slots_times svc n (zs : list Z) :
  Forall (fun z => Z.abs z <= 8640000000000000)%Z zs ->
  slot_time <$> make_slots svc n ((fun z => Fin (inject_Z z)) <$> zs) = (fun z => Fin (inject_Z z)) <$> zs.
Proof.
  intros Hzs. unfold make_slots. rewrite imap_fmap, fmap_imap.
  rewrite (imap_ext _ (const (fun z => Fin (inject_Z z)))); [apply imap_const|].
  intros k z Hk. rewrite Forall_lookup in Hzs. specialize (Hzs k z Hk).
  unfold compose, slot_time, const. cbn [s_frame fr_config fc_time new_frame]. rewrite time_clip_int by done. simpl.
  by rewrite date_parse_toISOString.
Qed.

Definition obj_config (sl : slot) : nat * frame_config := (s_obj sl, fr_config (s_frame sl)).

Lemma loadLayer_config f : fr_config (loadLayer f) = fr_config f.
Proof. unfold loadLayer. by repeat case_match. Qed.

(** [loadAllLayers] loads frames: their identities and configurations stay. *)
Lemma loadAllLayers_spec s :
  let '(_, s', _) := loadAllLayers s in
  obj_config <$> st_layers s' = obj_config <$> st_layers s /\ st_fadeOut s' = st_fadeOut s.
Proof.
  unfold loadAllLayers, mbind at 1, M_bind at 1, get. destruct (st_visibility s); [|done].
  unfold mbind, M_bind, notify, resetLoadStep, nextLayerLoad, modify. simpl.
  match goal with |- context [Schedule.nextLayerLoad ?c ?l ?st] =>
    pose proof (nextLayerLoad_fmap obj_config c l st) as Hm end.
  destruct (Schedule.nextLayerLoad _ _ _) as [[ls step] st]. simpl in *. split; [|done].
  apply Hm. intros sl. unfold obj_config. simpl. by rewrite loadLayer_config.
Qed.

Lemma slot_time_config (l l' : list slot) :
  obj_config <$> l' = obj_config <$> l -> slot_time <$> l' = slot_time <$> l /\ s_obj <$> l' = s_obj <$> l.
Proof.
  intros H. split.
  - apply (f_equal (fmap (fun p : nat * frame_config => date_number (date_parse (toISOString (fc_time p.2)))))) in H.
    rewrite <- !list_fmap_compose in H. exact H.
  - apply (f_equal (fmap (fun p : nat * frame_config => p.1))) in H.
    rewrite <- !list_fmap_compose in H. exact H.
Qed.

(** [loadAnimation] with its guard satisfied: what [reset] and the frame
    creation leave, before [loadAllLayers]. *)
Lemma loadAnimation_guard s b e r c :
  is_Some (st_map s) -> st_config s = Some c -> st_beginTime s = Some (Some b) ->
  st_endTime s = Some (Some e) -> getResolutionTime s = Fin (inject_Z r) -> (1 <= r)%Z -> (b <= e)%Z ->
  load_guard s = Some (b, e, Fin (inject_Z r), c).
Proof.
  intros [m Hm] Hc Hb He Hr Hr1 Hbe. unfold load_guard. rewrite Hm, Hc, Hb, He, Hr.
  replace (truthy (JNum (Fin (inject_Z r)))) with true.
  - by replace (b <=? e)%Z with true by (symmetry; bnorm; lia).
  - simpl. symmetry. apply negb_true_iff. apply not_true_iff_false. rewrite Qeq_bool_iff.
    intros H. unfold Qeq in H. simpl in H. lia.
Qed.


(** ** Properties of the container *)


(** C13: [reset()], at any time (also in the middle of a load), leaves no
    frame and an empty fade stack, stops the animation timer, puts both
    load steps back to 1, and reports the release of every frame it
    dropped, in order, and nothing else. *)
Theorem reset_clears now s :
  let '(s', ns) := exec (reset now) s in
  st_layers s' = [] /\ st_fadeOut s' = [] /\ st_requestAnimationTime s' = None /\
  st_loadStep s' = 1%nat /\ st_groupLoadStep s' = 1%nat /\
  ns = NFrameContentReleased <$> (s_obj <$> st_layers s).
Proof.
  pose proof (reset_spec now s) as H. destruct (exec (reset now) s) as [s' ns].
  destruct H as (? & ? & ? & ? & ? & _ & _ & _ & _ & ?). by repeat split.
Qed.

(** C22 (finding): [setBeginTime] given a value that is neither undefined,
    null nor a Date and that [isNaN] rejects (an ISO string such as
    ["2015-01-01T00:00:00Z"], or any non-numeric string) sets [_beginTime]
    to undefined, whatever valid time it held before. *)
Theorem setBeginTime_invalid_clears v s :
  is_defined v = true -> (forall t, v <> JDate t) -> isNaN v = true ->
  st_beginTime (exec (setBeginTime v) s).1 = None.
Proof.
  intros Hd Hnd Hn. unfold exec, setBeginTime, modify. simpl. unfold time_input.
  destruct v; try done; try (exfalso; by eapply Hnd); by rewrite Hn.
Qed.



(** ** Witnesses *)

Definition demo_state : state :=
  set_resolutionTime (Some (Fin 1000)) (set_endTime (Some (Some 3000%Z))
    (set_beginTime (Some (Some 0%Z)) (set_config (Some (mk_container_config Wms None))
      (set_map (Some 0%nat) initial)))).


Lemma setBeginTime_invalid_clears_witness :
  st_beginTime (exec (setBeginTime (JStr "2015-01-01T00:00:00Z")) demo_state).1 = None.
Proof.
  apply setBeginTime_invalid_clears; [reflexivity|discriminate|vm_compute; reflexivity].
Defined.


(** After [setFrameRate(-5)]. *)
Definition demo_rate_state : state := (exec (handle 0 (ISetFrameRate (JNum (Fin (-5))))) initial).1.


Lemma container_wf_reachable_witness : container_wf initial.
Proof. apply (container_wf_reachable initial), rtc_refl. Defined.

End Container.
