(* ===== verification/Config.v ===== *)
(** * [internal/ConfigUtils.js], [Wms.js] and [Wmts.js]: configuration objects

    The configuration is a graph of JavaScript objects the caller owns and
    the sources copy and update in place, so it is modelled as a heap:
    objects and arrays behind locations, values that are primitives or
    references.  A function of [ConfigUtils] is a computation in the
    monad [CM] of state (the heap) and failure (the [TypeError] of a
    property access on [undefined], or a thrown string).

    - [OpenLayers.Util.extend(dst, src)] copies every property of [src]
      whose value is not [undefined] into [dst] (a source that is not an
      object has no properties to copy).
    - [LayerContainer]'s per-frame configuration ([frame_config]) composes
      [cloneAnimationConfig], [setGridBuffer], [setLayer], [setLayerName]
      and [setAnimationHasLegend] with the period-specific layer
      information of [getLayerInfo], as [loadAnimation] does. *)

From Stdlib Require Import String.
From S2P Require Import Prelude Js.
From Stdlib Require Import QArith.
From stdpp Require Import gmap countable strings.
Import Js.

Module Config.

(** ** Heap *)

Record loc := Loc { loc_car : positive }.

#[export] Instance loc_eq_dec : EqDecision loc.
Proof. solve_decision. Defined.

#[export] Instance loc_countable : Countable loc.
Proof. by apply (inj_countable' loc_car Loc); intros []. Defined.

Inductive value :=
| VUndef
| VNull
| VBool (b : bool)
| VNum (n : number)
| VStr (s : string)
| VDate (t : option Z)
| VRef (l : loc).

#[export] Instance value_eq_dec : EqDecision value.
Proof. solve_decision. Defined.

Inductive cell :=
| CObj (props : gmap string value)
| CArr (elems : list value).

Record heap := mk_heap { h_cells : gmap loc cell; h_next : positive }.

Inductive exn := TypeError | Thrown (msg : string).

Inductive result (A : Type) := Success (a : A) | Failure (e : exn).
Arguments Success {A} a.
Arguments Failure {A} e.

Definition CM (A : Type) : Type := heap -> result (A * heap).

#[export] Instance CM_ret : MRet CM := fun A x h => Success (x, h).
#[export] Instance CM_bind : MBind CM := fun A B f m h =>
  match m h with Success (a, h1) => f a h1 | Failure e => Failure e end.

Definition throw {A} (e : exn) : CM A := fun _ => Failure e.
Definition skip : CM unit := mret tt.

Definition read_heap : CM heap := fun h => Success (h, h).

(** A call whose result is not used. *)
Definition void {A} (m : CM A) : CM unit := m ≫= fun _ => skip.

(** The value as the container receives it. *)
Definition to_js (v : value) : jsval :=
  match v with
  | VUndef => JUndef
  | VNull => JNull
  | VBool b => JBool b
  | VNum n => JNum n
  | VStr s => JStr s
  | VDate t => JDate t
  | VRef _ => JObj
  end.

Definition truthy (v : value) : bool := Js.truthy (to_js v).

(** [v !== undefined && v !== null]. *)
Definition is_def (v : value) : bool := Js.is_defined (to_js v).

(** [{}]: a fresh empty object. *)
Definition new_object : CM value := fun h =>
  Success (VRef (Loc (h_next h)), mk_heap (<[Loc (h_next h) := CObj ∅]> (h_cells h)) (Pos.succ (h_next h))).

(** [v[k]]: a [TypeError] on [undefined] and [null]; a primitive has none
    of the properties the sources read. *)
Definition get (v : value) (k : string) : CM value := fun h =>
  match v with
  | VUndef | VNull => Failure TypeError
  | VRef l =>
      match h_cells h !! l with
      | Some (CObj ps) => Success (default VUndef (ps !! k), h)
      | Some (CArr es) =>
          Success (if String.eqb k "length" then VNum (Fin (inject_Z (Z.of_nat (length es)))) else VUndef, h)
      | None => Success (VUndef, h)
      end
  | _ => Success (VUndef, h)
  end.

(** [a && a.k]. *)
Definition getp (v : value) (k : string) : CM value := if truthy v then get v k else mret v.

(** [arr[i]]. *)
Definition get_index (v : value) (i : nat) : CM value := fun h =>
  match v with
  | VRef l =>
      match h_cells h !! l with
      | Some (CArr es) => Success (default VUndef (es !! i), h)
      | _ => Success (VUndef, h)
      end
  | VUndef | VNull => Failure TypeError
  | _ => Success (VUndef, h)
  end.

(** [v[k] = x] in strict mode: a [TypeError] on anything but an object. *)
Definition set (v : value) (k : string) (x : value) : CM unit := fun h =>
  match v with
  | VRef l =>
      match h_cells h !! l with
      | Some (CObj ps) => Success (tt, mk_heap (<[l := CObj (<[k := x]> ps)]> (h_cells h)) (h_next h))
      | _ => Success (tt, h)
      end
  | _ => Failure TypeError
  end.

Definition defined_props (ps : gmap string value) : gmap string value :=
  filter (fun kv => kv.2 <> VUndef) ps.

(** [OpenLayers.Util.extend(dst, src)]. *)
Definition extend (dst src : value) : CM unit := fun h =>
  match src, dst with
  | VRef s, VRef d =>
      match h_cells h !! s, h_cells h !! d with
      | Some (CObj ps), Some (CObj pd) =>
          Success (tt, mk_heap (<[d := CObj (defined_props ps ∪ pd)]> (h_cells h)) (h_next h))
      | _, _ => Success (tt, h)
      end
  | _, _ => Success (tt, h)
  end.

(** [{}] stored at [v.k], returned. *)
Definition new_at (v : value) (k : string) : CM value :=
  o ← new_object; set v k o;; mret o.

(** ** [ConfigUtils] (lines 18-312) *)

(** [clone.P = {}; extend(clone.P, src.P)] for the nested object [P]. *)
Definition copy_into (clone : value) (k : string) (src : value) : CM value :=
  o ← new_at clone k; extend o src;; mret o.

Definition cloneWmsAnimationConfig (config time : value) : CM value :=
  w ← getp config "wms";
  if truthy w then
    clone ← new_object; extend clone config;;
    w ← get config "wms"; cw ← copy_into clone "wms" w;
    params ← get w "params";
    (if truthy params || is_def time then
       p ← copy_into cw "params" params; set p "time" time
     else skip);;
    opts ← get w "options";
    (if truthy opts then
       o ← copy_into cw "options" opts;
       an ← get opts "animation";
       if truthy an then void (copy_into o "animation" an) else skip
     else skip);;
    mret clone
  else mret VUndef.

Definition cloneWmtsAnimationConfig (config time : value) : CM value :=
  w ← getp config "wmts";
  if truthy w then
    clone ← new_object; extend clone config;;
    w ← get config "wmts"; cw ← copy_into clone "wmts" w;
    params ← get w "params";
    (if truthy params || is_def time then
       p ← copy_into cw "params" params; set p "time" time
     else skip);;
    an ← get w "animation";
    (if truthy an then void (copy_into cw "animation" an) else skip);;
    mret clone
  else mret VUndef.

Definition cloneAnimationConfig (config time : value) : CM value :=
  if truthy config then
    wt ← get config "wmts";
    if truthy wt then cloneWmtsAnimationConfig config time
    else w ← get config "wms"; if truthy w then cloneWmsAnimationConfig config time else mret VUndef
  else mret VUndef.

(** [params.time], else [params.TIME], when defined. *)
Definition params_time (params : value) : CM value :=
  t ← get params "time";
  if is_def t then mret t
  else tu ← get params "TIME"; if is_def tu then mret tu else mret VUndef.

Definition getTimeFromConfig (config : value) : CM value :=
  if truthy config then
    wtp ← (get config "wmts" ≫= fun wt => getp wt "params");
    if truthy wtp then params_time wtp
    else
      wp ← (get config "wms" ≫= fun w => getp w "params");
      if truthy wp then params_time wp else mret VUndef
  else mret VUndef.

Definition getAnimation (config : value) : CM value :=
  if truthy config then
    a ← (get config "wmts" ≫= fun wt => getp wt "animation");
    if truthy a then mret a
    else
      b ← (get config "wms" ≫= fun w => getp w "options" ≫= fun o => getp o "animation");
      if truthy b then mret b else mret VUndef
  else mret VUndef.

(** [getAnimationName], [getAnimationHasLegend]: a property of the animation. *)
Definition animation_prop (config : value) (k : string) : CM value :=
  an ← getAnimation config; if truthy an then get an k else mret VUndef.

Definition getAnimationName (config : value) : CM value := animation_prop config "name".

Definition getAnimationHasLegend (config : value) : CM value := animation_prop config "hasLegend".

(** [setAnimationHasLegend], with the braces of the source: for WMS the
    [animation] object is created only together with a missing [options]. *)
Definition setAnimationHasLegend (config hasLegend : value) : CM unit :=
  if truthy config then
    wt ← get config "wmts";
    if truthy wt then
      an ← get wt "animation";
      (if truthy an then skip else void (new_at wt "animation"));;
      an ← get wt "animation"; set an "hasLegend" hasLegend
    else
      w ← get config "wms";
      if truthy w then
        opts ← get w "options";
        (if truthy opts then skip
         else
           o ← new_at w "options";
           an ← get o "animation";
           if truthy an then skip else void (new_at o "animation"));;
        o ← get w "options"; an ← get o "animation"; set an "hasLegend" hasLegend
      else skip
  else skip.

Definition getLayer (config : value) : CM value :=
  if truthy config then
    a ← (get config "wmts" ≫= fun wt => getp wt "layer");
    if truthy a then mret a
    else
      b ← (get config "wms" ≫= fun w => getp w "params" ≫= fun p => getp p "layers");
      if truthy b then mret b else mret VUndef
  else mret VUndef.

(** [config.P.options] (or [params]), created when missing. *)
Definition ensure (v : value) (k : string) : CM value :=
  o ← get v k; if truthy o then mret o else new_at v k.

Definition setLayer (config layer : value) : CM unit :=
  if truthy config && truthy layer then
    wt ← get config "wmts";
    (if truthy wt then set wt "layer" layer else skip);;
    w ← get config "wms";
    if truthy w then p ← ensure w "params"; set p "layers" layer else skip
  else skip.

Definition getLayerName (config : value) : CM value :=
  if truthy config then
    a ← (get config "wmts" ≫= fun wt => getp wt "name");
    if truthy a then mret a
    else
      w ← get config "wms";
      b ← (if truthy w then get config "name" else mret w);
      if truthy b then mret b else mret VUndef
  else mret VUndef.

Definition setLayerName (config name : value) : CM unit :=
  if truthy config && truthy name then
    wt ← get config "wmts";
    if truthy wt then set wt "name" name
    else w ← get config "wms"; if truthy w then set config "name" name else skip
  else skip.

Definition setFrameStyleClass (config cls : value) : CM unit :=
  if truthy config && truthy cls then
    wt ← get config "wmts";
    (if truthy wt then c ← get wt "className"; if truthy c then skip else set wt "className" cls
     else skip);;
    w ← get config "wms";
    if truthy w then
      o ← ensure w "options"; c ← get o "className"; if truthy c then skip else set o "className" cls
    else skip
  else skip.

(** [buffer !== undefined && buffer !== null && !isNaN(buffer) && buffer >= 0]. *)
Definition valid_buffer (b : value) : bool :=
  is_def b && negb (isNaN (to_js b)) && num_le (Fin 0) (to_number (to_js b)).

Definition setGridBuffer (config buffer : value) : CM unit :=
  if truthy config && valid_buffer buffer then
    wt ← get config "wmts";
    (if truthy wt then b ← get wt "buffer"; if is_def b then skip else set wt "buffer" buffer
     else skip);;
    w ← get config "wms";
    if truthy w then
      o ← ensure w "options"; b ← get o "buffer"; if is_def b then skip else set o "buffer" buffer
    else skip
  else skip.

(** ** Period-specific layer information ([LayerContainer.js] lines 883-951) *)

(** [info.beginTime] / [info.endTime] as Dates, or [None] when not usable. *)
Definition info_date (v : value) : option Z :=
  match v with VDate t => t | _ => date_of (to_js v) end.

(** The test of one [animation.layers[i]] entry at [time]. *)
Definition info_matches (bt et : value) (time : Z) : bool :=
  let usable v := match v with VDate _ => true | _ => negb (isNaN (to_js v)) end in
  if is_def bt && usable bt && (negb (is_def et) || usable et) then
    let begin_ok := match info_date bt with Some b => (b <=? time)%Z | None => false end in
    let end_ok := if is_def et then
                    match info_date et with Some e => (time <=? e)%Z | None => false end
                  else true in
    begin_ok && end_ok
  else false.

(** The loop of [getLayerInfo] over the entries: the first matching one
    gives its [layer], [name] and [hasLegend]. *)
Fixpoint layer_info_scan (infos : list value) (time : Z) : CM (option (value * value * value)) :=
  match infos with
  | [] => mret None
  | info :: rest =>
      if truthy info then
        bt ← get info "beginTime"; et ← get info "endTime";
        if info_matches bt et time then
          l ← get info "layer"; n ← get info "name"; hl ← get info "hasLegend";
          mret (Some (l, n, hl))
        else layer_info_scan rest time
      else layer_info_scan rest time
  end.

Definition array_elems (v : value) (h : heap) : list value :=
  match v with
  | VRef l => match h_cells h !! l with Some (CArr es) => es | _ => [] end
  | _ => []
  end.

(** [getLayerInfo(time)] with the container's [_config]. *)
Definition getLayerInfo (config : value) (time : Z) : CM (option (value * value * value)) :=
  an ← getAnimation config;
  ls ← getp an "layers";
  if truthy an && truthy ls then h ← read_heap; layer_info_scan (array_elems ls h) time else mret None.

Definition getLayerIdName (config : value) (time : Z) (dflt : value) : CM value :=
  info ← getLayerInfo config time;
  mret (match info with Some (l, _, _) => if truthy l then l else dflt | None => dflt end).

Definition getLayerName_at (config : value) (time : Z) (dflt : value) : CM value :=
  info ← getLayerInfo config time;
  mret (match info with Some (_, n, _) => if bool_decide (n = VUndef) then dflt else n | None => dflt end).

Definition getLayerHasLegend (config : value) (time : Z) (dflt : value) : CM value :=
  info ← getLayerInfo config time;
  mret (match info with Some (_, _, hl) => if bool_decide (hl = VUndef) then dflt else hl | None => dflt end).

(** [_defaultGridBuffer]. *)
Definition defaultGridBuffer : value := VNum (Fin 1).

(** The configuration of the frame at [time] built by [loadAnimation]
    ([LayerContainer.js] lines 1213-1229). *)
Definition frame_config (config : value) (time : Z) : CM value :=
  clone ← cloneAnimationConfig config (VStr (toISOString time));
  setGridBuffer clone defaultGridBuffer;;
  l ← getLayer clone; lid ← getLayerIdName config time l; setLayer clone lid;;
  n ← getAnimationName clone; ln ← getLayerName_at config time n; setLayerName clone ln;;
  hl ← getAnimationHasLegend clone; lh ← getLayerHasLegend config time hl;
  setAnimationHasLegend clone lh;;
  mret clone.

(** ** [Wms.setConfig] and [Wmts.setConfig] *)

Definition config_error : exn := Thrown "ERROR: Configuration error!".

(** [if (o.k === undefined || o.k === null) o.k = dflt;] *)
Definition set_default (o : value) (k : string) (dflt : value) : CM unit :=
  v ← get o k; if is_def v then skip else set o k dflt.

(** The wrapper [Wms.setConfig(url, params, options)] hands to
    [doSetConfig]: [{url, wms: {params, options: options || {}}}] with
    the defaults set in the caller's [params] and [options] objects. *)
Definition wms_wrapper (url params options : value) : CM value :=
  layers ← getp params "layers";
  if negb (truthy url) || negb (truthy params) || negb (truthy layers) then throw config_error
  else
    wrapper ← new_object; set wrapper "url" url;;
    w ← new_at wrapper "wms"; set w "params" params;;
    opts ← (if truthy options then mret options else new_object); set w "options" opts;;
    set_default params "transparent" (VBool true);;
    set_default params "format" (VStr "image/png");;
    set_default opts "singleTile" (VBool false);;
    set_default opts "displayInLayerSwitcher" (VBool false);;
    set_default opts "isBaseLayer" (VBool false);;
    mret wrapper.

(** The wrapper [Wmts.setConfig(config)] hands to [doSetConfig]:
    [{wmts: config}] with the defaults set in the caller's object. *)
Definition wmts_wrapper (config : value) : CM value :=
  if negb (truthy config) then throw config_error else
  url ← get config "url"; layer ← get config "layer"; ms ← get config "matrixSet";
  style ← get config "style";
  if negb (truthy url) || negb (truthy layer) || negb (truthy ms) || negb (is_def style) then throw config_error
  else
    wrapper ← new_object; set wrapper "wmts" config;;
    set_default config "format" (VStr "image/png");;
    set_default config "displayInLayerSwitcher" (VBool false);;
    set_default config "isBaseLayer" (VBool false);;
    mret wrapper.


(** ** Reasoning about [CM] *)

(** The value [get v k] reads, from the cells alone. *)
Definition rd (cs : gmap loc cell) (v : value) (k : string) : value :=
  match get v k (mk_heap cs 1) with Success (x, _) => x | Failure _ => VUndef end.

(** The own properties [extend] copies from [v]. *)
Definition props_of (cs : gmap loc cell) (v : value) : gmap string value :=
  match v with VRef l => match cs !! l with Some (CObj ps) => ps | _ => ∅ end | _ => ∅ end.

(** Every reference [v] holds is below [n]. *)
Definition val_ok (n : positive) (v : value) : Prop :=
  match v with VRef l => (loc_car l < n)%positive | _ => True end.

#[export] Instance val_ok_dec n v : Decision (val_ok n v).
Proof. destruct v; simpl; apply _. Defined.

Definition cell_ok (n : positive) (c : cell) : Prop :=
  match c with CObj ps => map_Forall (fun _ => val_ok n) ps | CArr es => Forall (val_ok n) es end.

#[export] Instance cell_ok_dec n c : Decision (cell_ok n c).
Proof. destruct c; simpl; apply _. Defined.

(** A closed heap: its cells and the references they hold are below [h_next]. *)
Definition heap_wf (h : heap) : Prop :=
  map_Forall (fun l c => (loc_car l < h_next h)%positive /\ cell_ok (h_next h) c) (h_cells h).

#[export] Instance heap_wf_dec h : Decision (heap_wf h).
Proof. unfold heap_wf. apply _. Defined.

Create HintDb cfg.

Lemma truthy_def v : truthy v = true -> is_def v = true.
Proof. by destruct v. Qed.

Lemma get_rd v k h : is_def v = true -> get v k h = Success (rd (h_cells h) v k, h).
Proof.
  intros Hv. destruct h as [cs n]. unfold rd, get. destruct v; try done.
  simpl. by destruct (cs !! l) as [[]|].
Qed.

Lemma getp_rd v k h : getp v k h = Success (if truthy v then rd (h_cells h) v k else v, h).
Proof. unfold getp. destruct (truthy v) eqn:E; [by apply get_rd, truthy_def | done]. Qed.

Lemma set_ok cs n l ps k x :
  cs !! l = Some (CObj ps) ->
  set (VRef l) k x (mk_heap cs n) = Success (tt, mk_heap (<[l := CObj (<[k := x]> ps)]> cs) n).
Proof. intros E. unfold set. simpl. by rewrite E. Qed.

Lemma extend_ok cs n d pd src :
  cs !! d = Some (CObj pd) ->
  extend (VRef d) src (mk_heap cs n) =
  Success (tt, mk_heap (<[d := CObj (defined_props (props_of cs src) ∪ pd)]> cs) n).
Proof.
  intros Ed. unfold extend, props_of. simpl.
  assert (Hid : mk_heap cs n = mk_heap (<[d := CObj (defined_props ∅ ∪ pd)]> cs) n).
  { unfold defined_props. rewrite map_filter_empty, (left_id_L ∅ (∪)), insert_id; done. }
  destruct src; try (by rewrite <- Hid). rewrite Ed.
  destruct (cs !! l) as [[]|]; try done; by rewrite <- Hid.
Qed.

Lemma rd_insert_ne cs d c v k : (forall l, v = VRef l -> l <> d) -> rd (<[d := c]> cs) v k = rd cs v k.
Proof.
  intros Hv. unfold rd, get. destruct v; try done. cbn [h_cells].
  rewrite lookup_insert_ne; [by destruct (cs !! l) as [[]|]|]. intros ->. exact (Hv _ eq_refl eq_refl).
Qed.

Lemma rd_insert_eq cs d ps k : rd (<[d := CObj ps]> cs) (VRef d) k = default VUndef (ps !! k).
Proof. unfold rd, get. cbn [h_cells]. by rewrite lookup_insert_eq. Qed.

Lemma props_insert_ne cs d c v : (forall l, v = VRef l -> l <> d) -> props_of (<[d := c]> cs) v = props_of cs v.
Proof.
  intros Hv. unfold props_of. destruct v; try done.
  rewrite lookup_insert_ne; [done|]. intros ->. exact (Hv _ eq_refl eq_refl).
Qed.

Lemma props_insert_eq cs d ps : props_of (<[d := CObj ps]> cs) (VRef d) = ps.
Proof. unfold props_of. by rewrite lookup_insert_eq. Qed.

(** The copy [extend] makes reads as the source does, but for an array's [length]. *)
Lemma rd_props cs v k : k <> "length"%string -> default VUndef (defined_props (props_of cs v) !! k) = rd cs v k.
Proof.
  intros Hk. unfold rd, get, props_of, defined_props.
  assert (Hf : forall ps : gmap string value,
             default VUndef (filter (fun kv => kv.2 <> VUndef) ps !! k) = default VUndef (ps !! k)).
  { intros ps. destruct (ps !! k) as [x|] eqn:E.
    - destruct (decide (x = VUndef)) as [->|Hx].
      + rewrite map_lookup_filter_None_2; [done|]. right. intros y Hy. simplify_eq. by intros ?.
      + by erewrite map_lookup_filter_Some_2.
    - by rewrite map_lookup_filter_None_2; [|left]. }
  destruct v; try (by rewrite map_filter_empty). simpl.
  destruct (cs !! l) as [[ps|es]|]; try by rewrite map_filter_empty.
  - apply Hf.
  - rewrite map_filter_empty. simpl. destruct (String.eqb_spec k "length"); [done|]. done.
Qed.

Lemma val_ok_ne n v d : val_ok n v -> (n <= loc_car d)%positive -> forall l, v = VRef l -> l <> d.
Proof. intros Hv Hd l -> ->. simpl in Hv. lia. Qed.

Lemma rd_ok h v k : heap_wf h -> val_ok (h_next h) v -> val_ok (h_next h) (rd (h_cells h) v k).
Proof.
  intros Hwf Hv. destruct h as [cs n]. unfold rd, get. simpl in *.
  destruct v; try done.
  destruct (cs !! l) as [[ps|es]|] eqn:E; try done.
  - destruct (ps !! k) as [x|] eqn:Ex; simpl; [|done].
    destruct (Hwf _ _ E) as [_ Hc]. exact (Hc _ _ Ex).
  - by destruct (String.eqb k "length").
Qed.

Lemma rd_ok_cells cs n v k : heap_wf (mk_heap cs n) -> val_ok n v -> val_ok n (rd cs v k).
Proof. apply (rd_ok (mk_heap cs n)). Qed.

#[export] Hint Resolve rd_ok_cells : cfg.

(** Distinct locations: two fresh ones, a fresh one and one in use, or two
    the context says are distinct. *)
Ltac loc_ne_tac := first [ intros [=]; lia | intros ?; subst; simpl in *; lia | congruence ].

Ltac ne_tac :=
  first
  [ let l := fresh "l" in let E := fresh "E" in
    intros l E; injection E as <-; loc_ne_tac
  | eapply val_ok_ne; [solve [eauto with cfg] | simpl; lia] ].

Ltac lookup_tac :=
  repeat first [ rewrite lookup_insert_eq | rewrite lookup_insert_ne by loc_ne_tac ];
  first [ reflexivity | eassumption ].

(** Rewrites the reads and copies of a heap built by inserts to the reads of
    the heap before them. *)
Lemma truthy_ref l : truthy (VRef l) = true.
Proof. done. Qed.

Lemma is_def_ref l : is_def (VRef l) = true.
Proof. done. Qed.

Lemma rd_lookup cs l ps k : cs !! l = Some (CObj ps) -> rd cs (VRef l) k = default VUndef (ps !! k).
Proof. intros E. unfold rd, get. simpl. by rewrite E. Qed.

Ltac rd_simpl :=
  repeat match goal with
  | H : ?cs !! ?l = Some (CObj ?ps) |- context [rd ?cs (VRef ?l) ?k] => rewrite (rd_lookup cs l ps k H)
  | |- context [default ?d (Some ?x)] => change (default d (Some x)) with x
  | |- context [default ?d None] => change (default d None) with d
  | |- context [@lookup _ _ (gmap string value) _ ?k ∅] => rewrite (lookup_empty k)
  | |- context [truthy VUndef] => change (truthy VUndef) with false
  | |- context [is_def VUndef] => change (is_def VUndef) with false
  | |- context [truthy (VRef ?l)] => rewrite (truthy_ref l)
  | |- context [is_def (VRef ?l)] => rewrite (is_def_ref l)
  | |- context [rd (<[?d := CObj ?ps]> ?cs) (VRef ?d) ?k] => rewrite (rd_insert_eq cs d ps k)
  | |- context [rd (<[?d := ?c]> ?cs) ?v ?k] => rewrite (rd_insert_ne cs d c v k) by ne_tac
  | |- context [props_of (<[?d := CObj ?ps]> ?cs) (VRef ?d)] => rewrite (props_insert_eq cs d ps)
  | |- context [props_of (<[?d := ?c]> ?cs) ?v] => rewrite (props_insert_ne cs d c v) by ne_tac
  | |- context [<[?k := ?x]> ?ps !! ?k] => rewrite (lookup_insert_eq ps k x)
  | |- context [<[?k := ?x]> ?ps !! ?j] => rewrite (lookup_insert_ne ps k j x) by discriminate
  | |- context [(?m ∪ ∅) !! ?k] => rewrite (right_id_L ∅ (∪) m)
  | |- context [default VUndef (defined_props (props_of ?cs ?v) !! ?k)] =>
      rewrite (rd_props cs v k) by discriminate
  end.

Lemma bind_assoc_h {A B C} (m : CM A) (g : A -> CM B) (f : B -> CM C) h :
  ((m ≫= g) ≫= f) h = (m ≫= fun x => g x ≫= f) h.
Proof. unfold mbind, CM_bind. by destruct (m h) as [[]|]. Qed.

Lemma bind_ret_h {A B} (x : A) (f : A -> CM B) h : (mret x ≫= f) h = f x h.
Proof. reflexivity. Qed.

Lemma ret_h {A} (x : A) h : (mret x : CM A) h = Success (x, h).
Proof. reflexivity. Qed.

Lemma if_bind_h {A B} (b : bool) (m1 m2 : CM A) (f : A -> CM B) h :
  ((if b then m1 else m2) ≫= f) h = (if b then m1 ≫= f else m2 ≫= f) h.
Proof. by destruct b. Qed.

Lemma get_bind {B} v k (f : value -> CM B) h :
  is_def v = true -> (get v k ≫= f) h = f (rd (h_cells h) v k) h.
Proof. intros Hv. unfold mbind, CM_bind. by rewrite get_rd. Qed.

Lemma getp_bind {B} v k (f : value -> CM B) h :
  (getp v k ≫= f) h = f (if truthy v then rd (h_cells h) v k else v) h.
Proof. unfold mbind, CM_bind. by rewrite getp_rd. Qed.

Lemma new_object_bind {B} (f : value -> CM B) cs n :
  (new_object ≫= f) (mk_heap cs n) = f (VRef (Loc n)) (mk_heap (<[Loc n := CObj ∅]> cs) (Pos.succ n)).
Proof. reflexivity. Qed.

Lemma set_bind {B} (f : unit -> CM B) cs n l ps k x :
  cs !! l = Some (CObj ps) ->
  (set (VRef l) k x ≫= f) (mk_heap cs n) = f tt (mk_heap (<[l := CObj (<[k := x]> ps)]> cs) n).
Proof. intros E. unfold mbind, CM_bind. by rewrite (set_ok _ _ _ ps). Qed.

Lemma set_h cs n l ps k x :
  cs !! l = Some (CObj ps) ->
  set (VRef l) k x (mk_heap cs n) = Success (tt, mk_heap (<[l := CObj (<[k := x]> ps)]> cs) n).
Proof. apply set_ok. Qed.

Lemma extend_bind {B} (f : unit -> CM B) cs n d pd src :
  cs !! d = Some (CObj pd) ->
  (extend (VRef d) src ≫= f) (mk_heap cs n) =
  f tt (mk_heap (<[d := CObj (defined_props (props_of cs src) ∪ pd)]> cs) n).
Proof. intros E. unfold mbind, CM_bind. by rewrite (extend_ok _ _ _ pd). Qed.

Lemma falsy_not_ref v : truthy v = false -> forall l, v <> VRef l.
Proof. by intros Hv l ->. Qed.

Lemma set_fail_bind {B} v k x (f : unit -> CM B) h :
  (forall l, v <> VRef l) -> (set v k x ≫= f) h = Failure TypeError.
Proof. intros Hv. unfold mbind, CM_bind, set. destruct v; try done. by destruct (Hv l). Qed.

Lemma set_fail v k x h : (forall l, v <> VRef l) -> set v k x h = Failure TypeError.
Proof. intros Hv. unfold set. destruct v; try done. by destruct (Hv l). Qed.

(** Case analysis on the first atom of a boolean condition. *)
Ltac destr_bool b :=
  lazymatch b with
  | ?x || _ => destr_bool x
  | ?x && _ => destr_bool x
  | negb ?x => destr_bool x
  | _ =>
      first
      [ match goal with H : b = _ |- _ => rewrite H end
      | let b' := eval vm_compute in b in
        lazymatch b' with true => change b with true | false => change b with false end
      | destruct b eqn:? ]
  end.

Lemma set_bind_top {B} (f : unit -> CM B) cs n l ps k x :
  (set (VRef l) k x ≫= f) (mk_heap (<[l := CObj ps]> cs) n) =
  f tt (mk_heap (<[l := CObj (<[k := x]> ps)]> cs) n).
Proof. rewrite (set_bind _ _ _ _ ps); [by rewrite insert_insert_eq | apply lookup_insert_eq]. Qed.

Lemma extend_bind_top {B} (f : unit -> CM B) cs n d pd src :
  (extend (VRef d) src ≫= f) (mk_heap (<[d := CObj pd]> cs) n) =
  f tt (mk_heap (<[d := CObj (defined_props (props_of (<[d := CObj pd]> cs) src) ∪ pd)]> cs) n).
Proof. rewrite (extend_bind _ _ _ _ pd); [by rewrite insert_insert_eq | apply lookup_insert_eq]. Qed.

Lemma skip_bind {B} (f : unit -> CM B) h : (skip ≫= f) h = f tt h.
Proof. reflexivity. Qed.

Lemma skip_h h : skip h = Success (tt, h).
Proof. reflexivity. Qed.

Lemma void_bind {A B} (m : CM A) (f : unit -> CM B) h : (void m ≫= f) h = (m ≫= fun _ => f tt) h.
Proof. unfold void, mbind, CM_bind. by destruct (m h) as [[]|]. Qed.

Lemma void_h {A} (m : CM A) h : void m h = (m ≫= fun _ => skip) h.
Proof. reflexivity. Qed.

Lemma throw_bind {A B} e (f : A -> CM B) h : (throw e ≫= f) h = Failure e.
Proof. reflexivity. Qed.

Lemma throw_h {A} e h : (throw e : CM A) h = Failure e.
Proof. reflexivity. Qed.

Lemma read_heap_bind {B} (f : heap -> CM B) h : (read_heap ≫= f) h = f h h.
Proof. reflexivity. Qed.

Ltac cm_head tac :=
  lazymatch goal with
  | |- ?M ?h = _ => tac M h
  | |- ∃ _ _, ?M ?h = _ /\ _ => tac M h
  end.

Ltac is_def_tac := first [ done | apply truthy_def; assumption ].

(** Rewrites the value [get v k] read on [h] to the reads of the heap
    before the last writes, in a goal of its own. *)
Ltac simpl_rd h v k :=
  let E := fresh "E" in
  eassert (E : rd (h_cells h) v k = _) by (cbn [h_cells]; rd_simpl; reflexivity);
  rewrite E; clear E.

Ltac simpl_props cs v :=
  let E := fresh "E" in
  eassert (E : props_of cs v = _) by (rd_simpl; reflexivity);
  rewrite E; clear E.

(** The rule for the first operation of the computation. *)
Ltac cm_rule M h :=
  lazymatch M with
  | mbind ?f (mbind ?g ?m) => rewrite (bind_assoc_h m g f h)
  | mbind ?f (mret ?x) => rewrite (bind_ret_h x f h)
  | mret ?x => rewrite (ret_h x h)
  | mbind ?f (if ?b then ?m1 else ?m2) => rewrite (if_bind_h b m1 m2 f h)
  | if ?b then _ else _ => destr_bool b
  | mbind ?f skip => rewrite (skip_bind f h)
  | skip => rewrite (skip_h h)
  | mbind ?f (void ?m) => rewrite (void_bind m f h)
  | void ?m => rewrite (void_h m h)
  | mbind ?f (throw ?e) => rewrite (throw_bind e f h)
  | throw ?e => rewrite (throw_h e h)
  | mbind ?f read_heap => rewrite (read_heap_bind f h)
  | mbind ?f (get ?v ?k) => rewrite (get_bind v k f h) by is_def_tac; simpl_rd h v k
  | get ?v ?k => rewrite (get_rd v k h) by is_def_tac; simpl_rd h v k
  | mbind ?f (getp ?v ?k) =>
      rewrite (getp_bind v k f h); destr_bool (truthy v); cbn iota; try simpl_rd h v k
  | getp ?v ?k => rewrite (getp_rd v k h); destr_bool (truthy v); cbn iota; try simpl_rd h v k
  | mbind ?f new_object =>
      lazymatch h with mk_heap ?cs ?n => rewrite (new_object_bind f cs n) end
  | mbind ?f (set (VRef ?l) ?k ?x) =>
      lazymatch h with
      | mk_heap (<[l := CObj ?ps]> ?cs) ?n => rewrite (set_bind_top f cs n l ps k x)
      | mk_heap ?cs ?n => erewrite (set_bind f cs n l _ k x) by lookup_tac
      end
  | set (VRef ?l) ?k ?x =>
      lazymatch h with mk_heap ?cs ?n => erewrite (set_h cs n l _ k x) by lookup_tac end
  | mbind ?f (set ?v ?k ?x) => rewrite (set_fail_bind v k x f h) by (apply falsy_not_ref; assumption)
  | set ?v ?k ?x => rewrite (set_fail v k x h) by (apply falsy_not_ref; assumption)
  | mbind ?f (extend (VRef ?d) ?s) =>
      lazymatch h with
      | mk_heap (<[d := CObj ?pd]> ?cs) ?n =>
          rewrite (extend_bind_top f cs n d pd s); simpl_props (<[d := CObj pd]> cs) s
      | mk_heap ?cs ?n => erewrite (extend_bind f cs n d _ s) by lookup_tac; simpl_props cs s
      end
  end.

(** Whether the first operation reads a value the reads of the heap
    before the last writes must simplify first. *)
Ltac cm_reads M :=
  lazymatch M with
  | mbind _ (get _ _) => idtac | get _ _ => idtac
  | mbind _ (getp _ _) => idtac | getp _ _ => idtac
  | if _ then _ else _ => idtac
  | mbind _ (set _ _ _) => idtac | set _ _ _ => idtac
  | _ => fail
  end.

(** One step of symbolic execution of a [CM] computation on a heap. *)
Ltac cm_step :=
  cbn [orb andb negb h_cells h_next];
  cm_head cm_rule.

(** Runs a computation to its end and closes the branches whose path
    conditions contradict each other. *)
Ltac cm_run :=
  repeat cm_step; rd_simpl; try reflexivity;
  try match goal with H : _ = _ |- _ => solve [discriminate H] end.

(** Instantiates the result of a computation run to its end. *)
Ltac cm_finish := eexists _, _; (split; [reflexivity|]); cbn [h_cells h_next]; rd_simpl.

(** C24 (roundtrip): for every configuration value of a closed heap,
    [cloneAnimationConfig] succeeds, and when it returns a clone,
    [getTimeFromConfig] reads back from the clone exactly the time it was
    given: the time of a frame is the time its configuration carries. *)
Theorem clone_time_roundtrip config time h :
  heap_wf h -> val_ok (h_next h) config -> is_def time = true ->
  exists clone h', cloneAnimationConfig config time h = Success (clone, h') /\
    (truthy clone = true -> getTimeFromConfig clone h' = Success (time, h')).
Proof.
  intros Hwf Hc Ht. destruct h as [cs n]. cbn [h_next h_cells] in *.
  unfold cloneAnimationConfig, cloneWmsAnimationConfig, cloneWmtsAnimationConfig, copy_into, new_at.
  repeat cm_step; eexists _, _; (split; [reflexivity|]); intros ?.
  all: unfold getTimeFromConfig, params_time; cm_run.
Qed.

(** C26: [Wms.setConfig(url, params, options)], with a [params] object
    holding [layers] and [options] undefined or an object, succeeds; the
    configuration it builds holds the caller's [params] object itself,
    and writes the default [transparent = true] into it when unset. *)
Theorem wms_wrapper_shares_params url p ps options h :
  heap_wf h -> h_cells h !! p = Some (CObj ps) ->
  truthy url = true -> truthy (default VUndef (ps !! "layers")) = true ->
  (truthy options = false \/ exists o po, options = VRef o /\ h_cells h !! o = Some (CObj po)) ->
  exists wr h', wms_wrapper url (VRef p) options h = Success (wr, h') /\
    rd (h_cells h') (rd (h_cells h') wr "wms") "params" = VRef p /\
    rd (h_cells h') (VRef p) "transparent" =
      (if is_def (default VUndef (ps !! "transparent")) then default VUndef (ps !! "transparent")
       else VBool true).
Proof.
  intros Hwf Hp Hu Hl Ho. destruct h as [cs n]. cbn [h_cells h_next] in *.
  assert (Hpn : (loc_car p < n)%positive) by apply (Hwf _ _ Hp).
  unfold wms_wrapper, set_default, new_at.
  destruct Ho as [Ho | (o & po & -> & Ho)];
    [|destruct (decide (o = p)) as [->|Hne];
      [rewrite Hp in Ho; injection Ho as <- | assert (loc_car o < n)%positive by apply (Hwf _ _ Ho)]].
  all: cm_run; cm_finish; repeat split; reflexivity.
Qed.

(** C25 (finding): for a WMS configuration whose [options] object exists
    but has no [animation] object, building the configuration of a frame
    as [loadAnimation] does (clone, [setGridBuffer], [setLayer],
    [setLayerName], [setAnimationHasLegend]) throws a [TypeError]. *)
Theorem frame_config_wms_no_animation c time h :
  heap_wf h -> (loc_car c < h_next h)%positive ->
  truthy (rd (h_cells h) (VRef c) "wmts") = false ->
  truthy (rd (h_cells h) (VRef c) "wms") = true ->
  truthy (rd (h_cells h) (rd (h_cells h) (VRef c) "wms") "options") = true ->
  truthy (rd (h_cells h) (rd (h_cells h) (rd (h_cells h) (VRef c) "wms") "options") "animation") = false ->
  frame_config (VRef c) time h = Failure TypeError.
Proof.
  intros Hwf Hc Hwt Hw Ho Han. destruct h as [cs n]. cbn [h_next h_cells] in *.
  assert (Hc' : val_ok n (VRef c)) by exact Hc.
  repeat progress unfold frame_config, cloneAnimationConfig, cloneWmsAnimationConfig, cloneWmtsAnimationConfig,
    copy_into, new_at, setGridBuffer, ensure, getLayer, getLayerIdName, getLayerInfo, getAnimation,
    setLayer, getAnimationName, animation_prop, getLayerName_at, setLayerName, getAnimationHasLegend,
    getLayerHasLegend, setAnimationHasLegend, valid_buffer, defaultGridBuffer.
  cm_run.
Qed.

(** ** Witnesses *)

(** A caller's [params] object [{layers: "radar"}] at location 1. *)
Definition demo_params : gmap string value := {[ "layers" := VStr "radar" ]}.

Definition demo_params_heap : heap := mk_heap {[ Loc 1 := CObj demo_params ]} 2.

Definition demo_url : value := VStr "https://wms.example/wms".

(** The heap after [Wms.setConfig(demo_url, params)]: the wrapper is at location 2. *)
Definition demo_wms_heap : heap :=
  match wms_wrapper demo_url (VRef (Loc 1)) VUndef demo_params_heap with
  | Success (_, h) => h
  | Failure _ => demo_params_heap
  end.

Lemma wms_wrapper_shares_params_witness :
  exists wr h', wms_wrapper demo_url (VRef (Loc 1)) VUndef demo_params_heap = Success (wr, h') /\
    rd (h_cells h') (rd (h_cells h') wr "wms") "params" = VRef (Loc 1) /\
    rd (h_cells h') (VRef (Loc 1)) "transparent" =
      (if is_def (default VUndef (demo_params !! "transparent"))
       then default VUndef (demo_params !! "transparent") else VBool true).
Proof.
  apply (wms_wrapper_shares_params demo_url (Loc 1) demo_params VUndef demo_params_heap).
  - apply (bool_decide_unpack (heap_wf _)). vm_compute. reflexivity.
  - reflexivity.
  - reflexivity.
  - reflexivity.
  - left. reflexivity.
Defined.

Lemma clone_time_roundtrip_witness :
  exists clone h', cloneAnimationConfig (VRef (Loc 2)) (VStr (toISOString 0)) demo_wms_heap = Success (clone, h') /\
    (truthy clone = true -> getTimeFromConfig clone h' = Success (VStr (toISOString 0), h')).
Proof.
  apply clone_time_roundtrip.
  - apply (bool_decide_unpack (heap_wf _)). vm_compute. reflexivity.
  - vm_compute. reflexivity.
  - reflexivity.
Defined.

Lemma frame_config_wms_no_animation_witness :
  frame_config (VRef (Loc 2)) 0 demo_wms_heap = Failure TypeError.
Proof.
  apply frame_config_wms_no_animation; try apply (bool_decide_unpack (heap_wf _)); vm_compute; reflexivity.
Defined.

End Config.
