(* ===== verification/Layer.v ===== *)
(** * [Animation.js]: the animation layer

    [OpenLayers.Layer.Animation] wraps one [LayerContainer].  It forwards
    the events of the controllers registered with [registerController] and
    its own [added] / [removed] layer events to the container, each in a
    [setTimeout(fn, 0)] callback, and turns every observer callback of the
    container into an event of its own ([doCallback]), triggered in a
    [setTimeout] callback too.  The pending callbacks are a FIFO queue
    ([ly_tasks]): the browser runs zero-delay timeouts in the order they
    were set.

    The layer is written against [ContainerIface], what it needs of a
    container: a call of the container API that returns the observer
    notifications it made, and the container's invariant, kept by every
    call.  [Container] implements it ([container_iface]). *)

From Stdlib Require Import String.
From S2P Require Import Prelude Js Container.
From Stdlib Require Import QArith.
Import Js.

(** ** What the layer needs of its container *)

Class ContainerIface (S : Type) := {
  ci_init : S;
  (** One call of the container API and the observer callbacks it made. *)
  ci_call : Z -> Container.input -> S -> S * list Container.notice;
  ci_wf : S -> Prop;
  ci_init_wf : ci_wf ci_init;
  ci_call_wf : forall now inp s, ci_wf s -> ci_wf (ci_call now inp s).1
}.

Module Layer.

(** ** Data *)

(** The [event] argument of [periodchanged]: [event.begin], [event.end],
    [event.resolution]. *)
Record period := mk_period { pe_begin : jsval; pe_end : jsval; pe_resolution : jsval }.

(** The controller events of [_controllerEvents]; [None] is a falsy
    [event] argument. *)
Inductive ctrl_event :=
| CPeriodChanged (ev : option period)
| CReload
| CTimeChanged (ev : option jsval)
| CStart
| CPause
| CStop
| CPrevious
| CNext
| CFrameRateChanged (ev : option jsval).

(** A pending [setTimeout(fn, 0)] callback of the layer. *)
Inductive task :=
| TPeriod (p : period)
| TReload
| TShowFrame (t : jsval)
| TStart
| TPause
| TStop
| TPrevious
| TNext
| TFrameRate (v : jsval)
| TAdded (m : nat)
| TRemoved
| TTrigger (name : string) (objs : list nat).

Inductive lexn := LTypeError | LThrown (msg : string).

(** What the outside world sees: an event triggered on [_me.events] with
    the frames of its [events] array, an exception that leaves a
    [setTimeout] callback, and an exception thrown to the caller. *)
Inductive output :=
| OEvent (name : string) (objs : list nat)
| OUncaught (e : lexn)
| OThrown (e : lexn).

(** A [registerController] argument: its identity and whether it is an
    [OpenLayers.Events] object. *)
Record controller := mk_controller { ctl_id : nat; ctl_is_events : bool }.

(** The layer: its container, the [OpenLayers.Layer] properties it reads
    ([map], [getVisibility()], [opacity], the z-index, whether [events]
    still exists), the controllers listening and the pending callbacks,
    oldest first. *)
Record lstate {S : Type} := mk_lstate {
  ly_container : S;
  ly_map : option nat;
  ly_visibility : bool;
  ly_opacity : Q;
  ly_zIndex : option Z;
  ly_events : bool;
  ly_controllers : list nat;
  ly_tasks : list task
}.
Arguments lstate : clear implicits.
Arguments mk_lstate {S}.

(** The inputs of the layer: API calls, controller events, the map
    adding and removing the layer, [destroy], the browser running the
    oldest pending timeout, and the events the container listens to
    itself (frame loads, animation frames, [movestart]). *)
Inductive linput :=
| LRegister (c : option controller)
| LUnregister (c : option controller)
| LControl (c : nat) (e : ctrl_event)
| LDoSetConfig (cfg : option Container.container_config)
| LSetVisibility (v : bool)
| LSetOpacity (o : Q)
| LSetZIndex (i : Z)
| LAddToMap (m : nat)
| LRemoveFromMap
| LDestroy
| LTimeout
| LContainerEvent (inp : Container.input).

Definition controller_error : lexn := LThrown "ERROR: Controller should be OpenLayers.Events object!".

(** The container inputs that are its own listeners, not API calls. *)
Definition container_event (inp : Container.input) : bool :=
  match inp with
  | Container.ILoadStart _ | Container.ILoadEnd _ | Container.ITileError _
  | Container.IAnimationFrame | Container.IMoveStart => true
  | _ => false
  end.

(** The event name and the frames of one observer callback. *)
Definition event_of (n : Container.notice) : string * list nat :=
  match n with
  | Container.NLoadAnimationStarted => ("animationloadstarted", [])
  | Container.NLoadFrameStarted o => ("frameloadstarted", [o])
  | Container.NLoadFrameComplete o => ("frameloadcomplete", [o])
  | Container.NLoadGroupProgress os => ("animationloadgroupprogress", os)
  | Container.NLoadComplete os => ("animationloadcomplete", os)
  | Container.NFrameContentReleased o => ("animationframecontentreleased", [o])
  | Container.NFrameChanged o => ("framechanged", [o])
  end%string.

(** [doCallback(eventName, objects)]: the event is triggered later. *)
Definition doCallback (n : Container.notice) : task :=
  let '(name, objs) := event_of n in TTrigger name objs.

(** The callback a controller event sets, if any. *)
Definition ctrl_task (e : ctrl_event) : list task :=
  match e with
  | CPeriodChanged (Some p) => [TPeriod p]
  | CPeriodChanged None => []
  | CReload => [TReload]
  | CTimeChanged (Some t) => [TShowFrame t]
  | CTimeChanged None => []
  | CStart => [TStart]
  | CPause => [TPause]
  | CStop => [TStop]
  | CPrevious => [TPrevious]
  | CNext => [TNext]
  | CFrameRateChanged (Some v) => [TFrameRate v]
  | CFrameRateChanged None => []
  end.

(** The container calls a callback makes, given [_me.map]. *)
Definition task_calls (t : task) (map : option nat) : list Container.input :=
  match t with
  | TPeriod p =>
      [Container.ISetBeginTime (pe_begin p); Container.ISetEndTime (pe_end p);
       Container.ISetResolutionTime (pe_resolution p)] ++
      (match map with Some _ => [Container.ILoadAnimation] | None => [] end)
  | TReload => match map with Some _ => [Container.ILoadAnimation] | None => [] end
  | TShowFrame t => [Container.IShowFrame t]
  | TStart => [Container.IStartAnimation]
  | TPause => [Container.IPauseAnimation]
  | TStop => [Container.IStopAnimation]
  | TPrevious => [Container.IShowPreviousFrame]
  | TNext => [Container.IShowNextFrame]
  | TFrameRate v => [Container.ISetFrameRate v]
  | TAdded m => [Container.ISetMap (Some m)]
  | TRemoved => [Container.IReset; Container.ISetMap None]
  | TTrigger _ _ => []
  end.

Section Layer.
Context {Ct : Type} `{CI : ContainerIface Ct}.

Definition initial : lstate Ct := mk_lstate ci_init None true 1 None true [] [].

Definition set_container (c : Ct) (ls : lstate Ct) : lstate Ct :=
  mk_lstate c (ly_map ls) (ly_visibility ls) (ly_opacity ls) (ly_zIndex ls) (ly_events ls)
    (ly_controllers ls) (ly_tasks ls).
Definition set_map (m : option nat) (ls : lstate Ct) : lstate Ct :=
  mk_lstate (ly_container ls) m (ly_visibility ls) (ly_opacity ls) (ly_zIndex ls) (ly_events ls)
    (ly_controllers ls) (ly_tasks ls).
Definition set_visibility (v : bool) (ls : lstate Ct) : lstate Ct :=
  mk_lstate (ly_container ls) (ly_map ls) v (ly_opacity ls) (ly_zIndex ls) (ly_events ls)
    (ly_controllers ls) (ly_tasks ls).
Definition set_opacity (o : Q) (ls : lstate Ct) : lstate Ct :=
  mk_lstate (ly_container ls) (ly_map ls) (ly_visibility ls) o (ly_zIndex ls) (ly_events ls)
    (ly_controllers ls) (ly_tasks ls).
Definition set_zIndex (i : option Z) (ls : lstate Ct) : lstate Ct :=
  mk_lstate (ly_container ls) (ly_map ls) (ly_visibility ls) (ly_opacity ls) i (ly_events ls)
    (ly_controllers ls) (ly_tasks ls).
Definition set_events (b : bool) (ls : lstate Ct) : lstate Ct :=
  mk_lstate (ly_container ls) (ly_map ls) (ly_visibility ls) (ly_opacity ls) (ly_zIndex ls) b
    (ly_controllers ls) (ly_tasks ls).
Definition set_controllers (cs : list nat) (ls : lstate Ct) : lstate Ct :=
  mk_lstate (ly_container ls) (ly_map ls) (ly_visibility ls) (ly_opacity ls) (ly_zIndex ls) (ly_events ls)
    cs (ly_tasks ls).
Definition set_tasks (ts : list task) (ls : lstate Ct) : lstate Ct :=
  mk_lstate (ly_container ls) (ly_map ls) (ly_visibility ls) (ly_opacity ls) (ly_zIndex ls) (ly_events ls)
    (ly_controllers ls) ts.

(** [setTimeout(fn, 0)]. *)
Definition enqueue (ts : list task) (ls : lstate Ct) : lstate Ct := set_tasks (ly_tasks ls ++ ts) ls.

(** A call of the container; its observer callbacks run [doCallback]. *)
Definition call (now : Z) (inp : Container.input) (ls : lstate Ct) : lstate Ct :=
  let '(c, ns) := ci_call now inp (ly_container ls) in
  enqueue (map doCallback ns) (set_container c ls).

Definition calls (now : Z) (inps : list Container.input) (ls : lstate Ct) : lstate Ct :=
  fold_left (fun ls inp => call now inp ls) inps ls.

(** The body of a pending callback.  [added] calls
    [_layerContainer.setZIndex], which [LayerContainer] does not define:
    the call throws a [TypeError] out of the callback. *)
Definition run_task (now : Z) (t : task) (ls : lstate Ct) : lstate Ct * list output :=
  match t with
  | TTrigger name objs => (ls, if ly_events ls then [OEvent name objs] else [])
  | TAdded m => (calls now (task_calls t (ly_map ls)) ls, [OUncaught LTypeError])
  | _ => (calls now (task_calls t (ly_map ls)) ls, [])
  end.

(** The browser runs the oldest pending timeout. *)
Definition timeout (now : Z) (ls : lstate Ct) : lstate Ct * list output :=
  match ly_tasks ls with
  | [] => (ls, [])
  | t :: rest => run_task now t (set_tasks rest ls)
  end.

(** [controller.on(_controllerEvents)]: a controller listens once. *)
Definition registerController (c : option controller) (ls : lstate Ct) : lstate Ct * list output :=
  match c with
  | None => (ls, [])
  | Some c =>
      if ctl_is_events c then
        (if bool_decide (ctl_id c ∈ ly_controllers ls) then ls
         else set_controllers (ly_controllers ls ++ [ctl_id c]) ls, [])
      else (ls, [OThrown controller_error])
  end.

Definition unregisterController (c : option controller) (ls : lstate Ct) : lstate Ct * list output :=
  match c with
  | None => (ls, [])
  | Some c =>
      if ctl_is_events c then (set_controllers (filter (fun d => d ≠ ctl_id c) (ly_controllers ls)) ls, [])
      else (ls, [OThrown controller_error])
  end.

(** A controller event reaches the layer when the controller listens. *)
Definition on_controller (c : nat) (e : ctrl_event) (ls : lstate Ct) : lstate Ct :=
  if bool_decide (c ∈ ly_controllers ls) then enqueue (ctrl_task e) ls else ls.

Definition doSetConfig (now : Z) (cfg : option Container.container_config) (ls : lstate Ct) : lstate Ct :=
  calls now [Container.ISetVisibility (JBool (ly_visibility ls)); Container.ISetOpacity (ly_opacity ls);
             Container.ISetConfig cfg] ls.

Definition setVisibility (now : Z) (v : bool) (ls : lstate Ct) : lstate Ct :=
  call now (Container.ISetVisibility (JBool v)) (set_visibility v ls).

Definition setOpacity (now : Z) (o : Q) (ls : lstate Ct) : lstate Ct :=
  call now (Container.ISetOpacity o) (set_opacity o ls).

(** [setZIndex]: the parent's z-index is set, then the call of the
    container's missing [setZIndex] throws. *)
Definition setZIndex (i : Z) (ls : lstate Ct) : lstate Ct * list output :=
  (set_zIndex (Some i) ls, [OThrown LTypeError]).

(** [map.addLayer(layer)] sets [layer.map] and triggers [added] on the
    layer's events; [removeLayer] clears it and triggers [removed]. *)
Definition addToMap (m : nat) (ls : lstate Ct) : lstate Ct :=
  if ly_events ls then enqueue [TAdded m] (set_map (Some m) ls) else ls.

Definition removeFromMap (ls : lstate Ct) : lstate Ct :=
  if ly_events ls then enqueue [TRemoved] (set_map None ls) else ls.

(** One input of the layer at time [now]. *)
Definition lstep (now : Z) (inp : linput) (ls : lstate Ct) : lstate Ct * list output :=
  match inp with
  | LRegister c => registerController c ls
  | LUnregister c => unregisterController c ls
  | LControl c e => (on_controller c e ls, [])
  | LDoSetConfig cfg => (doSetConfig now cfg ls, [])
  | LSetVisibility v => (setVisibility now v ls, [])
  | LSetOpacity o => (setOpacity now o ls, [])
  | LSetZIndex i => setZIndex i ls
  | LAddToMap m => (addToMap m ls, [])
  | LRemoveFromMap => (removeFromMap ls, [])
  | LDestroy => (set_events false ls, [])
  | LTimeout => timeout now ls
  | LContainerEvent inp => (if container_event inp then call now inp ls else ls, [])
  end.

Definition lreachable (ls : lstate Ct) : Prop :=
  rtc (fun a b => exists now inp, b = (lstep now inp a).1) initial ls.

(** [k] timeouts at time [now] and what they output. *)
Fixpoint run_timeouts (now : Z) (k : nat) (ls : lstate Ct) : lstate Ct * list output :=
  match k with
  | O => (ls, [])
  | S k => let '(ls1, o1) := timeout now ls in let '(ls2, o2) := run_timeouts now k ls1 in (ls2, o1 ++ o2)
  end.

(** The container calls alone, with the notifications they make. *)
Fixpoint ctrace (now : Z) (inps : list Container.input) (c : Ct) : Ct * list Container.notice :=
  match inps with
  | [] => (c, [])
  | inp :: rest =>
      let '(c1, n1) := ci_call now inp c in let '(c2, n2) := ctrace now rest c1 in (c2, n1 ++ n2)
  end.

(** The callbacks a controller event sets are container calls only. *)
Definition plain (t : task) : Prop := match t with TTrigger _ _ | TAdded _ => False | _ => True end.

(** ** The layer's properties beside its container and queue *)

(** What the container calls leave unchanged. *)
Definition props (ls : lstate Ct) :=
  (ly_map ls, ly_visibility ls, ly_opacity ls, ly_zIndex ls, ly_events ls, ly_controllers ls).

Lemma call_props now inp ls : props (call now inp ls) = props ls.
Proof. unfold call. by destruct (ci_call now inp (ly_container ls)). Qed.

Lemma calls_spec now inps ls :
  props (calls now inps ls) = props ls /\
  ly_container (calls now inps ls) = (ctrace now inps (ly_container ls)).1 /\
  ly_tasks (calls now inps ls) = ly_tasks ls ++ map doCallback (ctrace now inps (ly_container ls)).2.
Proof.
  revert ls. induction inps as [|inp rest IH]; intros ls; simpl.
  - by rewrite app_nil_r.
  - destruct (IH (call now inp ls)) as (Hp & Hc & Ht). unfold calls in *.
    rewrite Hp, Hc, Ht, call_props. unfold call.
    destruct (ci_call now inp (ly_container ls)) as [c1 n1] eqn:E; simpl.
    destruct (ctrace now rest c1) as [c2 n2]; simpl.
    by rewrite map_app, app_assoc.
Qed.

Lemma props_map ls : ly_map ls = (props ls).1.1.1.1.1.
Proof. done. Qed.

Lemma props_events ls : ly_events ls = (props ls).1.2.
Proof. done. Qed.

Lemma ctrace_app now a b c :
  ctrace now (a ++ b) c =
  ((ctrace now b (ctrace now a c).1).1, (ctrace now a c).2 ++ (ctrace now b (ctrace now a c).1).2).
Proof.
  revert c. induction a as [|inp a IH]; intros c; simpl.
  - by destruct (ctrace now b c).
  - destruct (ci_call now inp c) as [c1 n1]. rewrite IH. simpl.
    destruct (ctrace now a c1) as [c2 n2]; simpl. by destruct (ctrace now b c2); rewrite app_assoc.
Qed.

Lemma on_controller_enqueue c es ls :
  c ∈ ly_controllers ls ->
  fold_left (fun a e => on_controller c e a) es ls = enqueue (flat_map ctrl_task es) ls.
Proof.
  revert ls. induction es as [|e es IH]; intros ls Hc; simpl.
  - destruct ls; unfold enqueue, set_tasks; simpl. by rewrite app_nil_r.
  - unfold on_controller at 2. rewrite bool_decide_eq_true_2 by done.
    rewrite IH by done. destruct ls; unfold enqueue, set_tasks; simpl. by rewrite app_assoc.
Qed.

Lemma ctrl_task_plain e : Forall plain (ctrl_task e).
Proof. destruct e as [[]| |[]| | | | | |[]]; repeat constructor. Qed.

Lemma ctrl_tasks_plain es : Forall plain (flat_map ctrl_task es).
Proof. induction es; simpl; [constructor | apply Forall_app; auto using ctrl_task_plain]. Qed.

Lemma timeout_plain now t rest ls :
  plain t -> ly_tasks ls = t :: rest ->
  timeout now ls = (calls now (task_calls t (ly_map ls)) (set_tasks rest ls), []).
Proof. intros Ht E. unfold timeout. rewrite E. by destruct t. Qed.

(** The callbacks of [ts], oldest first, make their container calls in
    order and append the events of the notifications behind the later
    callbacks. *)
Lemma run_plain now ts rest ls :
  Forall plain ts -> ly_tasks ls = ts ++ rest ->
  let cs := flat_map (fun t => task_calls t (ly_map ls)) ts in
  props (run_timeouts now (length ts) ls).1 = props ls /\
  ly_container (run_timeouts now (length ts) ls).1 = (ctrace now cs (ly_container ls)).1 /\
  ly_tasks (run_timeouts now (length ts) ls).1 = rest ++ map doCallback (ctrace now cs (ly_container ls)).2 /\
  (run_timeouts now (length ts) ls).2 = [].
Proof.
  revert rest ls. induction ts as [|t ts IH]; intros rest ls Hp E; simpl.
  - by rewrite app_nil_r, E.
  - inversion Hp as [|? ? Ht Hts]; subst.
    rewrite (timeout_plain now t (ts ++ rest) ls) by done.
    set (ls1 := calls now (task_calls t (ly_map ls)) (set_tasks (ts ++ rest) ls)).
    destruct (calls_spec now (task_calls t (ly_map ls)) (set_tasks (ts ++ rest) ls)) as (Hp1 & Hc1 & Ht1).
    fold ls1 in Hp1, Hc1, Ht1. cbn in Ht1.
    destruct (IH (rest ++ map doCallback (ctrace now (task_calls t (ly_map ls)) (ly_container ls)).2) ls1)
      as (Hp2 & Hc2 & Ht2 & Ho2); [done | by rewrite Ht1, app_assoc |].
    assert (Hm : ly_map ls1 = ly_map ls) by (by rewrite props_map, Hp1).
    rewrite Hm in Hc2, Ht2.
    destruct (run_timeouts now (length ts) ls1) as [ls2 o2]; simpl in *.
    rewrite ctrace_app. rewrite Hc1 in Hc2, Ht2. cbn in Hc2, Ht2.
    repeat split.
    + by rewrite Hp2, Hp1.
    + done.
    + rewrite Ht2. cbn [snd]. by rewrite map_app, app_assoc.
    + done.
Qed.

Lemma ctrace_wf now inps c : ci_wf c -> ci_wf (ctrace now inps c).1.
Proof.
  revert c. induction inps as [|inp rest IH]; intros c Hc; simpl; [done|].
  pose proof (ci_call_wf now inp c Hc) as H1.
  destruct (ci_call now inp c) as [c1 n1]. specialize (IH c1 H1).
  by destruct (ctrace now rest c1).
Qed.

Lemma calls_wf now inps ls : ci_wf (ly_container ls) -> ci_wf (ly_container (calls now inps ls)).
Proof. intros H. destruct (calls_spec now inps ls) as (_ & -> & _). by apply ctrace_wf. Qed.

Lemma call_wf now inp ls : ci_wf (ly_container ls) -> ci_wf (ly_container (call now inp ls)).
Proof. apply (calls_wf now [inp]). Qed.

#[local] Hint Resolve calls_wf call_wf : core.

Lemma lstep_wf now inp ls : ci_wf (ly_container ls) -> ci_wf (ly_container (lstep now inp ls).1).
Proof.
  intros H. destruct inp as [[[]|]|[[]|]| | | | | | | | | |]; simpl;
    unfold registerController, unregisterController, on_controller, setZIndex, addToMap, removeFromMap,
      setVisibility, setOpacity, doSetConfig, timeout; simpl;
    repeat (case_decide || case_match); simpl; auto.
  destruct t; simpl; auto.
Qed.

Lemma lsteps_wf a b :
  rtc (fun a b => exists now inp, b = (lstep now inp a).1) a b ->
  ci_wf (ly_container a) -> ci_wf (ly_container b).
Proof. induction 1 as [|a b c (now & inp & ->) _ IH]; eauto using lstep_wf. Qed.

Lemma lreachable_wf ls : lreachable ls -> ci_wf (ly_container ls).
Proof. intros Hr. apply (lsteps_wf _ _ Hr), ci_init_wf. Qed.

(** ** Properties *)


(** Every notification is delivered, in order.  When the pending
    callbacks are the [doCallback]s of notifications [ns] and the layer is
    not destroyed, as many timeouts trigger exactly one event per
    notification, with its name and frames, in order, and change nothing
    else. *)
Theorem notices_delivered_in_order now ns ls :
  ly_events ls = true -> ly_tasks ls = map doCallback ns ->
  (run_timeouts now (length ns) ls).2 = map (fun n => OEvent (event_of n).1 (event_of n).2) ns /\
  (run_timeouts now (length ns) ls).1 = set_tasks [] ls.
Proof.
  revert ls. induction ns as [|n ns IH]; intros ls Hev E; simpl.
  - destruct ls; unfold set_tasks; simpl in *. by subst.
  - unfold timeout. rewrite E. cbn [map]. destruct (event_of n) as [name objs] eqn:En.
    assert (Hd : doCallback n = TTrigger name objs) by (unfold doCallback; by rewrite En).
    rewrite Hd. simpl. rewrite Hev.
    destruct (IH (set_tasks (map doCallback ns) ls)) as [Ho Hs]; [done|done|].
    destruct (run_timeouts now (length ns) (set_tasks (map doCallback ns) ls)) as [ls2 o2].
    simpl in *. subst. split; [done|]. by destruct ls.
Qed.


(** A destroyed layer stays silent: once [_me.events] is gone, no input
    triggers an event and the layer stays destroyed. *)
Theorem destroyed_layer_silent now inp ls :
  ly_events ls = false ->
  ly_events (lstep now inp ls).1 = false /\ forall name objs, OEvent name objs ∉ (lstep now inp ls).2.
Proof.
  intros Hev.
  assert (Hc : forall inps ls, ly_events ls = false -> ly_events (calls now inps ls) = false).
  { intros inps ls' H. by rewrite props_events, (proj1 (calls_spec now inps ls')). }
  assert (Hc1 : forall inp ls, ly_events ls = false -> ly_events (call now inp ls) = false).
  { intros inp' ls' H. apply (Hc [inp'] ls' H). }
  destruct inp; simpl;
    unfold registerController, unregisterController, on_controller, setZIndex, addToMap, removeFromMap,
      setVisibility, setOpacity, doSetConfig, timeout, run_task; simpl;
    repeat (case_decide || case_match); simpl; subst; try congruence.
  all: split; [repeat (apply Hc1 || apply Hc); first [exact Hev | done] | set_solver].
Qed.

End Layer.

(** ** The layer on [LayerContainer] *)

Lemma exec_handle_wf now inp s :
  Container.container_wf s -> Container.container_wf (Container.exec (Container.handle now inp) s).1.
Proof.
  intros H. unfold Container.exec.
  pose proof (Container.handle_wf now inp s H) as H'.
  by destruct (Container.handle now inp s) as [[] ns].
Qed.

#[export] Instance container_iface : ContainerIface Container.state := {|
  ci_init := Container.initial;
  ci_call now inp s := Container.exec (Container.handle now inp) s;
  ci_wf := Container.container_wf;
  ci_init_wf := Container.initial_wf;
  ci_call_wf := exec_handle_wf
|}.


(** ** Witnesses *)

(** The layer with the controller [7] registered. *)
Definition demo_layer : lstate Container.state :=
  (registerController (Some (mk_controller 7 true)) initial).1.

Definition demo_events : list ctrl_event :=
  [CNext; CTimeChanged None; CPeriodChanged (Some (mk_period (JNum (Fin 0)) (JNum (Fin 3000)) (JNum (Fin 1000))))].


Definition demo_notices : list Container.notice := [Container.NFrameChanged 0%nat; Container.NLoadComplete [0; 1]%nat].

Lemma notices_delivered_in_order_witness :
  (run_timeouts 0 (length demo_notices) (set_tasks (map doCallback demo_notices) initial)).2 =
    map (fun n => OEvent (event_of n).1 (event_of n).2) demo_notices /\
  (run_timeouts 0 (length demo_notices) (set_tasks (map doCallback demo_notices) initial)).1 =
    set_tasks [] (set_tasks (map doCallback demo_notices) (initial (Ct := Container.state))).
Proof. apply notices_delivered_in_order; reflexivity. Defined.


Lemma destroyed_layer_silent_witness :
  let ls := set_events false (enqueue [TTrigger "framechanged" [0%nat]] (initial (Ct := Container.state))) in
  ly_events (lstep 0 LTimeout ls).1 = false /\ forall name objs, OEvent name objs ∉ (lstep 0 LTimeout ls).2.
Proof. apply destroyed_layer_silent. reflexivity. Defined.


End Layer.
