(* ===== verification/Legend.v ===== *)
(** * Legends: [LayerObject.getLegendInfo] and [LayerContainer.getLegendInfo]

    A frame's legend information is read from its OpenLayers layer: the
    layer IDs of its parameters, split at commas, each giving a GeoServer
    [GetLegendGraphic] URL built from the layer URL with the ID and the
    image format percent-encoded by [encodeURIComponent].  The container
    concatenates the legends of its frames, skipping the entries equal to
    one already collected.

    Strings are [String.string]s of 8-bit characters, read as the code
    points 0-255; [encodeURIComponent] encodes them in UTF-8 as ECMAScript
    does, and [decodeURIComponent] is its inverse on those code points. *)

From Stdlib Require Import String Ascii.
From S2P Require Import Prelude Js.
Import Js.

Module Legend.

(** ** [encodeURIComponent] and [decodeURIComponent] (ES5.1 15.1.3) *)

(** The unreserved characters: letters, digits and [- _ . ! ~ * ' ( )]. *)
Definition is_unreserved (c : ascii) : bool :=
  let n := nat_of_ascii c in
  ((48 <=? n) && (n <=? 57)) || ((65 <=? n) && (n <=? 90)) || ((97 <=? n) && (n <=? 122)) ||
  existsb (fun d => Ascii.eqb c d) ["-"; "_"; "."; "!"; "~"; "*"; "'"; "("; ")"]%char.

Definition hex_char (n : nat) : ascii := ascii_of_nat (if n <? 10 then 48 + n else 55 + n).

(** [%XX] of one byte, with upper-case hexadecimal digits. *)
Definition pct (b : nat) : string :=
  String "%"%char (String (hex_char (b / 16)) (String (hex_char (b mod 16)) EmptyString)).

(** One code point: kept when unreserved, else its UTF-8 bytes escaped. *)
Definition encode_char (c : ascii) : string :=
  let n := nat_of_ascii c in
  if is_unreserved c then String c EmptyString
  else if n <? 128 then pct n
  else (pct (192 + n / 64) ++ pct (128 + n mod 64))%string.

Fixpoint encodeURIComponent (s : string) : string :=
  match s with
  | EmptyString => EmptyString
  | String c r => (encode_char c ++ encodeURIComponent r)%string
  end.

Definition hex_val (c : ascii) : option nat :=
  let n := nat_of_ascii c in
  if (48 <=? n) && (n <=? 57) then Some (n - 48)
  else if (65 <=? n) && (n <=? 70) then Some (n - 55)
  else if (97 <=? n) && (n <=? 102) then Some (n - 87)
  else None.

Definition byte_of (h1 h2 : ascii) : option nat :=
  match hex_val h1, hex_val h2 with Some a, Some b => Some (16 * a + b) | _, _ => None end.

(** [None] is a [URIError], or a code point above 255. *)
Fixpoint decodeURIComponent (s : string) : option string :=
  match s with
  | EmptyString => Some EmptyString
  | String "%"%char (String h1 (String h2 r)) =>
      match byte_of h1 h2 with
      | Some b =>
          if b <? 128 then option_map (String (ascii_of_nat b)) (decodeURIComponent r)
          else if (194 <=? b) && (b <=? 195) then
            match r with
            | String "%"%char (String k1 (String k2 r')) =>
                match byte_of k1 k2 with
                | Some c =>
                    if (128 <=? c) && (c <? 192)
                    then option_map (String (ascii_of_nat (64 * (b - 192) + (c - 128)))) (decodeURIComponent r')
                    else None
                | None => None
                end
            | _ => None
            end
          else None
      | None => None
      end
  | String "%"%char _ => None
  | String c r => option_map (String c) (decodeURIComponent r)
  end.

(** [s.split(",")] (ES5.1 15.5.4.14). *)
Fixpoint split_comma (s : string) : list string :=
  match s with
  | EmptyString => [EmptyString]
  | String c r =>
      if Ascii.eqb c ","%char then EmptyString :: split_comma r
      else match split_comma r with
           | h :: t => String c h :: t
           | [] => [String c EmptyString]
           end
  end.

(** [s.indexOf(c) !== -1]. *)
Fixpoint has_char (a : ascii) (s : string) : bool :=
  match s with EmptyString => false | String c r => Ascii.eqb c a || has_char a r end.

(** [s.charAt(s.length - 1)]. *)
Fixpoint last_char (s : string) : option ascii :=
  match s with
  | EmptyString => None
  | String c EmptyString => Some c
  | String _ r => last_char r
  end.

(** ** The frame's OpenLayers layer, as [getLegendInfo] reads it *)

(** [_layer.params]: the four property names of the layer IDs (WMS
    upper-cases its parameters, WMTS does not) and of the image format. *)
Record params := mk_params {
  p_layers : jsval; p_LAYERS : jsval; p_layer : jsval; p_LAYER : jsval;
  p_format : option string; p_FORMAT : option string
}.

(** [_layer.url]: a string, an array of strings, or no URL. *)
Inductive url_val := UStr (s : string) | UArr (urls : list string) | UNone.

(** The parts of [_layer] [getLegendInfo] reads: [params] (when truthy),
    [options.animation.hasLegend] (when [options] and [options.animation]
    are truthy), [url] and [name]. *)
Record legend_source := mk_source {
  ls_params : option params;
  ls_animation : option jsval;
  ls_url : url_val;
  ls_name : option string
}.

(** An entry [{name, url, hasLegend}]. *)
Record legend := mk_legend { lg_name : option string; lg_url : string; lg_hasLegend : bool }.

#[export] Instance legend_eq_dec : EqDecision legend.
Proof. solve_decision. Defined.

(** ** [LayerObject.getLegendInfo] ([LayerObject.js] lines 372-445) *)

(** [a || b]. *)
Definition js_or (a b : jsval) : jsval := if Js.truthy a then a else b.

(** [layerIds.split(",")] when [layerIds] is truthy; [None] for the
    [TypeError] of a truthy value that is not a string (it has no [split]). *)
Definition split_ids (v : jsval) : option (option (list string)) :=
  if Js.truthy v then match v with JStr s => Some (Some (split_comma s)) | _ => None end
  else Some None.

(** The URL string the legend URLs start from. *)
Definition url_string (u : url_val) : option string :=
  match u with
  | UStr s => Some s
  | UArr (s :: _) => Some s
  | UArr [] | UNone => None
  end.

(** The URL with [?] or [&] appended before the query. *)
Definition legend_base (url : string) : string :=
  if negb (has_char "?"%char url) then (url ++ "?")%string
  else match last_char url with
       | Some c => if Ascii.eqb c "?"%char || Ascii.eqb c "&"%char then url else (url ++ "&")%string
       | None => (url ++ "&")%string
       end.

Definition str_truthy (s : string) : bool := negb (String.eqb s EmptyString).

(** [params.format || params.FORMAT || "image/png"]. *)
Definition image_format (p : params) : string :=
  match p_format p with
  | Some f => if str_truthy f then f else match p_FORMAT p with Some g => if str_truthy g then g else "image/png"%string | None => "image/png"%string end
  | None => match p_FORMAT p with Some g => if str_truthy g then g else "image/png"%string | None => "image/png"%string end
  end.

Definition legend_query (url fmt : string) : string :=
  (legend_base url ++ "REQUEST=GetLegendGraphic&FORMAT=" ++ encodeURIComponent fmt ++ "&LAYER=")%string.

(** The loop over the layer IDs: one entry per non-empty ID. *)
Fixpoint legend_entries (name : option string) (prefix : string) (hasLegend : bool) (ids : list string)
  : list legend :=
  match ids with
  | [] => []
  | id :: rest =>
      if str_truthy id then mk_legend name (prefix ++ encodeURIComponent id)%string hasLegend :: legend_entries name prefix hasLegend rest
      else legend_entries name prefix hasLegend rest
  end.

(** [getLegendInfo()]; [layer] is [_layer], [None] before it is created. *)
Definition getLegendInfo (layer : option legend_source) : option (list legend) :=
  match layer with
  | None => Some []
  | Some l =>
      match ls_params l with
      | None => Some []
      | Some p =>
          match split_ids (js_or (p_layers p) (js_or (p_LAYERS p) (js_or (p_layer p) (p_LAYER p)))) with
          | None => None
          | Some ids =>
              match ls_animation l, ids with
              | Some hl, Some ((_ :: _) as ids) =>
                  match url_string (ls_url l) with
                  | Some url =>
                      if str_truthy url
                      then Some (legend_entries (ls_name l) (legend_query url (image_format p)) (Js.truthy hl) ids)
                      else Some []
                  | None => Some []
                  end
              | _, _ => Some []
              end
          end
      end
  end.

(** ** [LayerContainer.getLegendInfo] ([LayerContainer.js] lines 996-1031) *)

Definition legend_eqb (a b : legend) : bool :=
  match lg_name a, lg_name b with
  | Some x, Some y => String.eqb x y
  | None, None => true
  | _, _ => false
  end && String.eqb (lg_url a) (lg_url b) && Bool.eqb (lg_hasLegend a) (lg_hasLegend b).

Definition isLegendInfoDuplicate (arr : list legend) (x : legend) : bool := existsb (fun a => legend_eqb a x) arr.

(** The inner loop: push the entries that are not duplicates. *)
Fixpoint add_legends (info : list legend) (es : list legend) : list legend :=
  match es with
  | [] => info
  | e :: rest => add_legends (if isLegendInfoDuplicate info e then info else info ++ [e]) rest
  end.

(** The outer loop over [_layers]; a frame's [TypeError] propagates. *)
Fixpoint legend_loop (info : list legend) (frames : list (option legend_source)) : option (list legend) :=
  match frames with
  | [] => Some info
  | f :: rest => match getLegendInfo f with Some es => legend_loop (add_legends info es) rest | None => None end
  end.

Definition containerLegendInfo (frames : list (option legend_source)) : option (list legend) :=
  legend_loop [] frames.

(** ** Reading a legend URL back *)

(** The text after the last [&] (the whole string when it has none). *)
Fixpoint after_last_amp (s : string) : string :=
  match s with
  | EmptyString => EmptyString
  | String c r => if has_char "&"%char r then after_last_amp r else if Ascii.eqb c "&"%char then r else s
  end.

Fixpoint strip_prefix (p s : string) : option string :=
  match p, s with
  | EmptyString, _ => Some s
  | String a p', String b s' => if Ascii.eqb a b then strip_prefix p' s' else None
  | _, _ => None
  end.

(** The decoded value of a URL's last query parameter, when it is [LAYER]. *)
Definition layer_param (url : string) : option string :=
  match strip_prefix "LAYER=" (after_last_amp url) with Some enc => decodeURIComponent enc | None => None end.

(** The reference: the first occurrence of every entry, in order. *)
Definition first_occurrences (l : list legend) : list legend := reverse (remove_dups (reverse l)).

(** ** Lemmas *)

(** Decoding undoes the encoding of one character, whatever follows. *)
Lemma decode_encode_char c t :
  decodeURIComponent (encode_char c ++ t) = option_map (String c) (decodeURIComponent t).
Proof. destruct c as [[] [] [] [] [] [] [] []]; reflexivity. Qed.

Lemma decode_encode s : decodeURIComponent (encodeURIComponent s) = Some s.
Proof. induction s as [|c s IH]; [done|]. simpl. by rewrite decode_encode_char, IH. Qed.

Lemma has_char_app a s t : has_char a (s ++ t) = has_char a s || has_char a t.
Proof. induction s as [|c s IH]; simpl; [done|]. by rewrite IH, orb_assoc. Qed.

(** An encoded string has no query delimiter. *)
Lemma encode_char_no_amp c : has_char "&"%char (encode_char c) = false.
Proof. destruct c as [[] [] [] [] [] [] [] []]; reflexivity. Qed.

Lemma encode_no_amp s : has_char "&"%char (encodeURIComponent s) = false.
Proof. induction s as [|c s IH]; [done|]. simpl. by rewrite has_char_app, encode_char_no_amp, IH. Qed.

Lemma str_app_assoc (a b c : string) : ((a ++ b) ++ c)%string = (a ++ b ++ c)%string.
Proof. induction a as [|x a IH]; [reflexivity|]. exact (f_equal (String x) IH). Qed.

Lemma after_last_amp_app pre t :
  has_char "&"%char t = false -> after_last_amp (pre ++ String "&" t)%string = t.
Proof.
  intros Ht. induction pre as [|c pre IH]; simpl.
  - by rewrite Ht.
  - rewrite has_char_app. simpl. rewrite orb_true_r. exact IH.
Qed.

Lemma strip_prefix_app p t : strip_prefix p (p ++ t)%string = Some t.
Proof. induction p as [|a p IH]; simpl; [done|]. by rewrite Ascii.eqb_refl. Qed.

(** The [LAYER] parameter of a URL built by [legend_query] reads back as
    the layer ID. *)
Lemma layer_param_query url fmt id : layer_param (legend_query url fmt ++ encodeURIComponent id)%string = Some id.
Proof.
  unfold layer_param, legend_query.
  rewrite !str_app_assoc.
  change ("&LAYER=" ++ encodeURIComponent id)%string with (String "&" ("LAYER=" ++ encodeURIComponent id))%string.
  rewrite <- !str_app_assoc, after_last_amp_app.
  - by rewrite strip_prefix_app, decode_encode.
  - rewrite has_char_app, encode_no_amp. reflexivity.
Qed.

Lemma legend_entries_spec name pre hl ids :
  (forall id, layer_param (pre ++ encodeURIComponent id)%string = Some id) ->
  map (fun e => layer_param (lg_url e)) (legend_entries name pre hl ids) = map Some (filter str_truthy ids) /\
  Forall (fun e => lg_name e = name /\ lg_hasLegend e = hl) (legend_entries name pre hl ids).
Proof.
  intros Hp. induction ids as [|id ids [IH1 IH2]]; simpl; [split; constructor|].
  rewrite filter_cons. destruct (str_truthy id); simpl; [|done].
  rewrite Hp, IH1. split; [done|]. by constructor.
Qed.

Lemma split_comma_nonempty s : split_comma s <> [].
Proof. induction s as [|c s IH]; simpl; [done|]. destruct (Ascii.eqb c ","%char); [done|]. by destruct (split_comma s). Qed.

(** The first occurrences of [l ++ [x]]. *)
Lemma first_occurrences_snoc l x :
  first_occurrences (l ++ [x]) = if bool_decide (x ∈ l) then first_occurrences l else first_occurrences l ++ [x].
Proof.
  unfold first_occurrences. rewrite reverse_app. simpl.
  case_bool_decide as Hx; destruct (decide_rel elem_of x (reverse l)) as [Hr|Hr];
    rewrite elem_of_reverse in Hr; try done.
  by rewrite reverse_cons.
Qed.

Lemma elem_of_first_occurrences x l : x ∈ first_occurrences l <-> x ∈ l.
Proof. unfold first_occurrences. by rewrite elem_of_reverse, elem_of_remove_dups, elem_of_reverse. Qed.

Lemma legend_eqb_eq a b : legend_eqb a b = true <-> a = b.
Proof.
  destruct a as [na ua ha], b as [nb ub hb]; unfold legend_eqb; cbn [lg_name lg_url lg_hasLegend].
  destruct na as [x|], nb as [y|]; try destruct (String.eqb_spec x y);
    destruct (String.eqb_spec ua ub); destruct ha, hb; simpl; split; intros H; congruence.
Qed.

Lemma isLegendInfoDuplicate_elem arr x : isLegendInfoDuplicate arr x = bool_decide (x ∈ arr).
Proof.
  apply eq_bool_prop_intro. rewrite Is_true_true, bool_decide_spec.
  unfold isLegendInfoDuplicate. rewrite existsb_exists, list_elem_of_In.
  split; [intros (a & Ha & E); apply legend_eqb_eq in E; by subst | intros Ha; exists x; split; [done|]; by apply legend_eqb_eq].
Qed.

Lemma add_legends_first l es : add_legends (first_occurrences l) es = first_occurrences (l ++ es).
Proof.
  revert l. induction es as [|e es IH]; intros l; simpl; [by rewrite app_nil_r|].
  rewrite isLegendInfoDuplicate_elem.
  assert (E : (if bool_decide (e ∈ first_occurrences l) then first_occurrences l else first_occurrences l ++ [e])
              = first_occurrences (l ++ [e])).
  { rewrite first_occurrences_snoc. by rewrite (bool_decide_ext _ _ (elem_of_first_occurrences e l)). }
  rewrite E, IH. by rewrite <- app_assoc.
Qed.

Lemma legend_loop_first l frames :
  legend_loop (first_occurrences l) frames =
  (fun ess => first_occurrences (l ++ concat ess)) <$> mapM getLegendInfo frames.
Proof.
  revert l. induction frames as [|f frames IH]; intros l; simpl.
  - by rewrite app_nil_r.
  - destruct (getLegendInfo f) as [es|]; simpl; [|done].
    rewrite add_legends_first, IH.
    destruct (mapM getLegendInfo frames); simpl; [|done]. by rewrite app_assoc.
Qed.

(** ** Properties *)

(** C31 (roundtrip): for a frame whose layer has parameters, an
    [options.animation] object, a non-empty URL and a string of layer IDs
    [s], [getLegendInfo] succeeds with one entry per non-empty ID of
    [s.split(",")], in order; the [LAYER] parameter of each entry's URL
    decodes back to its ID, and each entry has the layer's name and the
    truth value of [hasLegend]. *)
Theorem legend_urls_roundtrip l p hl url s :
  ls_params l = Some p -> ls_animation l = Some hl ->
  url_string (ls_url l) = Some url -> str_truthy url = true ->
  js_or (p_layers p) (js_or (p_LAYERS p) (js_or (p_layer p) (p_LAYER p))) = JStr s -> str_truthy s = true ->
  exists es, getLegendInfo (Some l) = Some es /\
    map (fun e => layer_param (lg_url e)) es = map Some (filter str_truthy (split_comma s)) /\
    Forall (fun e => lg_name e = ls_name l /\ lg_hasLegend e = Js.truthy hl) es.
Proof.
  intros Hp Ha Hu Hut Hids Hs. unfold getLegendInfo. rewrite Hp, Hids. unfold split_ids.
  change (Js.truthy (JStr s)) with (str_truthy s). rewrite Hs, Ha.
  exists (legend_entries (ls_name l) (legend_query url (image_format p)) (Js.truthy hl) (split_comma s)).
  split.
  - pose proof (split_comma_nonempty s) as Hne.
    destruct (split_comma s); [done|]. by rewrite Hu, Hut.
  - apply legend_entries_spec. intros id'. apply layer_param_query.
Qed.

(** C32 (finding): the comment says the layer IDs may be an array, but an
    array (or any truthy value that is not a string) has no [split]: when
    the first truthy ID property is not a string, [getLegendInfo] throws a
    [TypeError], whatever the rest of the layer. *)
Theorem legend_nonstring_ids_TypeError l p :
  ls_params l = Some p ->
  Js.truthy (js_or (p_layers p) (js_or (p_LAYERS p) (js_or (p_layer p) (p_LAYER p)))) = true ->
  (forall s, js_or (p_layers p) (js_or (p_LAYERS p) (js_or (p_layer p) (p_LAYER p))) <> JStr s) ->
  getLegendInfo (Some l) = None.
Proof.
  intros Hp Ht Hs. unfold getLegendInfo, split_ids. rewrite Hp, Ht.
  destruct (js_or _ _) eqn:E; try reflexivity. by destruct (Hs s).
Qed.

(** C30 (equivalence): the container's loop with [isLegendInfoDuplicate]
    computes the reference: the first occurrence of every entry of the
    concatenated frame legends, in order; a frame's [TypeError] makes the
    whole call throw. *)
Theorem containerLegendInfo_first_occurrences frames :
  containerLegendInfo frames = first_occurrences <$> (@concat legend <$> mapM getLegendInfo frames).
Proof.
  unfold containerLegendInfo. change (legend_loop [] frames) with (legend_loop (first_occurrences []) frames).
  rewrite (legend_loop_first [] frames). by destruct (mapM getLegendInfo frames).
Qed.

(** ** Witnesses *)

Local Open Scope string_scope.

Definition demo_source : legend_source :=
  mk_source (Some (mk_params (JStr "radar,,ground") JUndef JUndef JUndef (Some "image/png") None))
    (Some (JBool true)) (UArr ["https://wms.example/wms?service=WMS"]) (Some "Radar").

Lemma legend_urls_roundtrip_witness :
  exists es, getLegendInfo (Some demo_source) = Some es /\
    map (fun e => layer_param (lg_url e)) es = map Some (filter str_truthy (split_comma "radar,,ground")) /\
    Forall (fun e => lg_name e = ls_name demo_source /\ lg_hasLegend e = Js.truthy (JBool true)) es.
Proof.
  apply (legend_urls_roundtrip demo_source
           (mk_params (JStr "radar,,ground") JUndef JUndef JUndef (Some "image/png") None)
           (JBool true) "https://wms.example/wms?service=WMS"); reflexivity.
Defined.

Lemma legend_nonstring_ids_TypeError_witness :
  getLegendInfo (Some (mk_source (Some (mk_params JObj JUndef JUndef JUndef None None)) None UNone None)) = None.
Proof.
  apply (legend_nonstring_ids_TypeError _ (mk_params JObj JUndef JUndef JUndef None None)); try reflexivity.
  intros s. discriminate.
Defined.

End Legend.
