(* ===== verification/Release.v ===== *)
(** * The frame at the level of its OpenLayers layer, and the 1.0.4 build

    [Frame] keeps of a frame's OpenLayers layer what the load state machine
    reads: in a map, visible, its opacity.  Module [Dom] models the
    [LayerObject] of the source tree one level down, against the layer
    object itself: its [map] and [div] (both nulled when the map is
    destroyed), the z-index and tile transition styles written on the div,
    and the OpenLayers methods the frame calls, which raise a [TypeError]
    when they touch the [div] of a destroyed layer or the [layers] of a
    destroyed map.  Every operation returns the frame and whether a
    [TypeError] left it.  [Dom.src_refines_frame] shows that on a live map
    this model refines [Frame] (which is thereby justified), and
    [Dom.src_loadLayer_destroyed_throws] what the source does once the map
    is destroyed.

    Module [Release] models the [LayerObject] of the built release
    [lib/openlayers-animation-1.0.4.js] (lines 3111-3683), which differs
    from the source tree by guards on [map.events], [_layer.div] and
    [_layer.map] and by setting the tile transition at [loadend] rather
    than at [loadstart]; and the release's [OpenLayers.Layer.Animation]
    (lines 207-666), which has no [setZIndex] and does not call the
    container's missing [setZIndex] when added to a map. *)

From S2P Require Import Prelude Js Frame Container Layer.
From Stdlib Require Import String Reals QArith.
Import Js.

Module Dom.

(** ** The OpenLayers layer of a frame *)

(** [layer.map] set, [layer.div] not null, [layer.visibility],
    [layer.opacity], the value written to [div.style.zIndex] and the
    transition style of the tile images ([None] while never written; the
    tiles are not modelled one by one). *)
Record dlayer := mk_dlayer {
  dl_map : bool;
  dl_div : bool;
  dl_visible : bool;
  dl_opacity : R;
  dl_zIndex : option jsval;
  dl_transition : option string
}.

Record dframe := mk_dframe {
  df_config : Frame.frame_config;
  df_layer : option dlayer;          (* _layer *)
  df_state : option Frame.load_state; (* _state.id *)
  df_error : option string           (* _state.error *)
}.

Definition set_div_style (z : option jsval) (t : option string) (l : dlayer) : dlayer :=
  mk_dlayer (dl_map l) (dl_div l) (dl_visible l) (dl_opacity l) z t.

Definition with_dlayer (f : dframe) (l : dlayer) : dframe :=
  mk_dframe (df_config f) (Some l) (df_state f) (df_error f).

(** What [Frame] keeps of it. *)
Definition abs_layer (l : dlayer) : Frame.ol_layer := Frame.mk_layer (dl_map l) (dl_visible l) (dl_opacity l).

Definition abs (f : dframe) : Frame.frame :=
  Frame.mk_frame (df_config f) (abs_layer <$> df_layer f) (df_state f) (df_error f).

(** ** OpenLayers 2 *)

(** [new OpenLayers.Layer.WMS(...)] or [WMTS]: outside any map, with its
    div, visible and opaque. *)
Definition ol_new : dlayer := mk_dlayer false true true 1%R None None.

(** [map.addLayer(layer)]: reads [this.layers] (null once the map is
    destroyed) and writes [layer.div]; sets [layer.map] and the z-index
    [z] the map gives its next layer. *)
Definition ol_addLayer (live : bool) (z : Z) (l : dlayer) : dlayer * bool :=
  if live && dl_div l
  then (mk_dlayer true true (dl_visible l) (dl_opacity l) (Some (JNum (Fin (inject_Z z)))) (dl_transition l), false)
  else (l, true).

(** [layer.setVisibility(v)]: a change is stored, then written to
    [div.style.display]. *)
Definition ol_setVisibility (v : bool) (l : dlayer) : dlayer * bool :=
  if Bool.eqb v (dl_visible l) then (l, false)
  else (mk_dlayer (dl_map l) (dl_div l) v (dl_opacity l) (dl_zIndex l) (dl_transition l), negb (dl_div l)).

(** [layer.setOpacity(o)]: a change is stored, then written to the
    children of [div]. *)
Definition ol_setOpacity (o : R) (l : dlayer) : dlayer * bool :=
  if Req_EM_T o (dl_opacity l) then (l, false)
  else (mk_dlayer (dl_map l) (dl_div l) (dl_visible l) o (dl_zIndex l) (dl_transition l), negb (dl_div l)).

(** [layer.setZIndex(z)]: [this.div.style.zIndex = z]. *)
Definition ol_setZIndex (z : jsval) (l : dlayer) : dlayer * bool :=
  if dl_div l then (set_div_style (Some z) (dl_transition l) l, false) else (l, true).

(** [layer.getZIndex()]: [this.div.style.zIndex]; [None] for the
    [TypeError]. *)
Definition ol_getZIndex (l : dlayer) : option (option jsval) :=
  if dl_div l then Some (dl_zIndex l) else None.

(** [map.destroy()] destroys each of its layers: [map] and [div] become
    null (and the layer's events, so no layer event follows). *)
Definition ol_destroy (l : dlayer) : dlayer :=
  mk_dlayer false false (dl_visible l) (dl_opacity l) (dl_zIndex l) (dl_transition l).

Definition destroy_map (f : dframe) : dframe :=
  mk_dframe (df_config f) (ol_destroy <$> df_layer f) (df_state f) (df_error f).

(** ** [LayerObject.js] of the source tree *)

Definition resetState (f : dframe) : dframe := mk_dframe (df_config f) (df_layer f) None None.

Definition createLayer (cfg : Frame.frame_config) : option dlayer :=
  match Frame.fc_service cfg with
  | Frame.Wmts | Frame.Wms => Some ol_new
  | Frame.NoService => None
  end.

(** [setCssTransition(value)]: [undefined] or [null] is [""]; written on
    the tiles of the div when there is one. *)
Definition setCssTransition (value : option string) (f : dframe) : dframe :=
  match df_layer f with
  | Some l =>
      if dl_div l then with_dlayer f (set_div_style (dl_zIndex l) (Some (default EmptyString value)) l) else f
  | None => f
  end.

(** The frame after [_layer.m(...)], and whether it threw. *)
Definition on_layer (f : dframe) (r : dlayer * bool) : dframe * bool := (with_dlayer f r.1, r.2).

(** [loadLayer], on a map whose [events] are [live] and which gives the
    z-index [z]: the state is set to PRE_LOADING before [addLayer] runs. *)
Definition src_loadLayer (live : bool) (z : Z) (f : dframe) : dframe * bool :=
  let layer := match df_layer f with Some l => Some l | None => createLayer (df_config f) end in
  match layer with
  | None => (f, false)
  | Some l =>
      let '(l1, st1, e1) := if dl_map l then (l, df_state f, false)
                            else let '(l', e) := ol_addLayer live z l in (l', Some Frame.PreLoading, e) in
      let f1 := mk_dframe (df_config f) (Some l1) st1 (df_error f) in
      if e1 then (f1, true)
      else if dl_visible l1 then (f1, false)
      else on_layer (mk_dframe (df_config f) (Some l1) (Some Frame.PreLoading) (df_error f)) (ol_setVisibility true l1)
  end.

(** [releaseContent]: [map.removeLayer] when [_layer.map] is set. *)
Definition src_releaseContent (f : dframe) : dframe * bool :=
  (mk_dframe (df_config f) None None None, false).

Definition src_setVisibility (v : bool) (f : dframe) : dframe * bool :=
  match df_layer f with
  | None => (f, false)
  | Some l => on_layer (if v then f else resetState f) (ol_setVisibility v l)
  end.

(** [index !== undefined && index !== null && !isNaN(index) && _layer]. *)
Definition zindex_ok (index : jsval) : bool := is_defined index && negb (isNaN index).

Definition src_setZIndex (index : jsval) (f : dframe) : dframe * bool :=
  match df_layer f with
  | Some l => if zindex_ok index then on_layer f (ol_setZIndex index l) else (f, false)
  | None => (f, false)
  end.

Definition src_setOpacity (o : R) (f : dframe) : dframe * bool :=
  match df_layer f with
  | None => (f, false)
  | Some l => on_layer f (ol_setOpacity o l)
  end.

Definition getVisibility (f : dframe) : option bool := dl_visible <$> df_layer f.

(** [None] for the [TypeError], [Some None] for [undefined]. *)
Definition getZIndex (f : dframe) : option (option (option jsval)) :=
  match df_layer f with
  | Some l => Some <$> ol_getZIndex l
  | None => Some None
  end.

Definition getOpacity (f : dframe) : option R := dl_opacity <$> df_layer f.

(** The event handlers; the boolean tells whether the observer is called. *)
Definition src_on_loadstart (f : dframe) : dframe * bool :=
  (setCssTransition (Some "opacity 0"%string) (mk_dframe (df_config f) (df_layer f) (Some Frame.Loading) None), true).

Definition src_on_loadend (f : dframe) : dframe * bool :=
  match df_state f with
  | Some _ => (mk_dframe (df_config f) (df_layer f) (Some Frame.Ready) (df_error f), true)
  | None => (f, false)
  end.

Definition on_tileerror (f : dframe) : dframe :=
  mk_dframe (df_config f) (df_layer f) (df_state f) (Some "tileerror"%string).

(** The public methods and the events, on a map whose [events] are [live]. *)
Inductive dop :=
| DLoad (z : Z)
| DRelease
| DVisibility (v : bool)
| DOpacity (o : R)
| DZIndex (index : jsval)
| DCss (value : option string)
| DLoadStart
| DLoadEnd
| DTileError.

Definition src_op (live : bool) (op : dop) (f : dframe) : dframe * bool :=
  match op with
  | DLoad z => src_loadLayer live z f
  | DRelease => src_releaseContent f
  | DVisibility v => src_setVisibility v f
  | DOpacity o => src_setOpacity o f
  | DZIndex i => src_setZIndex i f
  | DCss v => (setCssTransition v f, false)
  | DLoadStart => ((src_on_loadstart f).1, false)
  | DLoadEnd => ((src_on_loadend f).1, false)
  | DTileError => (on_tileerror f, false)
  end.

(** The same operation in [Frame]. *)
Definition frame_op (op : dop) (f : Frame.frame) : Frame.frame :=
  match op with
  | DLoad _ => Frame.loadLayer f
  | DRelease => Frame.releaseContent f
  | DVisibility v => Frame.setVisibility v f
  | DOpacity o => Frame.setOpacity o f
  | DZIndex _ | DCss _ => f
  | DLoadStart => (Frame.on_loadstart f).1
  | DLoadEnd => (Frame.on_loadend f).1
  | DTileError => Frame.on_tileerror f
  end.

(** The layer, if any, still has its div: true until the map is destroyed. *)
Definition alive (f : dframe) : Prop :=
  match df_layer f with Some l => dl_div l = true | None => True end.

(** The map has been destroyed with the frame's layer. *)
Definition destroyed (f : dframe) : Prop :=
  match df_layer f with Some l => dl_map l = false /\ dl_div l = false | None => True end.

(** ** The source frame refines [Frame] *)

Ltac dom_unfold :=
  unfold src_op, frame_op, src_loadLayer, src_releaseContent, src_setVisibility, src_setOpacity,
    src_setZIndex, src_on_loadstart, src_on_loadend, on_tileerror, setCssTransition, on_layer,
    ol_addLayer, ol_setVisibility, ol_setOpacity, ol_setZIndex, createLayer, resetState,
    with_dlayer, set_div_style, abs, alive, destroyed, Frame.loadLayer, Frame.createLayer,
    Frame.releaseContent, Frame.setVisibility, Frame.setOpacity, Frame.resetState,
    Frame.with_layer, Frame.on_loadstart, Frame.on_loadend, Frame.on_tileerror.

Ltac dom_cases :=
  repeat (simpl in *; match goal with
  | |- context [Req_EM_T ?a ?b] => destruct (Req_EM_T a b)
  | |- context [zindex_ok ?i] => destruct (zindex_ok i)
  | |- context [if ?b then _ else _] => is_var b; destruct b
  | H : _ = _ |- _ => progress subst
  end); try done.


(** C33 (finding): the source's [loadLayer] has no guard for a destroyed
    map: on a frame whose layer was destroyed with the map it sets the
    state to PRE_LOADING and then throws a [TypeError] in [map.addLayer],
    leaving a frame that counts as loading for ever; and [setOpacity] with
    a new value throws a [TypeError] writing the destroyed div. *)
Theorem src_loadLayer_destroyed_throws f l z o :
  df_layer f = Some l -> destroyed f ->
  src_loadLayer false z f = (mk_dframe (df_config f) (Some l) (Some Frame.PreLoading) (df_error f), true) /\
  Frame.isLoading (abs (src_loadLayer false z f).1) = true /\
  (o <> dl_opacity l -> (src_setOpacity o f).2 = true).
Proof.
  intros Hl Hd. unfold destroyed in Hd. rewrite Hl in Hd. destruct Hd as [Hm Hdv].
  unfold src_loadLayer, src_setOpacity, on_layer, ol_setOpacity, ol_addLayer. rewrite Hl, Hm, Hdv.
  split; [done|]. split; [done|]. intros Ho. simpl. by destruct (Req_EM_T o (dl_opacity l)).
Qed.

(** ** Witnesses *)

Definition demo_frame : dframe := mk_dframe (Frame.mk_config 0 Frame.Wms) None None None.


(** A frame loaded on a live map, after [map.destroy()]. *)
Definition demo_destroyed : dframe := destroy_map (src_loadLayer true 5 demo_frame).1.

Definition demo_destroyed_layer : dlayer := mk_dlayer false false true 1%R (Some (JNum (Fin (inject_Z 5)))) None.

Lemma src_loadLayer_destroyed_throws_witness :
  src_loadLayer false 7 demo_destroyed =
    (mk_dframe (df_config demo_destroyed) (Some demo_destroyed_layer) (Some Frame.PreLoading) (df_error demo_destroyed), true) /\
  Frame.isLoading (abs (src_loadLayer false 7 demo_destroyed).1) = true /\
  (0%R <> dl_opacity demo_destroyed_layer -> (src_setOpacity 0%R demo_destroyed).2 = true).
Proof. apply src_loadLayer_destroyed_throws; [reflexivity | split; reflexivity]. Defined.

End Dom.

(** ** The 1.0.4 release *)

Module Release.
Import Dom.

(** [loadLayer]: nothing once the map is destroyed ([map.events] is
    null); the layer is added and made visible only while it has its div. *)
Definition rel_loadLayer (live : bool) (z : Z) (f : dframe) : dframe * bool :=
  if negb live then (f, false) else
  let layer := match df_layer f with Some l => Some l | None => createLayer (df_config f) end in
  match layer with
  | None => (f, false)
  | Some l =>
      if negb (dl_div l) then (with_dlayer f l, false) else
      let '(l1, st1, e1) := if dl_map l then (l, df_state f, false)
                            else let '(l', e) := ol_addLayer live z l in (l', Some Frame.PreLoading, e) in
      let f1 := mk_dframe (df_config f) (Some l1) st1 (df_error f) in
      if e1 then (f1, true)
      else if dl_visible l1 then (f1, false)
      else if dl_map l1
           then on_layer (mk_dframe (df_config f) (Some l1) (Some Frame.PreLoading) (df_error f)) (ol_setVisibility true l1)
           else (mk_dframe (df_config f) (Some l1) (Some Frame.PreLoading) (df_error f), false)
  end.

(** [releaseContent]: [removeLayer] only when [layerMap.events] exists;
    the frame forgets the layer either way. *)
Definition rel_releaseContent (live : bool) (f : dframe) : dframe * bool :=
  (mk_dframe (df_config f) None None None, false).

(** [setVisibility]: the state is reset on hiding; the layer is told only
    while it is in a map. *)
Definition rel_setVisibility (v : bool) (f : dframe) : dframe * bool :=
  match df_layer f with
  | None => (f, false)
  | Some l =>
      let f' := if v then f else resetState f in
      if dl_map l then on_layer f' (ol_setVisibility v l) else (f', false)
  end.

Definition rel_setZIndex (index : jsval) (f : dframe) : dframe * bool :=
  match df_layer f with
  | Some l => if zindex_ok index && dl_map l then on_layer f (ol_setZIndex index l) else (f, false)
  | None => (f, false)
  end.

Definition rel_setOpacity (o : R) (f : dframe) : dframe * bool :=
  match df_layer f with
  | Some l => if dl_map l then on_layer f (ol_setOpacity o l) else (f, false)
  | None => (f, false)
  end.

(** [setCssTransition(value)]: the tiles are found with
    [div.querySelectorAll(".olTileImage")], the same elements. *)
Definition rel_setCssTransition (value : option string) (f : dframe) : dframe :=
  match df_layer f with
  | Some l =>
      if dl_div l then with_dlayer f (set_div_style (dl_zIndex l) (Some (default EmptyString value)) l) else f
  | None => f
  end.

(** [loadstart] no longer touches the tiles; [loadend] sets their
    transition to ["opacity 0s"]. *)
Definition rel_on_loadstart (f : dframe) : dframe * bool :=
  (mk_dframe (df_config f) (df_layer f) (Some Frame.Loading) None, true).

Definition rel_on_loadend (f : dframe) : dframe * bool :=
  match df_state f with
  | Some _ => (rel_setCssTransition (Some "opacity 0s"%string) (mk_dframe (df_config f) (df_layer f) (Some Frame.Ready) (df_error f)), true)
  | None => (f, false)
  end.

Definition rel_op (live : bool) (op : dop) (f : dframe) : dframe * bool :=
  match op with
  | DLoad z => rel_loadLayer live z f
  | DRelease => rel_releaseContent live f
  | DVisibility v => rel_setVisibility v f
  | DOpacity o => rel_setOpacity o f
  | DZIndex i => rel_setZIndex i f
  | DCss v => (rel_setCssTransition v f, false)
  | DLoadStart => ((rel_on_loadstart f).1, false)
  | DLoadEnd => ((rel_on_loadend f).1, false)
  | DTileError => (on_tileerror f, false)
  end.

(** On a live map a frame's layer is in the map with its div. *)
Definition live_ok (f : dframe) : Prop :=
  match df_layer f with Some l => dl_map l = true /\ dl_div l = true | None => True end.

(** The frame without the tile transition, the one place where the two
    versions differ on a live map. *)
Definition strip (f : dframe) : dframe :=
  mk_dframe (df_config f) ((fun l => set_div_style (dl_zIndex l) None l) <$> df_layer f) (df_state f) (df_error f).

Ltac rel_unfold :=
  unfold rel_op, rel_loadLayer, rel_releaseContent, rel_setVisibility, rel_setOpacity, rel_setZIndex,
    rel_on_loadstart, rel_on_loadend, rel_setCssTransition, strip, live_ok; dom_unfold.

(** C34 (equivalence): on a live map, from a frame whose layer (if any) is
    in the map with its div, the release's [LayerObject] and the source's
    agree on every method and event: the same frame up to the tile
    transition style, the same exception; and the release keeps the layer
    in the map with its div. *)
Theorem rel_agrees_src_live op f :
  live_ok f ->
  strip (rel_op true op f).1 = strip (src_op true op f).1 /\ (rel_op true op f).2 = (src_op true op f).2 /\
  live_ok (rel_op true op f).1.
Proof.
  destruct f as [[tm []] [[m d v o z t]|] st err]; intros Ha; unfold live_ok in Ha; simpl in Ha;
    [destruct Ha as [-> ->]..|]; destruct op; rel_unfold; dom_cases.
Qed.

(** C35 (safety): once the map is destroyed with the frame's layer, no
    method or event of the release's [LayerObject] throws, and the layer
    stays destroyed: the guards on [map.events], [_layer.div] and
    [_layer.map] keep every OpenLayers call away from the destroyed
    objects. *)
Theorem rel_destroyed_safe op f :
  destroyed f -> (rel_op false op f).2 = false /\ destroyed (rel_op false op f).1.
Proof.
  destruct f as [[tm []] [[m d v o z t]|] st err]; intros Ha; unfold destroyed in Ha; simpl in Ha;
    [destruct Ha as [-> ->]..|]; destruct op; rel_unfold; dom_cases.
Qed.

(** ** Witnesses *)

Lemma rel_agrees_src_live_witness :
  live_ok demo_frame /\
  (strip (rel_op true (DLoad 5) demo_frame).1 = strip (src_op true (DLoad 5) demo_frame).1 /\
   (rel_op true (DLoad 5) demo_frame).2 = (src_op true (DLoad 5) demo_frame).2 /\
   live_ok (rel_op true (DLoad 5) demo_frame).1).
Proof. split; [exact I|]. apply rel_agrees_src_live. exact I. Defined.

Lemma rel_destroyed_safe_witness :
  destroyed demo_destroyed /\
  ((rel_op false (DOpacity 0%R) demo_destroyed).2 = false /\ destroyed (rel_op false (DOpacity 0%R) demo_destroyed).1).
Proof.
  assert (H : destroyed demo_destroyed) by (split; reflexivity).
  split; [exact H|]. apply rel_destroyed_safe. exact H.
Defined.

End Release.

(** ** The release's animation layer *)

Module RelLayer.
Import Layer.

Section RelLayer.
Context {Ct : Type} `{CI : ContainerIface Ct}.

(** The bodies of the pending callbacks: the controller callbacks as in
    the source; [added] only calls [_layerContainer.setMap]. *)
Definition rel_run_task (now : Z) (t : task) (ls : lstate Ct) : lstate Ct * list output :=
  match t with
  | TTrigger name objs => (ls, if ly_events ls then [OEvent name objs] else [])
  | _ => (calls now (task_calls t (ly_map ls)) ls, [])
  end.

Definition rel_timeout (now : Z) (ls : lstate Ct) : lstate Ct * list output :=
  match ly_tasks ls with
  | [] => (ls, [])
  | t :: rest => rel_run_task now t (set_tasks rest ls)
  end.

(** The public API of the release: the same methods but [setZIndex],
    which is [OpenLayers.Layer]'s own and only sets the layer's z-index. *)
Definition rel_lstep (now : Z) (inp : linput) (ls : lstate Ct) : lstate Ct * list output :=
  match inp with
  | LSetZIndex i => (set_zIndex (Some i) ls, [])
  | LTimeout => rel_timeout now ls
  | _ => lstep now inp ls
  end.

Definition rel_lreachable (ls : lstate Ct) : Prop :=
  rtc (fun a b => exists now inp, b = (rel_lstep now inp a).1) Layer.initial ls.

(** The release and the source layer go through the same states; they
    differ only in the exceptions. *)
Lemma rel_lstep_state now inp ls : (rel_lstep now inp ls).1 = (lstep now inp ls).1.
Proof.
  destruct inp; try reflexivity. simpl. unfold rel_timeout, timeout.
  destruct (ly_tasks ls) as [|[] rest]; reflexivity.
Qed.

Lemma rel_lreachable_lreachable ls : rel_lreachable ls -> lreachable ls.
Proof.
  unfold rel_lreachable, lreachable. induction 1 as [|a b c (now & inp & ->) _ IH]; [done|].
  econstructor; [|exact IH]. exists now, inp. by rewrite rel_lstep_state.
Qed.

Lemma rel_added_timeout now now' m ls :
  ly_events ls = true -> ly_tasks ls = [] ->
  rel_lstep now' LTimeout (rel_lstep now (LAddToMap m) ls).1 =
  (call now' (Container.ISetMap (Some m)) (set_map (Some m) ls), []).
Proof.
  intros Hev E. simpl. unfold addToMap. rewrite Hev. unfold rel_timeout, enqueue, set_tasks. simpl.
  rewrite E. destruct ls; simpl in *. by subst.
Qed.

Lemma rel_lstep_no_uncaught now inp ls e : ~ In (OUncaught e) (rel_lstep now inp ls).2.
Proof.
  destruct inp; simpl; unfold registerController, unregisterController, rel_timeout, rel_run_task;
    repeat case_match; simpl; intros Hin; repeat destruct Hin as [Hin|Hin]; done.
Qed.


(** Invariant: every state the release's layer reaches keeps its
    container's invariant, as the source's does. *)
Theorem release_layer_container_wf ls : rel_lreachable ls -> ci_wf (ly_container ls).
Proof. intros Hr. apply lreachable_wf, rel_lreachable_lreachable, Hr. Qed.

End RelLayer.
(** ** Witnesses *)


Lemma release_layer_container_wf_witness :
  Container.container_wf (ly_container (rel_lstep 0 (LSetZIndex 4) (Layer.initial (Ct := Container.state))).1).
Proof.
  apply (release_layer_container_wf (CI := container_iface)). eapply rtc_l; [exists 0%Z, (LSetZIndex 4); reflexivity | apply rtc_refl].
Defined.

End RelLayer.
